(** * DocuRAG: the request handlers and their heuristics, embedded and verified

    The development follows the TypeScript sources of the web tier:
    - [getConfidenceLevel], [isAllowedFileType]  (the utilities module,
      imported as [@/lib/utils]),
    - [detectPotentialHallucination]             ([lib/llm.ts]),
    - [checkRateLimit] and the two limiters      ([lib/rate-limit.ts]),
    - [MAX_FILE_SIZE], [ALLOWED_FILE_TYPES]      ([config/constants.ts]),
    - the tables                                 (the schema module, [@/db/schema]),
    - the query route and the upload route       ([POST], [POST]),
    - the documents route                        ([GET], [DELETE]),
    - the processing webhook                     ([POST], in its two versions).

    Conventions of the embedding.
    - A JavaScript [number] that holds a similarity score is a binary64
      float ([PrimFloat.float]); sizes, counts, HTTP statuses and
      timestamps are integers ([Z]).
    - A JavaScript string is a [string] of code units below 256 (the
      Latin-1 range); on that range case mapping, white space and the
      character classes of the patterns are those of JavaScript.
    - The relational database is a record of tables, each a list of rows in
      insertion order; it is part of the state a handler threads through.
      A statement fails on a text that is compared with a [uuid] column
      and is not in the input syntax of that type, on a number of the
      request that is written to an [integer] column and lies outside
      32 bits, and on a [LIMIT] or [OFFSET] out of range; otherwise the
      statements succeed.  The order of rows with one creation time
      under [ORDER BY created_at] is left to the database.
    - Every other collaborator (identity provider, rate-limit cache,
      embedding and generation APIs, vector store, object store, worker,
      clock) is a field of the environment [Env]: a call either returns a
      value or throws.  Each attempted call is appended to a trace.
    - An [async] handler is a function from the state before the request to
      its outcome (a response, or an exception) and the state after. *)

From Stdlib Require Import List String Ascii ZArith Bool Arith Lia Floats DecimalString.
From Stdlib Require Import QArith.
Import ListNotations.
Set Warnings "-inexact-float,-register-all".
Local Open Scope string_scope.

(* ================================================================== *)
(** ** JavaScript strings *)
(* ================================================================== *)

Module JS.
Local Open Scope nat_scope.

Definition code (c : ascii) : nat := nat_of_ascii c.

(** The classes [0-9], [A-Z] and [a-z]. *)
Definition isDigit (c : ascii) : bool := (48 <=? code c) && (code c <=? 57).
Definition isUpper (c : ascii) : bool := (65 <=? code c) && (code c <=? 90).
Definition isLower (c : ascii) : bool := (97 <=? code c) && (code c <=? 122).

(** The capital letters of the Latin-1 range: A to Z, and U+00C0 to
    U+00DE without the multiplication sign U+00D7. *)
Definition isCapital (c : ascii) : bool :=
  isUpper c
  || ((192 <=? code c) && (code c <=? 222) && negb (code c =? 215)).

(** The small letters of the range whose capital is in the range too:
    a to z, and U+00E0 to U+00FE without the division sign U+00F7.  (The
    capitals of U+00B5 and U+00FF lie above the range, the one of U+00DF
    is two letters.) *)
Definition isSmall (c : ascii) : bool :=
  isLower c
  || ((224 <=? code c) && (code c <=? 254) && negb (code c =? 247)).

(** [toLowerCase] on one code unit. *)
Definition lowerChar (c : ascii) : ascii :=
  if isCapital c then ascii_of_nat (code c + 32) else c.

(** [toUpperCase] on one code unit, where the result is one code unit of
    the range; elsewhere the code unit itself. *)
Definition upperChar (c : ascii) : ascii :=
  if isSmall c then ascii_of_nat (code c - 32) else c.

Fixpoint mapChars (f : ascii -> ascii) (s : string) : string :=
  match s with
  | EmptyString => EmptyString
  | String c s' => String (f c) (mapChars f s')
  end.

(** [s.toLowerCase()] *)
Definition toLowerCase (s : string) : string := mapChars lowerChar s.

(** [prefix.length] characters of [s] are [prefix] *)
Fixpoint startsWith (s prefix : string) : bool :=
  match prefix, s with
  | EmptyString, _ => true
  | String p prefix', String c s' => Ascii.eqb p c && startsWith s' prefix'
  | String _ _, EmptyString => false
  end.

(** [s.includes(needle)] *)
Fixpoint includes (s needle : string) : bool :=
  if startsWith s needle then true
  else match s with
       | EmptyString => false
       | String _ s' => includes s' needle
       end.

(** [parts.join(sep)] *)
Fixpoint join (sep : string) (parts : list string) : string :=
  match parts with
  | [] => ""
  | [p] => p
  | p :: rest => p ++ sep ++ join sep rest
  end.

(** [s.split(' ')] for a one-character separator: never the empty list. *)
Fixpoint split (sep : ascii) (s : string) : list string :=
  match s with
  | EmptyString => [""]
  | String c s' =>
      if Ascii.eqb c sep then "" :: split sep s'
      else match split sep s' with
           | w :: ws => String c w :: ws
           | [] => [String c ""]
           end
  end.

(** [s.substring(0, n)] *)
Fixpoint take (n : nat) (s : string) : string :=
  match n, s with
  | S n', String c s' => String c (take n' s')
  | _, _ => ""
  end.

Fixpoint drop (n : nat) (s : string) : string :=
  match n, s with
  | S n', String _ s' => drop n' s'
  | _, _ => s
  end.

(** White space and line terminators, as [String.prototype.trim],
    [parseInt] and the class [\s] take them, among the code units below
    256: TAB, LF, VT, FF, CR, SPACE and NO-BREAK SPACE (U+00A0). *)
Definition isSpace (c : ascii) : bool :=
  ((9 <=? code c) && (code c <=? 13)) || (code c =? 32) || (code c =? 160).

Fixpoint trimStart (s : string) : string :=
  match s with
  | String c s' => if isSpace c then trimStart s' else s
  | EmptyString => EmptyString
  end.

Fixpoint trimEnd (s : string) : string :=
  match s with
  | EmptyString => EmptyString
  | String c s' =>
      match trimEnd s' with
      | EmptyString => if isSpace c then EmptyString else String c EmptyString
      | t => String c t
      end
  end.

(** [s.trim()] *)
Definition trim (s : string) : string := trimEnd (trimStart s).

(** Truthiness of a string value: only the empty string is falsy. *)
Definition truthy (s : string) : bool := negb (String.eqb s "").

(** Truthiness of a possibly [null]/[undefined] string. *)
Definition truthy_opt (o : option string) : bool :=
  match o with Some s => truthy s | None => false end.

(** [xs.includes(x)] on an array of strings *)
Definition arrayIncludes (xs : list string) (x : string) : bool :=
  existsb (String.eqb x) xs.

End JS.

(* ================================================================== *)
(** ** Regular expressions, as the backtracking matcher runs them *)
(* ================================================================== *)

Module Regex.
Import JS.
Local Open Scope nat_scope.

(** The fragment of the pattern syntax that [lib/llm.ts] uses.  Literals
    are compared under the [i] flag. *)
Inductive regex : Type :=
| Eps                         (* the empty pattern *)
| Digit                       (* \d *)
| Lit (c : ascii)             (* one literal character *)
| Seq (r1 r2 : regex)         (* r1 r2 *)
| Alt (r1 r2 : regex)         (* r1 | r2 *)
| Opt (r : regex)             (* r ?, greedy *)
| Plus (r : regex).           (* r +, greedy *)

(** A literal word, character by character. *)
Fixpoint Word (w : string) : regex :=
  match w with
  | EmptyString => Eps
  | String c w' => Seq (Lit c) (Word w')
  end.

(** Canonicalisation of a character under the [i] flag (without the [u]
    flag): its upper-case form when that is one code unit.  A code unit
    whose upper-case form lies above the range stays as it is here; it
    equals no canonical form of a code unit of the range either way. *)
Definition canonicalize (c : ascii) : ascii := upperChar c.

(** Greedy iteration of one matching step, at most [n] more times after the
    first: for each remainder of a step, first the results of going on,
    then the remainder itself. *)
Fixpoint iterate (step : string -> list string) (n : nat) (s0 : string)
  : list string :=
  flat_map
    (fun s1 =>
       (match n with
        | O => []
        | S n' => iterate step n' s1
        end ++ [s1])%list)
    (step s0).

(** [rmatch r s] lists the remainders of [s] after each way [r] can match
    a prefix of it, in the order the backtracking matcher tries them:
    greedy quantifiers first try to match, alternatives are tried from
    left to right. *)
Fixpoint rmatch (r : regex) (s : string) : list string :=
  match r with
  | Eps => [s]
  | Digit =>
      match s with
      | String c s' => if isDigit c then [s'] else []
      | EmptyString => []
      end
  | Lit a =>
      match s with
      | String c s' =>
          if Ascii.eqb (canonicalize c) (canonicalize a) then [s'] else []
      | EmptyString => []
      end
  | Seq r1 r2 => flat_map (rmatch r2) (rmatch r1 s)
  | Alt r1 r2 => (rmatch r1 s ++ rmatch r2 s)%list
  | Opt r1 => (rmatch r1 s ++ [s])%list
  | Plus r1 => iterate (rmatch r1) (String.length s) s
  end.

(** The match that starts at the first character of [s], if any: the
    matched text. *)
Definition match_here (r : regex) (s : string) : option string :=
  match rmatch r s with
  | rest :: _ => Some (take (String.length s - String.length rest) s)
  | [] => None
  end.

(** [s.match(r)] under the [g] flag: every match, from left to right, the
    search resuming where the previous match ended (one character further
    after an empty match).  [skip] counts the characters of the current
    match that are still to be passed over. *)
Fixpoint scan (r : regex) (skip : nat) (s : string) : list string :=
  match skip with
  | S k =>
      match s with
      | EmptyString => []
      | String _ s' => scan r k s'
      end
  | O =>
      match match_here r s with
      | Some m =>
          m :: match s with
               | EmptyString => []
               | String _ s' => scan r (String.length m - 1) s'
               end
      | None =>
          match s with
          | EmptyString => []
          | String _ s' => scan r 0 s'
          end
      end
  end.

(** [s.match(r) || []] *)
Definition matchAll (r : regex) (s : string) : list string := scan r 0 s.

End Regex.

(* ================================================================== *)
(** ** lib/llm.ts: the hallucination heuristic *)
(* ================================================================== *)

Module LLM.
Import JS Regex.

(** /\d+(\.\d+)?(%|percent|million|billion|thousand)?/gi *)
Definition numberPattern : regex :=
  Seq (Plus Digit)
    (Seq (Opt (Seq (Lit "."%char) (Plus Digit)))
         (Opt (Alt (Lit "%"%char)
              (Alt (Word "percent")
              (Alt (Word "million")
              (Alt (Word "billion")
                   (Word "thousand"))))))).

Definition strongAssertions : list string :=
  ["always"; "never"; "exactly"; "precisely"; "definitely"].

(** A [for (const x of xs) { if (p x) return true; }] loop: [true] when it
    returns from inside, [false] when it runs to its end. *)
Fixpoint returnsTrueIn {A : Type} (p : A -> bool) (xs : list A) : bool :=
  match xs with
  | [] => false
  | x :: xs' => if p x then true else returnsTrueIn p xs'
  end.

Record ContextText : Type := { content : string }.

Definition contextTextOf (contexts : list ContextText) : string :=
  join " " (map (fun c => toLowerCase (content c)) contexts).

Definition numbersOf (answer : string) : list string :=
  matchAll numberPattern answer.

Definition detectPotentialHallucination
    (answer : string) (contexts : list ContextText) : bool :=
  let answerLower := toLowerCase answer in
  let contextText := contextTextOf contexts in
  let numbers := numbersOf answer in
  if returnsTrueIn
       (fun num => negb (includes contextText (toLowerCase num))) numbers
  then true
  else if returnsTrueIn
            (fun assertion =>
               includes answerLower assertion
               && negb (includes contextText assertion))
            strongAssertions
  then true
  else false.

End LLM.

(* ================================================================== *)
(** ** The utilities module and config/constants.ts *)
(* ================================================================== *)

Module Utils.
Import JS.

Inductive Confidence : Type := High | Medium | Low.

Definition confidenceText (c : Confidence) : string :=
  match c with High => "High" | Medium => "Medium" | Low => "Low" end.

(** [x >= y] on numbers: false as soon as one of them is NaN. *)
Definition geb (x y : float) : bool := PrimFloat.leb y x.

Definition getConfidenceLevel (score : float) : Confidence :=
  if geb score 0.85%float then High
  else if geb score 0.7%float then Medium
  else Low.

Definition isAllowedFileType (mimeType : string) : bool :=
  arrayIncludes
    ["application/pdf";
     "text/plain";
     "text/markdown";
     "application/msword";
     "application/vnd.openxmlformats-officedocument.wordprocessingml.document"]
    mimeType.

End Utils.

Module Constants.

Definition MAX_FILE_SIZE : Z := 50 * 1024 * 1024.

Definition ALLOWED_FILE_TYPES : list string :=
  ["application/pdf";
   "text/plain";
   "text/markdown";
   "application/msword";
   "application/vnd.openxmlformats-officedocument.wordprocessingml.document"].

Definition TOP_K : Z := 10.
Definition SIMILARITY_THRESHOLD : float := 0.7%float.

End Constants.

(* ================================================================== *)
(** ** The schema module: the relational tables *)
(* ================================================================== *)

(** What a call or a statement comes to: a value, or an exception with
    its message. *)
Module Outcome.

Inductive outcome (A : Type) : Type :=
| Returns (a : A)
| Throws (message : string).
Arguments Returns {A} a.
Arguments Throws {A} message.

End Outcome.

Module Schema.
Import JS.
Export Outcome.

Record User : Type := {
  user_id : string;                 (* uuid, primary key *)
  clerkId : string;                 (* unique *)
  email : string;
  name : option string;
  imageUrl : option string;
  user_createdAt : Z;
  user_updatedAt : Z
}.

Record Document : Type := {
  doc_id : string;                  (* uuid, primary key *)
  userId : string;                  (* references users.id *)
  fileName : string;
  fileSize : Z;
  mimeType : string;
  storageUrl : string;
  status : string;                  (* 'uploading' | 'processing' | 'ready' | 'failed' *)
  chunkCount : option Z;
  metadata : option string;
  errorMessage : option string;
  createdAt : Z;
  updatedAt : Z
}.

Record Chunk : Type := {
  chunk_id : string;
  documentId : string;              (* references documents.id, on delete cascade *)
  chunk_content : string;
  chunkIndex : Z;
  pageNumber : option Z;
  vectorId : option string;
  chunk_createdAt : Z
}.

Record QuerySource : Type := {
  docId : string;
  chunkId : string;
  score : float;
  page : option Z;
  text : string;
  src_fileName : option string
}.

Record QueryRow : Type := {
  query_id : string;
  q_userId : string;
  query : string;
  answer : option string;
  sources : list QuerySource;
  confidence : Utils.Confidence;
  tokenCount : Z;
  latencyMs : Z;
  documentIds : list string;
  q_createdAt : Z
}.

Record DocumentCollection : Type := {
  dc_id : string;
  dc_documentId : string;           (* references documents.id, on delete cascade *)
  dc_collectionId : string
}.

Record DB : Type := {
  users : list User;
  documents : list Document;
  chunks : list Chunk;
  queries : list QueryRow;
  documentCollections : list DocumentCollection
}.

(** [select().from(users).where(eq(users.clerkId, c)).limit(1)] *)
Definition selectUserByClerkId (d : DB) (c : string) : option User :=
  find (fun u => String.eqb (clerkId u) c) (users d).

(** [insert(users).values(u)] *)
Definition insertUser (d : DB) (u : User) : DB :=
  {| users := users d ++ [u]; documents := documents d; chunks := chunks d;
     queries := queries d; documentCollections := documentCollections d |}.

(** [insert(documents).values(x)] *)
Definition insertDocument (d : DB) (x : Document) : DB :=
  {| users := users d; documents := documents d ++ [x]; chunks := chunks d;
     queries := queries d; documentCollections := documentCollections d |}.

(** [insert(queries).values(q)] *)
Definition insertQuery (d : DB) (q : QueryRow) : DB :=
  {| users := users d; documents := documents d; chunks := chunks d;
     queries := queries d ++ [q]; documentCollections := documentCollections d |}.

(** *** Values of the column types

    A [uuid] column holds its value in the form in which the database
    prints it: 32 lower-case hexadecimal digits grouped 8-4-4-4-12.  A
    text that a statement compares with such a column is read by the
    input routine of the type, which accepts the digits in either case,
    with or without a hyphen after each group of four, and the whole in
    braces or not; any other text makes the statement fail. *)

Definition isHex (c : ascii) : bool :=
  isDigit c
  || ((97 <=? code c)%nat && (code c <=? 102)%nat)
  || ((65 <=? code c)%nat && (code c <=? 70)%nat).

(** [n] groups of four hexadecimal digits, each but the last one
    followed by a hyphen or not: the digits in lower case, and what is
    left of the text. *)
Fixpoint hexGroups (n : nat) (s : string) : option (string * string) :=
  match n with
  | O => Some ("", s)
  | S n' =>
      match s with
      | String a (String b (String c (String e rest))) =>
          if isHex a && isHex b && isHex c && isHex e then
            let rest' := match n', rest with
                         | S _, String "-"%char r => r
                         | _, _ => rest
                         end in
            match hexGroups n' rest' with
            | Some (digits, tail) =>
                Some (String (lowerChar a) (String (lowerChar b)
                        (String (lowerChar c) (String (lowerChar e) digits))),
                      tail)
            | None => None
            end
          else None
      | _ => None
      end
  end.

(** The 32 digits as the database prints them. *)
Definition hyphenated (digits : string) : string :=
  take 8 digits ++ "-" ++ take 4 (drop 8 digits) ++ "-" ++ take 4 (drop 12 digits)
  ++ "-" ++ take 4 (drop 16 digits) ++ "-" ++ drop 20 digits.

(** The value a text denotes as a [uuid], if it denotes one. *)
Definition uuid_in (s : string) : option string :=
  let braces := match s with String "{"%char _ => true | _ => false end in
  let inner := match s with String "{"%char r => r | _ => s end in
  match hexGroups 8 inner with
  | Some (digits, tail) =>
      if String.eqb tail (if braces then "}" else "") then Some (hyphenated digits)
      else None
  | None => None
  end.

Definition invalidUuid : string := "invalid input syntax for type uuid".

(** The values of the list, if every text denotes one. *)
Fixpoint uuids_in (l : list string) : option (list string) :=
  match l with
  | [] => Some []
  | s :: l' =>
      match uuid_in s, uuids_in l' with
      | Some u, Some us => Some (u :: us)
      | _, _ => None
      end
  end.

(** The range of an [integer] column. *)
Definition fitsInteger (n : Z) : bool :=
  ((- 2147483648 <=? n) && (n <=? 2147483647))%Z.

(** [select().from(documents).where(and(eq(documents.id, i),
    eq(documents.userId, u))).limit(1)], for a text [i] and the id [u] of
    a user row *)
Definition selectOwnedDocument (d : DB) (i u : string) : outcome (option Document) :=
  match uuid_in i with
  | Some v =>
      Returns (find (fun x => String.eqb (doc_id x) v && String.eqb (userId x) u)
                    (documents d))
  | None => Throws invalidUuid
  end.

(** The rows left when the document [v] goes; the foreign keys of
    [chunks] and [document_collections] are declared
    [onDelete: 'cascade']. *)
Definition withoutDocument (d : DB) (v : string) : DB :=
  {| users := users d;
     documents := filter (fun x => negb (String.eqb (doc_id x) v)) (documents d);
     chunks := filter (fun c => negb (String.eqb (documentId c) v)) (chunks d);
     queries := queries d;
     documentCollections :=
       filter (fun c => negb (String.eqb (dc_documentId c) v))
              (documentCollections d) |}.

(** [delete(documents).where(eq(documents.id, i))], for a text [i] *)
Definition deleteDocumentRow (d : DB) (i : string) : outcome DB :=
  match uuid_in i with
  | Some v => Returns (withoutDocument d v)
  | None => Throws invalidUuid
  end.

(** The table after the rows of id [v] got the columns [f] sets. *)
Definition withUpdate (d : DB) (v : string) (f : Document -> Document) : DB :=
  {| users := users d;
     documents :=
       map (fun x => if String.eqb (doc_id x) v then f x else x) (documents d);
     chunks := chunks d;
     queries := queries d;
     documentCollections := documentCollections d |}.

(** [update(documents).set(f).where(eq(documents.id, i))], for a text
    [i]; [fits] tells whether the values to set fit their columns. *)
Definition updateDocuments (d : DB) (i : string) (fits : bool)
    (f : Document -> Document) : outcome DB :=
  match uuid_in i with
  | Some v => if fits then Returns (withUpdate d v f)
              else Throws "integer out of range"
  | None => Throws invalidUuid
  end.

(** [orderBy(desc(documents.createdAt))]: newest first.  Of two rows
    with one creation time the database puts either one first; [first x
    y] says that it puts [x] before [y]. *)
Fixpoint insertByCreatedAtDesc (first : Document -> Document -> bool)
    (x : Document) (l : list Document) : list Document :=
  match l with
  | [] => [x]
  | y :: l' =>
      if ((createdAt y <? createdAt x)
          || ((createdAt y =? createdAt x) && first x y))%Z
      then x :: l
      else y :: insertByCreatedAtDesc first x l'
  end.

Definition orderByCreatedAtDesc (first : Document -> Document -> bool)
    (l : list Document) : list Document :=
  fold_right (insertByCreatedAtDesc first) [] l.

(** [select({id, fileName}).from(documents).where(inArray(documents.id, ids))],
    for texts [ids] *)
Definition selectDocumentNames (d : DB) (ids : list string)
  : outcome (list (string * string)) :=
  match uuids_in ids with
  | Some vs =>
      Returns (map (fun x => (doc_id x, fileName x))
                   (filter (fun x => JS.arrayIncludes vs (doc_id x)) (documents d)))
  | None => Throws invalidUuid
  end.

(** The constraints the schema declares on [documents] and [users]. *)
Record Constraints (d : DB) : Prop := {
  documents_pkey : NoDup (map doc_id (documents d));
  users_clerkId_unique : NoDup (map clerkId (users d))
}.

End Schema.

(* ================================================================== *)
(** ** The handler monad: database state, call trace, exceptions *)
(* ================================================================== *)

Module Handler.
Import Schema.

Inductive OpType : Type := OpUpload | OpQuery.

(** The calls a handler makes outside the relational database. *)
Inductive Event : Type :=
| RateLimitCall (type : OpType) (userId : string)
| IdentityLookup
| EmbeddingCall (input : string)
| VectorSearch (userId : string) (documentIds : option (list string))
| Generation (query : string)
| StorageWrite (fileName userId : string)
| StorageDelete (storageUrl : string)
| VectorDelete (userId documentId : string)
| WorkerNotify (document_id storage_url user_id : string)
| ConsoleError (message : string)
| ConsoleWarn (message : string).

Export Outcome.

Record World : Type := { db : DB; trace : list Event }.

Definition M (A : Type) : Type := World -> outcome A * World.

Definition ret {A} (a : A) : M A := fun w => (Returns a, w).

Definition bind {A B} (m : M A) (k : A -> M B) : M B :=
  fun w =>
    match m w with
    | (Returns a, w') => k a w'
    | (Throws e, w') => (Throws e, w')
    end.

Definition throw {A} (e : string) : M A := fun w => (Throws e, w).

(** A statement of the database, or any other step, that has an outcome
    and leaves the state as it is. *)
Definition attempt {A} (o : outcome A) : M A := fun w => (o, w).

(** [try { m } catch (error) { h error }]: what [m] did before it threw
    stays done. *)
Definition tryCatch {A} (m : M A) (h : string -> M A) : M A :=
  fun w =>
    match m w with
    | (Returns a, w') => (Returns a, w')
    | (Throws e, w') => h e w'
    end.

Definition getDb : M DB := fun w => (Returns (db w), w).

Definition setDb (d : DB) : M unit :=
  fun w => (Returns tt, {| db := d; trace := trace w |}).

Definition emit (e : Event) : M unit :=
  fun w => (Returns tt, {| db := db w; trace := trace w ++ [e] |}).

(** A call to a collaborator: recorded, then its outcome. *)
Definition call {A} (e : Event) (o : outcome A) : M A :=
  fun w => (o, {| db := db w; trace := trace w ++ [e] |}).

End Handler.

Declare Scope handler_scope.
Delimit Scope handler_scope with handler.
Notation "x <- c1 ;; c2" := (Handler.bind c1 (fun x => c2))
  (at level 61, c1 at next level, right associativity) : handler_scope.
Notation "c1 ;; c2" := (Handler.bind c1 (fun _ => c2))
  (at level 61, right associativity) : handler_scope.

(* ================================================================== *)
(** ** HTTP responses *)
(* ================================================================== *)

Module Http.

Inductive Json : Type :=
| JNull
| JBool (b : bool)
| JNum (n : Z)
| JStr (s : string)
| JArr (items : list Json)
| JObj (fields : list (string * Json)).

(** A [ReadableStream]: what its controller has enqueued so far, and
    whether it has been closed. *)
Record Controller : Type := { enqueued : list string; closed : bool }.

Inductive Body : Type :=
| TextBody (s : string)
| JsonBody (j : Json)
| StreamBody (stream : Controller).

Record Response : Type := {
  status : Z;
  headers : list (string * string);
  body : Body
}.

(** [NextResponse.json(obj, { status })]; a property whose value is
    [undefined] is not serialised. *)
Definition defined (fields : list (string * option Json)) : list (string * Json) :=
  flat_map (fun kv => match snd kv with
                      | Some v => [(fst kv, v)]
                      | None => []
                      end) fields.

Definition json (st : Z) (fields : list (string * option Json)) : Response :=
  {| status := st;
     headers := [("Content-Type", "application/json")];
     body := JsonBody (JObj (defined fields)) |}.

Definition str (s : string) : option Json := Some (JStr s).
Definition num (n : Z) : option Json := Some (JNum n).
Definition optNum (n : option Z) : option Json := option_map JNum n.
(** A number that may be NaN is serialised as [null]. *)
Definition nanNum (n : option Z) : option Json :=
  Some match n with Some z => JNum z | None => JNull end.
Definition optStr (s : option string) : option Json :=
  Some match s with Some x => JStr x | None => JNull end.

Fixpoint lookup (k : string) (fields : list (string * Json)) : option Json :=
  match fields with
  | [] => None
  | (k', v) :: rest => if String.eqb k k' then Some v else lookup k rest
  end.

(** The property [k] of a JSON response body. *)
Definition bodyField (r : Response) (k : string) : option Json :=
  match body r with
  | JsonBody (JObj fields) => lookup k fields
  | _ => None
  end.

(** [new Response(text, { status })] *)
Definition plainText (st : Z) (s : string) : Response :=
  {| status := st; headers := []; body := TextBody s |}.

Definition enqueue (chunk : string) (c : Controller) : Controller :=
  {| enqueued := enqueued c ++ [chunk]; closed := closed c |}.

Definition close (c : Controller) : Controller :=
  {| enqueued := enqueued c; closed := true |}.

(** One firing of the [setInterval] callback of the query route.  The
    state is the callback's [index] and the controller; the interval is
    cleared when the stream is closed. *)
Definition tick (words : list string) (sourcesLine confidenceLine : string)
    (st : nat * Controller) : nat * Controller :=
  let (index, c) := st in
  if (index <? List.length words)%nat then
    (S index, enqueue (nth index words "" ++ " ") c)
  else
    (index, close (enqueue confidenceLine (enqueue sourcesLine c))).

(** The timer fires until the interval is cleared. *)
Fixpoint fire (fuel : nat) (words : list string)
    (sourcesLine confidenceLine : string) (st : nat * Controller)
  : nat * Controller :=
  match fuel with
  | O => st
  | S fuel' =>
      if closed (snd st) then st
      else fire fuel' words sourcesLine confidenceLine
             (tick words sourcesLine confidenceLine st)
  end.

(** The stream of the query route after [words.length + 1] firings of the
    timer, which is when the callback closes it. *)
Definition streamOf (answer sourcesLine confidenceLine : string) : Controller :=
  let words := JS.split " "%char answer in
  snd (fire (S (List.length words)) words sourcesLine confidenceLine
         (0%nat, {| enqueued := []; closed := false |})).

Definition eventStream (stream : Controller) : Response :=
  {| status := 200;
     headers := [("Content-Type", "text/event-stream");
                 ("Cache-Control", "no-cache");
                 ("Connection", "keep-alive")];
     body := StreamBody stream |}.

End Http.

(* ================================================================== *)
(** ** The collaborators of the web tier *)
(* ================================================================== *)

Module Environment.
Import Schema Handler.

(** What [limiter.limit(userId)] resolves to. *)
Record LimitResponse : Type := {
  lr_success : bool;
  lr_limit : Z;
  lr_remaining : Z;
  lr_reset : Z
}.

(** A [Ratelimit] instance: its configuration, and the verdict the cache
    gives for a user (or the failure of the call). *)
Record Ratelimit : Type := {
  tokens : Z;
  window : string;
  prefix : string;
  limit : string -> outcome LimitResponse
}.

Record EmailAddress : Type := { emailAddress : string }.

Record ClerkUser : Type := {
  emailAddresses : list EmailAddress;
  firstName : option string;
  lastName : option string;
  clerk_imageUrl : option string
}.

Record File : Type := {
  file_name : string;
  file_size : Z;
  file_type : string
}.

Record Payload : Type := {
  p_doc_id : string;
  p_chunk_id : string;
  p_content : string;
  p_page : option Z;
  p_chunk_index : Z
}.

Record SearchResult : Type := {
  sr_id : string;
  sr_score : float;
  payload : Payload
}.

Record RagContext : Type := {
  ctx_content : string;
  ctx_page : option Z;
  ctx_docId : string;
  ctx_score : float
}.

Record Env : Type := {
  (* identity provider *)
  auth : option string;                          (* [userId] of [auth()] *)
  currentUser : outcome (option ClerkUser);
  (* lib/rate-limit.ts: [null] when the cache is not configured *)
  redisConfigured : bool;
  uploadLimit : string -> outcome LimitResponse;
  queryLimit : string -> outcome LimitResponse;
  (* lib/embeddings.ts, lib/vector-store.ts, lib/llm.ts, lib/storage.ts *)
  generateQueryEmbedding : string -> outcome (list float);
  searchVectors :
    string -> list float -> option (list string) -> outcome (list SearchResult);
  generateRAGResponse : string -> list RagContext -> outcome (string * Z);
  uploadDocument : File -> string -> outcome string;
  deleteDocument : string -> outcome unit;
  deleteDocumentVectors : string -> string -> outcome unit;
  (* process.env and the worker *)
  WORKER_URL : option string;
  workerFetch : string -> string -> string -> outcome bool;   (* [response.ok] *)
  WORKER_SECRET : option string;
  NODE_ENV : option string;
  (* clock, identifiers, serialisation *)
  now : nat -> Z;                                (* successive [Date.now()] *)
  dbNow : Z;                                     (* [defaultNow()] *)
  randomUUID : DB -> string;                     (* [defaultRandom()] *)
  toISOString : Z -> string;
  stringifySources : list QuerySource -> string  (* [JSON.stringify(sources)] *)
}.

(** The same environment for a request that arrives at time [t]. *)
Definition atTime (env : Env) (t : Z) : Env :=
  {| auth := auth env;
     currentUser := currentUser env;
     redisConfigured := redisConfigured env;
     uploadLimit := uploadLimit env;
     queryLimit := queryLimit env;
     generateQueryEmbedding := generateQueryEmbedding env;
     searchVectors := searchVectors env;
     generateRAGResponse := generateRAGResponse env;
     uploadDocument := uploadDocument env;
     deleteDocument := deleteDocument env;
     deleteDocumentVectors := deleteDocumentVectors env;
     WORKER_URL := WORKER_URL env;
     workerFetch := workerFetch env;
     WORKER_SECRET := WORKER_SECRET env;
     NODE_ENV := NODE_ENV env;
     now := fun _ => t;
     dbNow := dbNow env;
     randomUUID := randomUUID env;
     toISOString := toISOString env;
     stringifySources := stringifySources env |}.

End Environment.

(* ================================================================== *)
(** ** lib/rate-limit.ts *)
(* ================================================================== *)

Module RateLimit.
Import Schema Handler Environment.
Local Open Scope handler_scope.

(** [redis ? new Ratelimit({ limiter: slidingWindow(10, '1 h'), ... }) : null] *)
Definition uploadRateLimiter (env : Env) : option Ratelimit :=
  if redisConfigured env then
    Some {| tokens := 10; window := "1 h"; prefix := "ratelimit:upload";
            limit := uploadLimit env |}
  else None.

(** [redis ? new Ratelimit({ limiter: slidingWindow(100, '1 h'), ... }) : null] *)
Definition queryRateLimiter (env : Env) : option Ratelimit :=
  if redisConfigured env then
    Some {| tokens := 100; window := "1 h"; prefix := "ratelimit:query";
            limit := queryLimit env |}
  else None.

Record RateLimitResult : Type := {
  success : bool;
  rl_limit : option Z;
  remaining : option Z;
  reset : option Z
}.

Definition allowed : RateLimitResult :=
  {| success := true; rl_limit := None; remaining := None; reset := None |}.

(** [type === 'upload' ? uploadRateLimiter : queryRateLimiter] *)
Definition limiterFor (env : Env) (type : OpType) : option Ratelimit :=
  match type with
  | OpUpload => uploadRateLimiter env
  | OpQuery => queryRateLimiter env
  end.

Definition checkRateLimit (env : Env) (userId : string) (type : OpType)
  : M RateLimitResult :=
  let limiter := limiterFor env type in
  match limiter with
  | None => ret allowed
  | Some l =>
      tryCatch
        (r <- call (RateLimitCall type userId) (limit l userId) ;;
         ret {| success := lr_success r;
                rl_limit := Some (lr_limit r);
                remaining := Some (lr_remaining r);
                reset := Some (lr_reset r) |})
        (fun _ =>
           emit (ConsoleError "Rate limit check failed:") ;;
           ret allowed)
  end.

End RateLimit.

(* ================================================================== *)
(** ** The query route: POST /api/query *)
(* ================================================================== *)

Module QueryRoute.
Import JS LLM Utils Schema Handler Environment RateLimit Http.
Local Open Scope Z_scope.
Local Open Scope handler_scope.

(** The JSON body of the request.  [None] for [query] stands for a value
    that is absent or not a string. *)
Record QueryBody : Type := {
  body_query : option string;
  body_documentIds : option (list string)
}.

Definition nl : string := String (ascii_of_nat 10) "".

Definition noResultsAnswer : string :=
  "I couldn't find any relevant information in your documents to answer this question. Please try rephrasing your question or upload more relevant documents.".

(** [[...new Set(xs)]]: first occurrences, in order. *)
Fixpoint distinct (xs : list string) : list string :=
  match xs with
  | [] => []
  | x :: xs' =>
      x :: filter (fun y => negb (String.eqb y x)) (distinct xs')
  end.

(** [new Map(pairs).get(k)]: a later pair replaces an earlier one. *)
Definition mapGet (pairs : list (string * string)) (k : string) : option string :=
  fold_left
    (fun acc kv => if String.eqb (fst kv) k then Some (snd kv) else acc)
    pairs None.

(** [searchResults.reduce((sum, r) => sum + r.score, 0) / searchResults.length] *)
Definition avgScoreOf (searchResults : list SearchResult) : float :=
  (fold_left (fun sum r => sum + sr_score r) searchResults 0
   / PrimFloat.of_uint63
       (Uint63.of_Z (Z.of_nat (List.length searchResults))))%float.

Definition contextsOf (searchResults : list SearchResult) : list RagContext :=
  map (fun result =>
         {| ctx_content := p_content (payload result);
            ctx_page := p_page (payload result);
            ctx_docId := p_doc_id (payload result);
            ctx_score := sr_score result |})
      searchResults.

Definition sourcesOf (docNameMap : list (string * string))
    (searchResults : list SearchResult) : list QuerySource :=
  map (fun result =>
         {| docId := p_doc_id (payload result);
            chunkId := p_chunk_id (payload result);
            score := sr_score result;
            page := p_page (payload result);
            text := take 300 (p_content (payload result));
            src_fileName := mapGet docNameMap (p_doc_id (payload result)) |})
      searchResults.

Definition confidenceOf (answer : string) (searchResults : list SearchResult)
  : Confidence :=
  let avgScore := avgScoreOf searchResults in
  let hasHallucination :=
    detectPotentialHallucination answer
      (map (fun c => {| content := ctx_content c |}) (contextsOf searchResults)) in
  if hasHallucination then Low else getConfidenceLevel avgScore.

(** [documentIds?.length > 0 ? documentIds : undefined] *)
Definition searchFilter (documentIds : option (list string)) : option (list string) :=
  match documentIds with
  | Some l => if (0 <? List.length l)%nat then Some l else None
  | None => None
  end.

(** [documentIds || []] *)
Definition orEmpty (documentIds : option (list string)) : list string :=
  match documentIds with Some l => l | None => [] end.

Definition POST (env : Env) (requestJson : outcome QueryBody) : M Http.Response :=
  let startTime := now env 0 in
  tryCatch
    (match auth env with
     | None => ret (plainText 401 "Unauthorized")
     | Some clerkId =>
     if negb (truthy clerkId) then ret (plainText 401 "Unauthorized") else
     rateLimitResult <- checkRateLimit env clerkId OpQuery ;;
     if negb (success rateLimitResult) then
       ret (json 429
              [("error", str "Rate limit exceeded. Please try again later.");
               ("remaining", optNum (remaining rateLimitResult))])
     else
     b <- (fun w => (requestJson, w)) ;;
     match body_query b with
     | None => ret (json 400 [("error", str "Query is required")])
     | Some query =>
     if negb (truthy query) || (String.length (trim query) =? 0)%nat then
       ret (json 400 [("error", str "Query is required")])
     else
     d <- getDb ;;
     match selectUserByClerkId d clerkId with
     | None => ret (json 404 [("error", str "User not found")])
     | Some user =>
     queryEmbedding <-
       call (EmbeddingCall (trim query)) (generateQueryEmbedding env (trim query)) ;;
     let filterIds := searchFilter (body_documentIds b) in
     searchResults <-
       call (VectorSearch (user_id user) filterIds)
            (searchVectors env (user_id user) queryEmbedding filterIds) ;;
     match searchResults with
     | [] =>
         d <- getDb ;;
         setDb (insertQuery d
                  {| query_id := randomUUID env d;
                     q_userId := user_id user;
                     Schema.query := trim query;
                     Schema.answer := Some noResultsAnswer;
                     Schema.sources := [];
                     Schema.confidence := Low;
                     Schema.tokenCount := 0;
                     Schema.latencyMs := now env 1 - startTime;
                     Schema.documentIds := orEmpty (body_documentIds b);
                     q_createdAt := dbNow env |}) ;;
         ret (eventStream
                (streamOf noResultsAnswer
                   (nl ++ nl ++ "__SOURCES__:[]" ++ nl)
                   ("__CONFIDENCE__:Low" ++ nl)))
     | _ :: _ =>
         let docIds := distinct (map (fun r => p_doc_id (payload r)) searchResults) in
         d <- getDb ;;
         docNameMap <- attempt (selectDocumentNames d docIds) ;;
         let contexts := contextsOf searchResults in
         gen <- call (Generation (trim query))
                     (generateRAGResponse env (trim query) contexts) ;;
         let answer := fst gen in
         let tokenCount := snd gen in
         let confidence := confidenceOf answer searchResults in
         let sources := sourcesOf docNameMap searchResults in
         let latencyMs := now env 1 - startTime in
         d <- getDb ;;
         setDb (insertQuery d
                  {| query_id := randomUUID env d;
                     q_userId := user_id user;
                     Schema.query := trim query;
                     Schema.answer := Some answer;
                     Schema.sources := sources;
                     Schema.confidence := confidence;
                     Schema.tokenCount := tokenCount;
                     Schema.latencyMs := latencyMs;
                     Schema.documentIds := orEmpty (body_documentIds b);
                     q_createdAt := dbNow env |}) ;;
         ret (eventStream
                (streamOf answer
                   (nl ++ nl ++ "__SOURCES__:" ++ stringifySources env sources ++ nl)
                   ("__CONFIDENCE__:" ++ confidenceText confidence ++ nl)))
     end
     end
     end
     end)
    (fun _ =>
       emit (ConsoleError "Query error:") ;;
       ret (json 500
              [("error", str "An error occurred while processing your query.")])).

End QueryRoute.

(* ================================================================== *)
(** ** The upload route: POST /api/upload *)
(* ================================================================== *)

Module UploadRoute.
Import JS Schema Handler Environment RateLimit Http Constants.
Local Open Scope Z_scope.
Local Open Scope handler_scope.

(** Decimal rendering of an integer, as a template literal does it. *)
Definition decimal (z : Z) : string := NilZero.string_of_int (Z.to_int z).

Definition tooLargeMessage : string :=
  "File too large. Maximum size is "
  ++ decimal (MAX_FILE_SIZE / (1024 * 1024)) ++ "MB.".

Definition invalidTypeMessage : string :=
  "Invalid file type. Allowed types: PDF, TXT, MD, DOC, DOCX.".

Definition noEmailMessage : string :=
  "Unable to retrieve user email from authentication provider.".

(** [clerkUser?.emailAddresses?.[0]?.emailAddress] *)
Definition firstEmail (clerkUser : option ClerkUser) : option string :=
  match clerkUser with
  | Some u =>
      match emailAddresses u with
      | e :: _ => Some (emailAddress e)
      | [] => None
      end
  | None => None
  end.

(** The [name] column of a new user row. *)
Definition displayName (clerkUser : option ClerkUser) : option string :=
  match clerkUser with
  | Some u =>
      match firstName u with
      | Some f =>
          if truthy f then
            Some (f ++ (if truthy_opt (lastName u)
                        then " " ++ match lastName u with Some l => l | None => "" end
                        else ""))
          else None
      | None => None
      end
  | None => None
  end.

(** [clerkUser?.imageUrl || null] *)
Definition imageOf (clerkUser : option ClerkUser) : option string :=
  match clerkUser with
  | Some u => if truthy_opt (clerk_imageUrl u) then clerk_imageUrl u else None
  | None => None
  end.

(** From the storage write to the response: the part of the handler that
    runs once the user row is known. *)
Definition storeAndRecord (env : Env) (file : File) (user : User) : M Http.Response :=
  storageUrl <-
    call (StorageWrite (file_name file) (user_id user))
         (uploadDocument env file (user_id user)) ;;
  d <- getDb ;;
  let doc :=
    {| doc_id := randomUUID env d;
       userId := user_id user;
       fileName := file_name file;
       fileSize := file_size file;
       mimeType := file_type file;
       Schema.storageUrl := storageUrl;
       Schema.status := "processing";
       chunkCount := Some 0;
       metadata := None;
       errorMessage := None;
       createdAt := dbNow env;
       updatedAt := dbNow env |} in
  setDb (insertDocument d doc) ;;
  (if truthy_opt (WORKER_URL env) then
     tryCatch
       (ok <- call (WorkerNotify (doc_id doc) storageUrl (user_id user))
                   (workerFetch env (doc_id doc) storageUrl (user_id user)) ;;
        if negb ok
        then emit (ConsoleError "Worker processing request failed:")
        else ret tt)
       (fun _ =>
          emit (ConsoleError "Failed to send processing request to worker:"))
   else
     emit (ConsoleWarn "WORKER_URL not configured. Document processing skipped.")) ;;
  ret (json 200
         [("id", str (doc_id doc));
          ("status", str (Schema.status doc));
          ("message",
           str "Document uploaded successfully and is being processed.")]).

Definition POST (env : Env) (formData : outcome (option File)) : M Http.Response :=
  tryCatch
    (match auth env with
     | None => ret (json 401 [("error", str "Unauthorized")])
     | Some clerkId =>
     if negb (truthy clerkId) then ret (json 401 [("error", str "Unauthorized")]) else
     rateLimitResult <- checkRateLimit env clerkId OpUpload ;;
     if negb (success rateLimitResult) then
       ret (json 429
              [("error", str "Rate limit exceeded. Please try again later.");
               ("remaining", optNum (remaining rateLimitResult));
               ("reset", optNum (reset rateLimitResult))])
     else
     f <- (fun w => (formData, w)) ;;
     match f with
     | None => ret (json 400 [("error", str "No file provided")])
     | Some file =>
     if MAX_FILE_SIZE <? file_size file then
       ret (json 400 [("error", str tooLargeMessage)])
     else
     if negb (arrayIncludes ALLOWED_FILE_TYPES (file_type file)) then
       ret (json 400 [("error", str invalidTypeMessage)])
     else
     d <- getDb ;;
     match selectUserByClerkId d clerkId with
     | Some user => storeAndRecord env file user
     | None =>
         clerkUser <- call IdentityLookup (currentUser env) ;;
         match firstEmail clerkUser with
         | None => ret (json 400 [("error", str noEmailMessage)])
         | Some userEmail =>
         if negb (truthy userEmail) then
           ret (json 400 [("error", str noEmailMessage)])
         else
         d <- getDb ;;
         let user :=
           {| user_id := randomUUID env d;
              Schema.clerkId := clerkId;
              email := userEmail;
              name := displayName clerkUser;
              imageUrl := imageOf clerkUser;
              user_createdAt := dbNow env;
              user_updatedAt := dbNow env |} in
         setDb (insertUser d user) ;;
         storeAndRecord env file user
         end
     end
     end
     end)
    (fun _ =>
       emit (ConsoleError "Upload error:") ;;
       ret (json 500
              [("error", str "An error occurred while uploading the document.")])).

End UploadRoute.

(* ================================================================== *)
(** ** The documents route: GET and DELETE /api/documents *)
(* ================================================================== *)

Module DocumentsRoute.
Import JS Schema Handler Environment Http.
Local Open Scope Z_scope.
Local Open Scope handler_scope.

Fixpoint digitsValue (acc : Z) (s : string) : Z :=
  match s with
  | String c s' =>
      if isDigit c then digitsValue (10 * acc + (Z.of_nat (code c) - 48)) s'
      else acc
  | EmptyString => acc
  end.

Definition startsWithDigit (s : string) : bool :=
  match s with String c _ => isDigit c | EmptyString => false end.

(** [parseInt(s, 10)]; [None] is NaN.  (Exact below 2^53.) *)
Definition parseInt (s : string) : option Z :=
  match trimStart s with
  | String "-"%char s' =>
      if startsWithDigit s' then Some (- digitsValue 0 s') else None
  | String "+"%char s' =>
      if startsWithDigit s' then Some (digitsValue 0 s') else None
  | s' => if startsWithDigit s' then Some (digitsValue 0 s') else None
  end.

(** [searchParams.get(k) || fallback] *)
Definition orDefault (v : option string) (fallback : string) : string :=
  match v with
  | Some s => if truthy s then s else fallback
  | None => fallback
  end.

(** The query string of the request. *)
Record SearchParams : Type := {
  param_page : option string;
  param_limit : option string;
  param_id : option string
}.

(** The largest integer up to which the arithmetic of JavaScript
    numbers is exact, [Number.MAX_SAFE_INTEGER]. *)
Definition maxSafeInteger : Z := 9007199254740991.

(** The integers that a JavaScript number holds exactly. *)
Definition safe (n : Z) : bool :=
  (- maxSafeInteger <=? n) && (n <=? maxSafeInteger).

(** How the database driver treats [LIMIT]/[OFFSET] values.  When the
    page and the limit are integers that JavaScript holds exactly, and
    the limit and the offset computed from them are non-negative and
    held exactly too (they then fit the 64 bits of the database), the
    statement selects the window they describe.  In any other case the
    driver either rejects the statement or applies some window (rows to
    skip, and rows to keep if bounded); which one is left to the
    parameter [fault]. *)
Definition window (fault : option Z -> option Z -> outcome (nat * option nat))
    (page limit offset : option Z) (rows : list Document) : outcome (list Document) :=
  match page, limit, offset with
  | Some p, Some l, Some o =>
      if safe p && (0 <=? l) && safe l && (0 <=? o) && safe o then
        Returns (firstn (Z.to_nat l) (skipn (Z.to_nat o) rows))
      else
        match fault limit offset with
        | Returns (k, Some n) => Returns (firstn n (skipn k rows))
        | Returns (k, None) => Returns (skipn k rows)
        | Throws e => Throws e
        end
  | _, _, _ =>
      match fault limit offset with
      | Returns (k, Some n) => Returns (firstn n (skipn k rows))
      | Returns (k, None) => Returns (skipn k rows)
      | Throws e => Throws e
      end
  end.

Definition formatDoc (env : Env) (doc : Document) : Json :=
  JObj (defined
    [("id", str (doc_id doc));
     ("fileName", str (fileName doc));
     ("fileSize", num (fileSize doc));
     ("mimeType", str (mimeType doc));
     ("status", str (Schema.status doc));
     ("chunkCount",
      Some match chunkCount doc with Some n => JNum n | None => JNull end);
     ("createdAt", str (toISOString env (createdAt doc)));
     ("updatedAt", str (toISOString env (updatedAt doc)));
     ("errorMessage", optStr (errorMessage doc))]).

(** [select().from(documents).where(eq(documents.userId, u))
      .orderBy(desc(documents.createdAt))], for the id [u] of a user
    row *)
Definition selectDocumentsOf (first : Document -> Document -> bool)
    (d : DB) (u : string) : list Document :=
  orderByCreatedAtDesc first
    (filter (fun x => String.eqb (userId x) u) (documents d)).

(** The route, for a request during which the database puts rows of one
    creation time in the order [first] and treats out-of-range windows
    as [fault] says. *)
Definition GET (env : Env)
    (fault : option Z -> option Z -> outcome (nat * option nat))
    (first : Document -> Document -> bool)
    (searchParams : SearchParams) : M Http.Response :=
  tryCatch
    (match auth env with
     | None => ret (json 401 [("error", str "Unauthorized")])
     | Some clerkId =>
     if negb (truthy clerkId) then ret (json 401 [("error", str "Unauthorized")]) else
     d <- getDb ;;
     match selectUserByClerkId d clerkId with
     | None => ret (json 200 [("documents", Some (JArr []))])
     | Some user =>
     let page := parseInt (orDefault (param_page searchParams) "1") in
     let limit := parseInt (orDefault (param_limit searchParams) "20") in
     let offset :=
       match page, limit with
       | Some p, Some l => Some ((p - 1) * l)
       | _, _ => None
       end in
     d <- getDb ;;
     docs <- attempt (window fault page limit offset
                        (selectDocumentsOf first d (user_id user))) ;;
     let formattedDocs := map (formatDoc env) docs in
     ret (json 200
            [("documents", Some (JArr formattedDocs));
             ("page", nanNum page);
             ("limit", nanNum limit)])
     end
     end)
    (fun _ =>
       emit (ConsoleError "Error fetching documents:") ;;
       ret (json 500 [("error", str "Failed to fetch documents")])).

Definition DELETE (env : Env) (searchParams : SearchParams) : M Http.Response :=
  tryCatch
    (match auth env with
     | None => ret (json 401 [("error", str "Unauthorized")])
     | Some clerkId =>
     if negb (truthy clerkId) then ret (json 401 [("error", str "Unauthorized")]) else
     match param_id searchParams with
     | None => ret (json 400 [("error", str "Document ID required")])
     | Some documentId =>
     if negb (truthy documentId) then
       ret (json 400 [("error", str "Document ID required")])
     else
     d <- getDb ;;
     match selectUserByClerkId d clerkId with
     | None => ret (json 404 [("error", str "User not found")])
     | Some user =>
     d <- getDb ;;
     owned <- attempt (selectOwnedDocument d documentId (user_id user)) ;;
     match owned with
     | None => ret (json 404 [("error", str "Document not found")])
     | Some doc =>
         tryCatch
           (call (StorageDelete (storageUrl doc)) (deleteDocument env (storageUrl doc)))
           (fun _ => emit (ConsoleError "Failed to delete from storage:")) ;;
         tryCatch
           (call (VectorDelete (user_id user) documentId)
                 (deleteDocumentVectors env (user_id user) documentId))
           (fun _ => emit (ConsoleError "Failed to delete vectors:")) ;;
         d <- getDb ;;
         d' <- attempt (deleteDocumentRow d documentId) ;;
         setDb d' ;;
         ret (json 200
                [("success", Some (JBool true));
                 ("message", str "Document deleted successfully")])
     end
     end
     end
     end)
    (fun _ =>
       emit (ConsoleError "Error deleting document:") ;;
       ret (json 500 [("error", str "Failed to delete document")])).

End DocumentsRoute.

(* ================================================================== *)
(** ** The processing webhook: POST /api/process *)
(* ================================================================== *)

Module ProcessRoute.
Import JS Schema Handler Environment Http.
Local Open Scope Z_scope.
Local Open Scope handler_scope.

(** The JSON body the worker posts.  [None] stands for an absent
    property; [chunk_count] is [Some] exactly when
    [typeof chunk_count === 'number'], and the number is an integer
    here. *)
Record ProcessBody : Type := {
  document_id : option string;
  status : option string;
  chunk_count : option Z;
  error_message : option string
}.

Record UpdateData : Type := {
  set_status : option string;
  set_chunkCount : option Z;
  set_errorMessage : option string;
  set_updatedAt : Z
}.

Definition validStatuses : list string := ["processing"; "ready"; "failed"].

Definition truthyOnly (v : option string) : option string :=
  if truthy_opt v then v else None.

Definition updateDataOf (env : Env) (b : ProcessBody) : UpdateData :=
  {| set_status := truthyOnly (status b);
     set_chunkCount := chunk_count b;
     set_errorMessage := truthyOnly (error_message b);
     set_updatedAt := now env 0 |}.

(** [.set(updateData)]: only the properties present are written. *)
Definition applyUpdate (u : UpdateData) (x : Document) : Document :=
  {| doc_id := doc_id x;
     userId := userId x;
     fileName := fileName x;
     fileSize := fileSize x;
     mimeType := mimeType x;
     storageUrl := storageUrl x;
     Schema.status :=
       match set_status u with Some s => s | None => Schema.status x end;
     chunkCount :=
       match set_chunkCount u with Some n => Some n | None => chunkCount x end;
     metadata := metadata x;
     errorMessage :=
       match set_errorMessage u with Some e => Some e | None => errorMessage x end;
     createdAt := createdAt x;
     updatedAt := set_updatedAt u |}.

(** Whether the values of the statement fit their columns:
    [chunk_count] is an [integer]. *)
Definition fitsColumns (u : UpdateData) : bool :=
  match set_chunkCount u with
  | Some n => fitsInteger n
  | None => true
  end.

Definition optEq (a b : option string) : bool :=
  match a, b with
  | Some x, Some y => String.eqb x y
  | None, None => true
  | _, _ => false
  end.

(** Secret check, body validation and update, shared by the two
    versions of the route. *)
Definition handle (env : Env) (authHeader : option string)
    (requestJson : outcome ProcessBody) : M Http.Response :=
  let workerSecret := WORKER_SECRET env in
  if truthy_opt workerSecret && negb (optEq authHeader workerSecret) then
    ret (json 401 [("error", str "Unauthorized")])
  else
  b <- (fun w => (requestJson, w)) ;;
  match document_id b with
  | None => ret (json 400 [("error", str "document_id is required")])
  | Some document_id =>
  if negb (truthy document_id) then
    ret (json 400 [("error", str "document_id is required")])
  else
  if truthy_opt (status b)
     && negb (arrayIncludes validStatuses
                (match status b with Some s => s | None => "" end))
  then ret (json 400 [("error", str "Invalid status")])
  else
  d <- getDb ;;
  d' <- attempt (updateDocuments d document_id (fitsColumns (updateDataOf env b))
                   (applyUpdate (updateDataOf env b))) ;;
  setDb d' ;;
  ret (json 200
         [("success", Some (JBool true));
          ("message", str "Document status updated")])
  end.

Definition onError : string -> M Http.Response :=
  fun _ =>
    emit (ConsoleError "Process webhook error:") ;;
    ret (json 500 [("error", str "Failed to update document status")]).

(** The route as [app/api/process/route.ts] has it. *)
Definition POST (env : Env) (authHeader : option string)
    (requestJson : outcome ProcessBody) : M Http.Response :=
  tryCatch (handle env authHeader requestJson) onError.

(** The version of the route that refuses to run in production without
    [WORKER_SECRET]. *)
Definition POST_production (env : Env) (authHeader : option string)
    (requestJson : outcome ProcessBody) : M Http.Response :=
  tryCatch
    (let isProduction := optEq (NODE_ENV env) (Some "production") in
     if isProduction && negb (truthy_opt (WORKER_SECRET env)) then
       emit (ConsoleError
               "WORKER_SECRET environment variable is required in production") ;;
       ret (json 500
              [("error",
                str "Server misconfiguration: authentication not configured")])
     else handle env authHeader requestJson)
    onError.

End ProcessRoute.

(* ================================================================== *)
(** ** Sample data for the scenarios *)
(* ================================================================== *)

Module Sample.
Import JS Schema Handler Environment.
Local Open Scope Z_scope.

Definition alice : User :=
  {| user_id := "a11ce000-0000-4000-8000-000000000001"; clerkId := "clerk_alice"; email := "alice@example.com";
     name := Some "Alice"; imageUrl := None;
     user_createdAt := 1000; user_updatedAt := 1000 |}.

Definition bob : User :=
  {| user_id := "b0b00000-0000-4000-8000-000000000002"; clerkId := "clerk_bob"; email := "bob@example.com";
     name := None; imageUrl := None;
     user_createdAt := 2000; user_updatedAt := 2000 |}.

Definition mkDocument (i owner file : string) (created : Z) : Document :=
  {| doc_id := i; userId := owner; fileName := file; fileSize := 2097152;
     mimeType := "application/pdf";
     storageUrl := "gs://docurag/" ++ owner ++ "/" ++ file;
     status := "processing"; chunkCount := Some 0; metadata := None;
     errorMessage := None; createdAt := created; updatedAt := created |}.

Definition report : Document := mkDocument "d0c00000-0000-4000-8000-000000000001" "a11ce000-0000-4000-8000-000000000001" "report.pdf" 3000.
Definition ledger : Document := mkDocument "d0c00000-0000-4000-8000-000000000002" "b0b00000-0000-4000-8000-000000000002" "ledger.pdf" 4000.
Definition notes : Document := mkDocument "d0c00000-0000-4000-8000-000000000003" "a11ce000-0000-4000-8000-000000000001" "notes.pdf" 5000.

Definition mkChunk (i d : string) (k : Z) : Chunk :=
  {| chunk_id := i; documentId := d; chunk_content := "text"; chunkIndex := k;
     pageNumber := None; vectorId := None; chunk_createdAt := 6000 |}.

Definition sampleDb : DB :=
  {| users := [alice; bob];
     documents := [report; ledger; notes];
     chunks := [mkChunk "c4000000-0000-4000-8000-000000000001" "d0c00000-0000-4000-8000-000000000001" 0; mkChunk "c4000000-0000-4000-8000-000000000002" "d0c00000-0000-4000-8000-000000000001" 1;
                mkChunk "c4000000-0000-4000-8000-000000000003" "d0c00000-0000-4000-8000-000000000002" 0];
     queries := [];
     documentCollections :=
       [{| dc_id := "dc000000-0000-4000-8000-000000000001"; dc_documentId := "d0c00000-0000-4000-8000-000000000001"; dc_collectionId := "c0110000-0000-4000-8000-000000000001" |}] |}.

Definition sampleWorld : World := {| db := sampleDb; trace := [] |}.

Definition hit (doc chunk body : string) (s : float) : SearchResult :=
  {| sr_id := chunk; sr_score := s;
     payload := {| p_doc_id := doc; p_chunk_id := chunk; p_content := body;
                   p_page := Some 1; p_chunk_index := 0 |} |}.

Definition withinLimit : LimitResponse :=
  {| lr_success := true; lr_limit := 100; lr_remaining := 99;
     lr_reset := 1700003600000 |}.

Definition overLimit : LimitResponse :=
  {| lr_success := false; lr_limit := 100; lr_remaining := 0;
     lr_reset := 1700003600000 |}.

Definition aliceAtClerk : ClerkUser :=
  {| emailAddresses := [{| emailAddress := "alice@example.com" |}];
     firstName := Some "Alice"; lastName := Some "Liddell";
     clerk_imageUrl := None |}.

(** An environment, given the caller, what the identity provider knows of
    them, the verdict of the query limiter, the outcome of the vector
    search, the answer of the model and the time of the request.  Both
    external deletions fail in it. *)
Definition sampleEnv (caller : option string)
    (identity : outcome (option ClerkUser))
    (verdict : outcome LimitResponse)
    (found : outcome (list SearchResult))
    (generated : string) (t : Z) : Env :=
  {| auth := caller;
     currentUser := identity;
     redisConfigured := true;
     uploadLimit := fun _ => verdict;
     queryLimit := fun _ => verdict;
     generateQueryEmbedding := fun _ => Returns [0.25%float; 0.5%float];
     searchVectors := fun _ _ _ => found;
     generateRAGResponse := fun _ _ => Returns (generated, 12);
     uploadDocument := fun f u => Returns ("gs://docurag/" ++ u ++ "/" ++ file_name f);
     deleteDocument := fun _ => Throws "Failed to delete file from storage";
     deleteDocumentVectors := fun _ _ => Throws "Failed to delete document vectors";
     WORKER_URL := None;
     workerFetch := fun _ _ _ => Returns true;
     WORKER_SECRET := Some "s3cret";
     NODE_ENV := Some "production";
     now := fun n => t + 250 * Z.of_nat n;
     dbNow := t;
     randomUUID := fun d => "00000000-0000-4000-8000-00000000"
                              ++ NilZero.string_of_int
                                   (Z.to_int (1000 + Z.of_nat (List.length (users d)
                                                     + List.length (documents d)
                                                     + List.length (queries d))));
     toISOString := fun z => NilZero.string_of_int (Z.to_int z);
     stringifySources := fun l => "[" ++ join "," (map docId l) ++ "]" |}.

End Sample.

(* ================================================================== *)
(** ** Reading a run of a handler *)
(* ================================================================== *)

Module Run.
Import Schema Handler Environment RateLimit Http.

(** The response a handler produced, if it returned one. *)
Definition responseOf (r : outcome Response * World) : option Response :=
  match fst r with Returns x => Some x | Throws _ => None end.

(** A request is over the limit when a limiter is configured and its check
    answers [success: false]. *)
Definition overTheLimit (env : Env) (type : OpType) (userId : string) : bool :=
  match limiterFor env type with
  | Some l =>
      match limit l userId with
      | Returns v => negb (lr_success v)
      | Throws _ => false
      end
  | None => false
  end.

(** The verdict of a configured limiter that answers. *)
Definition verdictOf (r : LimitResponse) : RateLimitResult :=
  {| success := lr_success r;
     rl_limit := Some (lr_limit r);
     remaining := Some (lr_remaining r);
     reset := Some (lr_reset r) |}.

(** The events a request can add before the storage write. *)
Definition beforeStorage (e : Event) : Prop :=
  match e with
  | RateLimitCall _ _ | ConsoleError _ | IdentityLookup => True
  | _ => False
  end.

End Run.

(* ================================================================== *)
(** ** What the routes are expected to leave behind *)
(* ================================================================== *)

Module Expected.
Import JS Utils Schema Handler Environment RateLimit Http Run.
Import QueryRoute.
Local Open Scope Z_scope.

(** *** The heuristic, in the words of its description

    [needle] occurs in [s]: it is a contiguous piece of it. *)
Definition Occurs (needle s : string) : Prop :=
  exists before after, s = before ++ needle ++ after.

(** A non-empty run of decimal digits. *)
Fixpoint allDigits (s : string) : bool :=
  match s with
  | EmptyString => true
  | String c s' => isDigit c && allDigits s'
  end.

Definition digits (s : string) : Prop := s <> "" /\ allDigits s = true.

(** No character of [s] is a digit. *)
Fixpoint digitFree (s : string) : bool :=
  match s with
  | EmptyString => true
  | String c s' => negb (isDigit c) && digitFree s'
  end.

(** [s] begins with a digit. *)
Definition digitAhead (s : string) : bool :=
  match s with String c _ => isDigit c | EmptyString => false end.

(** [s] begins with a decimal point and a digit. *)
Definition fractionAhead (s : string) : bool :=
  match s with
  | String "."%char (String c _) => isDigit c
  | _ => false
  end.

(** What may follow the number in a numeric token. *)
Definition suffixWords : list string :=
  ["%"; "percent"; "million"; "billion"; "thousand"].

(** [s] begins with the word [w], in whatever letter case. *)
Definition beginsWith (w s : string) : Prop :=
  exists x y, s = x ++ y /\ toLowerCase x = w.

(** [token] is the numeric token at the head of [token ++ rest]: a
    number, a decimal part if one follows, and one of the five suffixes
    if one follows, each of the three as long as the text allows. *)
Definition NumericToken (token rest : string) : Prop :=
  exists whole fraction suffix,
    token = whole ++ fraction ++ suffix
    /\ digits whole
    /\ digitAhead (fraction ++ suffix ++ rest) = false
    /\ ((exists f, fraction = "." ++ f /\ digits f
                   /\ digitAhead (suffix ++ rest) = false)
        \/ (fraction = "" /\ fractionAhead (suffix ++ rest) = false))
    /\ (In (toLowerCase suffix) suffixWords
        \/ (suffix = "" /\ forall w, In w suffixWords -> ~ beginsWith w rest)).

(** The numeric tokens of a text, from left to right: between them, before
    the first and after the last there is no digit. *)
Inductive Tokenised : string -> list string -> Prop :=
| no_more (s : string) : digitFree s = true -> Tokenised s []
| next_token (gap token rest : string) (tokens : list string) :
    digitFree gap = true ->
    NumericToken token rest ->
    Tokenised rest tokens ->
    Tokenised (gap ++ token ++ rest) (token :: tokens).

(** The remainders of [s] after each non-empty run of its leading digits,
    the longest run first. *)
Fixpoint digitRests (s : string) : list string :=
  match s with
  | String c s' => if isDigit c then (digitRests s' ++ [s'])%list else []
  | EmptyString => []
  end.

(** The leading digits of a text, and what follows them. *)
Fixpoint leadingDigits (s : string) : string :=
  match s with
  | String c s' => if isDigit c then String c (leadingDigits s') else ""
  | EmptyString => ""
  end.

Fixpoint afterDigits (s : string) : string :=
  match s with
  | String c s' => if isDigit c then afterDigits s' else s
  | EmptyString => ""
  end.

(** The characters of [s] before its first digit, and the text from that
    digit on. *)
Fixpoint beforeDigit (s : string) : string :=
  match s with
  | String c s' => if isDigit c then "" else String c (beforeDigit s')
  | EmptyString => ""
  end.

Fixpoint fromDigit (s : string) : string :=
  match s with
  | String c s' => if isDigit c then s else fromDigit s'
  | EmptyString => ""
  end.

(** [s] begins with [w] in whatever letter case, as a test. *)
Definition prefixIgnoringCase (w s : string) : bool :=
  String.eqb (toLowerCase (take (String.length w) s)) w.

(** The 256 characters. *)
Definition allAscii : list ascii := map ascii_of_nat (seq 0 256).

(** A word in lower case, as a test. *)
Fixpoint lowered (w : string) : bool :=
  match w with
  | EmptyString => true
  | String a w' => Ascii.eqb (lowerChar a) a && lowered w'
  end.

(** The alternatives of the suffix, as the pattern has them. *)
Definition suffixPattern : Regex.regex :=
  Regex.Alt (Regex.Lit "%"%char)
    (Regex.Alt (Regex.Word "percent")
    (Regex.Alt (Regex.Word "million")
    (Regex.Alt (Regex.Word "billion")
         (Regex.Word "thousand")))).

(** *** Scores as exact numbers

    The rational number a finite binary64 number is. *)
Definition exact (x : float) : Q :=
  match Prim2SF x with
  | S754_finite s m e =>
      ((if s then -1 else 1) * inject_Z (Z.pos m) * Qpower 2 e)%Q
  | _ => 0%Q
  end.





(** The user row the upload route creates for a caller it has not seen. *)
Definition newUser (env : Env) (d : DB) (clerkId userEmail : string)
    (identity : option ClerkUser) : User :=
  {| user_id := randomUUID env d;
     Schema.clerkId := clerkId;
     email := userEmail;
     name := UploadRoute.displayName identity;
     imageUrl := UploadRoute.imageOf identity;
     user_createdAt := dbNow env;
     user_updatedAt := dbNow env |}.

(** The entries of the [documents] array of a response, if it has one. *)
Definition listed (r : outcome Response * World) : list Json :=
  match responseOf r with
  | Some resp =>
      match bodyField resp "documents" with
      | Some (JArr items) => items
      | _ => []
      end
  | None => []
  end.

(** The [id] property of an entry. *)
Definition itemId (j : Json) : option string :=
  match j with
  | JObj fields =>
      match lookup "id" fields with
      | Some (JStr i) => Some i
      | _ => None
      end
  | _ => None
  end.

(** The two external deletions, each attempted and its failure swallowed:
    the database is not touched, and both calls are in the trace. *)
Definition externalDeletes (env : Env) (user : User) (doc : Document)
    (documentId : string) : list Event :=
  ([StorageDelete (storageUrl doc)]
     ++ match deleteDocument env (storageUrl doc) with
        | Returns _ => []
        | Throws _ => [ConsoleError "Failed to delete from storage:"]
        end
     ++ [VectorDelete (user_id user) documentId]
     ++ match deleteDocumentVectors env (user_id user) documentId with
        | Returns _ => []
        | Throws _ => [ConsoleError "Failed to delete vectors:"]
        end)%list.

(** A document row without its [updatedAt] stamp. *)
Definition untimed (x : Document) : Document :=
  {| doc_id := doc_id x; userId := userId x; fileName := fileName x;
     fileSize := fileSize x; mimeType := mimeType x; storageUrl := storageUrl x;
     Schema.status := Schema.status x; chunkCount := chunkCount x;
     metadata := metadata x; errorMessage := errorMessage x;
     createdAt := createdAt x; updatedAt := 0 |}.

(** The payload a request gets written, if it passes the checks. *)
Definition accepted (env : Env) (authHeader : option string)
    (requestJson : outcome ProcessRoute.ProcessBody)
  : option (string * ProcessRoute.ProcessBody) :=
  if truthy_opt (WORKER_SECRET env)
     && negb (ProcessRoute.optEq authHeader (WORKER_SECRET env))
  then None
  else match requestJson with
       | Throws _ => None
       | Returns b =>
           match ProcessRoute.document_id b with
           | None => None
           | Some i =>
               if negb (truthy i) then None
               else if truthy_opt (ProcessRoute.status b)
                       && negb (arrayIncludes ProcessRoute.validStatuses
                                  (match ProcessRoute.status b with
                                   | Some s => s
                                   | None => ""
                                   end))
               then None
               else Some (i, b)
           end
       end.

(** In production without a secret the stricter route stops before the
    shared part; otherwise it is the shared part. *)
Definition misconfigured (env : Env) : bool :=
  ProcessRoute.optEq (NODE_ENV env) (Some "production")
  && negb (truthy_opt (WORKER_SECRET env)).

(** The database after a statement on [d], whether it succeeds or
    fails. *)
Definition afterUpdate (d : DB) (o : outcome DB) : DB :=
  match o with Returns d' => d' | Throws _ => d end.

(** The database after a request that arrives at time [t]. *)
Definition written (env : Env) (authHeader : option string)
    (requestJson : outcome ProcessRoute.ProcessBody) (t : Z) (d : DB) : DB :=
  match accepted env authHeader requestJson with
  | Some (i, b) =>
      afterUpdate d
        (updateDocuments d i
           (ProcessRoute.fitsColumns (ProcessRoute.updateDataOf (atTime env t) b))
           (ProcessRoute.applyUpdate (ProcessRoute.updateDataOf (atTime env t) b)))
  | None => d
  end.

End Expected.

From Stdlib Require Import Sorted Permutation.

(* ================================================================== *)
(** ** The library modules: a state and exception monad *)
(* ================================================================== *)

Module Eff.
Import Handler.

(** A computation of a library module: it reads and changes the state [S]
    of the module (its memoised client, the calls it has made) and returns
    or throws. *)
Definition Eff (S A : Type) : Type := S -> outcome A * S.

Definition pure {S A} (a : A) : Eff S A := fun st => (Returns a, st).

Definition raise {S A} (e : string) : Eff S A := fun st => (Throws e, st).

Definition andThen {S A B} (m : Eff S A) (k : A -> Eff S B) : Eff S B :=
  fun st =>
    match m st with
    | (Returns a, st') => k a st'
    | (Throws e, st') => (Throws e, st')
    end.

(** [try { m } catch (error) { h error }] *)
Definition catch {S A} (m : Eff S A) (h : string -> Eff S A) : Eff S A :=
  fun st =>
    match m st with
    | (Returns a, st') => (Returns a, st')
    | (Throws e, st') => h e st'
    end.

(** A value computed without a change of state, which may throw. *)
Definition lift {S A} (o : outcome A) : Eff S A := fun st => (o, st).

(** A step that changes the state by [f] and has the outcome [o]. *)
Definition effect {S A} (f : S -> S) (o : outcome A) : Eff S A :=
  fun st => (o, f st).

Definition read {S} : Eff S S := fun st => (Returns st, st).

(** [xs.slice(i, j)] for [0 <= i <= j] *)
Definition slice {A} (i j : nat) (xs : list A) : list A :=
  firstn (j - i) (skipn i xs).

(** [for (let i = 0; i < xs.length; i += size) { acc = await body(acc,
    xs.slice(i, i + size)); }], from the index [i] on.  The loop runs at
    most [fuel] times. *)
Fixpoint forBatches {S A B} (size : nat) (body : B -> list A -> Eff S B)
    (xs : list A) (fuel i : nat) (acc : B) : Eff S B :=
  match fuel with
  | O => pure acc
  | Datatypes.S fuel' =>
      if (i <? List.length xs)%nat then
        andThen (body acc (slice i (i + size) xs))
                (fun acc' => forBatches size body xs fuel' (i + size) acc')
      else pure acc
  end.

End Eff.

Declare Scope eff_scope.
Delimit Scope eff_scope with eff.
Notation "x <~ c1 ;; c2" := (Eff.andThen c1 (fun x => c2))
  (at level 61, c1 at next level, right associativity) : eff_scope.
Notation "c1 ;;; c2" := (Eff.andThen c1 (fun _ => c2))
  (at level 61, right associativity) : eff_scope.

(* ================================================================== *)
(** ** Anchored patterns with character classes and groups *)
(* ================================================================== *)

Module Rx.
Import JS.
Local Open Scope nat_scope.

(** The pattern syntax of the anchored expressions in [lib/storage.ts] and
    in the query form.  Literals are compared exactly (no [i] flag). *)
Inductive rx : Type :=
| Nil                          (* the empty pattern *)
| Chr (c : ascii)              (* one literal character *)
| Cls (p : ascii -> bool)      (* a character class *)
| Cat (r1 r2 : rx)             (* r1 r2 *)
| Or (r1 r2 : rx)              (* r1 | r2 *)
| Maybe (r : rx)               (* r ?, greedy *)
| Many1 (r : rx)               (* r +, greedy *)
| Grp (r : rx)                 (* ( r ), capturing *)
| Bol                          (* ^ *)
| Eol.                         (* $ *)

Fixpoint Str (w : string) : rx :=
  match w with
  | EmptyString => Nil
  | String c w' => Cat (Chr c) (Str w')
  end.

(** Where a match attempt stands: whether it is still at the start of the
    input, what is left of the input, and the groups closed so far. *)
Record State : Type := { atStart : bool; rest : string; caps : list string }.

Definition advance (st : State) (s' : string) : State :=
  {| atStart := false; rest := s'; caps := caps st |}.

(** Greedy iteration of one matching step, at most [n] more times after
    the first. *)
Fixpoint loop (step : State -> list State) (n : nat) (st : State) : list State :=
  flat_map
    (fun st1 =>
       (match n with
        | O => []
        | S n' => loop step n' st1
        end ++ [st1])%list)
    (step st).

(** The text a group has matched, between two states. *)
Definition captured (st st' : State) : string :=
  take (String.length (rest st) - String.length (rest st')) (rest st).

(** The states after each way [r] can match at [st], in the order the
    backtracking matcher tries them. *)
Fixpoint run (r : rx) (st : State) : list State :=
  match r with
  | Nil => [st]
  | Chr a =>
      match rest st with
      | String c s' => if Ascii.eqb c a then [advance st s'] else []
      | EmptyString => []
      end
  | Cls p =>
      match rest st with
      | String c s' => if p c then [advance st s'] else []
      | EmptyString => []
      end
  | Cat r1 r2 => flat_map (run r2) (run r1 st)
  | Or r1 r2 => (run r1 st ++ run r2 st)%list
  | Maybe r1 => (run r1 st ++ [st])%list
  | Many1 r1 => loop (run r1) (String.length (rest st)) st
  | Grp r1 =>
      map (fun st' =>
             {| atStart := atStart st';
                rest := rest st';
                caps := (caps st' ++ [captured st st'])%list |})
          (run r1 st)
  | Bol => if atStart st then [st] else []
  | Eol => match rest st with EmptyString => [st] | String _ _ => [] end
  end.

(** [s.match(r)] for a pattern that begins with [^] (and has no [g] or [m]
    flag): the matched text and the captured groups, or [null]. *)
Definition exec (r : rx) (s : string) : option (string * list string) :=
  match run r {| atStart := true; rest := s; caps := [] |} with
  | st :: _ => Some (take (String.length s - String.length (rest st)) s, caps st)
  | [] => None
  end.

(** [s.replace(r, '')] for such a pattern. *)
Definition removeMatch (r : rx) (s : string) : string :=
  match exec r s with
  | Some (m, _) => drop (String.length m) s
  | None => s
  end.

(** [s.replace(/c/g, f)] for a pattern [c] that matches exactly one
    character of a class: every such character is replaced. *)
Fixpoint replaceEach (p : ascii -> bool) (f : ascii -> string) (s : string) : string :=
  match s with
  | EmptyString => EmptyString
  | String c s' =>
      if p c then (f c ++ replaceEach p f s')%string
      else String c (replaceEach p f s')
  end.

Definition LF : ascii := ascii_of_nat 10.
Definition CR : ascii := ascii_of_nat 13.

(** The class of [.]: anything but a line terminator. *)
Definition dot (c : ascii) : bool := negb (Ascii.eqb c LF || Ascii.eqb c CR).

(** The class of the characters that are not a line feed. *)
Definition notLF (c : ascii) : bool := negb (Ascii.eqb c LF).

(** The class of the characters that are not a slash. *)
Definition notSlash (c : ascii) : bool := negb (Ascii.eqb c "/"%char).

End Rx.

(* ================================================================== *)
(** ** The utilities module: text helpers *)
(* ================================================================== *)

Module UtilsText.
Import JS Rx.
Local Open Scope Z_scope.

(** [text.slice(0, end)]: a negative [end] counts from the end of the
    text. *)
Definition sliceTo (text : string) (e : Z) : string :=
  let len := Z.of_nat (String.length text) in
  let to := if e <? 0 then Z.max (len + e) 0 else Z.min e len in
  take (Z.to_nat to) text.

Definition truncateText (text : string) (maxLength : Z) : string :=
  if Z.of_nat (String.length text) <=? maxLength then text
  else sliceTo text (maxLength - 3) ++ "...".

(** The double quote. *)
Definition quote : ascii := ascii_of_nat 34.

Definition htmlEscapes : list (ascii * string) :=
  [("&"%char, "&amp;");
   ("<"%char, "&lt;");
   (">"%char, "&gt;");
   (quote, "&quot;");
   ("'"%char, "&#39;")].

(** [table[c]] on an object literal with one-character keys. *)
Fixpoint escapeOf (table : list (ascii * string)) (c : ascii) : option string :=
  match table with
  | [] => None
  | (k, v) :: table' => if Ascii.eqb c k then Some v else escapeOf table' c
  end.

(** The class of the pattern: ampersand, angle brackets, double quote
    and apostrophe. *)
Definition isHtmlSpecial (c : ascii) : bool :=
  Ascii.eqb c "&" || Ascii.eqb c "<" || Ascii.eqb c ">"
  || Ascii.eqb c quote || Ascii.eqb c "'".

(** Every character of the class is replaced by
    [htmlEscapes[char] || char]. *)
Definition escapeHtml (text : string) : string :=
  replaceEach isHtmlSpecial
    (fun char =>
       match escapeOf htmlEscapes char with
       | Some e => if truthy e then e else String char EmptyString
       | None => String char EmptyString
       end)
    text.

(** [formatRelativeTime(date)], given the clock reading [now] and the
    instant [date] in milliseconds, and the locale rendering of a date. *)
Definition formatRelativeTime (now date : Z) (toLocaleDateString : Z -> string)
  : string :=
  let seconds := (now - date) / 1000 in
  if seconds <? 60 then "just now"
  else if seconds <? 3600 then UploadRoute.decimal (seconds / 60) ++ "m ago"
  else if seconds <? 86400 then UploadRoute.decimal (seconds / 3600) ++ "h ago"
  else if seconds <? 604800 then UploadRoute.decimal (seconds / 86400) ++ "d ago"
  else toLocaleDateString date.

End UtilsText.

(* ================================================================== *)
(** ** The upload form: validation in the browser *)
(* ================================================================== *)

Module UploadForm.
Import JS Utils Constants Environment.
Local Open Scope Z_scope.

Definition MAX_FILE_SIZE_DISPLAY : string := "50MB".

Definition ALLOWED_FILE_EXTENSIONS : list string :=
  [".pdf"; ".txt"; ".md"; ".doc"; ".docx"].

(** [validateFile(file)]: the error shown, or [null]. *)
Definition validateFile (file : File) : option string :=
  if MAX_FILE_SIZE <? file_size file then
    Some ("File is too large. Maximum size is " ++ MAX_FILE_SIZE_DISPLAY ++ ".")
  else if negb (isAllowedFileType (file_type file)) then
    Some ("Invalid file type. Allowed types: " ++ join ", " ALLOWED_FILE_EXTENSIONS)
  else None.

(** The files [addFiles] queues for upload: those [validateFile] has no
    error for, in order.  (An error is a non-empty string.) *)
Fixpoint addFiles (newFiles : list File) : list File :=
  match newFiles with
  | [] => []
  | file :: more =>
      match validateFile file with
      | Some error => if truthy error then addFiles more else file :: addFiles more
      | None => file :: addFiles more
      end
  end.

End UploadForm.
(* ================================================================== *)
(** ** lib/storage.ts *)
(* ================================================================== *)

Module StorageLib.
Import JS Rx Handler Eff.
Local Open Scope eff_scope.

(** What the module reads from [process.env], the clock, and how the
    bucket answers each operation on an object, by object name.  Reading
    the bytes of the uploaded file does not fail. *)
Record Platform : Type := {
  GCP_PROJECT_ID : option string;
  GCP_SERVICE_ACCOUNT_KEY : option string;
  GCS_BUCKET_NAME : option string;
  JSONparse : string -> outcome unit;
  Date_now : nat -> Z;                         (* successive readings *)
  write : string -> outcome unit;              (* the stream finishes or errors *)
  getSignedUrl : string -> Z -> outcome string;
  remove : string -> outcome unit;
  present : string -> outcome bool
}.

Inductive Call : Type :=
| NewStorage (projectId : string) (credentials : bool)
| CreateWriteStream (name contentType originalName : string) (uploadedAt : Z)
    (userId : string)
| GetSignedUrl (name : string) (expires : Z)
| Delete (name : string)
| Exists (name : string)
| LogError (message : string).

(** The module state: whether [storage] holds a client, and the calls
    made so far. *)
Record Store : Type := { storage : bool; calls : list Call }.

Definition log (c : Call) (st : Store) : Store :=
  {| storage := storage st; calls := (calls st ++ [c])%list |}.

Definition getStorageClient (pf : Platform) : Eff Store unit :=
  st <~ read ;;
  if storage st then pure tt
  else
    if negb (truthy_opt (GCP_PROJECT_ID pf)) then
      raise "GCP_PROJECT_ID environment variable is not set"
    else
      credentials <~
        (if truthy_opt (GCP_SERVICE_ACCOUNT_KEY pf) then
           lift (JSONparse pf (match GCP_SERVICE_ACCOUNT_KEY pf with
                               | Some k => k
                               | None => ""
                               end)) ;;;
           pure true
         else pure false) ;;
      effect
        (fun st =>
           {| storage := true;
              calls := (calls st
                          ++ [NewStorage (match GCP_PROJECT_ID pf with
                                          | Some i => i
                                          | None => ""
                                          end) credentials])%list |})
        (Returns tt).

(** [getBucket()]: the bucket, known by its name. *)
Definition getBucket (pf : Platform) : Eff Store string :=
  match GCS_BUCKET_NAME pf with
  | Some bucketName =>
      if negb (truthy bucketName) then
        raise "GCS_BUCKET_NAME environment variable is not set"
      else getStorageClient pf ;;; pure bucketName
  | None => raise "GCS_BUCKET_NAME environment variable is not set"
  end.

(** The class of the letters, the digits, the dot and the hyphen. *)
Definition isSafe (c : ascii) : bool :=
  isLower c || isUpper c || isDigit c || Ascii.eqb c "." || Ascii.eqb c "-".

(** [file.name.replace(/[^a-zA-Z0-9.-]/g, '_')] *)
Definition sanitize (name : string) : string :=
  replaceEach (fun c => negb (isSafe c)) (fun _ => "_") name.

(** [`${userId}/${timestamp}-${sanitizedFileName}`] *)
Definition objectName (userId : string) (timestamp : Z) (fileName : string) : string :=
  userId ++ "/" ++ UploadRoute.decimal timestamp ++ "-" ++ sanitize fileName.

Definition uploadDocument (pf : Platform) (file : Environment.File) (userId : string)
  : Eff Store string :=
  bucket <~ getBucket pf ;;
  let timestamp := Date_now pf 0 in
  let filename := objectName userId timestamp (Environment.file_name file) in
  catch
    (effect
       (log (CreateWriteStream filename (Environment.file_type file)
               (Environment.file_name file) (Date_now pf 1) userId))
       (write pf filename))
    (fun _ =>
       effect (log (LogError "Storage upload error:")) (Returns tt) ;;;
       raise "Failed to upload file to storage") ;;;
  pure ("gs://" ++ bucket ++ "/" ++ filename).

(** The pattern of the three readers of a storage URL: [gs://], a
    non-empty run without a slash, a slash, and a captured non-empty run
    of anything but line terminators, up to the end. *)
Definition urlPattern : rx :=
  Cat Bol
    (Cat (Str "gs://")
       (Cat (Many1 (Cls notSlash))
          (Cat (Chr "/")
             (Cat (Grp (Many1 (Cls dot))) Eol)))).

(** [match[1]] *)
Definition group1 (m : string * list string) : string := nth 0 (snd m) "".

Definition getSignedDownloadUrl (pf : Platform) (storageUrl : string)
    (expirationMinutes : Z) : Eff Store string :=
  bucket <~ getBucket pf ;;
  match exec urlPattern storageUrl with
  | None => raise "Invalid storage URL format"
  | Some m =>
      let filePath := group1 m in
      let expires := (Date_now pf 0 + expirationMinutes * 60 * 1000)%Z in
      effect (log (GetSignedUrl filePath expires)) (getSignedUrl pf filePath expires)
  end.

Definition deleteDocument (pf : Platform) (storageUrl : string) : Eff Store unit :=
  bucket <~ getBucket pf ;;
  match exec urlPattern storageUrl with
  | None => raise "Invalid storage URL format"
  | Some m =>
      let filePath := group1 m in
      catch
        (effect (log (Delete filePath)) (remove pf filePath))
        (fun _ =>
           effect (log (LogError "Failed to delete file from storage:")) (Returns tt) ;;;
           raise "Failed to delete file from storage")
  end.

Definition fileExists (pf : Platform) (storageUrl : string) : Eff Store bool :=
  bucket <~ getBucket pf ;;
  match exec urlPattern storageUrl with
  | None => pure false
  | Some m =>
      let filePath := group1 m in
      catch
        (effect (log (Exists filePath)) (present pf filePath))
        (fun _ => pure false)
  end.

End StorageLib.

(* ================================================================== *)
(** ** lib/vector-store.ts *)
(* ================================================================== *)

Module VectorStore.
Import JS Rx Handler Eff.
Local Open Scope eff_scope.

Record Point : Type := {
  pt_id : string;
  pt_vector : list float;
  pt_payload : Environment.Payload
}.

Inductive Condition : Type := Match (key value : string).

Inductive Filter : Type :=
| Should (conditions : list Condition)
| Must (conditions : list Condition).

(** What [client.getCollection] tells of a collection. *)
Record CollectionInfo : Type := {
  points_count : option Z;
  info_status : string
}.

Record Stats : Type := { vectorCount : Z; indexed : bool }.

Record SearchOptions : Type := {
  topK : option Z;
  scoreThreshold : option float;
  documentIds : option (list string)
}.

(** [process.env], the constructor of the client of the Qdrant service
    (which refuses some configurations, a URL without [http://] or
    [https://] among them, by throwing) and the answers of the
    service. *)
Record Platform : Type := {
  QDRANT_URL : option string;
  QDRANT_API_KEY : option string;
  newQdrantClient : string -> option string -> outcome unit;
  getCollections : outcome (list string);            (* the names *)
  createCollection : string -> outcome unit;
  createPayloadIndex : string -> outcome unit;
  upsert : string -> list Point -> outcome unit;
  search : string -> list float -> Z -> float -> option Filter
           -> outcome (list Environment.SearchResult);
  delete : string -> Filter -> outcome unit;
  getCollection : string -> outcome CollectionInfo
}.

Inductive Call : Type :=
| NewClient (url : string) (apiKey : option string)
| GetCollections
| CreateCollection (name : string) (size : Z) (distance : string)
    (default_segment_number replication_factor : Z)
| CreatePayloadIndex (name field_name field_schema : string)
| Upsert (name : string) (wait : bool) (points : list Point)
| Search (name : string) (vector : list float) (limit : Z) (score_threshold : float)
    (filter : option Filter) (with_payload : bool)
| DeletePoints (name : string) (filter : Filter)
| GetCollection (name : string)
| LogError (message : string)
| LogInfo (message : string).

Record Store : Type := { qdrantClient : bool; calls : list Call }.

Definition log (c : Call) (st : Store) : Store :=
  {| qdrantClient := qdrantClient st; calls := (calls st ++ [c])%list |}.

Definition EMBEDDING_DIMENSIONS : Z := 768.

(** The client is kept once it has been made; when the constructor
    throws, none is kept and the error is the caller's. *)
Definition getQdrantClient (pf : Platform) : Eff Store unit :=
  st <~ read ;;
  if qdrantClient st then pure tt
  else
    if negb (truthy_opt (QDRANT_URL pf)) then
      raise "QDRANT_URL environment variable is not set"
    else
      let url := match QDRANT_URL pf with Some u => u | None => "" end in
      lift (newQdrantClient pf url (QDRANT_API_KEY pf)) ;;;
      effect
        (fun st =>
           {| qdrantClient := true;
              calls := (calls st ++ [NewClient url (QDRANT_API_KEY pf)])%list |})
        (Returns tt).

(** [`user_${userId.replace(/-/g, '_')}`] *)
Definition getCollectionName (userId : string) : string :=
  "user_" ++ replaceEach (fun c => Ascii.eqb c "-") (fun _ => "_") userId.

Definition ensureCollection (pf : Platform) (userId : string) : Eff Store unit :=
  getQdrantClient pf ;;;
  let collectionName := getCollectionName userId in
  catch
    (collections <~ effect (log GetCollections) (getCollections pf) ;;
     let exists_ := existsb (fun c => String.eqb c collectionName) collections in
     if negb exists_ then
       effect (log (CreateCollection collectionName EMBEDDING_DIMENSIONS "Cosine" 2 2))
              (createCollection pf collectionName) ;;;
       effect (log (CreatePayloadIndex collectionName "doc_id" "keyword"))
              (createPayloadIndex pf collectionName) ;;;
       effect (log (LogInfo ("Created collection: " ++ collectionName))) (Returns tt)
     else pure tt)
    (fun _ =>
       effect (log (LogError "Failed to ensure collection:")) (Returns tt) ;;;
       raise "Failed to initialize vector store").

Definition batchSize : nat := 100.

Definition storeVectors (pf : Platform) (userId : string) (vectors : list Point)
  : Eff Store unit :=
  getQdrantClient pf ;;;
  let collectionName := getCollectionName userId in
  catch
    (ensureCollection pf userId ;;;
     forBatches batchSize
       (fun _ batch =>
          effect (log (Upsert collectionName true batch))
                 (upsert pf collectionName batch))
       vectors (List.length vectors) 0 tt)
    (fun _ =>
       effect (log (LogError "Failed to store vectors:")) (Returns tt) ;;;
       raise "Failed to store vectors in database").

(** The filter of a search: none unless document ids are given. *)
Definition filterOf (documentIds : option (list string)) : option Filter :=
  match documentIds with
  | Some ids =>
      if (0 <? List.length ids)%nat
      then Some (Should (map (fun docId => Match "doc_id" docId) ids))
      else None
  | None => None
  end.

Definition searchVectors (pf : Platform) (userId : string) (queryVector : list float)
    (options : SearchOptions) : Eff Store (list Environment.SearchResult) :=
  getQdrantClient pf ;;;
  let collectionName := getCollectionName userId in
  let limit := match topK options with Some k => k | None => Constants.TOP_K end in
  let threshold := match scoreThreshold options with
                   | Some t => t
                   | None => Constants.SIMILARITY_THRESHOLD
                   end in
  catch
    (let filter := filterOf (documentIds options) in
     results <~ effect (log (Search collectionName queryVector limit threshold filter true))
                       (search pf collectionName queryVector limit threshold filter) ;;
     pure results)
    (fun _ =>
       effect (log (LogError "Failed to search vectors:")) (Returns tt) ;;;
       raise "Failed to search vector database").

Definition deleteDocumentVectors (pf : Platform) (userId documentId : string)
  : Eff Store unit :=
  getQdrantClient pf ;;;
  let collectionName := getCollectionName userId in
  let filter := Must [Match "doc_id" documentId] in
  catch
    (effect (log (DeletePoints collectionName filter)) (delete pf collectionName filter))
    (fun _ =>
       effect (log (LogError "Failed to delete document vectors:")) (Returns tt) ;;;
       raise "Failed to delete document vectors").

Definition getCollectionStats (pf : Platform) (userId : string) : Eff Store Stats :=
  getQdrantClient pf ;;;
  let collectionName := getCollectionName userId in
  catch
    (info <~ effect (log (GetCollection collectionName))
                    (getCollection pf collectionName) ;;
     pure {| vectorCount := match points_count info with
                            | Some n => if (n =? 0)%Z then 0%Z else n
                            | None => 0%Z
                            end;
             indexed := String.eqb (info_status info) "green" |})
    (fun _ => pure {| vectorCount := 0%Z; indexed := false |}).

End VectorStore.

(* ================================================================== *)
(** ** The query form: reading the streamed answer *)
(* ================================================================== *)

Module QueryInterface.
Import JS Rx Handler Http.

(** [s.split(sep)] for a separator of at least one character: the pieces
    between its occurrences, found from left to right.  [skip] counts the
    characters of the current occurrence still to be passed over. *)
Fixpoint splitAt (sep : string) (skip : nat) (s : string) {struct s} : list string :=
  match skip with
  | S k =>
      match s with
      | EmptyString => [""]
      | String _ s' => splitAt sep k s'
      end
  | O =>
      match s with
      | EmptyString => [""]
      | String c s' =>
          if startsWith s sep then "" :: splitAt sep (String.length sep - 1) s'
          else match splitAt sep 0 s' with
               | piece :: pieces => String c piece :: pieces
               | [] => [String c ""]
               end
      end
  end.

Definition splitOn (sep s : string) : list string := splitAt sep 0 s.

Definition sourcesMarker : string := "__SOURCES__:".
Definition confidenceMarker : string := "__CONFIDENCE__:".

(** A first line, captured: a non-empty run without line feed at the
    start. *)
Definition firstLine : rx := Cat Bol (Grp (Many1 (Cls notLF))).

(** A first line with the line feed that ends it, if there is one. *)
Definition firstLineAndBreak : rx :=
  Cat Bol (Cat (Many1 (Cls notLF)) (Maybe (Chr LF))).

(** One of the three labels at the start, captured. *)
Definition label : rx :=
  Cat Bol (Grp (Or (Str "High") (Or (Str "Medium") (Str "Low")))).

(** An update of the answer that the form has asked React for: a text to
    append, or the updater [(prev) => prev + buffer], which appends what
    the variable [buffer] of the reading loop holds when React runs
    it. *)
Inductive Update : Type :=
| Append (s : string)
| AppendBuffer.

(** What the form shows, the text received but not yet shown, and the
    updates of the answer that wait for the next render. *)
Record View : Type := {
  answer : string;
  sources : Json;
  confidence : option string;
  buffer : string;
  errors : list string;               (* [console.error] *)
  waiting : list Update
}.

(** The state the form is reset to before the request. *)
Definition reset : View :=
  {| answer := ""; sources := JArr []; confidence := None; buffer := "";
     errors := []; waiting := [] |}.

(** What an update appends when it is run while [buffer] holds
    [buffer]. *)
Definition valueOf (buffer : string) (u : Update) : string :=
  match u with
  | Append s => s
  | AppendBuffer => buffer
  end.

(** A render: React runs the waiting updates, in the order of the
    calls. *)
Definition render (v : View) : View :=
  {| answer := fold_left (fun prev u => prev ++ valueOf (buffer v) u)
                         (waiting v) (answer v);
     sources := sources v; confidence := confidence v; buffer := buffer v;
     errors := errors v; waiting := [] |}.

(** [setAnswer((prev) => prev + buffer)], called while [buffer] holds
    [buffer].  When no update is waiting React may run the updater
    inside the call ([atOnce]); otherwise the updater waits for the next
    render. *)
Definition setAnswerFromBuffer (atOnce : bool) (buffer : string)
    (waiting : list Update) : list Update :=
  match waiting with
  | [] => [if atOnce then Append buffer else AppendBuffer]
  | _ :: _ => (waiting ++ [AppendBuffer])%list
  end.

(** One turn of the reading loop, for the chunk [chunk]. *)
Definition receive (JSONparse : string -> outcome Json) (atOnce : bool) (v : View)
    (chunk : string) : View :=
  let buffer := buffer v ++ chunk in
  if includes buffer sourcesMarker then
    let parts := splitOn sourcesMarker buffer in
    let waiting := (waiting v ++ [Append (nth 0 parts "")])%list in
    let v1 :=
      match exec firstLine (nth 1 parts "") with
      | Some sourcesMatch =>
          match JSONparse (nth 0 (snd sourcesMatch) "") with
          | Returns parsedSources =>
              {| answer := answer v; sources := parsedSources;
                 confidence := confidence v; buffer := buffer; errors := errors v;
                 waiting := waiting |}
          | Throws _ =>
              {| answer := answer v; sources := sources v;
                 confidence := confidence v; buffer := buffer;
                 errors := (errors v ++ ["Failed to parse sources"])%list;
                 waiting := waiting |}
          end
      | None =>
          {| answer := answer v; sources := sources v;
             confidence := confidence v; buffer := buffer; errors := errors v;
             waiting := waiting |}
      end in
    {| answer := answer v1; sources := sources v1;
       confidence := confidence v1;
       buffer := removeMatch firstLineAndBreak (nth 1 parts "");
       errors := errors v1; waiting := QueryInterface.waiting v1 |}
  else if includes buffer confidenceMarker then
    let parts := splitOn confidenceMarker buffer in
    {| answer := answer v; sources := sources v;
       confidence :=
         match exec label (nth 1 parts "") with
         | Some confMatch => Some (nth 0 (snd confMatch) "")
         | None => confidence v
         end;
       buffer := removeMatch firstLineAndBreak (nth 1 parts "");
       errors := errors v; waiting := waiting v |}
  else
    {| answer := answer v; sources := sources v;
       confidence := confidence v; buffer := ""; errors := errors v;
       waiting := setAnswerFromBuffer atOnce buffer (waiting v) |}.

(** After the last chunk: what is left in the buffer is to be shown
    unless it contains two underscores. *)
Definition finish (v : View) : View :=
  if truthy (buffer v) && negb (includes (buffer v) "__") then
    {| answer := answer v; sources := sources v;
       confidence := confidence v; buffer := buffer v; errors := errors v;
       waiting := (waiting v ++ [AppendBuffer])%list |}
  else v.

(** The turns of the loop for the chunks of a response, the first of
    which is chunk number [i].  Whether React runs the updater of turn
    [k] inside the call ([eager k]) and whether it renders the form
    while the loop waits for chunk [k + 1] ([renders k]) is up to its
    scheduler. *)
Fixpoint receiveAll (JSONparse : string -> outcome Json) (eager renders : nat -> bool)
    (i : nat) (chunks : list string) (v : View) : View :=
  match chunks with
  | [] => v
  | chunk :: rest =>
      let v1 := receive JSONparse (eager i) v chunk in
      receiveAll JSONparse eager renders (S i) rest
        (if renders i then render v1 else v1)
  end.

(** The reading loop over the chunks of a response, from the reset
    state, and the render that follows it. *)
Definition read (JSONparse : string -> outcome Json) (eager renders : nat -> bool)
    (chunks : list string) : View :=
  render (finish (receiveAll JSONparse eager renders 0 chunks reset)).

End QueryInterface.

(* ================================================================== *)
(** ** Readings of the library modules, for the statements *)
(* ================================================================== *)

Module Derived.
Import JS UtilsText Schema Handler Environment Http.

(** Every character of [s] is in the class [p]. *)
Fixpoint every (p : ascii -> bool) (s : string) : bool :=
  match s with
  | EmptyString => true
  | String c s' => p c && every p s'
  end.

(** What one character becomes under [escapeHtml]. *)
Definition entity (c : ascii) : string :=
  if isHtmlSpecial c then
    match escapeOf htmlEscapes c with
    | Some e => if truthy e then e else String c EmptyString
    | None => String c EmptyString
    end
  else String c EmptyString.

(** The document row the upload route inserts for a file stored at
    [url]. *)
Definition newDocument (env : Env) (d : DB) (file : File) (user : User)
    (url : string) : Document :=
  {| doc_id := randomUUID env d;
     userId := user_id user;
     fileName := file_name file;
     fileSize := file_size file;
     mimeType := file_type file;
     storageUrl := url;
     Schema.status := "processing";
     chunkCount := Some 0%Z;
     metadata := None;
     errorMessage := None;
     createdAt := dbNow env;
     updatedAt := dbNow env |}.

(** What is logged after the storage write of an upload: the call of
    the worker and, if it is refused or fails, one error; or the warning
    that no worker is configured. *)
Definition afterStorageWrite (env : Env) (doc : Document) : list Event :=
  if truthy_opt (WORKER_URL env) then
    WorkerNotify (doc_id doc) (storageUrl doc) (userId doc)
    :: match workerFetch env (doc_id doc) (storageUrl doc) (userId doc) with
       | Returns true => []
       | Returns false => [ConsoleError "Worker processing request failed:"]
       | Throws _ => [ConsoleError "Failed to send processing request to worker:"]
       end
  else [ConsoleWarn "WORKER_URL not configured. Document processing skipped."].

(** The rows of page [p] when a page holds [l] rows. *)
Definition pageOf (rows : list Document) (p l : Z) : list Document :=
  firstn (Z.to_nat l) (skipn (Z.to_nat ((p - 1) * l)) rows).

(** Newest first. *)
Definition newerFirst (a b : Document) : Prop := (createdAt b <= createdAt a)%Z.

(** What a report of the worker may change between the database before,
    [d], and after, [d']: nothing but [documents]; there, no row is added,
    removed or moved, and a row keeps its id, owner, file and creation
    time.  A row whose id is not the uuid that the report names is
    untouched; in the reported row a column changes only if the report
    carries a value for it, and the status only to one of the three the
    route accepts. *)
Definition framed (requestJson : outcome ProcessRoute.ProcessBody) (d d' : DB) : Prop :=
  users d' = users d
  /\ chunks d' = chunks d
  /\ queries d' = queries d
  /\ documentCollections d' = documentCollections d
  /\ List.length (documents d') = List.length (documents d)
  /\ forall (n : nat) (x : Document),
      nth_error (documents d) n = Some x ->
      exists y,
        nth_error (documents d') n = Some y
        /\ doc_id y = doc_id x
        /\ userId y = userId x
        /\ fileName y = fileName x
        /\ fileSize y = fileSize x
        /\ mimeType y = mimeType x
        /\ storageUrl y = storageUrl x
        /\ metadata y = metadata x
        /\ createdAt y = createdAt x
        /\ ((forall b i, requestJson = Returns b ->
                         ProcessRoute.document_id b = Some i ->
                         uuid_in i <> Some (doc_id x)) ->
            y = x)
        /\ (forall b, requestJson = Returns b ->
                      truthy_opt (ProcessRoute.status b) = false ->
                      Schema.status y = Schema.status x)
        /\ (forall b, requestJson = Returns b ->
                      ProcessRoute.chunk_count b = None ->
                      chunkCount y = chunkCount x)
        /\ (forall b, requestJson = Returns b ->
                      truthy_opt (ProcessRoute.error_message b) = false ->
                      errorMessage y = errorMessage x)
        /\ (Schema.status y = Schema.status x
            \/ In (Schema.status y) ProcessRoute.validStatuses).

(** The characters of a sanitised file name. *)
Definition isPlain (c : ascii) : bool :=
  StorageLib.isSafe c || Ascii.eqb c "_".

(** What [deleteDocument] logs for the object [name]. *)
Definition deletion (pf : StorageLib.Platform) (name : string)
  : list StorageLib.Call :=
  StorageLib.Delete name
  :: match StorageLib.remove pf name with
     | Returns _ => []
     | Throws _ => [StorageLib.LogError "Failed to delete file from storage:"]
     end.

(** The batches sent to the vector store, in order, each with the
    collection it was sent to. *)
Definition upserted (cs : list VectorStore.Call)
  : list (string * list VectorStore.Point) :=
  flat_map (fun c => match c with
                     | VectorStore.Upsert name _ points => [(name, points)]
                     | _ => []
                     end) cs.

(** The collection a call to the vector store addresses, if any. *)
Definition collectionOf (c : VectorStore.Call) : option string :=
  match c with
  | VectorStore.CreateCollection name _ _ _ _
  | VectorStore.CreatePayloadIndex name _ _
  | VectorStore.Upsert name _ _
  | VectorStore.Search name _ _ _ _ _
  | VectorStore.DeletePoints name _
  | VectorStore.GetCollection name => Some name
  | _ => None
  end.

(** A chunk of answer text: it contains neither marker of the
    trailer. *)
Definition noMarker (chunk : string) : Prop :=
  includes chunk QueryInterface.sourcesMarker = false
  /\ includes chunk QueryInterface.confidenceMarker = false.

(** What the form shows of [v] once React has run the waiting updates
    with [late] in the buffer. *)
Definition settled (late : string) (v : QueryInterface.View) : string :=
  QueryInterface.answer v
  ++ fold_right append ""
       (map (QueryInterface.valueOf late) (QueryInterface.waiting v)).

Definition isEmpty {A} (l : list A) : bool :=
  match l with [] => true | _ :: _ => false end.

(** The two lines the query route ends its stream with. *)
Definition sourcesLine (sourcesJson : string) : string :=
  QueryRoute.nl ++ QueryRoute.nl ++ "__SOURCES__:" ++ sourcesJson ++ QueryRoute.nl.

Definition confidenceLine (c : Utils.Confidence) : string :=
  "__CONFIDENCE__:" ++ Utils.confidenceText c ++ QueryRoute.nl.

(** A call that addresses the collection of [userId], or none. *)
Definition scoped (userId : string) (c : VectorStore.Call) : Prop :=
  collectionOf c = None
  \/ collectionOf c = Some (VectorStore.getCollectionName userId).

(** Every call the computation [m] makes, from whatever state, satisfies
    [P]; the calls made before stay in the log. *)
Definition grows {A} (P : VectorStore.Call -> Prop)
    (m : Eff.Eff VectorStore.Store A) : Prop :=
  forall st,
    exists new,
      VectorStore.calls (snd (m st)) = (VectorStore.calls st ++ new)%list
      /\ Forall P new.

(** No client of the vector store exists in [st] and none can be had:
    the URL is not set, or the constructor throws [e]. *)
Definition noClient (pf : VectorStore.Platform) (st : VectorStore.Store)
    (e : string) : Prop :=
  VectorStore.qdrantClient st = false
  /\ ((e = "QDRANT_URL environment variable is not set"
       /\ truthy_opt (VectorStore.QDRANT_URL pf) = false)
      \/ exists url,
          VectorStore.QDRANT_URL pf = Some url
          /\ truthy url = true
          /\ VectorStore.newQdrantClient pf url (VectorStore.QDRANT_API_KEY pf)
             = Throws e).

(** The characters that are not an underscore. *)
Definition notUnderscore (c : ascii) : bool := negb (Ascii.eqb c "_").

(** The characters that are not a hyphen. *)
Definition notHyphen (c : ascii) : bool := negb (Ascii.eqb c "-").

End Derived.

(* ================================================================== *)
(** ** Sample collaborators of the library modules *)
(* ================================================================== *)

Module Fixture.
Import Handler.
Local Open Scope Z_scope.

(** A configured platform whose bucket accepts writes and refuses
    deletions. *)
Definition platform : StorageLib.Platform :=
  {| StorageLib.GCP_PROJECT_ID := Some "docurag-dev";
     StorageLib.GCP_SERVICE_ACCOUNT_KEY := None;
     StorageLib.GCS_BUCKET_NAME := Some "docurag";
     StorageLib.JSONparse := fun _ => Returns tt;
     StorageLib.Date_now := fun n => 1700000000000 + Z.of_nat n;
     StorageLib.write := fun _ => Returns tt;
     StorageLib.getSignedUrl := fun name _ => Returns ("https://signed.example/" ++ name);
     StorageLib.remove := fun _ => Throws "not found";
     StorageLib.present := fun _ => Returns true |}.

Definition fresh : StorageLib.Store :=
  {| StorageLib.storage := false; StorageLib.calls := [] |}.

Definition ready : StorageLib.Store :=
  {| StorageLib.storage := true;
     StorageLib.calls := [StorageLib.NewStorage "docurag-dev" false] |}.

Definition scan : Environment.File :=
  {| Environment.file_name := "Q3 report (final).pdf";
     Environment.file_size := 4096;
     Environment.file_type := "application/pdf" |}.

End Fixture.

(* ================================================================== *)
(** ** lib/embeddings.ts *)
(* ================================================================== *)

Module Embeddings.
Import JS Handler Eff.
Local Open Scope eff_scope.

(** What the prediction service takes and gives.  An instance is known
    by its two fields.  Of a prediction counts the list at the end of
    the chain [structValue?.fields?.embeddings?.structValue?.fields
    ?.values?.listValue?.values], if every link is there; of a value of
    that list its [numberValue], if it has one. *)
Record Instance : Type := { content : string; task_type : string }.

Record Value : Type := { numberValue : option float }.

Record Prediction : Type := { values : option (list Value) }.

Record Response : Type := { predictions : option (list Prediction) }.

(** The environment variables and the answers of the service. *)
Record Platform : Type := {
  GCP_PROJECT_ID : option string;
  GCP_SERVICE_ACCOUNT_KEY : option string;
  VERTEX_AI_LOCATION : option string;
  JSONparse : string -> outcome unit;
  predict : string -> list Instance -> outcome Response
}.

Inductive Call : Type :=
| NewClient (apiEndpoint : string) (credentials : bool)
| Predict (endpoint : string) (instances : list Instance)
| LogError (message : string).

(** The module state: whether [predictionClient] holds a client, and the
    calls made so far. *)
Record Store : Type := { predictionClient : bool; calls : list Call }.

Definition log (c : Call) (st : Store) : Store :=
  {| predictionClient := predictionClient st; calls := (calls st ++ [c])%list |}.

(** [process.env.VERTEX_AI_LOCATION || 'us-central1'] *)
Definition locationOf (pf : Platform) : string :=
  match VERTEX_AI_LOCATION pf with
  | Some l => if truthy l then l else "us-central1"
  | None => "us-central1"
  end.

Definition getPredictionClient (pf : Platform) : Eff Store unit :=
  st <~ read ;;
  if predictionClient st then pure tt
  else
    if negb (truthy_opt (GCP_PROJECT_ID pf)) then
      raise "GCP_PROJECT_ID environment variable is not set"
    else
      credentials <~
        (if truthy_opt (GCP_SERVICE_ACCOUNT_KEY pf) then
           lift (JSONparse pf (match GCP_SERVICE_ACCOUNT_KEY pf with
                               | Some k => k
                               | None => ""
                               end)) ;;;
           pure true
         else pure false) ;;
      let location := locationOf pf in
      effect
        (fun st =>
           {| predictionClient := true;
              calls := (calls st
                          ++ [NewClient (location ++ "-aiplatform.googleapis.com")
                                        credentials])%list |})
        (Returns tt).

(** The endpoint of the embedding model; an unset project id reads
    [undefined] in the template. *)
Definition endpointOf (pf : Platform) : string :=
  let projectId := match GCP_PROJECT_ID pf with
                   | Some p => p
                   | None => "undefined"
                   end in
  "projects/" ++ projectId ++ "/locations/" ++ locationOf pf
  ++ "/publishers/google/models/text-embedding-004".

(** [v.numberValue || 0]: the number, unless it is missing, a zero or
    NaN. *)
Definition orZero (v : Value) : float :=
  match numberValue v with
  | Some x => if (PrimFloat.is_nan x || PrimFloat.eqb x 0)%bool then 0%float else x
  | None => 0%float
  end.

(** The inner loop over the predictions of one response: a prediction
    without the list of values is passed over. *)
Definition collect (allEmbeddings : list (list float)) (response : Response)
  : list (list float) :=
  match predictions response with
  | Some ps =>
      fold_left
        (fun all prediction =>
           match values prediction with
           | Some embedding => (all ++ [map orZero embedding])%list
           | None => all
           end)
        ps allEmbeddings
  | None => allEmbeddings
  end.

Definition batchSize : nat := 250.

Definition documentInstance (text : string) : Instance :=
  {| content := text; task_type := "RETRIEVAL_DOCUMENT" |}.

Definition generateEmbeddings (pf : Platform) (texts : list string)
  : Eff Store (list (list float)) :=
  if (List.length texts =? 0)%nat then pure []
  else
    getPredictionClient pf ;;;
    let endpoint := endpointOf pf in
    catch
      (forBatches batchSize
         (fun allEmbeddings batch =>
            let instances := map documentInstance batch in
            response <~ effect (log (Predict endpoint instances))
                               (predict pf endpoint instances) ;;
            pure (collect allEmbeddings response))
         texts (List.length texts) 0 [])
      (fun _ =>
         effect (log (LogError "Failed to generate embeddings:")) (Returns tt) ;;;
         raise "Failed to generate embeddings").

Definition generateQueryEmbedding (pf : Platform) (query : string)
  : Eff Store (list float) :=
  getPredictionClient pf ;;;
  let endpoint := endpointOf pf in
  catch
    (let instances := [{| content := query; task_type := "RETRIEVAL_QUERY" |}] in
     response <~ effect (log (Predict endpoint instances))
                        (predict pf endpoint instances) ;;
     match predictions response with
     | Some (first :: _) =>
         match values first with
         | Some embedding => pure (map orZero embedding)
         | None => raise "No embedding returned from Vertex AI"
         end
     | _ => raise "No embedding returned from Vertex AI"
     end)
    (fun _ =>
       effect (log (LogError "Failed to generate query embedding:")) (Returns tt) ;;;
       raise "Failed to generate query embedding").

(** [validateEmbedding]: the argument is an array of numbers here. *)
Definition validateEmbedding (embedding : list float) : bool :=
  (Z.of_nat (List.length embedding) =? VectorStore.EMBEDDING_DIMENSIONS)%Z
  && forallb (fun v => negb (PrimFloat.is_nan v)) embedding.

End Embeddings.

(* ================================================================== *)
(** ** lib/llm.ts: the completion and the prompt *)
(* ================================================================== *)

Module Completion.
Import JS Handler Eff Environment.
Local Open Scope eff_scope.

Record LLMMessage : Type := { role : string; content : string }.

Record GenerateOptions : Type := {
  maxTokens : option Z;
  temperature : option float;
  topP : option float;
  stopSequences : option (list string)
}.

(** [options = {}] *)
Definition noOptions : GenerateOptions :=
  {| maxTokens := None; temperature := None; topP := None; stopSequences := None |}.

(** One entry of [contents]: a role and the texts of its parts. *)
Record Content : Type := { c_role : string; parts : list string }.

(** Of a prediction counts the string at the end of the chain
    [structValue?.fields?.candidates?.listValue?.values?.[0]? ...
    ?.text?.stringValue], if every link is there. *)
Record Prediction : Type := { stringValue : option string }.

Record Response : Type := { predictions : option (list Prediction) }.

Record Platform : Type := {
  GCP_PROJECT_ID : option string;
  GCP_SERVICE_ACCOUNT_KEY : option string;
  VERTEX_AI_LOCATION : option string;
  JSONparse : string -> outcome unit;
  predict : string -> list Content -> Z -> float -> float -> outcome Response
}.

Inductive Call : Type :=
| NewClient (apiEndpoint : string) (credentials : bool)
| Predict (endpoint : string) (contents : list Content) (maxOutputTokens : Z)
    (temperature topP : float)
| LogError (message : string).

Record Store : Type := { predictionClient : bool; calls : list Call }.

Definition log (c : Call) (st : Store) : Store :=
  {| predictionClient := predictionClient st; calls := (calls st ++ [c])%list |}.

Definition locationOf (pf : Platform) : string :=
  match VERTEX_AI_LOCATION pf with
  | Some l => if truthy l then l else "us-central1"
  | None => "us-central1"
  end.

Definition getPredictionClient (pf : Platform) : Eff Store unit :=
  st <~ read ;;
  if predictionClient st then pure tt
  else
    if negb (truthy_opt (GCP_PROJECT_ID pf)) then
      raise "GCP_PROJECT_ID environment variable is not set"
    else
      credentials <~
        (if truthy_opt (GCP_SERVICE_ACCOUNT_KEY pf) then
           lift (JSONparse pf (match GCP_SERVICE_ACCOUNT_KEY pf with
                               | Some k => k
                               | None => ""
                               end)) ;;;
           pure true
         else pure false) ;;
      let location := locationOf pf in
      effect
        (fun st =>
           {| predictionClient := true;
              calls := (calls st
                          ++ [NewClient (location ++ "-aiplatform.googleapis.com")
                                        credentials])%list |})
        (Returns tt).

Definition endpointOf (pf : Platform) : string :=
  let projectId := match GCP_PROJECT_ID pf with
                   | Some p => p
                   | None => "undefined"
                   end in
  "projects/" ++ projectId ++ "/locations/" ++ locationOf pf
  ++ "/publishers/google/models/gemini-1.5-pro".

(** [text.split(/\s+/)]: the pieces between the maximal runs of white
    space; [inRun] says that the character before was white space. *)
Fixpoint splitSpaces (inRun : bool) (s : string) : list string :=
  match s with
  | EmptyString => [""]
  | String c s' =>
      if isSpace c then
        if inRun then splitSpaces true s' else "" :: splitSpaces true s'
      else
        match splitSpaces false s' with
        | w :: ws => String c w :: ws
        | [] => [String c ""]
        end
  end.

(** [Math.ceil(x)] of a finite number, as an integer. *)
Definition Math_ceil (x : float) : Z :=
  match Prim2SF x with
  | S754_finite s m e =>
      let v := if s then (- Z.pos m)%Z else Z.pos m in
      if (0 <=? e)%Z then (v * 2 ^ e)%Z else (- ((- v) / 2 ^ (- e)))%Z
  | _ => 0%Z
  end.

(** [Math.ceil(text.split(/\s+/).length * 1.3)] *)
Definition tokenCountOf (text : string) : Z :=
  Math_ceil
    (PrimFloat.of_uint63
       (Uint63.of_Z (Z.of_nat (List.length (splitSpaces false text))))
     * 1.3)%float.

Definition contentsOf (messages : list LLMMessage) : list Content :=
  map (fun msg =>
         {| c_role := if String.eqb (role msg) "assistant" then "model" else role msg;
            parts := [content msg] |})
      messages.

Definition generateCompletion (pf : Platform) (messages : list LLMMessage)
    (options : GenerateOptions) : Eff Store (string * Z) :=
  getPredictionClient pf ;;;
  let maxTokens := match maxTokens options with Some n => n | None => 2048%Z end in
  let temperature := match temperature options with
                     | Some t => t
                     | None => 0.3%float
                     end in
  let topP := match topP options with Some p => p | None => 0.95%float end in
  let endpoint := endpointOf pf in
  catch
    (let contents := contentsOf messages in
     response <~ effect (log (Predict endpoint contents maxTokens temperature topP))
                        (predict pf endpoint contents maxTokens temperature topP) ;;
     match predictions response with
     | Some (prediction :: _) =>
         let text := match stringValue prediction with
                     | Some t => if truthy t then t else ""
                     | None => ""
                     end in
         let tokenCount := tokenCountOf text in
         pure (text, tokenCount)
     | _ => raise "No response from Gemini"
     end)
    (fun _ =>
       effect (log (LogError "LLM generation failed:")) (Returns tt) ;;;
       raise "Failed to generate response").

(** [contexts.map((ctx, i) => ...)], from the index [i] on. *)
Fixpoint mapIndexed {A B} (f : A -> nat -> B) (i : nat) (xs : list A) : list B :=
  match xs with
  | [] => []
  | x :: xs' => f x i :: mapIndexed f (Datatypes.S i) xs'
  end.

(** [ctx.page ? ` (Page ${ctx.page})` : ''] *)
Definition pageInfoOf (page : option Z) : string :=
  match page with
  | Some p => if (p =? 0)%Z then "" else " (Page " ++ UploadRoute.decimal p ++ ")"
  | None => ""
  end.

Definition sourceBlock (ctx : RagContext) (i : nat) : string :=
  "[Source " ++ UploadRoute.decimal (Z.of_nat (i + 1)) ++ "]" ++ pageInfoOf (ctx_page ctx)
  ++ ":" ++ QueryRoute.nl ++ ctx_content ctx.

Definition contextTextOf (contexts : list RagContext) : string :=
  join (QueryRoute.nl ++ QueryRoute.nl) (mapIndexed sourceBlock 0 contexts).

Definition systemPrompt : string :=
  "You are a helpful document assistant that answers questions based solely on the provided context. "
  ++ QueryRoute.nl ++ QueryRoute.nl
  ++ "Instructions:" ++ QueryRoute.nl
  ++ "1. Only use information from the provided sources to answer questions" ++ QueryRoute.nl
  ++ "2. If the answer is not in the sources, clearly state that you cannot find the information" ++ QueryRoute.nl
  ++ "3. Cite sources using [Source N] format when using information from them" ++ QueryRoute.nl
  ++ "4. Be concise but comprehensive" ++ QueryRoute.nl
  ++ "5. If sources conflict, mention the discrepancy" ++ QueryRoute.nl
  ++ "6. Never make up or hallucinate information".

Definition userPromptOf (contextText query : string) : string :=
  "Context from documents:" ++ QueryRoute.nl
  ++ contextText ++ QueryRoute.nl ++ QueryRoute.nl
  ++ "Question: " ++ query ++ QueryRoute.nl ++ QueryRoute.nl
  ++ "Please provide a clear, accurate answer based only on the sources above.".

Definition generateRAGResponse (pf : Platform) (query : string)
    (contexts : list RagContext) (options : GenerateOptions) : Eff Store (string * Z) :=
  let contextText := contextTextOf contexts in
  let messages :=
    [{| role := "system"; content := systemPrompt |};
     {| role := "user"; content := userPromptOf contextText query |}] in
  completion <~ generateCompletion pf messages
                  {| maxTokens := maxTokens options;
                     temperature := Some 0.2%float;
                     topP := topP options;
                     stopSequences := stopSequences options |} ;;
  pure (fst completion, snd completion).

End Completion.

(* ================================================================== *)
(** ** Notions the properties of the two modules are stated with *)
(* ================================================================== *)

Module DerivedEmbeddings.
Import Handler Eff Embeddings.

(** No component of a vector is NaN. *)
Definition numeric (e : list float) : Prop :=
  forallb (fun v => negb (PrimFloat.is_nan v)) e = true.

(** The vectors one batch contributes. *)
Definition answered (pf : Platform) (batch : list string) : list (list float) :=
  match predict pf (endpointOf pf) (map documentInstance batch) with
  | Returns response => collect [] response
  | Throws _ => []
  end.

Definition request (pf : Platform) (batch : list string) : Call :=
  Predict (endpointOf pf) (map documentInstance batch).

(** The body of the batch loop of [generateEmbeddings]. *)
Definition step (pf : Platform) (allEmbeddings : list (list float))
    (batch : list string) : Eff Store (list (list float)) :=
  andThen
    (effect (log (Predict (endpointOf pf) (map documentInstance batch)))
            (predict pf (endpointOf pf) (map documentInstance batch)))
    (fun response => pure (collect allEmbeddings response)).

End DerivedEmbeddings.

Module DerivedPrompt.
Import JS Handler Eff Completion.

(** What a call of the completion has to look like. *)
Definition asked (pf : Platform) (contents : list Content) (maxOutputTokens : Z)
    (temperature topP : float) (c : Call) : Prop :=
  match c with
  | Predict endpoint contents' maxOutputTokens' temperature' topP' =>
      endpoint = endpointOf pf /\ contents' = contents
      /\ maxOutputTokens' = maxOutputTokens
      /\ temperature' = temperature /\ topP' = topP
  | NewClient _ _ => True
  | LogError _ => True
  end.

Definition isPredict (c : Call) : bool :=
  match c with Predict _ _ _ _ _ => true | _ => false end.

(** The text read off the first prediction. *)
Definition textOf (prediction : Prediction) : string :=
  match stringValue prediction with
  | Some t => if truthy t then t else ""
  | None => ""
  end.

Definition question (pf : Platform) (messages : list LLMMessage)
    (options : GenerateOptions) : Call :=
  Predict (endpointOf pf) (contentsOf messages)
    (match maxTokens options with Some n => n | None => 2048%Z end)
    (match temperature options with Some t => t | None => 0.3%float end)
    (match topP options with Some p => p | None => 0.95%float end).

Definition reply (pf : Platform) (messages : list LLMMessage)
    (options : GenerateOptions) : outcome Response :=
  predict pf (endpointOf pf) (contentsOf messages)
    (match maxTokens options with Some n => n | None => 2048%Z end)
    (match temperature options with Some t => t | None => 0.3%float end)
    (match topP options with Some p => p | None => 0.95%float end).

Definition failed (st : Store) : outcome (string * Z) * Store :=
  (Throws "Failed to generate response", log (LogError "LLM generation failed:") st).

End DerivedPrompt.

Module FixtureEmbeddings.
Import Handler Embeddings.

(** A configured platform whose model answers every instance with the
    same three values: a number, NaN, and a value without a number. *)
Definition platform : Platform :=
  {| GCP_PROJECT_ID := Some "docurag-dev";
     GCP_SERVICE_ACCOUNT_KEY := None;
     VERTEX_AI_LOCATION := None;
     JSONparse := fun _ => Returns tt;
     predict := fun _ instances =>
       Returns
         {| predictions :=
              Some (map (fun _ =>
                           {| values := Some [{| numberValue := Some 0.5%float |};
                                              {| numberValue := Some PrimFloat.nan |};
                                              {| numberValue := None |}] |})
                        instances) |} |}.

Definition fresh : Store := {| predictionClient := false; calls := [] |}.

End FixtureEmbeddings.

(* ================================================================== *)
(** * Properties *)
(* ================================================================== *)

(** ** Strings *)

Module StringFacts.
Import JS.

Lemma length_append (a b : string) :
  String.length (a ++ b) = (String.length a + String.length b)%nat.
Proof. induction a as [|c a IH]; simpl; [reflexivity | now rewrite IH]. Qed.

Lemma take_append (w rest : string) :
  take (String.length (w ++ rest) - String.length rest) (w ++ rest) = w.
Proof.
  rewrite length_append.
  replace (String.length w + String.length rest - String.length rest)%nat
    with (String.length w) by lia.
  induction w as [|c w IH]; simpl.
  - destruct rest; reflexivity.
  - now rewrite IH.
Qed.

Lemma append_assoc (a b c : string) : (a ++ b) ++ c = a ++ (b ++ c).
Proof. induction a as [|x a IH]; simpl; [reflexivity | now rewrite IH]. Qed.

Lemma append_nil (a : string) : a ++ "" = a.
Proof. induction a as [|x a IH]; simpl; [reflexivity | now rewrite IH]. Qed.

Lemma mapChars_append f (a b : string) :
  mapChars f (a ++ b) = mapChars f a ++ mapChars f b.
Proof. induction a as [|x a IH]; simpl; [reflexivity | now rewrite IH]. Qed.

Lemma length_mapChars f (a : string) : String.length (mapChars f a) = String.length a.
Proof. induction a as [|x a IH]; simpl; [reflexivity | now rewrite IH]. Qed.

Lemma take_length (x y : string) : take (String.length x) (x ++ y) = x.
Proof. induction x as [|c x IH]; simpl; [now destruct y | now rewrite IH]. Qed.

Lemma drop_length (x y : string) : drop (String.length x) (x ++ y) = y.
Proof. induction x as [|c x IH]; simpl; [now destruct y | exact IH]. Qed.

Lemma take_drop (n : nat) (s : string) : take n s ++ drop n s = s.
Proof.
  revert s. induction n as [|n IH]; intros [|c s]; simpl; try reflexivity.
  now rewrite IH.
Qed.

(** Lower-casing commutes with joining on a blank. *)
Lemma toLowerCase_join (parts : list string) :
  join " " (map toLowerCase parts) = toLowerCase (join " " parts).
Proof.
  induction parts as [|p parts IH]; [reflexivity|].
  destruct parts as [|q parts]; [reflexivity|].
  change (join " " (map toLowerCase (p :: q :: parts)))
    with (toLowerCase p ++ " " ++ join " " (map toLowerCase (q :: parts))).
  change (join " " (p :: q :: parts)) with (p ++ " " ++ join " " (q :: parts)).
  rewrite IH. unfold toLowerCase.
  now rewrite !mapChars_append.
Qed.

(** [startsWith] and [includes] are what their names say. *)
Lemma startsWith_prefix (s p : string) :
  startsWith s p = true <-> exists after, s = p ++ after.
Proof.
  revert s. induction p as [|a p IH]; intros s; simpl.
  - split; [intros _; now exists s | intros _; now destruct s].
  - destruct s as [|c s]; [split; [discriminate | intros (x & H); discriminate H]|].
    cbn [startsWith]. rewrite andb_true_iff, Ascii.eqb_eq, IH. split.
    + intros (-> & after & ->). now exists after.
    + intros (after & E). cbn [append] in E. injection E as -> ->.
      split; [reflexivity | now exists after].
Qed.

Lemma includes_Occurs (s needle : string) :
  includes s needle = true <-> Expected.Occurs needle s.
Proof.
  unfold Expected.Occurs. split.
  - induction s as [|c s IH]; cbn [includes].
    + destruct (startsWith "" needle) eqn:E; [|discriminate]. intros _.
      apply startsWith_prefix in E as (after & E). now exists "", after.
    + destruct (startsWith (String c s) needle) eqn:E.
      * intros _. apply startsWith_prefix in E as (after & E). now exists "", after.
      * intros H. destruct (IH H) as (before & after & ->).
        now exists (String c before), after.
  - intros (before & after & ->). induction before as [|c before IH].
    + assert (E : startsWith (needle ++ after) needle = true)
        by (apply startsWith_prefix; now exists after).
      cbn [append]. destruct (needle ++ after); cbn [includes]; now rewrite E.
    + cbn [append includes]. rewrite IH. now destruct (startsWith _ _).
Qed.

Lemma not_includes (s needle : string) :
  includes s needle = false <-> ~ Expected.Occurs needle s.
Proof.
  rewrite <- includes_Occurs. destruct (includes s needle); split; congruence.
Qed.

End StringFacts.

(** ** The pattern of the numeric tokens *)

Module RegexFacts.
Import JS Regex StringFacts Expected.

(** [\d+] gives back the remainders after each non-empty run of leading
    digits, the longest run first: the bound on the iteration is never
    what stops it. *)
Lemma iterate_digits (s : string) :
  forall n, (String.length s <= n)%nat ->
            iterate (rmatch Digit) n s = digitRests s.
Proof.
  induction s as [|c s IH]; intros n Hn; [destruct n; reflexivity|].
  simpl in Hn. destruct n as [|n]; [lia|].
  cbn [iterate rmatch digitRests].
  destruct (isDigit c); [|reflexivity].
  cbn [flat_map]. rewrite IH by lia. now rewrite app_nil_r.
Qed.

Lemma rmatch_plus_digit (s : string) :
  rmatch (Plus Digit) s = digitRests s.
Proof. apply iterate_digits. lia. Qed.

Lemma digitRests_none (s : string) : digitAhead s = false -> digitRests s = [].
Proof. destruct s as [|c s]; [reflexivity|]. simpl. now intros ->. Qed.

(** After a run of digits that cannot be longer, the first remainder is
    what follows the run. *)
Lemma digitRests_head (whole tail : string) :
  digits whole -> digitAhead tail = false ->
  exists more, digitRests (whole ++ tail) = tail :: more.
Proof.
  intros [Hne Hall] Htail. induction whole as [|c whole IH]; [now elim Hne|].
  simpl in Hall. apply andb_true_iff in Hall as [Hc Hall].
  cbn [append digitRests]. rewrite Hc.
  destruct whole as [|c' whole].
  - cbn [append]. rewrite (digitRests_none _ Htail). now exists [].
  - destruct (IH ltac:(discriminate) Hall) as (more & ->).
    eexists. reflexivity.
Qed.

Lemma In_allAscii c : In c allAscii.
Proof.
  unfold allAscii. rewrite <- (ascii_nat_embedding c). apply in_map.
  apply in_seq. pose proof (nat_ascii_bounded c). lia.
Qed.

(** Under the [i] flag a character fits a lower-case literal exactly
    when its lower-case form is the literal. *)
Lemma canonical_lower (c a : ascii) :
  lowerChar a = a ->
  Ascii.eqb (canonicalize c) (canonicalize a) = Ascii.eqb (lowerChar c) a.
Proof.
  assert (H : forallb (fun x => forallb (fun y =>
              implb (Ascii.eqb (lowerChar y) y)
                    (Bool.eqb (Ascii.eqb (canonicalize x) (canonicalize y))
                              (Ascii.eqb (lowerChar x) y))) allAscii) allAscii = true)
    by (vm_compute; reflexivity).
  rewrite forallb_forall in H. specialize (H c (In_allAscii c)).
  rewrite forallb_forall in H. specialize (H a (In_allAscii a)).
  intros E. rewrite E, Ascii.eqb_refl in H. cbn [implb] in H.
  now apply Bool.eqb_prop in H.
Qed.

(** Every character of [w] is its own lower-case form. *)
Lemma rmatch_Lit (a : ascii) (s : string) :
  lowerChar a = a ->
  rmatch (Lit a) s
  = if prefixIgnoringCase (String a "") s then [drop 1 s] else [].
Proof.
  intros Ha. destruct s as [|c s]; [reflexivity|].
  unfold prefixIgnoringCase. cbn [rmatch String.length take toLowerCase mapChars drop].
  rewrite (canonical_lower c a Ha).
  destruct (Ascii.eqb (lowerChar c) a) eqn:E.
  - apply Ascii.eqb_eq in E. subst a. destruct s; cbn; now rewrite Ascii.eqb_refl.
  - replace (String.eqb _ _) with false; [reflexivity|].
    symmetry. apply String.eqb_neq. destruct s; cbn; intros [= H]; subst a;
      now rewrite Ascii.eqb_refl in E.
Qed.

Lemma rmatch_Word (w s : string) :
  lowered w = true ->
  rmatch (Word w) s
  = if prefixIgnoringCase w s then [drop (String.length w) s] else [].
Proof.
  revert s. induction w as [|a w IH]; intros s Hw.
  - unfold prefixIgnoringCase. cbn. now destruct s.
  - cbn [lowered] in Hw. apply andb_true_iff in Hw as [Ha Hw].
    apply Ascii.eqb_eq in Ha.
    cbn [Word rmatch]. destruct s as [|c s]; [reflexivity|].
    cbn [rmatch]. rewrite (canonical_lower c a Ha).
    unfold prefixIgnoringCase.
    cbn [String.length take toLowerCase mapChars drop String.eqb].
    destruct (Ascii.eqb (lowerChar c) a) eqn:E.
    + cbn [flat_map]. rewrite app_nil_r, (IH s Hw). reflexivity.
    + reflexivity.
Qed.

(** A word that the text begins with, in whatever case, is found by the
    test, and the other way round. *)
Lemma prefixIgnoringCase_begins (w s : string) :
  prefixIgnoringCase w s = true <-> beginsWith w s.
Proof.
  unfold prefixIgnoringCase, beginsWith. rewrite String.eqb_eq. split.
  - intros H. exists (take (String.length w) s), (drop (String.length w) s).
    split; [now rewrite take_drop | exact H].
  - intros (x & y & -> & <-). unfold toLowerCase.
    now rewrite length_mapChars, take_length.
Qed.

(** Two words the same text begins with have the same first letter. *)
Lemma prefixes_agree (w1 w2 s : string) (a1 a2 : ascii) (t1 t2 : string) :
  w1 = String a1 t1 -> w2 = String a2 t2 ->
  prefixIgnoringCase w1 s = true -> prefixIgnoringCase w2 s = true -> a1 = a2.
Proof.
  intros -> ->. unfold prefixIgnoringCase. rewrite !String.eqb_eq.
  destruct s as [|c s]; cbn; [discriminate|].
  intros [= <- _] [= <- _]. reflexivity.
Qed.

Lemma rmatch_Opt (r : regex) (s : string) :
  rmatch (Opt r) s = (rmatch r s ++ [s])%list.
Proof. reflexivity. Qed.

Lemma rmatch_Alt (r1 r2 : regex) (s : string) :
  rmatch (Alt r1 r2) s = (rmatch r1 s ++ rmatch r2 s)%list.
Proof. reflexivity. Qed.

Lemma rmatch_Seq (r1 r2 : regex) (s : string) :
  rmatch (Seq r1 r2) s = flat_map (rmatch r2) (rmatch r1 s).
Proof. reflexivity. Qed.

Lemma rmatch_Lit_at (a c : ascii) (s : string) :
  rmatch (Lit a) (String c s)
  = if Ascii.eqb (canonicalize c) (canonicalize a) then [s] else [].
Proof. reflexivity. Qed.

(** What the optional suffix leaves of a text that begins with one of
    the five words, and of a text that begins with none. *)
Lemma suffix_taken (suffix rest : string) :
  In (toLowerCase suffix) suffixWords ->
  hd_error (rmatch (Opt suffixPattern) (suffix ++ rest)) = Some rest.
Proof.
  intros Hin.
  assert (Hbegins : prefixIgnoringCase (toLowerCase suffix) (suffix ++ rest) = true).
  { apply prefixIgnoringCase_begins. now exists suffix, rest. }
  assert (Hdrop : drop (String.length (toLowerCase suffix)) (suffix ++ rest) = rest).
  { unfold toLowerCase. now rewrite length_mapChars, drop_length. }
  unfold suffixPattern. rewrite rmatch_Opt, !rmatch_Alt.
  rewrite (rmatch_Lit "%"%char) by reflexivity.
  rewrite !rmatch_Word by reflexivity.
  destruct Hin as [E|[E|[E|[E|[E|[]]]]]]; rewrite <- E in Hbegins, Hdrop;
    repeat match goal with
    | |- context [prefixIgnoringCase ?w (suffix ++ rest)] =>
        lazymatch goal with
        | H : prefixIgnoringCase w (suffix ++ rest) = _ |- _ => fail
        | _ =>
            let F := fresh "F" in
            destruct (prefixIgnoringCase w (suffix ++ rest)) eqn:F;
            [ try (exfalso;
                   pose proof (prefixes_agree _ _ _ _ _ _ _ eq_refl eq_refl F Hbegins)
                     as Hab; discriminate Hab) | ]
        end
    end;
    try (rewrite Hbegins); cbn [app hd_error String.length] in *;
    try (rewrite Hdrop); try reflexivity; try congruence.
Qed.

Lemma suffix_absent (rest : string) :
  (forall w, In w suffixWords -> ~ beginsWith w rest) ->
  rmatch (Opt suffixPattern) rest = [rest].
Proof.
  intros Hnone.
  assert (H : forall w, In w suffixWords -> prefixIgnoringCase w rest = false).
  { intros w Hw. destruct (prefixIgnoringCase w rest) eqn:E; [|reflexivity].
    apply prefixIgnoringCase_begins in E. now elim (Hnone w Hw). }
  unfold suffixPattern. rewrite rmatch_Opt, !rmatch_Alt.
  rewrite (rmatch_Lit "%"%char) by reflexivity.
  rewrite !rmatch_Word by reflexivity.
  rewrite (H "%"), (H "percent"), (H "million"), (H "billion"), (H "thousand");
    cbn; auto 10.
Qed.

End RegexFacts.
(** ** The numeric tokens of a text *)

Module TokenFacts.
Import JS Regex LLM StringFacts RegexFacts Expected.

Lemma numberPattern_parts :
  numberPattern
  = Seq (Plus Digit)
      (Seq (Opt (Seq (Lit "."%char) (Plus Digit))) (Opt suffixPattern)).
Proof. reflexivity. Qed.

Lemma hd_flat_map {A B} (f : A -> list B) (x : A) (l : list A) (y : B) :
  hd_error (f x) = Some y -> hd_error (flat_map f (x :: l)) = Some y.
Proof. cbn [flat_map]. destruct (f x); [discriminate | now intros [= ->]]. Qed.

(** A decimal point fits only itself. *)
Lemma point_only (c : ascii) :
  Ascii.eqb (canonicalize c) (canonicalize "."%char) = true -> c = "."%char.
Proof.
  rewrite (canonical_lower c "."%char eq_refl).
  assert (H : forallb (fun x => implb (Ascii.eqb (lowerChar x) "."%char)
                                      (Ascii.eqb x "."%char)) allAscii = true)
    by (vm_compute; reflexivity).
  rewrite forallb_forall in H. specialize (H c (In_allAscii c)).
  intros E. rewrite E in H. now apply Ascii.eqb_eq.
Qed.

(** The optional decimal part, at a text with one and at a text with
    none. *)
Lemma fraction_taken (f tail : string) :
  digits f -> digitAhead tail = false ->
  hd_error (rmatch (Opt (Seq (Lit "."%char) (Plus Digit))) ("." ++ f ++ tail))
  = Some tail.
Proof.
  intros Hf Htail. rewrite rmatch_Opt, rmatch_Seq.
  cbn [append]. rewrite rmatch_Lit_at, Ascii.eqb_refl. cbn [flat_map].
  rewrite app_nil_r, rmatch_plus_digit.
  destruct (digitRests_head f tail Hf Htail) as (more & ->). reflexivity.
Qed.

Lemma fraction_absent (tail : string) :
  fractionAhead tail = false ->
  rmatch (Opt (Seq (Lit "."%char) (Plus Digit))) tail = [tail].
Proof.
  intros Htail. rewrite rmatch_Opt, rmatch_Seq.
  destruct tail as [|c tail]; [reflexivity|].
  rewrite rmatch_Lit_at.
  destruct (Ascii.eqb (canonicalize c) (canonicalize "."%char)) eqn:E;
    [|reflexivity].
  apply point_only in E. subst c. cbn [flat_map].
  rewrite app_nil_r, rmatch_plus_digit, digitRests_none; [reflexivity|].
  destruct tail; [reflexivity | exact Htail].
Qed.

(** The pattern, tried at the head of a numeric token, matches the
    token. *)
Lemma match_here_token (token rest : string) :
  NumericToken token rest ->
  match_here numberPattern (token ++ rest) = Some token.
Proof.
  intros (whole & fraction & suffix & -> & Hwhole & Hmax & Hfraction & Hsuffix).
  assert (Hhead : hd_error (rmatch numberPattern
                              ((whole ++ fraction ++ suffix) ++ rest)) = Some rest).
  { rewrite !append_assoc, numberPattern_parts, rmatch_Seq, rmatch_plus_digit.
    destruct (digitRests_head whole _ Hwhole Hmax) as (more & ->).
    apply hd_flat_map. rewrite rmatch_Seq.
    assert (Hsuf : hd_error (rmatch (Opt suffixPattern) (suffix ++ rest)) = Some rest).
    { destruct Hsuffix as [Hin | [-> Hnone]].
      - now apply suffix_taken.
      - cbn [append]. now rewrite suffix_absent. }
    destruct Hfraction as [(f & -> & Hf & Htail) | [-> Hnone]].
    - rewrite append_assoc.
      pose proof (fraction_taken f (suffix ++ rest) Hf Htail) as Hfr.
      destruct (rmatch (Opt (Seq (Lit "."%char) (Plus Digit)))
                  ("." ++ f ++ suffix ++ rest)) as [|r l]; [discriminate|].
      injection Hfr as ->. now apply hd_flat_map.
    - cbn [append]. rewrite (fraction_absent _ Hnone).
      now apply hd_flat_map. }
  unfold match_here.
  destruct (rmatch numberPattern ((whole ++ fraction ++ suffix) ++ rest))
    as [|r l]; [discriminate|].
  injection Hhead as ->. now rewrite take_append.
Qed.

(** Where no digit is ahead, the pattern does not match. *)
Lemma match_here_none (s : string) :
  digitAhead s = false -> match_here numberPattern s = None.
Proof.
  intros H. unfold match_here.
  now rewrite numberPattern_parts, rmatch_Seq, rmatch_plus_digit, digitRests_none.
Qed.

(** The search passes over the characters of a match. *)
Lemma scan_skip (r : regex) (x rest : string) :
  scan r (String.length x) (x ++ rest) = scan r 0 rest.
Proof.
  induction x as [|c x IH]; [reflexivity|]. exact IH.
Qed.

Lemma token_not_empty (token rest : string) :
  NumericToken token rest -> exists c t, token = String c t.
Proof.
  intros (whole & fraction & suffix & -> & [Hne _] & _).
  destruct whole as [|c whole]; [now elim Hne|]. now eexists _, _.
Qed.

Lemma scan_token (token rest : string) :
  NumericToken token rest ->
  scan numberPattern 0 (token ++ rest) = token :: scan numberPattern 0 rest.
Proof.
  intros H. pose proof (match_here_token _ _ H) as Hm.
  destruct (token_not_empty _ _ H) as (c & t & ->).
  cbn [append] in Hm |- *. cbn [scan]. rewrite Hm. f_equal.
  replace (String.length (String c t) - 1)%nat with (String.length t)
    by (cbn [String.length]; lia).
  apply scan_skip.
Qed.

Lemma scan_gap (gap s : string) :
  digitFree gap = true ->
  scan numberPattern 0 (gap ++ s) = scan numberPattern 0 s.
Proof.
  intros H. induction gap as [|c gap IH]; [reflexivity|].
  cbn [digitFree] in H. apply andb_true_iff in H as [Hc H].
  apply negb_true_iff in Hc.
  cbn [append scan]. rewrite match_here_none by exact Hc. now apply IH.
Qed.

Lemma scan_none (s : string) :
  digitFree s = true -> scan numberPattern 0 s = [].
Proof.
  intros H. rewrite <- (append_nil s), (scan_gap s "" H).
  cbn [scan]. now rewrite match_here_none.
Qed.

(** The tokens of a text are what the global search extracts. *)
Lemma tokens_unique (s : string) (tokens : list string) :
  Tokenised s tokens -> tokens = numbersOf s.
Proof.
  unfold numbersOf, matchAll. induction 1 as [s H | gap token rest tokens Hgap Htok _ IH].
  - now rewrite scan_none.
  - now rewrite scan_gap, scan_token, <- IH.
Qed.

(** Splitting a text at its leading digits, and at its first digit. *)
Lemma leading_digits (s : string) :
  s = leadingDigits s ++ afterDigits s
  /\ allDigits (leadingDigits s) = true
  /\ digitAhead (afterDigits s) = false
  /\ (digitAhead s = true -> leadingDigits s <> "").
Proof.
  induction s as [|c s (E & Hall & Hnext & _)].
  - repeat split; auto. discriminate.
  - cbn [leadingDigits afterDigits]. destruct (isDigit c) eqn:Hc.
    + split; [cbn [append]; now rewrite <- E|].
      split; [cbn [allDigits]; now rewrite Hc|].
      split; [exact Hnext | discriminate].
    + split; [reflexivity|]. split; [reflexivity|].
      split; [exact Hc|]. cbn [digitAhead]. congruence.
Qed.

Lemma first_digit (s : string) :
  s = beforeDigit s ++ fromDigit s
  /\ digitFree (beforeDigit s) = true
  /\ (fromDigit s = "" \/ digitAhead (fromDigit s) = true)
  /\ (String.length (fromDigit s) <= String.length s)%nat.
Proof.
  induction s as [|c s (E & Hfree & Hnext & Hlen)]; [repeat split; auto|].
  cbn [beforeDigit fromDigit]. destruct (isDigit c) eqn:Hc.
  - split; [reflexivity|]. split; [reflexivity|].
    split; [right; exact Hc | lia].
  - split; [cbn [append]; now rewrite <- E|].
    split; [cbn [digitFree]; now rewrite Hc|].
    split; [exact Hnext | cbn [String.length]; lia].
Qed.

(** At a digit there is a numeric token. *)
Lemma token_ahead (s : string) :
  digitAhead s = true ->
  exists token rest,
    s = token ++ rest /\ NumericToken token rest
    /\ (String.length rest < String.length s)%nat.
Proof.
  intros Hs.
  destruct (leading_digits s) as (Es & Hall & Hnext & Hne). specialize (Hne Hs).
  set (whole := leadingDigits s) in *. set (r1 := afterDigits s) in *.
  (* the decimal part *)
  assert (Hfrac : exists fraction r2,
             r1 = fraction ++ r2
             /\ digitAhead r2 = false
             /\ ((exists f, fraction = "." ++ f /\ digits f)
                 \/ (fraction = "" /\ fractionAhead r2 = false))).
  { destruct (fractionAhead r1) eqn:Hfa.
    - destruct r1 as [|p r]; [discriminate|].
      destruct (Ascii.eqb p "."%char) eqn:Hp.
      + apply Ascii.eqb_eq in Hp. subst p.
        assert (Hr : digitAhead r = true) by (destruct r; [discriminate | exact Hfa]).
        destruct (leading_digits r) as (Er & Hall' & Hnext' & Hne').
        exists ("." ++ leadingDigits r), (afterDigits r).
        split; [cbn [append]; now rewrite <- Er|].
        split; [exact Hnext'|]. left. exists (leadingDigits r).
        split; [reflexivity|]. split; [now apply Hne' | exact Hall'].
      + exfalso. cbn [fractionAhead] in Hfa.
        destruct p as [[] [] [] [] [] [] [] []]; try discriminate Hfa;
          discriminate Hp.
    - exists "", r1. split; [reflexivity|]. split; [exact Hnext|]. now right. }
  destruct Hfrac as (fraction & r2 & E1 & Hr2 & Hfraction).
  (* the suffix *)
  assert (Hsuf : exists suffix rest,
             r2 = suffix ++ rest
             /\ (In (toLowerCase suffix) suffixWords
                 \/ (suffix = "" /\ forall w, In w suffixWords -> ~ beginsWith w rest))).
  { assert (Hone : forall w, In w suffixWords ->
               prefixIgnoringCase w r2 = true ->
               exists suffix rest,
                 r2 = suffix ++ rest /\ In (toLowerCase suffix) suffixWords).
    { intros w Hw Hp. apply prefixIgnoringCase_begins in Hp as (x & y & -> & <-).
      now exists x, y. }
    destruct (existsb (fun w => prefixIgnoringCase w r2) suffixWords) eqn:Hany.
    - apply existsb_exists in Hany as (w & Hw & Hp).
      destruct (Hone w Hw Hp) as (suffix & rest & E & Hin).
      exists suffix, rest. split; [exact E | now left].
    - exists "", r2. split; [reflexivity|]. right. split; [reflexivity|].
      intros w Hw Hb. apply prefixIgnoringCase_begins in Hb.
      assert (existsb (fun w => prefixIgnoringCase w r2) suffixWords = true)
        by (apply existsb_exists; now exists w).
      congruence. }
  destruct Hsuf as (suffix & rest & E2 & Hsuffix).
  exists (whole ++ fraction ++ suffix), rest.
  assert (Etail : fraction ++ suffix ++ rest = r1) by now rewrite <- E2, <- E1.
  split; [|split].
  - rewrite !append_assoc, Etail. exact Es.
  - exists whole, fraction, suffix. split; [reflexivity|].
    split; [split; [exact Hne | exact Hall]|].
    split; [now rewrite Etail|]. split; [|exact Hsuffix].
    rewrite <- E2. destruct Hfraction as [(f & -> & Hf) | [-> Hnone]].
    + left. exists f. auto.
    + right. auto.
  - pose proof (f_equal String.length Es) as Hl.
    rewrite <- Etail, !length_append in Hl.
    destruct whole; [now elim Hne | cbn [String.length] in Hl; lia].
Qed.

(** Every text has its tokens. *)
Lemma tokens_exist (s : string) : exists tokens, Tokenised s tokens.
Proof.
  remember (String.length s) as n eqn:Hn. revert s Hn.
  induction n as [n IH] using lt_wf_ind. intros s ->.
  destruct (first_digit s) as (E & Hfree & Hnext & Hlen).
  destruct Hnext as [Hend | Hdigit].
  - exists []. apply no_more. rewrite E, Hend, append_nil. exact Hfree.
  - destruct (token_ahead _ Hdigit) as (token & rest & Et & Htok & Hshort).
    destruct (IH (String.length rest) ltac:(lia) rest eq_refl) as (tokens & Hrest).
    exists (token :: tokens). rewrite E, Et.
    now apply next_token.
Qed.

Lemma tokens_of (s : string) : Tokenised s (numbersOf s).
Proof.
  destruct (tokens_exist s) as (tokens & H).
  now rewrite <- (tokens_unique s tokens H).
Qed.

End TokenFacts.

(** ** C2: the hallucination heuristic *)

Module HallucinationFacts.
Import JS Regex LLM StringFacts.

Lemma returnsTrueIn_exists {A} (p : A -> bool) (xs : list A) :
  returnsTrueIn p xs = true <-> exists x, In x xs /\ p x = true.
Proof.
  induction xs as [|x xs IH]; simpl.
  - split; [discriminate | intros (x & [] & _)].
  - destruct (p x) eqn:Hp.
    + split; [intros _; exists x; auto | reflexivity].
    + rewrite IH. split.
      * intros (y & Hy & Hpy). exists y. auto.
      * intros (y & [<-|Hy] & Hpy); [congruence | exists y; auto].
Qed.

Lemma contextTextOf_lower (contexts : list ContextText) :
  contextTextOf contexts = toLowerCase (join " " (map content contexts)).
Proof.
  unfold contextTextOf. rewrite <- toLowerCase_join, map_map. reflexivity.
Qed.

(** The heuristic, read off its two loops. *)
Lemma detect_cases (answer : string) (contexts : list ContextText) :
  detectPotentialHallucination answer contexts = true
  <-> (exists num,
          In num (numbersOf answer)
          /\ includes (contextTextOf contexts) (toLowerCase num) = false)
      \/ (exists assertion,
             In assertion strongAssertions
             /\ includes (toLowerCase answer) assertion = true
             /\ includes (contextTextOf contexts) assertion = false).
Proof.
  unfold detectPotentialHallucination.
  destruct (returnsTrueIn
              (fun num => negb (includes (contextTextOf contexts) (toLowerCase num)))
              (numbersOf answer)) eqn:Hnum.
  - split; [intros _|reflexivity]. left.
    apply returnsTrueIn_exists in Hnum as (num & Hin & Hp).
    exists num. split; [exact Hin|]. now apply negb_true_iff.
  - destruct (returnsTrueIn
                (fun assertion =>
                   includes (toLowerCase answer) assertion
                   && negb (includes (contextTextOf contexts) assertion))
                strongAssertions) eqn:Hass.
    + split; [intros _|reflexivity]. right.
      apply returnsTrueIn_exists in Hass as (a & Hin & Hp).
      apply andb_true_iff in Hp as [Ha Hc].
      exists a. split; [exact Hin|]. split; [exact Ha|]. now apply negb_true_iff.
    + split; [discriminate|]. intros [(num & Hin & Hp)|(a & Hin & Ha & Hc)].
      * assert (returnsTrueIn
                  (fun num => negb (includes (contextTextOf contexts) (toLowerCase num)))
                  (numbersOf answer) = true) as E.
        { apply returnsTrueIn_exists. exists num.
          split; [exact Hin|]. now rewrite Hp. }
        congruence.
      * assert (returnsTrueIn
                  (fun assertion =>
                     includes (toLowerCase answer) assertion
                     && negb (includes (contextTextOf contexts) assertion))
                  strongAssertions = true) as E.
        { apply returnsTrueIn_exists. exists a.
          split; [exact Hin|]. now rewrite Ha, Hc. }
        congruence.
Qed.

End HallucinationFacts.

Import JS Regex LLM.

(** C2.  The answer has exactly one sequence of numeric tokens: read from
    left to right, each token begins at the first digit after the token
    before it and is a run of digits, a decimal point with a run of
    digits if that follows, and "%", "percent", "million", "billion" or
    "thousand" (in any letter case) if that follows, each part as long as
    the text allows; so no digit of the answer is outside a token.  The
    detector answers [true] exactly when (a) one of these tokens, in lower
    case, is no contiguous piece of the lower-cased contexts joined by
    blanks, or (b) one of the five strong-assertion words is a contiguous
    piece of the lower-cased answer and not of that lower-cased context.
    For an answer whose only token is "42%" and a context that contains
    "42%", the detector does not fire. *)
Theorem detectPotentialHallucination_characterised :
  forall (answer : string) (contexts : list ContextText),
    let contextText := toLowerCase (join " " (map content contexts)) in
    (detectPotentialHallucination answer contexts = true <->
       (exists tokens num,
           Expected.Tokenised answer tokens
           /\ In num tokens
           /\ ~ Expected.Occurs (toLowerCase num) contextText)
       \/ (exists assertion,
              In assertion ["always"; "never"; "exactly"; "precisely"; "definitely"]
              /\ Expected.Occurs assertion (toLowerCase answer)
              /\ ~ Expected.Occurs assertion contextText))
    /\ (exists tokens, Expected.Tokenised answer tokens)
    /\ (forall tokens tokens',
           Expected.Tokenised answer tokens -> Expected.Tokenised answer tokens' ->
           tokens = tokens')
    /\ Expected.Tokenised "Revenue grew 42% last year" ["42%"]
    /\ detectPotentialHallucination "Revenue grew 42% last year"
         [{| content := "Q3 report: revenue grew 42% year over year" |}] = false.
Proof.
  intros answer contexts contextText.
  split; [|split; [|split; [|split]]].
  - rewrite HallucinationFacts.detect_cases,
      HallucinationFacts.contextTextOf_lower. fold contextText.
    split.
    + intros [(num & Hin & Hmiss) | (a & Hin & Ha & Hc)].
      * left. exists (numbersOf answer), num.
        split; [apply TokenFacts.tokens_of|]. split; [exact Hin|].
        now apply StringFacts.not_includes.
      * right. exists a. split; [exact Hin|].
        split; [now apply StringFacts.includes_Occurs|].
        now apply StringFacts.not_includes.
    + intros [(tokens & num & Htok & Hin & Hmiss) | (a & Hin & Ha & Hc)].
      * left. exists num.
        rewrite <- (TokenFacts.tokens_unique answer tokens Htok).
        split; [exact Hin|]. now apply StringFacts.not_includes.
      * right. exists a. split; [exact Hin|].
        split; [now apply StringFacts.includes_Occurs|].
        now apply StringFacts.not_includes.
  - exists (numbersOf answer). apply TokenFacts.tokens_of.
  - intros tokens tokens' H H'.
    now rewrite (TokenFacts.tokens_unique _ _ H), (TokenFacts.tokens_unique _ _ H').
  - change ["42%"] with (numbersOf "Revenue grew 42% last year").
    apply TokenFacts.tokens_of.
  - vm_compute. reflexivity.
Qed.

(** C2 at the scenario of the specification: "42%" is the one token of
    the answer, it occurs in the context, and no token of the answer is
    missing from the context. *)
Lemma detectPotentialHallucination_characterised_witness :
  Expected.Tokenised "Revenue grew 42% last year" ["42%"]
  /\ Expected.Occurs "42%"
       (toLowerCase
          (join " " (map content
             [{| content := "Q3 report: revenue grew 42% year over year" |}])))
  /\ ~ (exists tokens num,
           Expected.Tokenised "Revenue grew 42% last year" tokens
           /\ In num tokens
           /\ ~ Expected.Occurs (toLowerCase num)
                  (toLowerCase
                     (join " " (map content
                        [{| content := "Q3 report: revenue grew 42% year over year" |}])))).
Proof.
  destruct (detectPotentialHallucination_characterised
              "Revenue grew 42% last year"
              [{| content := "Q3 report: revenue grew 42% year over year" |}])
    as (Hiff & _ & _ & Htokens & Hquiet).
  split; [exact Htokens|]. split.
  - exists "q3 report: revenue grew ", " year over year". reflexivity.
  - intros Hex. rewrite (proj2 Hiff) in Hquiet; [discriminate Hquiet | now left].
Defined.

Example numbersOf_example :
  numbersOf "Revenue grew 42% to 3.5 million in 2023, up 7PERCENT; v1.2.3x"
  = ["42%"; "3.5"; "2023"; "7PERCENT"; "1.2"; "3"].
Proof. vm_compute. reflexivity. Qed.

Example detect_number_missing :
  detectPotentialHallucination "Sales rose 15%"
    [{| content := "sales rose fifteen percent" |}] = true.
Proof. vm_compute. reflexivity. Qed.

Example detect_assertion_missing :
  detectPotentialHallucination "This is Definitely so"
    [{| content := "this is so" |}] = true.
Proof. vm_compute. reflexivity. Qed.

(** ** C9: the rate limiter fails open *)

Import Schema Handler Environment RateLimit Http Run.

Module RateLimitFacts.

(** [checkRateLimit] never touches the database and never throws; its
    result is read off the limiter. *)
Lemma checkRateLimit_run env userId type w :
  exists r evs,
    checkRateLimit env userId type w
    = (Returns r, {| db := db w; trace := trace w ++ evs |})
    /\ (forall e, In e evs ->
                  e = RateLimitCall type userId
                  \/ e = ConsoleError "Rate limit check failed:")
    /\ r = match limiterFor env type with
           | None => allowed
           | Some l => match limit l userId with
                       | Returns v => verdictOf v
                       | Throws _ => allowed
                       end
           end.
Proof.
  unfold checkRateLimit. destruct (limiterFor env type) as [l|].
  - unfold tryCatch, bind, call, emit, ret. destruct (limit l userId) as [v|e]; simpl.
    + exists (verdictOf v), [RateLimitCall type userId].
      split; [reflexivity|]. split; [|reflexivity].
      intros e [<-|[]]. now left.
    + exists allowed, [RateLimitCall type userId;
                       ConsoleError "Rate limit check failed:"].
      rewrite <- app_assoc. split; [reflexivity|]. split; [|reflexivity].
      intros x [<-|[<-|[]]]; [now left | now right].
  - exists allowed, []. rewrite app_nil_r. destruct w.
    split; [reflexivity|]. split; [intros e []|reflexivity].
Qed.

Lemma checkRateLimit_success env userId type w :
  exists r evs,
    checkRateLimit env userId type w
    = (Returns r, {| db := db w; trace := trace w ++ evs |})
    /\ success r = negb (overTheLimit env type userId)
    /\ (forall e, In e evs ->
                  e = RateLimitCall type userId
                  \/ e = ConsoleError "Rate limit check failed:").
Proof.
  destruct (checkRateLimit_run env userId type w)
    as (r & evs & Hrun & Hevs & Hr).
  exists r, evs. split; [exact Hrun|]. split; [|exact Hevs].
  rewrite Hr. unfold overTheLimit.
  destruct (limiterFor env type) as [l|]; [|reflexivity].
  destruct (limit l userId) as [v|e]; simpl; [|reflexivity].
  now rewrite negb_involutive.
Qed.

End RateLimitFacts.

(** C9.  For every user and operation class, [checkRateLimit] returns (it
    never throws), and when no limiter was constructed for the class, or
    the limiter's check throws, the result is [{ success: true }]: the
    request is treated as allowed. *)
Theorem checkRateLimit_fails_open :
  forall (env : Env) (userId : string) (type : OpType) (w : World),
    (exists r, fst (checkRateLimit env userId type w) = Returns r)
    /\ (limiterFor env type = None
        \/ (exists l e, limiterFor env type = Some l /\ limit l userId = Throws e) ->
        fst (checkRateLimit env userId type w) = Returns allowed
        /\ success allowed = true
        /\ db (snd (checkRateLimit env userId type w)) = db w)
    /\ (redisConfigured env = false -> limiterFor env type = None).
Proof.
  intros env userId type w.
  destruct (RateLimitFacts.checkRateLimit_run env userId type w)
    as (r & evs & Hrun & _ & Hr).
  split; [exists r; now rewrite Hrun|]. split.
  - intros H. rewrite Hrun. simpl. split; [|split; reflexivity].
    f_equal. rewrite Hr.
    destruct H as [->|(l & e & -> & ->)]; reflexivity.
  - intros H. destruct type; unfold limiterFor, uploadRateLimiter, queryRateLimiter;
      now rewrite H.
Qed.

(** C9 at a sample environment whose cache times out. *)
Lemma checkRateLimit_fails_open_witness :
  let env := Sample.sampleEnv (Some "clerk_alice") (Returns None)
               (Throws "timeout") (Returns []) "" 1700000000000 in
  fst (checkRateLimit env "clerk_alice" OpQuery Sample.sampleWorld) = Returns allowed
  /\ fst (checkRateLimit env "clerk_alice" OpUpload Sample.sampleWorld) = Returns allowed.
Proof.
  intros env. split.
  - destruct (checkRateLimit_fails_open env "clerk_alice" OpQuery Sample.sampleWorld)
      as (_ & H & _).
    apply H. right. eexists. exists "timeout". split; reflexivity.
  - destruct (checkRateLimit_fails_open env "clerk_alice" OpUpload Sample.sampleWorld)
      as (_ & H & _).
    apply H. right. eexists. exists "timeout". split; reflexivity.
Defined.


(** ** C8: the rate-limited query *)

Module QueryLimitFacts.
Import QueryRoute Run.

(** A query whose limiter answers [success: false] is rejected with a 429
    before anything else runs.  The body carries [error] and [remaining];
    it has no [reset] property. *)
Lemma POST_rate_limited env requestJson w clerkId v :
  auth env = Some clerkId ->
  JS.truthy clerkId = true ->
  redisConfigured env = true ->
  queryLimit env clerkId = Returns v ->
  lr_success v = false ->
  POST env requestJson w
  = (Returns
       {| status := 429;
          headers := [("Content-Type", "application/json")];
          body := JsonBody
                    (JObj [("error", JStr "Rate limit exceeded. Please try again later.");
                           ("remaining", JNum (lr_remaining v))]) |},
     {| db := db w; trace := trace w ++ [RateLimitCall OpQuery clerkId] |}).
Proof.
  intros Hauth Htruthy Hredis Hlimit Hfail.
  unfold POST, tryCatch, bind. rewrite Hauth, Htruthy. simpl.
  unfold checkRateLimit, limiterFor, queryRateLimiter. rewrite Hredis. simpl.
  unfold tryCatch, bind, call. rewrite Hlimit. simpl. rewrite Hfail. simpl.
  reflexivity.
Qed.

End QueryLimitFacts.

(** C8, at the failing input.  The caller is over the query limit (0 of 100
    remaining, reset time known).  The query route answers 429 without
    embedding, searching, generating or persisting, and its body has the
    [remaining] hint but no [reset] hint; the upload route, for the same
    verdict, sends both. *)
Theorem query_429_has_no_reset_hint :
  let env := Sample.sampleEnv (Some "clerk_alice") (Returns None)
               (Returns Sample.overLimit) (Returns []) "" 1700000000000 in
  let request := Returns {| QueryRoute.body_query := Some "What was revenue?";
                            QueryRoute.body_documentIds := None |} in
  let r := QueryRoute.POST env request Sample.sampleWorld in
  let upload := UploadRoute.POST env
                  (Returns (Some {| file_name := "a.pdf"; file_size := 10;
                                    file_type := "application/pdf" |}))
                  Sample.sampleWorld in
  option_map status (Run.responseOf r) = Some 429%Z
  /\ option_map (fun x => bodyField x "remaining") (Run.responseOf r)
     = Some (Some (JNum 0))
  /\ option_map (fun x => bodyField x "reset") (Run.responseOf r) = Some None
  /\ db (snd r) = Sample.sampleDb
  /\ trace (snd r) = [RateLimitCall OpQuery "clerk_alice"]
  /\ option_map status (Run.responseOf upload) = Some 429%Z
  /\ option_map (fun x => bodyField x "reset") (Run.responseOf upload)
     = Some (Some (JNum 1700003600000)).
Proof.
  cbv zeta.
  rewrite (QueryLimitFacts.POST_rate_limited _ _ _ "clerk_alice" Sample.overLimit)
    by reflexivity.
  repeat split; vm_compute; reflexivity.
Qed.

(** ** Comparisons of binary64 numbers *)

Module FloatFacts.
Import Utils.






End FloatFacts.

(** ** The drip-fed stream *)

Module StreamFacts.

Lemma skipn_nth (words : list string) :
  forall i, (i < List.length words)%nat ->
            skipn i words = nth i words "" :: skipn (S i) words.
Proof.
  induction words as [|x words IH]; intros i Hi; simpl in Hi; [lia|].
  destruct i as [|i]; [reflexivity|].
  simpl. apply IH. lia.
Qed.

(** From index [i], the timer enqueues the remaining words, each followed
    by a blank, then the two metadata lines, and closes the stream. *)
Lemma fire_from (words : list string) (a b : string) :
  forall k i c,
    (i + k = List.length words)%nat ->
    closed c = false ->
    let final := snd (fire (S k) words a b (i, c)) in
    enqueued final
    = (enqueued c ++ map (fun x => (x ++ " ")%string) (skipn i words) ++ [a; b])%list
    /\ closed final = true.
Proof.
  induction k as [|k IH]; intros i c Hik Hc; cbv zeta.
  - simpl. rewrite Hc. unfold tick.
    replace (i <? List.length words)%nat with false
      by (symmetry; apply Nat.ltb_ge; lia).
    simpl. replace i with (List.length words) by lia.
    rewrite skipn_all. simpl. rewrite <- app_assoc. split; reflexivity.
  - change (fire (S (S k)) words a b (i, c))
      with (if closed c then (i, c)
            else fire (S k) words a b (tick words a b (i, c))).
    rewrite Hc. unfold tick.
    replace (i <? List.length words)%nat with true
      by (symmetry; apply Nat.ltb_lt; lia).
    destruct (IH (S i) (enqueue (nth i words "" ++ " ") c)) as [E C];
      [lia | exact Hc |].
    cbv zeta in E, C. rewrite E, C. split; [|reflexivity].
    simpl. rewrite <- app_assoc. simpl.
    rewrite (skipn_nth words i) by lia. reflexivity.
Qed.

(** The stream ends closed, holding the words and the two lines. *)
Lemma streamOf_chunks (answer a b : string) :
  streamOf answer a b
  = {| enqueued :=
         map (fun x => (x ++ " ")%string) (JS.split " "%char answer) ++ [a; b];
       closed := true |}.
Proof.
  unfold streamOf.
  destruct (fire_from (JS.split " "%char answer) a b
              (List.length (JS.split " "%char answer)) 0
              {| enqueued := []; closed := false |}) as [E C];
    [reflexivity | reflexivity |].
  cbv zeta in E, C.
  destruct (snd (fire _ _ a b _)) as [q c]. cbn [enqueued closed] in E, C.
  now rewrite E, C.
Qed.

(** Once the stream is closed the timer no longer runs. *)
Lemma fire_closed (n : nat) (words : list string) (a b : string) st :
  closed (snd st) = true -> fire n words a b st = st.
Proof. intros H. destruct n; simpl; [reflexivity | now rewrite H]. Qed.

Lemma fire_add (n m : nat) (words : list string) (a b : string) :
  forall st, fire (n + m) words a b st = fire m words a b (fire n words a b st).
Proof.
  induction n as [|n IH]; intros st; [reflexivity|]. simpl.
  destruct (closed (snd st)) eqn:H; [now rewrite fire_closed | apply IH].
Qed.

(** Any number of further firings leaves the stream of [streamOf]. *)
Lemma streamOf_final (answer a b : string) (extra : nat) :
  snd (fire (S (List.length (JS.split " "%char answer)) + extra)
         (JS.split " "%char answer) a b
         (0%nat, {| enqueued := []; closed := false |}))
  = streamOf answer a b.
Proof.
  rewrite fire_add. unfold streamOf. rewrite fire_closed; [reflexivity|].
  apply (fire_from (JS.split " "%char answer) a b
           (List.length (JS.split " "%char answer)) 0
           {| enqueued := []; closed := false |}); reflexivity.
Qed.


End StreamFacts.

(** ** C4 and C1: the query route *)

Module QueryFacts.
Import JS Utils QueryRoute Run Expected.






Section Gates.
Variables (env : Env) (b : QueryBody) (w : World).
Variables (clerkId query : string) (user : User) (embedding : list float).
Hypothesis authenticated : auth env = Some clerkId.
Hypothesis identified : truthy clerkId = true.
Hypothesis within_limit : overTheLimit env OpQuery clerkId = false.
Hypothesis has_query : body_query b = Some query.
Hypothesis not_blank : trim query <> "".
Hypothesis known_user : selectUserByClerkId (db w) clerkId = Some user.
Hypothesis embedded : generateQueryEmbedding env (trim query) = Returns embedding.



End Gates.

End QueryFacts.

Import JS Utils QueryRoute Run.



(** A query that white space alone makes up, the no-break space
    included, is answered 400 and nothing is stored. *)
Example blank_query_is_refused :
  let env := Sample.sampleEnv (Some "clerk_alice") (Returns None)
               (Returns Sample.withinLimit) (Returns []) "" 1700000000000 in
  let blank := String (ascii_of_nat 160) (String (ascii_of_nat 9) " ") in
  let r := POST env (Returns {| body_query := Some blank;
                                body_documentIds := None |}) Sample.sampleWorld in
  option_map status (responseOf r) = Some 400%Z
  /\ db (snd r) = db Sample.sampleWorld.
Proof. split; vm_compute; reflexivity. Qed.




(** The cases of the utilities' test file. *)
Example getConfidenceLevel_tests :
  getConfidenceLevel 0.85%float = High
  /\ getConfidenceLevel 0.95%float = High
  /\ getConfidenceLevel 1.0%float = High
  /\ getConfidenceLevel 0.7%float = Medium
  /\ getConfidenceLevel 0.8%float = Medium
  /\ getConfidenceLevel 0.5%float = Low
  /\ getConfidenceLevel 0.69%float = Low
  /\ getConfidenceLevel 0%float = Low
  /\ getConfidenceLevel PrimFloat.nan = Low.
Proof. repeat split; vm_compute; reflexivity. Qed.

Example isAllowedFileType_tests :
  isAllowedFileType "application/pdf" = true
  /\ isAllowedFileType "text/plain" = true
  /\ isAllowedFileType "text/markdown" = true
  /\ isAllowedFileType "image/jpeg" = false
  /\ isAllowedFileType "application/x-executable" = false.
Proof. repeat split; reflexivity. Qed.

(** ** C5 and C10: the upload route *)

Module UploadFacts.
Import Constants UploadRoute.
Local Open Scope Z_scope.

Lemma tooLargeMessage_text :
  tooLargeMessage = "File too large. Maximum size is 50MB.".
Proof. vm_compute. reflexivity. Qed.

Lemma beforeStorage_limit type userId evs :
  (forall e, In e evs ->
             e = RateLimitCall type userId
             \/ e = ConsoleError "Rate limit check failed:") ->
  Forall beforeStorage evs.
Proof.
  intros H. apply Forall_forall. intros e He.
  destruct (H e He) as [->| ->]; exact I.
Qed.

(** A file that is too large or of a foreign type stops the route at one
    of its gates: the database is as it was, and what was added to the
    trace are limiter calls and log lines. *)
Lemma POST_rejected_no_write env file w :
  MAX_FILE_SIZE < file_size file
  \/ arrayIncludes ALLOWED_FILE_TYPES (file_type file) = false ->
  exists resp evs,
    POST env (Returns (Some file)) w
    = (Returns resp, {| db := db w; trace := trace w ++ evs |})
    /\ Forall beforeStorage evs
    /\ (status resp = 401 \/ status resp = 429 \/ status resp = 400)%Z.
Proof.
  intros Hfile. unfold POST, tryCatch, bind.
  destruct (auth env) as [clerkId|].
  2:{ eexists; exists []. rewrite app_nil_r. destruct w.
      split; [reflexivity|]. split; [constructor | now left]. }
  destruct (truthy clerkId); cbn [negb].
  2:{ eexists; exists []. rewrite app_nil_r. destruct w.
      split; [reflexivity|]. split; [constructor | now left]. }
  destruct (RateLimitFacts.checkRateLimit_success env clerkId OpUpload w)
    as (r & evs & Hrun & _ & Hevs).
  rewrite Hrun. apply beforeStorage_limit in Hevs.
  destruct (success r); cbn [negb].
  2:{ eexists; exists evs. split; [reflexivity|]. split; [exact Hevs|].
      right; now left. }
  destruct (MAX_FILE_SIZE <? file_size file)%Z eqn:Hsize.
  { eexists; exists evs. split; [reflexivity|]. split; [exact Hevs|].
    right; now right. }
  destruct Hfile as [Hbig|Htype]; [apply Z.ltb_ge in Hsize; lia|].
  rewrite Htype. cbn [negb].
  eexists; exists evs. split; [reflexivity|]. split; [exact Hevs|].
  right; now right.
Qed.

Section Gates.
Variables (env : Env) (file : File) (w : World) (clerkId : string).
Hypothesis authenticated : auth env = Some clerkId.
Hypothesis identified : truthy clerkId = true.
Hypothesis within_limit : overTheLimit env OpUpload clerkId = false.

Lemma POST_too_large :
  MAX_FILE_SIZE < file_size file ->
  fst (POST env (Returns (Some file)) w)
  = Returns (json 400 [("error", str "File too large. Maximum size is 50MB.")]).
Proof.
  intros Hbig. unfold POST, tryCatch, bind.
  rewrite authenticated, identified. cbn [negb].
  destruct (RateLimitFacts.checkRateLimit_success env clerkId OpUpload w)
    as (r & evs & Hrun & Hsucc & _).
  rewrite Hrun, Hsucc, within_limit. cbn [negb].
  replace (MAX_FILE_SIZE <? file_size file)%Z with true
    by (symmetry; now apply Z.ltb_lt).
  now rewrite tooLargeMessage_text.
Qed.

Lemma POST_invalid_type :
  file_size file <= MAX_FILE_SIZE ->
  arrayIncludes ALLOWED_FILE_TYPES (file_type file) = false ->
  fst (POST env (Returns (Some file)) w)
  = Returns (json 400 [("error", str invalidTypeMessage)]).
Proof.
  intros Hsmall Htype. unfold POST, tryCatch, bind.
  rewrite authenticated, identified. cbn [negb].
  destruct (RateLimitFacts.checkRateLimit_success env clerkId OpUpload w)
    as (r & evs & Hrun & Hsucc & _).
  rewrite Hrun, Hsucc, within_limit. cbn [negb].
  replace (MAX_FILE_SIZE <? file_size file)%Z with false
    by (symmetry; now apply Z.ltb_ge).
  now rewrite Htype.
Qed.

End Gates.

End UploadFacts.

(** The allow-list and the size threshold of [config/constants.ts], spelled out. *)
Example ALLOWED_FILE_TYPES_listed :
  Constants.ALLOWED_FILE_TYPES
  = ["application/pdf"; "text/plain"; "text/markdown"; "application/msword";
     "application/vnd.openxmlformats-officedocument.wordprocessingml.document"]
  /\ Constants.MAX_FILE_SIZE = 52428800%Z.
Proof. split; reflexivity. Qed.

(** C5, as stated, fails: an upload of a 60 MB PDF by a caller who is not
    signed in is answered 401, not 400; one by a caller over the upload
    limit is answered 429. *)
Lemma oversize_upload_not_always_400 :
  let file := {| file_name := "big.pdf"; file_size := 60 * 1024 * 1024;
                 file_type := "application/pdf" |} in
  let anonymous := Sample.sampleEnv None (Returns None)
                     (Returns Sample.withinLimit) (Returns []) "" 1700000000000 in
  let limited := Sample.sampleEnv (Some "clerk_alice") (Returns None)
                   (Returns Sample.overLimit) (Returns []) "" 1700000000000 in
  (Constants.MAX_FILE_SIZE < file_size file)%Z
  /\ option_map status
       (responseOf (UploadRoute.POST anonymous (Returns (Some file)) Sample.sampleWorld))
     = Some 401%Z
  /\ option_map status
       (responseOf (UploadRoute.POST limited (Returns (Some file)) Sample.sampleWorld))
     = Some 429%Z
  /\ option_map status
       (responseOf (UploadRoute.POST anonymous (Returns (Some file)) Sample.sampleWorld))
     <> Some 400%Z.
Proof.
  cbv zeta. split; [reflexivity|]. split; [vm_compute; reflexivity|].
  split; [vm_compute; reflexivity|]. vm_compute. discriminate.
Qed.

(** C5, amended.  For every upload request that carries a file larger than
    50 MB, or a file whose MIME type is not on the allow-list, the route
    writes nothing to storage and leaves the database as it was; and when
    the caller is signed in and within the upload limit, the answer is 400
    with the size message if the file is larger than 50 MB, and 400 with
    the type message if the file is at most 50 MB and its type is not on
    the list. *)
Theorem upload_rejects_oversize_and_foreign_types :
  forall (env : Env) (file : File) (w : World),
    (Constants.MAX_FILE_SIZE < file_size file)%Z
    \/ arrayIncludes Constants.ALLOWED_FILE_TYPES (file_type file) = false ->
    let r := UploadRoute.POST env (Returns (Some file)) w in
    db (snd r) = db w
    /\ (forall n u, ~ In (StorageWrite n u) (trace w) ->
                    ~ In (StorageWrite n u) (trace (snd r)))
    /\ (forall clerkId,
           auth env = Some clerkId ->
           truthy clerkId = true ->
           overTheLimit env OpUpload clerkId = false ->
           ((Constants.MAX_FILE_SIZE < file_size file)%Z ->
            fst r = Returns
                      (json 400
                         [("error", str "File too large. Maximum size is 50MB.")]))
           /\ ((file_size file <= Constants.MAX_FILE_SIZE)%Z ->
               fst r = Returns
                         (json 400
                            [("error",
                              str "Invalid file type. Allowed types: PDF, TXT, MD, DOC, DOCX.")]))).
Proof.
  intros env file w Hfile r.
  destruct (UploadFacts.POST_rejected_no_write env file w Hfile)
    as (resp & evs & Hrun & Hevs & _).
  split; [subst r; now rewrite Hrun|]. split.
  - intros n u Hnot Hin. subst r. rewrite Hrun in Hin. cbn [snd trace] in Hin.
    apply in_app_or in Hin as [Hin|Hin]; [now apply Hnot|].
    rewrite Forall_forall in Hevs. exact (Hevs _ Hin).
  - intros clerkId Ha Hi Hl. split.
    + intros Hbig. now apply (UploadFacts.POST_too_large env file w clerkId).
    + intros Hsmall. destruct Hfile as [Hbig|Htype]; [lia|].
      now apply (UploadFacts.POST_invalid_type env file w clerkId).
Qed.

(** C5 (amended) at two sample uploads by Alice: a 60 MB PDF and a small
    JPEG. *)
Lemma upload_rejects_oversize_and_foreign_types_witness :
  let env := Sample.sampleEnv (Some "clerk_alice") (Returns None)
               (Returns Sample.withinLimit) (Returns []) "" 1700000000000 in
  let big := {| file_name := "big.pdf"; file_size := 60 * 1024 * 1024;
                file_type := "application/pdf" |} in
  let jpeg := {| file_name := "cat.jpg"; file_size := 2048;
                 file_type := "image/jpeg" |} in
  fst (UploadRoute.POST env (Returns (Some big)) Sample.sampleWorld)
  = Returns (json 400 [("error", str "File too large. Maximum size is 50MB.")])
  /\ fst (UploadRoute.POST env (Returns (Some jpeg)) Sample.sampleWorld)
     = Returns (json 400
                  [("error",
                    str "Invalid file type. Allowed types: PDF, TXT, MD, DOC, DOCX.")])
  /\ db (snd (UploadRoute.POST env (Returns (Some big)) Sample.sampleWorld))
     = Sample.sampleDb
  /\ db (snd (UploadRoute.POST env (Returns (Some jpeg)) Sample.sampleWorld))
     = Sample.sampleDb.
Proof.
  intros env big jpeg.
  destruct (upload_rejects_oversize_and_foreign_types env big Sample.sampleWorld)
    as (Hdb1 & _ & H1); [left; reflexivity|].
  destruct (upload_rejects_oversize_and_foreign_types env jpeg Sample.sampleWorld)
    as (Hdb2 & _ & H2); [right; reflexivity|].
  destruct (H1 "clerk_alice" eq_refl eq_refl eq_refl) as [Hbig _].
  destruct (H2 "clerk_alice" eq_refl eq_refl eq_refl) as [_ Hjpeg].
  split; [apply Hbig; reflexivity|].
  split; [apply Hjpeg; discriminate|].
  split; [exact Hdb1 | exact Hdb2].
Defined.

Module LazyUserFacts.
Import Constants UploadRoute UploadFacts Expected.
Local Open Scope Z_scope.

(** From the storage write on: the write is attempted first, for the given
    user; the user table is not touched; a document row is added exactly
    when the write succeeds. *)
Lemma storeAndRecord_run env file user w :
  exists o w' after,
    storeAndRecord env file user w = (o, w')
    /\ users (db w') = users (db w)
    /\ trace w' = (trace w ++ StorageWrite (file_name file) (user_id user) :: after)%list
    /\ match o, uploadDocument env file (user_id user) with
       | Returns resp, Returns url =>
           status resp = 200
           /\ exists doc,
               documents (db w') = (documents (db w) ++ [doc])%list
               /\ userId doc = user_id user
               /\ Schema.storageUrl doc = url
               /\ Schema.status doc = "processing"
       | Throws _, Throws _ => db w' = db w /\ after = []
       | _, _ => False
       end.
Proof.
  unfold storeAndRecord, bind, call.
  destruct (uploadDocument env file (user_id user)) as [url|e].
  2:{ do 2 eexists. exists []. split; [reflexivity|]. cbn [db trace].
      repeat split; reflexivity. }
  unfold getDb, setDb, ret, tryCatch, bind, call, emit. cbn [db trace fst snd].
  destruct (truthy_opt (WORKER_URL env)).
  - destruct (workerFetch env _ url (user_id user)) as [[|]|e]; cbn [negb db trace];
      do 3 eexists; (split; [reflexivity|]); cbn [db trace users documents insertDocument];
      (split; [reflexivity|]); (split; [rewrite <- ?app_assoc; reflexivity|]);
      (split; [reflexivity|]); eexists; repeat split; reflexivity.
  - do 3 eexists; (split; [reflexivity|]); cbn [db trace users documents insertDocument];
      (split; [reflexivity|]); (split; [rewrite <- ?app_assoc; reflexivity|]);
      (split; [reflexivity|]); eexists; repeat split; reflexivity.
Qed.

Section Gates.
Variables (env : Env) (file : File) (w : World) (clerkId : string).
Variable identity : option ClerkUser.
Hypothesis authenticated : auth env = Some clerkId.
Hypothesis identified : truthy clerkId = true.
Hypothesis within_limit : overTheLimit env OpUpload clerkId = false.
Hypothesis small : file_size file <= MAX_FILE_SIZE.
Hypothesis allowed_type : arrayIncludes ALLOWED_FILE_TYPES (file_type file) = true.
Hypothesis no_row : selectUserByClerkId (db w) clerkId = None.
Hypothesis provider : currentUser env = Returns identity.

Lemma POST_no_email :
  truthy_opt (firstEmail identity) = false ->
  exists evs,
    POST env (Returns (Some file)) w
    = (Returns (json 400 [("error", str noEmailMessage)]),
       {| db := db w; trace := trace w ++ evs ++ [IdentityLookup] |})
    /\ Forall beforeStorage evs.
Proof.
  intros Hemail. unfold POST, tryCatch, bind.
  rewrite authenticated, identified. cbn [negb].
  destruct (RateLimitFacts.checkRateLimit_success env clerkId OpUpload w)
    as (r & evs & Hrun & Hsucc & Hevs).
  rewrite Hrun, Hsucc, within_limit. cbn [negb].
  replace (MAX_FILE_SIZE <? file_size file) with false
    by (symmetry; now apply Z.ltb_ge).
  rewrite allowed_type. cbn [negb]. unfold getDb, call. cbn [db trace fst snd].
  rewrite no_row, provider.
  exists evs. split; [|eapply beforeStorage_limit; eauto].
  destruct (firstEmail identity) as [userEmail|]; cbn [truthy_opt] in Hemail.
  - rewrite Hemail. cbn [negb db trace]. unfold ret. now rewrite <- app_assoc.
  - cbn [db trace]. unfold ret. now rewrite <- app_assoc.
Qed.

Lemma POST_creates_user (userEmail : string) :
  firstEmail identity = Some userEmail ->
  truthy userEmail = true ->
  let user := newUser env (db w) clerkId userEmail identity in
  exists o w' evs after,
    POST env (Returns (Some file)) w = (Returns o, w')
    /\ users (db w') = (users (db w) ++ [user])%list
    /\ trace w'
       = (trace w ++ evs ++ IdentityLookup
            :: StorageWrite (file_name file) (user_id user) :: after)%list
    /\ Forall beforeStorage evs
    /\ match uploadDocument env file (user_id user) with
       | Returns url =>
           status o = 200
           /\ exists doc,
               documents (db w') = (documents (db w) ++ [doc])%list
               /\ userId doc = user_id user
               /\ Schema.storageUrl doc = url
       | Throws _ =>
           status o = 500 /\ documents (db w') = documents (db w)
       end.
Proof.
  intros Hemail Htruthy user. unfold POST, tryCatch, bind.
  rewrite authenticated, identified. cbn [negb].
  destruct (RateLimitFacts.checkRateLimit_success env clerkId OpUpload w)
    as (r & evs & Hrun & Hsucc & Hevs).
  rewrite Hrun, Hsucc, within_limit. cbn [negb].
  replace (MAX_FILE_SIZE <? file_size file) with false
    by (symmetry; now apply Z.ltb_ge).
  rewrite allowed_type. cbn [negb]. unfold getDb, call, setDb. cbn [db trace fst snd].
  rewrite no_row, provider, Hemail, Htruthy. cbn [negb db trace fst snd].
  fold (newUser env (db w) clerkId userEmail identity). fold user.
  match goal with
  | |- context [storeAndRecord env file user ?w0] =>
      destruct (storeAndRecord_run env file user w0)
        as (o & w' & after & Hrun' & Husers & Htrace & Hcase);
      rewrite Hrun'
  end.
  cbn [db trace users insertUser] in Husers, Htrace, Hcase.
  apply beforeStorage_limit in Hevs.
  destruct o as [resp|e].
  - exists resp, w', evs, after. split; [reflexivity|].
    split; [exact Husers|].
    split; [rewrite Htrace, <- !app_assoc; reflexivity|].
    split; [exact Hevs|].
    destruct (uploadDocument env file (user_id user)) as [url|e]; [|contradiction].
    destruct Hcase as (Hst & doc & Hdocs & Ho & Hu & _).
    split; [exact Hst|]. exists doc. cbn [documents insertUser] in Hdocs. auto.
  - destruct (uploadDocument env file (user_id user)) as [url|e']; [contradiction|].
    destruct Hcase as [Hdb ->].
    unfold emit, ret. cbn [db trace fst snd].
    do 2 eexists. exists evs. eexists. split; [reflexivity|]. cbn [db trace].
    split; [exact Husers|].
    split; [rewrite Htrace, <- !app_assoc; reflexivity|].
    split; [exact Hevs|].
    split; [reflexivity|]. now rewrite Hdb.
Qed.

End Gates.

End LazyUserFacts.

(** C10.  An upload by a signed-in caller within the limit, with a file
    that passes the size and type checks, when the caller has no user row
    yet.  If the identity provider gives no e-mail address (no user, no
    address, or an empty one), the answer is 400 with the message about
    the e-mail, and nothing is written: no storage write, no user row, no
    document row.  If it gives one, a user row with that address is
    appended, and the storage write is attempted for the id of that row;
    the row is there whether the write then succeeds (200, one document
    row for that user) or throws (500, no document row). *)
Theorem upload_requires_provider_email :
  forall (env : Env) (file : File) (w : World) (clerkId : string)
         (identity : option ClerkUser),
    auth env = Some clerkId ->
    truthy clerkId = true ->
    overTheLimit env OpUpload clerkId = false ->
    (file_size file <= Constants.MAX_FILE_SIZE)%Z ->
    arrayIncludes Constants.ALLOWED_FILE_TYPES (file_type file) = true ->
    selectUserByClerkId (db w) clerkId = None ->
    currentUser env = Returns identity ->
    let r := UploadRoute.POST env (Returns (Some file)) w in
    (truthy_opt (UploadRoute.firstEmail identity) = false ->
     fst r = Returns
               (json 400
                  [("error",
                    str "Unable to retrieve user email from authentication provider.")])
     /\ db (snd r) = db w
     /\ (forall n u, ~ In (StorageWrite n u) (trace w) ->
                     ~ In (StorageWrite n u) (trace (snd r))))
    /\ (forall userEmail,
           UploadRoute.firstEmail identity = Some userEmail ->
           truthy userEmail = true ->
           exists user resp,
             fst r = Returns resp
             /\ users (db (snd r)) = (users (db w) ++ [user])%list
             /\ email user = userEmail
             /\ Schema.clerkId user = clerkId
             /\ In (StorageWrite (file_name file) (user_id user)) (trace (snd r))
             /\ (forall e,
                    uploadDocument env file (user_id user) = Throws e ->
                    status resp = 500%Z
                    /\ documents (db (snd r)) = documents (db w))
             /\ (forall url,
                    uploadDocument env file (user_id user) = Returns url ->
                    status resp = 200%Z
                    /\ exists doc,
                        documents (db (snd r)) = (documents (db w) ++ [doc])%list
                        /\ userId doc = user_id user
                        /\ Schema.storageUrl doc = url)).
Proof.
  intros env file w clerkId identity Ha Hi Hl Hsize Htype Hrow Hprov r.
  split.
  - intros Hemail.
    destruct (LazyUserFacts.POST_no_email env file w clerkId identity
                Ha Hi Hl Hsize Htype Hrow Hprov Hemail) as (evs & Hrun & Hevs).
    subst r. rewrite Hrun. cbn [fst snd db trace].
    split; [reflexivity|]. split; [reflexivity|].
    intros n u Hnot Hin.
    apply in_app_or in Hin as [Hin|Hin]; [now apply Hnot|].
    apply in_app_or in Hin as [Hin|[Hin|[]]]; [|discriminate].
    rewrite Forall_forall in Hevs. exact (Hevs _ Hin).
  - intros userEmail Hemail Htruthy.
    destruct (LazyUserFacts.POST_creates_user env file w clerkId identity
                Ha Hi Hl Hsize Htype Hrow Hprov userEmail Hemail Htruthy)
      as (o & w' & evs & after & Hrun & Husers & Htrace & _ & Hcase).
    cbv zeta in Husers, Htrace, Hcase.
    exists (Expected.newUser env (db w) clerkId userEmail identity), o.
    subst r. rewrite Hrun. cbn [fst snd].
    split; [reflexivity|]. split; [exact Husers|].
    split; [reflexivity|]. split; [reflexivity|].
    split.
    { rewrite Htrace. apply in_or_app. right. apply in_or_app. right.
      right. now left. }
    split.
    + intros e He. rewrite He in Hcase. exact Hcase.
    + intros url Hurl. rewrite Hurl in Hcase. exact Hcase.
Qed.

(** C10 at two sample uploads by a caller without a user row: one for whom
    the provider lists no address, one for whom it lists Alice's. *)
Lemma upload_requires_provider_email_witness :
  let file := {| file_name := "plan.pdf"; file_size := 2097152;
                 file_type := "application/pdf" |} in
  let unknown := {| emailAddresses := []; firstName := Some "Carol";
                    lastName := None; clerk_imageUrl := None |} in
  let env1 := Sample.sampleEnv (Some "clerk_carol") (Returns (Some unknown))
                (Returns Sample.withinLimit) (Returns []) "" 1700000000000 in
  let env2 := Sample.sampleEnv (Some "clerk_carol") (Returns (Some Sample.aliceAtClerk))
                (Returns Sample.withinLimit) (Returns []) "" 1700000000000 in
  let r1 := UploadRoute.POST env1 (Returns (Some file)) Sample.sampleWorld in
  let r2 := UploadRoute.POST env2 (Returns (Some file)) Sample.sampleWorld in
  (option_map status (responseOf r1) = Some 400%Z /\ db (snd r1) = Sample.sampleDb)
  /\ (exists user,
         users (db (snd r2)) = [Sample.alice; Sample.bob; user]
         /\ email user = "alice@example.com"
         /\ option_map status (responseOf r2) = Some 200%Z).
Proof.
  intros file unknown env1 env2 r1 r2. split.
  - destruct (upload_requires_provider_email env1 file Sample.sampleWorld
                "clerk_carol" (Some unknown)) as [H _];
      try reflexivity; try discriminate.
    destruct (H eq_refl) as (Hresp & Hdb & _).
    split; [|exact Hdb]. unfold responseOf, r1. now rewrite Hresp.
  - destruct (upload_requires_provider_email env2 file Sample.sampleWorld
                "clerk_carol" (Some Sample.aliceAtClerk)) as [_ H];
      try reflexivity; try discriminate.
    destruct (H "alice@example.com" eq_refl eq_refl)
      as (user & resp & Hresp & Husers & Hemail & _ & _ & _ & Hok).
    exists user. split; [exact Husers|]. split; [exact Hemail|].
    unfold responseOf, r2. rewrite Hresp. cbn [option_map]. f_equal.
    destruct (Hok ("gs://docurag/" ++ user_id user ++ "/plan.pdf")) as [Hst _];
      [reflexivity | exact Hst].
Defined.

(** ** C3 and C6: the documents route *)

Module ListFacts.

Lemma firstn_subset {A} (n : nat) (l : list A) (x : A) :
  In x (firstn n l) -> In x l.
Proof.
  revert n. induction l as [|y l IH]; intros [|n] H; simpl in *; try contradiction.
  destruct H as [->|H]; [now left | right; eauto].
Qed.

Lemma skipn_subset {A} (n : nat) (l : list A) (x : A) :
  In x (skipn n l) -> In x l.
Proof.
  revert n. induction l as [|y l IH]; intros [|n] H; simpl in *; try contradiction; auto.
  right; eauto.
Qed.

Lemma find_first {A} (p : A -> bool) (l : list A) (x : A) :
  In x l -> p x = true -> exists y, find p l = Some y /\ In y l /\ p y = true.
Proof.
  induction l as [|z l IH]; intros Hin Hp; [contradiction|]. simpl.
  destruct (p z) eqn:Hz.
  - exists z. repeat split; [now left | exact Hz].
  - destruct Hin as [->|Hin]; [congruence|].
    destruct (IH Hin Hp) as (y & Hf & Hy & Hpy). exists y.
    split; [exact Hf|]. split; [now right | exact Hpy].
Qed.

Lemma find_nothing {A} (p : A -> bool) (l : list A) :
  (forall x, In x l -> p x = false) -> find p l = None.
Proof.
  induction l as [|z l IH]; intros H; [reflexivity|]. simpl.
  rewrite (H z) by now left. apply IH. intros x Hx. apply H. now right.
Qed.

Lemma NoDup_map_injective {A B} (f : A -> B) (l : list A) (x y : A) :
  NoDup (map f l) -> In x l -> In y l -> f x = f y -> x = y.
Proof.
  induction l as [|z l IH]; intros Hnd Hx Hy Hxy; [contradiction|].
  simpl in Hnd. inversion Hnd as [|? ? Hnotin Hnd']; subst.
  destruct Hx as [->|Hx], Hy as [->|Hy]; auto.
  - elim Hnotin. rewrite Hxy. now apply in_map.
  - elim Hnotin. rewrite <- Hxy. now apply in_map.
Qed.

End ListFacts.

Module ListingFacts.
Import DocumentsRoute ListFacts Expected.

Lemma In_insertByCreatedAtDesc first (x y : Document) (l : list Document) :
  In y (insertByCreatedAtDesc first x l) <-> y = x \/ In y l.
Proof.
  induction l as [|z l IH]; simpl.
  - split; [intros [<-|[]]; now left | intros [->|[]]; now left].
  - destruct ((createdAt z <? createdAt x)%Z
              || ((createdAt z =? createdAt x)%Z && first x z)); simpl.
    + split; [intros [<-|H]; auto | intros [->|H]; auto].
    + rewrite IH. split; [intros [<-|[->|H]]; auto | intros [->|[<-|H]]; auto].
Qed.

Lemma In_orderByCreatedAtDesc first (y : Document) (l : list Document) :
  In y (orderByCreatedAtDesc first l) <-> In y l.
Proof.
  unfold orderByCreatedAtDesc. induction l as [|z l IH]; simpl; [reflexivity|].
  rewrite In_insertByCreatedAtDesc, IH.
  split; [intros [->|H]; auto | intros [<-|H]; auto].
Qed.

(** Whatever window is applied, it selects among the given rows. *)
Lemma window_subset fault page limit offset rows docs :
  window fault page limit offset rows = Returns docs ->
  forall x, In x docs -> In x rows.
Proof.
  assert (Hfault :
    match fault limit offset with
    | Returns (k, Some n) => Returns (firstn n (skipn k rows))
    | Returns (k, None) => Returns (skipn k rows)
    | Throws e => Throws e
    end = Returns docs -> forall x, In x docs -> In x rows).
  { destruct (fault limit offset) as [[k [n|]]|e]; intros [= <-] x Hx;
      eauto using firstn_subset, skipn_subset. }
  unfold window. destruct page as [p|], limit as [l|], offset as [o|];
    try exact Hfault.
  destruct (safe p && (0 <=? l)%Z && safe l && (0 <=? o)%Z && safe o);
    [|exact Hfault].
  intros [= <-] x Hx. eauto using firstn_subset, skipn_subset.
Qed.

Lemma itemId_formatDoc env doc : itemId (formatDoc env doc) = Some (doc_id doc).
Proof. reflexivity. Qed.

Lemma GET_db env fault first searchParams w :
  db (snd (GET env fault first searchParams w)) = db w.
Proof.
  unfold GET, tryCatch, bind, attempt.
  destruct (auth env) as [clerkId|]; [|reflexivity].
  destruct (truthy clerkId); [|reflexivity]. cbn [negb].
  unfold getDb. cbn [fst snd db].
  destruct (selectUserByClerkId (db w) clerkId) as [user|]; [|reflexivity].
  destruct (window fault _ _ _ _); reflexivity.
Qed.

Lemma GET_listed env fault first searchParams w item :
  In item (listed (GET env fault first searchParams w)) ->
  exists clerkId user doc,
    auth env = Some clerkId
    /\ selectUserByClerkId (db w) clerkId = Some user
    /\ In doc (documents (db w))
    /\ userId doc = user_id user
    /\ item = formatDoc env doc.
Proof.
  unfold GET, tryCatch, bind, attempt.
  destruct (auth env) as [clerkId|]; [|intros []].
  destruct (truthy clerkId); [|intros []]. cbn [negb].
  unfold getDb. cbn [fst snd db].
  destruct (selectUserByClerkId (db w) clerkId) as [user|] eqn:Huser; [|intros []].
  destruct (window fault _ _ _ _) as [docs|e] eqn:Hwin; [|intros []].
  unfold listed, responseOf, ret. cbn [fst]. unfold bodyField, json. cbn.
  intros Hin. apply in_map_iff in Hin as (doc & <- & Hdoc).
  apply (window_subset _ _ _ _ _ _ Hwin) in Hdoc.
  unfold selectDocumentsOf in Hdoc.
  apply (proj1 (In_orderByCreatedAtDesc _ _ _)) in Hdoc.
  apply filter_In in Hdoc as [Hdoc Howner]. apply String.eqb_eq in Howner.
  exists clerkId, user, doc. auto.
Qed.

End ListingFacts.

Import DocumentsRoute.

(** C3.  Every entry of a listing response is the summary of a document
    row whose owner is the internal user id of the caller, whatever the
    [page] and [limit] parameters are (and however the driver treats
    out-of-range ones, and in whatever order the database returns rows
    of one creation time); the listing does not change the database.
    Under the primary key of [documents], no entry carries the id of a
    document owned by another user. *)
Theorem listing_returns_only_own_documents :
  forall (env : Env) (fault : option Z -> option Z -> outcome (nat * option nat))
         (first : Document -> Document -> bool)
         (searchParams : SearchParams) (w : World) (item : Json),
    let r := GET env fault first searchParams w in
    In item (Expected.listed r) ->
    exists clerkId user doc,
      auth env = Some clerkId
      /\ selectUserByClerkId (db w) clerkId = Some user
      /\ In doc (documents (db w))
      /\ userId doc = user_id user
      /\ item = formatDoc env doc
      /\ db (snd r) = db w
      /\ (Constraints (db w) ->
          forall other,
            In other (documents (db w)) ->
            userId other <> user_id user ->
            Expected.itemId item <> Some (doc_id other)).
Proof.
  intros env fault first searchParams w item r Hin.
  destruct (ListingFacts.GET_listed env fault first searchParams w item Hin)
    as (clerkId & user & doc & Ha & Hu & Hdoc & Howner & ->).
  exists clerkId, user, doc. repeat (split; [assumption || reflexivity|]).
  split; [apply ListingFacts.GET_db|].
  intros [Hpkey _] other Hother Hforeign Hid.
  rewrite ListingFacts.itemId_formatDoc in Hid. injection Hid as Hid.
  apply Hforeign. rewrite <- Howner. f_equal.
  now apply (ListFacts.NoDup_map_injective doc_id (documents (db w))).
Qed.

(** C3 at the sample database: Alice lists with the default page and
    limit; the first entry is her newest document, and it is not Bob's. *)
Lemma listing_returns_only_own_documents_witness :
  let env := Sample.sampleEnv (Some "clerk_alice") (Returns None)
               (Returns Sample.withinLimit) (Returns []) "" 1700000000000 in
  let fault := fun (_ _ : option Z) => @Throws (nat * option nat) "rejected" in
  let first := fun (_ _ : Document) => true in
  let searchParams := {| param_page := None; param_limit := None; param_id := None |} in
  Expected.listed (GET env fault first searchParams Sample.sampleWorld)
  = [formatDoc env Sample.notes; formatDoc env Sample.report]
  /\ exists clerkId user doc,
      auth env = Some clerkId
      /\ selectUserByClerkId Sample.sampleDb clerkId = Some user
      /\ In doc (documents Sample.sampleDb)
      /\ userId doc = user_id user
      /\ formatDoc env Sample.notes = formatDoc env doc.
Proof.
  intros env fault first searchParams. split; [vm_compute; reflexivity|].
  destruct (listing_returns_only_own_documents env fault first searchParams
              Sample.sampleWorld (formatDoc env Sample.notes))
    as (clerkId & user & doc & H1 & H2 & H3 & H4 & H5 & _).
  - vm_compute. now left.
  - exists clerkId, user, doc. auto.
Defined.

Module DeletionFacts.
Import ListFacts Expected.

Section Caller.
Variables (env : Env) (searchParams : SearchParams) (w : World).
Variables (clerkId documentId : string) (user : User).
Hypothesis authenticated : auth env = Some clerkId.
Hypothesis identified : truthy clerkId = true.
Hypothesis requested : param_id searchParams = Some documentId.
Hypothesis named : truthy documentId = true.

Lemma DELETE_owned (doc : Document) (v : string) :
  selectUserByClerkId (db w) clerkId = Some user ->
  uuid_in documentId = Some v ->
  find (fun x => String.eqb (doc_id x) v && String.eqb (userId x) (user_id user))
       (documents (db w)) = Some doc ->
  DELETE env searchParams w
  = (Returns (json 200 [("success", Some (JBool true));
                        ("message", str "Document deleted successfully")]),
     {| db := withoutDocument (db w) v;
        trace := trace w ++ externalDeletes env user doc documentId |}).
Proof.
  intros Huser Hv Hdoc. unfold DELETE, tryCatch, bind, attempt.
  rewrite authenticated, identified, requested, named. cbn [negb].
  unfold getDb. cbn [fst snd db]. rewrite Huser.
  unfold selectOwnedDocument, deleteDocumentRow. rewrite Hv, Hdoc.
  unfold externalDeletes, call, emit, setDb, ret.
  destruct (deleteDocument env (storageUrl doc)) as [[]|e1];
    destruct (deleteDocumentVectors env (user_id user) documentId) as [[]|e2];
    cbn [fst snd db trace]; rewrite ?Hv; cbn [fst snd db trace];
    rewrite <- ?app_assoc; reflexivity.
Qed.

Lemma DELETE_not_found (v : string) :
  uuid_in documentId = Some v ->
  (forall u x,
      selectUserByClerkId (db w) clerkId = Some u ->
      In x (documents (db w)) ->
      doc_id x = v -> userId x <> user_id u) ->
  exists message,
    DELETE env searchParams w
    = (Returns (json 404 [("error", str message)]), w).
Proof.
  intros Hv Hforeign. unfold DELETE, tryCatch, bind, attempt.
  rewrite authenticated, identified, requested, named. cbn [negb].
  unfold getDb. cbn [fst snd db].
  destruct (selectUserByClerkId (db w) clerkId) as [u|] eqn:Hu.
  - unfold selectOwnedDocument. rewrite Hv.
    replace (find (fun x => String.eqb (doc_id x) v
                            && String.eqb (userId x) (user_id u))
                  (documents (db w))) with (@None Document).
    + eexists. reflexivity.
    + symmetry. apply find_nothing. intros x Hx.
      destruct (String.eqb (doc_id x) v) eqn:Hid; [|reflexivity].
      apply String.eqb_eq in Hid. cbn [andb].
      apply String.eqb_neq. now apply (Hforeign u x).
  - eexists. reflexivity.
Qed.

Lemma DELETE_no_user :
  selectUserByClerkId (db w) clerkId = None ->
  DELETE env searchParams w
  = (Returns (json 404 [("error", str "User not found")]), w).
Proof.
  intros Hu. unfold DELETE, tryCatch, bind.
  rewrite authenticated, identified, requested, named. cbn [negb].
  unfold getDb. cbn [fst snd db]. now rewrite Hu.
Qed.

Lemma DELETE_malformed :
  selectUserByClerkId (db w) clerkId = Some user ->
  uuid_in documentId = None ->
  DELETE env searchParams w
  = (Returns (json 500 [("error", str "Failed to delete document")]),
     {| db := db w;
        trace := trace w ++ [ConsoleError "Error deleting document:"] |}).
Proof.
  intros Hu Hv. unfold DELETE, tryCatch, bind, attempt.
  rewrite authenticated, identified, requested, named. cbn [negb].
  unfold getDb. cbn [fst snd db]. rewrite Hu.
  unfold selectOwnedDocument. rewrite Hv. reflexivity.
Qed.

End Caller.

End DeletionFacts.

(** C6, as stated, fails: a signed-in caller with a user row asks to
    delete the document [doc-1].  No document has that id, yet the answer
    is not 404: the id column is of type [uuid], the database refuses to
    compare it with this text, and the route answers 500.  Nothing is
    deleted. *)
Lemma deletion_of_unknown_id_not_always_404 :
  let env := Sample.sampleEnv (Some "clerk_alice") (Returns None)
               (Returns Sample.withinLimit) (Returns []) "" 1700000000000 in
  let unknown := {| param_page := None; param_limit := None;
                    param_id := Some "doc-1" |} in
  let r := DELETE env unknown Sample.sampleWorld in
  (forall x, In x (documents Sample.sampleDb) -> doc_id x <> "doc-1")
  /\ option_map status (responseOf r) = Some 500%Z
  /\ option_map status (responseOf r) <> Some 404%Z
  /\ db (snd r) = Sample.sampleDb.
Proof.
  cbv zeta. split.
  - intros x [<-|[<-|[<-|[]]]]; discriminate.
  - split; [vm_compute; reflexivity|]. split; [vm_compute; discriminate|].
    vm_compute. reflexivity.
Qed.

(** C6, amended.  The caller is signed in and names a document.  (1) When
    the name is a uuid and one of the documents of the caller's user row
    has it as its id, the route answers success and the database is the
    old one without the rows of [documents] with that id and without the
    rows of [chunks] that reference it; every other document and chunk
    row is kept.  This holds for every outcome of the storage deletion
    and of the vector deletion, both of which are attempted.  (2) When
    the name is a uuid and no document with that id belongs to the
    caller's user row, and when the caller has no user row, the answer is
    404 and neither the database nor the trace changes: nothing is
    deleted anywhere.  (3) When the name is not in the form of a uuid,
    nothing is deleted either: the database is unchanged and no external
    deletion is attempted. *)
Theorem deletion_cleans_relational_rows :
  forall (env : Env) (searchParams : SearchParams) (w : World)
         (clerkId documentId : string),
    auth env = Some clerkId ->
    truthy clerkId = true ->
    param_id searchParams = Some documentId ->
    truthy documentId = true ->
    let r := DELETE env searchParams w in
    (forall user doc v,
        selectUserByClerkId (db w) clerkId = Some user ->
        uuid_in documentId = Some v ->
        In doc (documents (db w)) ->
        doc_id doc = v ->
        userId doc = user_id user ->
        fst r = Returns (json 200 [("success", Some (JBool true));
                                   ("message", str "Document deleted successfully")])
        /\ (forall x, In x (documents (db (snd r)))
                      <-> In x (documents (db w)) /\ doc_id x <> v)
        /\ (forall c, In c (chunks (db (snd r)))
                      <-> In c (chunks (db w)) /\ Schema.documentId c <> v)
        /\ users (db (snd r)) = users (db w)
        /\ (exists target,
               In target (documents (db w))
               /\ doc_id target = v
               /\ userId target = user_id user
               /\ In (StorageDelete (storageUrl target)) (trace (snd r)))
        /\ In (VectorDelete (user_id user) documentId) (trace (snd r)))
    /\ (forall v,
           uuid_in documentId = Some v ->
           (forall user x,
               selectUserByClerkId (db w) clerkId = Some user ->
               In x (documents (db w)) ->
               doc_id x = v -> userId x <> user_id user) ->
           option_map status (responseOf r) = Some 404%Z
           /\ snd r = w)
    /\ (selectUserByClerkId (db w) clerkId = None ->
        option_map status (responseOf r) = Some 404%Z
        /\ snd r = w)
    /\ (uuid_in documentId = None ->
        db (snd r) = db w
        /\ forall e, In e (trace (snd r)) ->
                     In e (trace w) \/ e = ConsoleError "Error deleting document:").
Proof.
  intros env searchParams w clerkId documentId Ha Hi Hp Hn r.
  split; [|split; [|split]].
  - intros user doc v Huser Hv Hdoc Hid Howner.
    destruct (ListFacts.find_first
                (fun x => String.eqb (doc_id x) v
                          && String.eqb (userId x) (user_id user))
                (documents (db w)) doc Hdoc) as (target & Hfind & Hin & Hp').
    { rewrite Hid, Howner, !String.eqb_refl. reflexivity. }
    apply andb_true_iff in Hp' as [Hid' Hown'].
    apply String.eqb_eq in Hid', Hown'.
    subst r.
    rewrite (DeletionFacts.DELETE_owned env searchParams w clerkId documentId user
               Ha Hi Hp Hn target v Huser Hv Hfind).
    cbn [fst snd db trace withoutDocument documents chunks users].
    split; [reflexivity|]. split; [|split; [|split; [reflexivity|split]]].
    + intros x. rewrite filter_In, negb_true_iff, String.eqb_neq. reflexivity.
    + intros c. rewrite filter_In, negb_true_iff, String.eqb_neq. reflexivity.
    + exists target. repeat split; try assumption.
      apply in_or_app. right. unfold Expected.externalDeletes. now left.
    + apply in_or_app. right. unfold Expected.externalDeletes.
      apply in_or_app. right. apply in_or_app. right. now left.
  - intros v Hv Hforeign.
    destruct (DeletionFacts.DELETE_not_found env searchParams w clerkId documentId
                Ha Hi Hp Hn v Hv Hforeign) as (message & Hrun).
    subst r. rewrite Hrun. split; reflexivity.
  - intros Hu. subst r.
    rewrite (DeletionFacts.DELETE_no_user env searchParams w clerkId documentId
               Ha Hi Hp Hn Hu).
    split; reflexivity.
  - intros Hv. subst r.
    destruct (selectUserByClerkId (db w) clerkId) as [user|] eqn:Hu.
    + rewrite (DeletionFacts.DELETE_malformed env searchParams w clerkId documentId
                 user Ha Hi Hp Hn Hu Hv).
      cbn [fst snd db trace]. split; [reflexivity|].
      intros e He. apply in_app_or in He as [He|[<-|[]]]; auto.
    + rewrite (DeletionFacts.DELETE_no_user env searchParams w clerkId documentId
                 Ha Hi Hp Hn Hu).
      split; [reflexivity|]. intros e He. now left.
Qed.

(** C6 at the sample database, where both external deletions throw: Alice
    deletes her report, naming it in capital letters; then she asks to
    delete Bob's ledger. *)
Lemma deletion_cleans_relational_rows_witness :
  let env := Sample.sampleEnv (Some "clerk_alice") (Returns None)
               (Returns Sample.withinLimit) (Returns []) "" 1700000000000 in
  let own := {| param_page := None; param_limit := None;
                param_id := Some "D0C00000-0000-4000-8000-000000000001" |} in
  let foreign := {| param_page := None; param_limit := None;
                    param_id := Some "d0c00000-0000-4000-8000-000000000002" |} in
  (fst (DELETE env own Sample.sampleWorld)
   = Returns (json 200 [("success", Some (JBool true));
                        ("message", str "Document deleted successfully")])
   /\ documents (db (snd (DELETE env own Sample.sampleWorld)))
      = [Sample.ledger; Sample.notes]
   /\ chunks (db (snd (DELETE env own Sample.sampleWorld)))
      = [Sample.mkChunk "c4000000-0000-4000-8000-000000000003"
           "d0c00000-0000-4000-8000-000000000002" 0])
  /\ (option_map status (responseOf (DELETE env foreign Sample.sampleWorld))
      = Some 404%Z
      /\ snd (DELETE env foreign Sample.sampleWorld) = Sample.sampleWorld).
Proof.
  intros env own foreign. split.
  - destruct (deletion_cleans_relational_rows env own Sample.sampleWorld
                "clerk_alice" "D0C00000-0000-4000-8000-000000000001"
                eq_refl eq_refl eq_refl eq_refl) as [H _].
    destruct (H Sample.alice Sample.report "d0c00000-0000-4000-8000-000000000001"
                eq_refl eq_refl (or_introl eq_refl) eq_refl eq_refl)
      as (Hresp & _).
    split; [exact Hresp|]. split; vm_compute; reflexivity.
  - destruct (deletion_cleans_relational_rows env foreign Sample.sampleWorld
                "clerk_alice" "d0c00000-0000-4000-8000-000000000002"
                eq_refl eq_refl eq_refl eq_refl) as (_ & H & _).
    apply (H "d0c00000-0000-4000-8000-000000000002" eq_refl).
    intros user x Huser Hx Hid.
    injection Huser as <-.
    destruct Hx as [<-|[<-|[<-|[]]]]; try discriminate Hid.
    discriminate.
Defined.

(** ** C7: the processing webhook *)

Module WebhookFacts.
Import ProcessRoute Expected.

(** Re-applying a payload: the later application decides every column. *)
Lemma applyUpdate_again env (b : ProcessBody) (t1 t2 : Z) (x : Document) :
  applyUpdate (updateDataOf (atTime env t2) b)
    (applyUpdate (updateDataOf (atTime env t1) b) x)
  = applyUpdate (updateDataOf (atTime env t2) b) x.
Proof.
  unfold applyUpdate, updateDataOf. cbn.
  destruct (truthyOnly (status b)), (chunk_count b), (truthyOnly (error_message b));
    reflexivity.
Qed.

Lemma applyUpdate_untimed env (b : ProcessBody) (t1 t2 : Z) (x : Document) :
  untimed (applyUpdate (updateDataOf (atTime env t2) b) x)
  = untimed (applyUpdate (updateDataOf (atTime env t1) b) x).
Proof. reflexivity. Qed.

Lemma withUpdate_again env (b : ProcessBody) (t1 t2 : Z) (d : DB) (v : string) :
  withUpdate
    (withUpdate d v (applyUpdate (updateDataOf (atTime env t1) b)))
    v (applyUpdate (updateDataOf (atTime env t2) b))
  = withUpdate d v (applyUpdate (updateDataOf (atTime env t2) b)).
Proof.
  unfold withUpdate. cbn [documents users chunks queries documentCollections].
  f_equal. rewrite map_map. apply map_ext. intros x.
  destruct (String.eqb (doc_id x) v) eqn:E.
  - change (doc_id (applyUpdate (updateDataOf (atTime env t1) b) x)) with (doc_id x).
    rewrite E. apply applyUpdate_again.
  - now rewrite E.
Qed.

Lemma withUpdate_untimed env (b : ProcessBody) (t1 t2 : Z) (d : DB) (v : string) :
  map untimed
    (documents (withUpdate d v (applyUpdate (updateDataOf (atTime env t2) b))))
  = map untimed
      (documents (withUpdate d v (applyUpdate (updateDataOf (atTime env t1) b)))).
Proof.
  unfold withUpdate. cbn [documents]. rewrite !map_map. apply map_ext.
  intros x. destruct (String.eqb (doc_id x) v); [|reflexivity].
  apply applyUpdate_untimed.
Qed.

(** Whether the values fit their columns does not depend on the time. *)
Lemma fitsColumns_atTime env (b : ProcessBody) (t : Z) :
  fitsColumns (updateDataOf (atTime env t) b) = fitsColumns (updateDataOf env b).
Proof. reflexivity. Qed.

(** What the shared part of the route does to the database, and that its
    answer does not depend on the time or on the database. *)
Lemma handle_db env authHeader requestJson w :
  db (snd (handle env authHeader requestJson w))
  = match accepted env authHeader requestJson with
    | Some (i, b) =>
        afterUpdate (db w)
          (updateDocuments (db w) i (fitsColumns (updateDataOf env b))
             (applyUpdate (updateDataOf env b)))
    | None => db w
    end.
Proof.
  unfold handle, accepted, bind, attempt.
  destruct (truthy_opt (WORKER_SECRET env) && negb (optEq authHeader (WORKER_SECRET env)));
    [reflexivity|].
  destruct requestJson as [b|e]; [|reflexivity].
  destruct (document_id b) as [i|]; [|reflexivity].
  destruct (truthy i); [|reflexivity]. cbn [negb].
  destruct (truthy_opt (status b) && _); [reflexivity|].
  unfold getDb. cbn [fst snd db].
  destruct (updateDocuments (db w) i _ _); reflexivity.
Qed.

Lemma handle_answer env authHeader requestJson w w' t t' :
  fst (handle (atTime env t) authHeader requestJson w)
  = fst (handle (atTime env t') authHeader requestJson w').
Proof.
  unfold handle, bind, attempt. cbn [WORKER_SECRET atTime].
  destruct (truthy_opt (WORKER_SECRET env) && negb (optEq authHeader (WORKER_SECRET env)));
    [reflexivity|].
  destruct requestJson as [b|e]; [|reflexivity].
  destruct (document_id b) as [i|]; [|reflexivity].
  destruct (truthy i); [|reflexivity]. cbn [negb].
  destruct (truthy_opt (status b) && _); [reflexivity|].
  unfold getDb, updateDocuments. cbn [fst snd db].
  rewrite !fitsColumns_atTime.
  destruct (uuid_in i); [|reflexivity].
  destruct (fitsColumns (updateDataOf env b)); reflexivity.
Qed.

Lemma tryCatch_onError_db (m : M Response) w :
  db (snd (tryCatch m onError w)) = db (snd (m w)).
Proof. unfold tryCatch. destruct (m w) as [[r|e] w']; reflexivity. Qed.

Lemma tryCatch_onError_answer (m m' : M Response) w w' :
  fst (m w) = fst (m' w') ->
  fst (tryCatch m onError w) = fst (tryCatch m' onError w').
Proof.
  unfold tryCatch. destruct (m w) as [[r|e] v], (m' w') as [[r'|e'] v'];
    cbn [fst]; intros H; try discriminate H; try exact H; reflexivity.
Qed.

Lemma POST_db env authHeader requestJson w :
  db (snd (POST env authHeader requestJson w))
  = match accepted env authHeader requestJson with
    | Some (i, b) =>
        afterUpdate (db w)
          (updateDocuments (db w) i (fitsColumns (updateDataOf env b))
             (applyUpdate (updateDataOf env b)))
    | None => db w
    end.
Proof. unfold POST. rewrite tryCatch_onError_db. apply handle_db. Qed.

Lemma POST_production_db env authHeader requestJson w :
  db (snd (POST_production env authHeader requestJson w))
  = if misconfigured env then db w
    else match accepted env authHeader requestJson with
         | Some (i, b) =>
             afterUpdate (db w)
               (updateDocuments (db w) i (fitsColumns (updateDataOf env b))
                  (applyUpdate (updateDataOf env b)))
         | None => db w
         end.
Proof.
  unfold POST_production. rewrite tryCatch_onError_db. fold (misconfigured env).
  destruct (misconfigured env); [reflexivity | apply handle_db].
Qed.

Lemma POST_written env authHeader requestJson w t :
  db (snd (POST (atTime env t) authHeader requestJson w))
  = written env authHeader requestJson t (db w).
Proof. exact (POST_db (atTime env t) authHeader requestJson w). Qed.

Lemma POST_production_written env authHeader requestJson w t :
  db (snd (POST_production (atTime env t) authHeader requestJson w))
  = if misconfigured env then db w
    else written env authHeader requestJson t (db w).
Proof. exact (POST_production_db (atTime env t) authHeader requestJson w). Qed.

Lemma written_again env authHeader requestJson t1 t2 d :
  written env authHeader requestJson t2 (written env authHeader requestJson t1 d)
  = written env authHeader requestJson t2 d.
Proof.
  unfold written. destruct (accepted env authHeader requestJson) as [[i b]|];
    [|reflexivity].
  unfold updateDocuments. rewrite !fitsColumns_atTime.
  destruct (uuid_in i) as [v|]; [|reflexivity].
  destruct (fitsColumns (updateDataOf env b)); [|reflexivity].
  cbn [afterUpdate]. apply withUpdate_again.
Qed.

Lemma written_untimed env authHeader requestJson t1 t2 d :
  map untimed (documents (written env authHeader requestJson t2 d))
  = map untimed (documents (written env authHeader requestJson t1 d)).
Proof.
  unfold written. destruct (accepted env authHeader requestJson) as [[i b]|];
    [|reflexivity].
  unfold updateDocuments. rewrite !fitsColumns_atTime.
  destruct (uuid_in i) as [v|]; [|reflexivity].
  destruct (fitsColumns (updateDataOf env b)); [|reflexivity].
  cbn [afterUpdate]. apply withUpdate_untimed.
Qed.

End WebhookFacts.

(** C7, as stated, fails: the route stamps [updatedAt] with the time of
    each application, so the row after two applications of one payload
    differs from the row after one. *)
Lemma webhook_reapplication_changes_updatedAt :
  let env := Sample.sampleEnv None (Returns None) (Returns Sample.withinLimit)
               (Returns []) "" 1700000000000 in
  let payload := Returns {| ProcessRoute.document_id := Some "d0c00000-0000-4000-8000-000000000001";
                            ProcessRoute.status := Some "ready";
                            ProcessRoute.chunk_count := Some 12%Z;
                            ProcessRoute.error_message := None |} in
  let first := ProcessRoute.POST (atTime env 7000) (Some "s3cret") payload
                 Sample.sampleWorld in
  let second := ProcessRoute.POST (atTime env 8000) (Some "s3cret") payload
                  (snd first) in
  map (fun x => (Schema.status x, chunkCount x, updatedAt x)) (documents (db (snd first)))
  = [("ready", Some 12, 7000); ("processing", Some 0, 4000);
     ("processing", Some 0, 5000)]%Z
  /\ map (fun x => (Schema.status x, chunkCount x, updatedAt x))
         (documents (db (snd second)))
     = [("ready", Some 12, 8000); ("processing", Some 0, 4000);
        ("processing", Some 0, 5000)]%Z
  /\ db (snd second) <> db (snd first).
Proof.
  cbv zeta. split; [vm_compute; reflexivity|]. split; [vm_compute; reflexivity|].
  intros H.
  apply (f_equal (fun d => map updatedAt (documents d))) in H.
  vm_compute in H. discriminate H.
Qed.

(** C7, amended.  For every document table and every payload, applying the
    payload a second time (at time [t2], after a first application at
    [t1]) leaves the database exactly as a single application at [t2]
    leaves it: every column of every row is as after the first
    application, except [updatedAt], which holds the time of the latest
    application.  The answer is the same both times.  This holds for the
    route and for its production-hardened version. *)
Theorem webhook_reapplication :
  forall (env : Env) (authHeader : option string)
         (requestJson : outcome ProcessRoute.ProcessBody) (w : World) (t1 t2 : Z),
    (let first := ProcessRoute.POST (atTime env t1) authHeader requestJson w in
     let second := ProcessRoute.POST (atTime env t2) authHeader requestJson (snd first) in
     let single := ProcessRoute.POST (atTime env t2) authHeader requestJson w in
     db (snd second) = db (snd single)
     /\ map Expected.untimed (documents (db (snd second)))
        = map Expected.untimed (documents (db (snd first)))
     /\ (t1 = t2 -> db (snd second) = db (snd first))
     /\ fst second = fst first)
    /\ (let first := ProcessRoute.POST_production (atTime env t1) authHeader requestJson w in
        let second :=
          ProcessRoute.POST_production (atTime env t2) authHeader requestJson (snd first) in
        let single := ProcessRoute.POST_production (atTime env t2) authHeader requestJson w in
        db (snd second) = db (snd single)
        /\ map Expected.untimed (documents (db (snd second)))
           = map Expected.untimed (documents (db (snd first)))
        /\ (t1 = t2 -> db (snd second) = db (snd first))
        /\ fst second = fst first).
Proof.
  intros env authHeader requestJson w t1 t2. split; cbv zeta.
  - rewrite !WebhookFacts.POST_written, WebhookFacts.written_again.
    split; [reflexivity|].
    split; [apply WebhookFacts.written_untimed|].
    split; [intros ->; reflexivity|].
    unfold ProcessRoute.POST.
    apply WebhookFacts.tryCatch_onError_answer, WebhookFacts.handle_answer.
  - rewrite !WebhookFacts.POST_production_written.
    unfold ProcessRoute.POST_production.
    change (ProcessRoute.optEq (NODE_ENV (atTime env t1)) (Some "production")
            && negb (truthy_opt (WORKER_SECRET (atTime env t1))))
      with (Expected.misconfigured env).
    change (ProcessRoute.optEq (NODE_ENV (atTime env t2)) (Some "production")
            && negb (truthy_opt (WORKER_SECRET (atTime env t2))))
      with (Expected.misconfigured env).
    destruct (Expected.misconfigured env).
    + repeat split; reflexivity.
    + rewrite WebhookFacts.written_again.
      split; [reflexivity|].
      split; [apply WebhookFacts.written_untimed|].
      split; [intros ->; reflexivity|].
      apply WebhookFacts.tryCatch_onError_answer, WebhookFacts.handle_answer.
Qed.

(** C7 (amended) at the sample database: the worker reports "ready" with 12
    chunks twice, the second report a second later. *)
Lemma webhook_reapplication_witness :
  let env := Sample.sampleEnv None (Returns None) (Returns Sample.withinLimit)
               (Returns []) "" 1700000000000 in
  let payload := Returns {| ProcessRoute.document_id := Some "d0c00000-0000-4000-8000-000000000001";
                            ProcessRoute.status := Some "ready";
                            ProcessRoute.chunk_count := Some 12%Z;
                            ProcessRoute.error_message := None |} in
  let first := ProcessRoute.POST (atTime env 7000) (Some "s3cret") payload
                 Sample.sampleWorld in
  let second := ProcessRoute.POST (atTime env 8000) (Some "s3cret") payload
                  (snd first) in
  map Expected.untimed (documents (db (snd second)))
  = map Expected.untimed (documents (db (snd first)))
  /\ fst second = fst first.
Proof.
  intros env payload first second.
  destruct (webhook_reapplication env (Some "s3cret") payload Sample.sampleWorld
              7000%Z 8000%Z) as [(_ & Hrows & _ & Hanswer) _].
  split; [exact Hrows | exact Hanswer].
Defined.

(* ================================================================== *)
(** * Further properties: the text helpers and the upload form *)
(* ================================================================== *)

Module TextFacts.
Import JS UtilsText StringFacts Derived.

Lemma length_take (n : nat) (s : string) :
  String.length (take n s) = Nat.min n (String.length s).
Proof.
  revert s. induction n as [|n IH]; intros [|c s]; simpl; try reflexivity.
  now rewrite IH.
Qed.

Lemma take_all (n : nat) (s : string) :
  (String.length s <= n)%nat -> take n s = s.
Proof.
  revert s. induction n as [|n IH]; intros [|c s]; simpl; intros H;
    try reflexivity; try lia.
  now rewrite IH by lia.
Qed.

Lemma take_prefix (n : nat) (s : string) : take n s ++ drop n s = s.
Proof.
  revert s. induction n as [|n IH]; intros [|c s]; simpl; try reflexivity.
  now rewrite IH.
Qed.

Lemma length_sliceTo (text : string) (e : Z) :
  Z.of_nat (String.length (sliceTo text e))
  = (if e <? 0 then Z.max (Z.of_nat (String.length text) + e) 0
     else Z.min e (Z.of_nat (String.length text)))%Z.
Proof.
  unfold sliceTo. rewrite length_take.
  destruct (e <? 0)%Z eqn:E.
  - apply Z.ltb_lt in E. lia.
  - apply Z.ltb_ge in E. lia.
Qed.

Lemma escapeHtml_cons (c : ascii) (s : string) :
  escapeHtml (String c s) = entity c ++ escapeHtml s.
Proof.
  unfold escapeHtml, entity. cbn [Rx.replaceEach].
  destruct (isHtmlSpecial c); reflexivity.
Qed.

Lemma entity_cases (c : ascii) :
  (c = "&"%char /\ entity c = "&amp;")
  \/ (c = "<"%char /\ entity c = "&lt;")
  \/ (c = ">"%char /\ entity c = "&gt;")
  \/ (c = quote /\ entity c = "&quot;")
  \/ (c = "'"%char /\ entity c = "&#39;")
  \/ (isHtmlSpecial c = false /\ entity c = String c EmptyString).
Proof.
  unfold entity.
  destruct (isHtmlSpecial c) eqn:E; [|now repeat right].
  unfold isHtmlSpecial in E.
  repeat (apply orb_true_iff in E as [E|E]);
    apply Ascii.eqb_eq in E; subst c.
  - now left.
  - right; now left.
  - right; right; now left.
  - right; right; right; now left.
  - right; right; right; right; now left.
Qed.

Lemma not_special_amp (c : ascii) : isHtmlSpecial c = false -> c <> "&"%char.
Proof. intros H ->. discriminate H. Qed.

End TextFacts.

Import UtilsText.

(** X1.  [truncateText] with a limit of at least three characters never
    returns more than [maxLength] characters: a text that fits is
    returned as it is, a longer one is cut to its first [maxLength - 3]
    characters followed by three dots. *)
Theorem truncateText_within_limit :
  forall (text : string) (maxLength : Z),
    (3 <= maxLength)%Z ->
    (Z.of_nat (String.length (truncateText text maxLength)) <= maxLength)%Z
    /\ ((Z.of_nat (String.length text) <= maxLength)%Z ->
        truncateText text maxLength = text)
    /\ ((maxLength < Z.of_nat (String.length text))%Z ->
        truncateText text maxLength
        = take (Z.to_nat (maxLength - 3)) text ++ "..."
        /\ Z.of_nat (String.length (truncateText text maxLength)) = maxLength).
Proof.
  intros text maxLength Hmax. unfold truncateText.
  destruct (Z.of_nat (String.length text) <=? maxLength)%Z eqn:E.
  - apply Z.leb_le in E. split; [exact E|]. split; [reflexivity|]. lia.
  - apply Z.leb_gt in E.
    assert (Hlen : Z.of_nat (String.length (sliceTo text (maxLength - 3) ++ "..."))
                   = maxLength).
    { rewrite StringFacts.length_append, Nat2Z.inj_add, TextFacts.length_sliceTo.
      replace (maxLength - 3 <? 0)%Z with false by (symmetry; apply Z.ltb_ge; lia).
      cbn [String.length]. lia. }
    split; [lia|]. split; [lia|]. intros _. split; [|exact Hlen].
    unfold sliceTo.
    replace (maxLength - 3 <? 0)%Z with false by (symmetry; apply Z.ltb_ge; lia).
    now rewrite Z.min_l by lia.
Qed.

Lemma truncateText_within_limit_witness :
  (3 <= 8)%Z
  /\ (Z.of_nat (String.length (truncateText "quarterly report" 8)) <= 8)%Z
  /\ truncateText "quarterly report" 8 = "quart...".
Proof.
  split; [lia|].
  destruct (truncateText_within_limit "quarterly report" 8 ltac:(lia))
    as (Hle & _ & Hcut).
  split; [exact Hle|]. apply Hcut. vm_compute. reflexivity.
Defined.

(** X2.  With a limit below three, [truncateText] returns more than
    [maxLength] characters for every text that does not fit: the end
    index [maxLength - 3] is negative, so [slice] drops that many
    characters from the end of the text instead, and the three dots are
    appended to what is left. *)
Theorem truncateText_below_three :
  forall (text : string) (maxLength : Z),
    (maxLength < 3)%Z ->
    (maxLength < Z.of_nat (String.length text))%Z ->
    Z.of_nat (String.length (truncateText text maxLength))
    = (Z.max (Z.of_nat (String.length text) - (3 - maxLength)) 0 + 3)%Z
    /\ (maxLength < Z.of_nat (String.length (truncateText text maxLength)))%Z.
Proof.
  intros text maxLength Hmax Hlong. unfold truncateText.
  replace (Z.of_nat (String.length text) <=? maxLength)%Z with false
    by (symmetry; apply Z.leb_gt; lia).
  rewrite StringFacts.length_append, Nat2Z.inj_add, TextFacts.length_sliceTo.
  replace (maxLength - 3 <? 0)%Z with true by (symmetry; apply Z.ltb_lt; lia).
  cbn [String.length]. lia.
Qed.

Lemma truncateText_below_three_witness :
  truncateText "report" 2 = "repor..."
  /\ (2 < Z.of_nat (String.length (truncateText "report" 2)))%Z.
Proof.
  split; [vm_compute; reflexivity|].
  apply (truncateText_below_three "report" 2); vm_compute; reflexivity.
Defined.

(** X3.  The output of [escapeHtml] contains no angle bracket, no double
    quote and no apostrophe, whatever the input. *)
Theorem escapeHtml_leaves_no_markup :
  forall (text : string) (c : ascii),
    In c (list_ascii_of_string (escapeHtml text)) ->
    c <> "<"%char /\ c <> ">"%char /\ c <> quote /\ c <> "'"%char.
Proof.
  intros text c. induction text as [|a text IH].
  - intros [].
  - rewrite TextFacts.escapeHtml_cons.
    assert (Happ : forall x y, list_ascii_of_string (x ++ y)
                               = (list_ascii_of_string x ++ list_ascii_of_string y)%list).
    { intros x y. induction x as [|b x IHx]; simpl; [reflexivity | now rewrite IHx]. }
    rewrite Happ. intros Hin. apply in_app_or in Hin as [Hin|Hin]; [|now apply IH].
    destruct (TextFacts.entity_cases a)
      as [[-> E]|[[-> E]|[[-> E]|[[-> E]|[[-> E]|[Hn E]]]]]];
      rewrite E in Hin; cbn in Hin;
      try (repeat (destruct Hin as [<-|Hin]; [repeat split; discriminate|]);
           contradiction).
    destruct Hin as [<-|[]].
    unfold isHtmlSpecial in Hn.
    repeat (apply orb_false_iff in Hn as [Hn ?]).
    repeat split; intros ->; discriminate.
Qed.

Lemma escapeHtml_leaves_no_markup_witness :
  escapeHtml "<b>" = "&lt;b&gt;"
  /\ "b"%char <> "<"%char.
Proof.
  split; [reflexivity|].
  apply (escapeHtml_leaves_no_markup "<b>" "b"%char). vm_compute. tauto.
Defined.

(** X4.  [escapeHtml] loses nothing: two texts with the same escaped form
    are the same text. *)
Theorem escapeHtml_injective :
  forall a b : string, escapeHtml a = escapeHtml b -> a = b.
Proof.
  induction a as [|x a IH]; intros [|y b] H.
  - reflexivity.
  - rewrite TextFacts.escapeHtml_cons in H. change (escapeHtml "") with "" in H.
    destruct (TextFacts.entity_cases y)
      as [[-> E]|[[-> E]|[[-> E]|[[-> E]|[[-> E]|[Hn E]]]]]];
      rewrite E in H; discriminate H.
  - rewrite TextFacts.escapeHtml_cons in H. change (escapeHtml "") with "" in H.
    destruct (TextFacts.entity_cases x)
      as [[-> E]|[[-> E]|[[-> E]|[[-> E]|[[-> E]|[Hn E]]]]]];
      rewrite E in H; discriminate H.
  - rewrite !TextFacts.escapeHtml_cons in H.
    destruct (TextFacts.entity_cases x)
      as [[-> Ex]|[[-> Ex]|[[-> Ex]|[[-> Ex]|[[-> Ex]|[Hx Ex]]]]]];
      destruct (TextFacts.entity_cases y)
        as [[-> Ey]|[[-> Ey]|[[-> Ey]|[[-> Ey]|[[-> Ey]|[Hy Ey]]]]]];
      rewrite ?Ex, ?Ey in H; cbn in H;
      try discriminate H;
      try (injection H as H; f_equal; now apply IH);
      try (injection H as Hc H; subst; discriminate);
      try (injection H as Hc H; subst; f_equal; now apply IH).
Qed.

Lemma escapeHtml_injective_witness :
  escapeHtml "Q&A" = "Q&amp;A" /\ "Q&A" = "Q&A".
Proof.
  split; [reflexivity|].
  apply (escapeHtml_injective "Q&A" "Q&A"). reflexivity.
Defined.

(** X5.  What [formatRelativeTime] shows, by the age of the date in
    milliseconds: anything younger than a minute, a date in the future
    included, is "just now"; then whole minutes from 1 to 59, whole hours
    from 1 to 23 and whole days from 1 to 6, each rounded down; from a
    week on, the date in the locale form. *)
Theorem formatRelativeTime_units :
  forall (now date : Z) (toLocaleDateString : Z -> string),
    let age := (now - date)%Z in
    let shown := formatRelativeTime now date toLocaleDateString in
    ((age < 60000)%Z -> shown = "just now")
    /\ ((60000 <= age < 3600000)%Z ->
        (1 <= age / 60000 <= 59)%Z
        /\ shown = UploadRoute.decimal (age / 60000) ++ "m ago")
    /\ ((3600000 <= age < 86400000)%Z ->
        (1 <= age / 3600000 <= 23)%Z
        /\ shown = UploadRoute.decimal (age / 3600000) ++ "h ago")
    /\ ((86400000 <= age < 604800000)%Z ->
        (1 <= age / 86400000 <= 6)%Z
        /\ shown = UploadRoute.decimal (age / 86400000) ++ "d ago")
    /\ ((604800000 <= age)%Z -> shown = toLocaleDateString date).
Proof.
  intros now date loc age shown. subst shown. unfold formatRelativeTime.
  fold age. cbv zeta.
  assert (Hdiv : forall k, (0 < k)%Z -> (age / 1000 / k = age / (1000 * k))%Z).
  { intros k Hk. apply Z.div_div; lia. }
  assert (Hlt : forall k, (0 < k)%Z ->
                          (age / 1000 <? k)%Z = (age <? 1000 * k)%Z).
  { intros k Hk. destruct (age <? 1000 * k)%Z eqn:E.
    - apply Z.ltb_lt in E. apply Z.ltb_lt. apply Z.div_lt_upper_bound; lia.
    - apply Z.ltb_ge in E. apply Z.ltb_ge. apply Z.div_le_lower_bound; lia. }
  rewrite !Hlt, !Hdiv by lia.
  change (1000 * 60)%Z with 60000%Z. change (1000 * 3600)%Z with 3600000%Z.
  change (1000 * 86400)%Z with 86400000%Z.
  change (1000 * 604800)%Z with 604800000%Z.
  assert (Hb : forall k, (age <? k)%Z = true <-> (age < k)%Z)
    by (intros k; apply Z.ltb_lt).
  assert (Hc : forall k, (age <? k)%Z = false <-> (k <= age)%Z)
    by (intros k; apply Z.ltb_ge).
  split; [|split; [|split; [|split]]].
  - intros H. now rewrite (proj2 (Hb 60000%Z)) by lia.
  - intros H. split.
    + split; [apply Z.div_le_lower_bound; lia|].
      assert (age / 60000 < 60)%Z by (apply Z.div_lt_upper_bound; lia). lia.
    + rewrite (proj2 (Hc 60000%Z)) by lia.
      now rewrite (proj2 (Hb 3600000%Z)) by lia.
  - intros H. split.
    + split; [apply Z.div_le_lower_bound; lia|].
      assert (age / 3600000 < 24)%Z by (apply Z.div_lt_upper_bound; lia). lia.
    + rewrite (proj2 (Hc 60000%Z)), (proj2 (Hc 3600000%Z)) by lia.
      now rewrite (proj2 (Hb 86400000%Z)) by lia.
  - intros H. split.
    + split; [apply Z.div_le_lower_bound; lia|].
      assert (age / 86400000 < 7)%Z by (apply Z.div_lt_upper_bound; lia). lia.
    + rewrite (proj2 (Hc 60000%Z)), (proj2 (Hc 3600000%Z)),
        (proj2 (Hc 86400000%Z)) by lia.
      now rewrite (proj2 (Hb 604800000%Z)) by lia.
  - intros H.
    now rewrite (proj2 (Hc 60000%Z)), (proj2 (Hc 3600000%Z)),
      (proj2 (Hc 86400000%Z)), (proj2 (Hc 604800000%Z)) by lia.
Qed.

Import Constants UploadForm.

(** X6.  The check of the upload form in the browser and the checks of
    the upload route agree.  [validateFile] has no error for a file
    exactly when the file passes the size and the type check of the
    route; a file it has an error for is not queued by [addFiles], and
    the route would answer it with 400 and write nothing. *)
Theorem browser_validation_matches_upload_route :
  forall (env : Env) (file : File) (w : World) (clerkId : string),
    auth env = Some clerkId ->
    truthy clerkId = true ->
    overTheLimit env OpUpload clerkId = false ->
    (validateFile file = None
     <-> (file_size file <= MAX_FILE_SIZE)%Z
         /\ arrayIncludes ALLOWED_FILE_TYPES (file_type file) = true)
    /\ (validateFile file = None -> addFiles [file] = [file])
    /\ (validateFile file <> None ->
        addFiles [file] = []
        /\ (exists message,
               fst (UploadRoute.POST env (Returns (Some file)) w)
               = Returns (json 400 [("error", str message)]))
        /\ db (snd (UploadRoute.POST env (Returns (Some file)) w)) = db w).
Proof.
  intros env file w clerkId Ha Hi Hl.
  assert (Hiff : validateFile file = None
                 <-> (file_size file <= MAX_FILE_SIZE)%Z
                     /\ arrayIncludes ALLOWED_FILE_TYPES (file_type file) = true).
  { unfold validateFile.
    change (isAllowedFileType (file_type file))
      with (arrayIncludes ALLOWED_FILE_TYPES (file_type file)).
    destruct (MAX_FILE_SIZE <? file_size file)%Z eqn:Hsize.
    - apply Z.ltb_lt in Hsize. split; [discriminate | lia].
    - apply Z.ltb_ge in Hsize.
      destruct (arrayIncludes ALLOWED_FILE_TYPES (file_type file)); cbn [negb].
      + split; auto.
      + split; [discriminate | intros [_ H]; discriminate H]. }
  split; [exact Hiff|]. split.
  - intros Hok. cbn [addFiles]. now rewrite Hok.
  - intros Hbad.
    assert (Hgate : (MAX_FILE_SIZE < file_size file)%Z
                    \/ arrayIncludes ALLOWED_FILE_TYPES (file_type file) = false).
    { destruct (Z_lt_le_dec MAX_FILE_SIZE (file_size file)) as [Hbig|Hsmall];
        [now left|].
      destruct (arrayIncludes ALLOWED_FILE_TYPES (file_type file)) eqn:Htype;
        [|now right].
      elim Hbad. apply Hiff. now split. }
    split; [|split].
    + cbn [addFiles]. unfold validateFile in *.
      destruct (MAX_FILE_SIZE <? file_size file)%Z; [reflexivity|].
      destruct (negb (isAllowedFileType (file_type file))); [reflexivity|].
      now elim Hbad.
    + destruct (Z_lt_le_dec MAX_FILE_SIZE (file_size file)) as [Hbig|Hsmall].
      * eexists. now apply (UploadFacts.POST_too_large env file w clerkId).
      * destruct Hgate as [Hbig|Htype]; [lia|].
        eexists. now apply (UploadFacts.POST_invalid_type env file w clerkId).
    + destruct (UploadFacts.POST_rejected_no_write env file w Hgate)
        as (resp & evs & Hrun & _). now rewrite Hrun.
Qed.

Lemma browser_validation_matches_upload_route_witness :
  let env := Sample.sampleEnv (Some "clerk_alice") (Returns None)
               (Returns Sample.withinLimit) (Returns []) "" 1700000000000 in
  let file := {| file_name := "holiday.png"; file_size := 4096;
                 file_type := "image/png" |} in
  validateFile file <> None
  /\ addFiles [file] = []
  /\ db (snd (UploadRoute.POST env (Returns (Some file)) Sample.sampleWorld))
     = Sample.sampleDb.
Proof.
  intros env file.
  assert (Hbad : validateFile file <> None) by (vm_compute; discriminate).
  split; [exact Hbad|].
  destruct (browser_validation_matches_upload_route env file Sample.sampleWorld
              "clerk_alice" eq_refl eq_refl eq_refl) as (_ & _ & H).
  destruct (H Hbad) as (Hq & _ & Hdb). split; [exact Hq | exact Hdb].
Defined.
(* ================================================================== *)
(** * Further properties: the routes *)
(* ================================================================== *)

(** X7.  A request without a signed-in caller ([auth()] gives no user id,
    or an empty one) is answered 401 by the query route, the upload
    route, the listing and the deletion, before anything else happens:
    the database is as it was and no collaborator is called, not even
    the rate limiter. *)
Theorem unauthenticated_requests_touch_nothing :
  forall (env : Env) (w : World),
    truthy_opt (auth env) = false ->
    (forall requestJson,
        QueryRoute.POST env requestJson w
        = (Returns (plainText 401 "Unauthorized"), w))
    /\ (forall formData,
           UploadRoute.POST env formData w
           = (Returns (json 401 [("error", str "Unauthorized")]), w))
    /\ (forall fault first searchParams,
           GET env fault first searchParams w
           = (Returns (json 401 [("error", str "Unauthorized")]), w))
    /\ (forall searchParams,
           DELETE env searchParams w
           = (Returns (json 401 [("error", str "Unauthorized")]), w)).
Proof.
  intros env w Hauth.
  unfold QueryRoute.POST, UploadRoute.POST, GET, DELETE, tryCatch, ret.
  destruct (auth env) as [clerkId|]; cbn [truthy_opt] in Hauth.
  - rewrite Hauth. cbn [negb]. repeat split; reflexivity.
  - repeat split; reflexivity.
Qed.

Lemma unauthenticated_requests_touch_nothing_witness :
  let env := Sample.sampleEnv None (Returns None) (Returns Sample.withinLimit)
               (Returns []) "" 1700000000000 in
  DELETE env {| param_page := None; param_limit := None; param_id := Some "d0c00000-0000-4000-8000-000000000001" |}
    Sample.sampleWorld
  = (Returns (json 401 [("error", str "Unauthorized")]), Sample.sampleWorld).
Proof.
  intros env.
  apply (unauthenticated_requests_touch_nothing env Sample.sampleWorld eq_refl).
Defined.

Module UploadRunFacts.
Import Constants UploadRoute Derived.

(** From the storage write on, when the write succeeds: the row, the
    answer, and the events, for each configuration of the worker. *)
Lemma storeAndRecord_stored env file user w url :
  uploadDocument env file (user_id user) = Returns url ->
  let doc := newDocument env (db w) file user url in
  storeAndRecord env file user w
  = (Returns (json 200
                [("id", str (doc_id doc));
                 ("status", str "processing");
                 ("message",
                  str "Document uploaded successfully and is being processed.")]),
     {| db := insertDocument (db w) doc;
        trace := (trace w ++ StorageWrite (file_name file) (user_id user)
                    :: afterStorageWrite env doc)%list |}).
Proof.
  intros Hurl doc. unfold storeAndRecord, bind, call. rewrite Hurl.
  unfold getDb, setDb, ret, tryCatch, bind, call, emit. cbn [db trace fst snd].
  fold (newDocument env (db w) file user url). fold doc.
  unfold afterStorageWrite.
  change (storageUrl doc) with url. change (userId doc) with (user_id user).
  destruct (truthy_opt (WORKER_URL env)).
  - destruct (workerFetch env (doc_id doc) url (user_id user)) as [[|]|e];
      cbn [negb db trace fst snd]; rewrite <- ?app_assoc; reflexivity.
  - cbn [db trace fst snd]. rewrite <- ?app_assoc. reflexivity.
Qed.

End UploadRunFacts.



Module QueryRunFacts.
Import QueryRoute.

Ltac unchanged :=
  eexists; split; [reflexivity|]; left; split; [discriminate | reflexivity].

(** What a run of the query route leaves behind: a response, and either
    the database as it was, or one more row in [queries] for the user row
    of the caller. *)
Lemma POST_settled env requestJson w :
  exists resp,
    fst (POST env requestJson w) = Returns resp
    /\ ((Http.status resp <> 200%Z /\ db (snd (POST env requestJson w)) = db w)
        \/ (Http.status resp = 200%Z
            /\ exists clerkId user row,
                auth env = Some clerkId
                /\ selectUserByClerkId (db w) clerkId = Some user
                /\ q_userId row = user_id user
                /\ db (snd (POST env requestJson w)) = insertQuery (db w) row)).
Proof.
  unfold POST, tryCatch, bind.
  destruct (auth env) as [clerkId|] eqn:Ha; [|unchanged].
  destruct (truthy clerkId); cbn [negb]; [|unchanged].
  destruct (RateLimitFacts.checkRateLimit_run env clerkId OpQuery w)
    as (res & evs & Hrun & _ & _).
  rewrite Hrun. destruct (success res); cbn [negb]; [|unchanged].
  destruct requestJson as [b|e]; [|unchanged].
  destruct (body_query b) as [query|]; [|unchanged].
  destruct (negb (truthy query) || (String.length (trim query) =? 0)%nat);
    [unchanged|].
  unfold getDb, call, setDb, ret. cbn [db trace fst snd].
  destruct (selectUserByClerkId (db w) clerkId) as [user|] eqn:Hu; [|unchanged].
  destruct (generateQueryEmbedding env (trim query)) as [embedding|e]; [|unchanged].
  destruct (searchVectors env (user_id user) embedding
              (searchFilter (body_documentIds b))) as [[|hit more]|e];
    cbn [db trace fst snd]; [| |unchanged].
  - eexists. split; [reflexivity|]. right. split; [reflexivity|].
    exists clerkId, user. eexists.
    split; [reflexivity|]. split; [exact Hu|]. split; [|reflexivity]. reflexivity.
  - unfold attempt.
    destruct (selectDocumentNames (db w) _) as [names|e];
      cbn [db trace fst snd]; [|unchanged].
    destruct (generateRAGResponse env (trim query) (contextsOf (hit :: more)))
      as [gen|e]; cbn [db trace fst snd]; [|unchanged].
    eexists. split; [reflexivity|]. right. split; [reflexivity|].
    exists clerkId, user. eexists.
    split; [reflexivity|]. split; [exact Hu|]. split; [|reflexivity]. reflexivity.
Qed.

End QueryRunFacts.

(** X9.  The query route never throws: every request gets a response.
    It never changes [users], [documents], [chunks] or
    [document_collections], and it adds at most one row to [queries].
    It adds that row, for the user row of the caller, exactly when it
    answers 200 with the stream; with any other status (401, 429, 400,
    404, or 500 after a failure of the embedding, the search or the
    generation) the database is as it was, so no question is recorded
    without its answer. *)
Theorem query_route_persists_only_answers :
  forall (env : Env) (requestJson : outcome QueryBody) (w : World),
    let r := QueryRoute.POST env requestJson w in
    exists resp,
      fst r = Returns resp
      /\ users (db (snd r)) = users (db w)
      /\ documents (db (snd r)) = documents (db w)
      /\ chunks (db (snd r)) = chunks (db w)
      /\ documentCollections (db (snd r)) = documentCollections (db w)
      /\ (Http.status resp <> 200%Z -> db (snd r) = db w)
      /\ (Http.status resp = 200%Z ->
          exists clerkId user row,
            auth env = Some clerkId
            /\ selectUserByClerkId (db w) clerkId = Some user
            /\ q_userId row = user_id user
            /\ queries (db (snd r)) = (queries (db w) ++ [row])%list).
Proof.
  intros env requestJson w r.
  destruct (QueryRunFacts.POST_settled env requestJson w)
    as (resp & Hresp & [[Hst Hdb]|[Hst (clerkId & user & row & Ha & Hu & Hrow & Hdb)]]);
    fold r in Hresp, Hdb; exists resp; rewrite Hdb;
    (split; [exact Hresp|]);
    cbn [insertQuery users documents chunks documentCollections queries];
    do 4 (split; [reflexivity|]).
  - split; [reflexivity | contradiction].
  - split; [intros H; now elim H|]. intros _.
    exists clerkId, user, row.
    split; [exact Ha|]. split; [exact Hu|]. split; [exact Hrow | reflexivity].
Qed.

Module SourceFacts.
Import QueryRoute.






Lemma arrayIncludes_In (xs : list string) (x : string) :
  arrayIncludes xs x = true <-> In x xs.
Proof.
  unfold arrayIncludes. rewrite existsb_exists. split.
  - intros (y & Hy & E). apply String.eqb_eq in E. now subst.
  - intros H. exists x. split; [exact H | apply String.eqb_refl].
Qed.





End SourceFacts.



Module PageFacts.
Import DocumentsRoute Derived ListingFacts.
Local Open Scope Z_scope.

Lemma insertByCreatedAtDesc_sorted first (x : Document) (l : list Document) :
  StronglySorted newerFirst l ->
  StronglySorted newerFirst (insertByCreatedAtDesc first x l).
Proof.
  induction l as [|y l IH]; intros Hs; cbn [insertByCreatedAtDesc].
  - constructor; constructor.
  - inversion Hs as [|? ? Hl Hy]; subst.
    destruct ((createdAt y <? createdAt x)
              || ((createdAt y =? createdAt x) && first x y)) eqn:E.
    + assert (Hxy : createdAt y <= createdAt x).
      { apply orb_true_iff in E as [E|E]; [apply Z.ltb_lt in E; lia|].
        apply andb_true_iff in E as [E _]. apply Z.eqb_eq in E. lia. }
      constructor; [exact Hs|].
      constructor; [exact Hxy|].
      rewrite Forall_forall in Hy |- *. intros z Hz.
      specialize (Hy z Hz). unfold newerFirst in *. lia.
    + apply orb_false_iff in E as [E _]. apply Z.ltb_ge in E.
      constructor; [now apply IH|].
      rewrite Forall_forall in Hy |- *. intros z Hz.
      apply In_insertByCreatedAtDesc in Hz as [->|Hz]; [exact E | now apply Hy].
Qed.

Lemma orderByCreatedAtDesc_sorted first (l : list Document) :
  StronglySorted newerFirst (orderByCreatedAtDesc first l).
Proof.
  unfold orderByCreatedAtDesc. induction l as [|x l IH]; cbn [fold_right].
  - constructor.
  - now apply insertByCreatedAtDesc_sorted.
Qed.

(** Ordering moves rows, it neither drops nor repeats one. *)
Lemma insertByCreatedAtDesc_rows first (x : Document) (l : list Document) :
  Permutation (x :: l) (insertByCreatedAtDesc first x l).
Proof.
  induction l as [|y l IH]; cbn [insertByCreatedAtDesc]; [reflexivity|].
  destruct ((createdAt y <? createdAt x)
            || ((createdAt y =? createdAt x) && first x y)); [reflexivity|].
  rewrite perm_swap. now constructor.
Qed.

Lemma orderByCreatedAtDesc_rows first (l : list Document) :
  Permutation l (orderByCreatedAtDesc first l).
Proof.
  unfold orderByCreatedAtDesc. induction l as [|x l IH]; cbn [fold_right].
  - constructor.
  - rewrite <- insertByCreatedAtDesc_rows. now constructor.
Qed.

(** Where no two rows have one creation time, the order is the same
    whichever row the database prefers. *)
Lemma insertByCreatedAtDesc_untied first first' (x : Document) (l : list Document) :
  ~ In (createdAt x) (map createdAt l) ->
  insertByCreatedAtDesc first x l = insertByCreatedAtDesc first' x l.
Proof.
  induction l as [|y l IH]; intros Hx; [reflexivity|].
  cbn [insertByCreatedAtDesc].
  replace (createdAt y =? createdAt x) with false.
  - cbn [andb]. rewrite IH; [reflexivity|]. intros H. apply Hx. now right.
  - symmetry. apply Z.eqb_neq. intros E. apply Hx. now left.
Qed.

Lemma orderByCreatedAtDesc_untied first first' (l : list Document) :
  NoDup (map createdAt l) ->
  orderByCreatedAtDesc first l = orderByCreatedAtDesc first' l.
Proof.
  unfold orderByCreatedAtDesc. induction l as [|x l IH]; intros Hnd; [reflexivity|].
  cbn [map] in Hnd. apply NoDup_cons_iff in Hnd as [Hx Hnd].
  cbn [fold_right]. rewrite (IH Hnd).
  apply insertByCreatedAtDesc_untied.
  intros Hin. apply Hx. apply in_map_iff in Hin as (y & Hy & Hin).
  apply in_map_iff. exists y. split; [exact Hy|].
  now apply (In_orderByCreatedAtDesc first' y l).
Qed.

Lemma sorted_skipn {A} (R : A -> A -> Prop) (n : nat) (l : list A) :
  StronglySorted R l -> StronglySorted R (skipn n l).
Proof.
  revert l. induction n as [|n IH]; intros l Hs; [exact Hs|].
  destruct l as [|x l]; [exact Hs|]. cbn [skipn].
  inversion Hs; subst. now apply IH.
Qed.

Lemma sorted_firstn {A} (R : A -> A -> Prop) (n : nat) (l : list A) :
  StronglySorted R l -> StronglySorted R (firstn n l).
Proof.
  revert l. induction n as [|n IH]; intros l Hs; [constructor|].
  destruct l as [|x l]; [constructor|]. cbn [firstn].
  inversion Hs as [|? ? Hl Hx]; subst. constructor; [now apply IH|].
  rewrite Forall_forall in Hx |- *. intros y Hy.
  apply Hx. eapply ListFacts.firstn_subset; eassumption.
Qed.

Lemma firstn_more {A} (n m : nat) (l : list A) :
  (firstn n l ++ firstn m (skipn n l))%list = firstn (n + m) l.
Proof.
  revert l. induction n as [|n IH]; intros l; [reflexivity|].
  destruct l as [|x l]; [cbn [skipn]; now rewrite !firstn_nil|].
  cbn [firstn skipn app Nat.add]. now rewrite IH.
Qed.

(** The listing for a caller with a user row and a page and a limit
    that JavaScript and the database hold exactly: the window is the one
    the two numbers describe, and the driver is never asked about
    out-of-range values. *)
Lemma GET_page env fault first searchParams w clerkId user p l :
  auth env = Some clerkId ->
  truthy clerkId = true ->
  selectUserByClerkId (db w) clerkId = Some user ->
  parseInt (orDefault (param_page searchParams) "1") = Some p ->
  parseInt (orDefault (param_limit searchParams) "20") = Some l ->
  1 <= p <= 9007199254740991 ->
  0 <= l <= 9007199254740991 ->
  (p - 1) * l <= 9007199254740991 ->
  GET env fault first searchParams w
  = (Returns
       (json 200
          [("documents",
            Some (JArr (map (formatDoc env)
                          (pageOf (selectDocumentsOf first (db w) (user_id user)) p l))));
           ("page", nanNum (Some p));
           ("limit", nanNum (Some l))]),
     w).
Proof.
  intros Ha Hi Hu Hp Hl Hp1 Hl0 Ho. unfold GET, tryCatch, bind, attempt.
  rewrite Ha, Hi. cbn [negb]. unfold getDb. cbn [fst snd db].
  rewrite Hu, Hp, Hl. unfold window.
  assert (Hsafe : forall n, - 9007199254740991 <= n <= 9007199254740991 ->
                            safe n = true).
  { intros n Hn. unfold safe, maxSafeInteger.
    apply andb_true_iff. split; apply Z.leb_le; lia. }
  rewrite (Hsafe p), (Hsafe l), (Hsafe ((p - 1) * l)) by nia.
  replace (0 <=? l) with true by (symmetry; apply Z.leb_le; lia).
  replace (0 <=? (p - 1) * l) with true by (symmetry; apply Z.leb_le; nia).
  reflexivity.
Qed.

Lemma listed_documents (st : Z) (items : list Json)
    (more : list (string * option Json)) (w : World) :
  Expected.listed (Returns (json st (("documents", Some (JArr items)) :: more)), w)
  = items.
Proof. reflexivity. Qed.

End PageFacts.

(** X11.  For a signed-in caller with a user row, a page number [p] of
    at least 1 and a limit [l] of at least 0 (as [parseInt] reads them,
    "1" and "20" when absent), none of [p], [l] and [(p-1)*l] above
    9007199254740991: the listing answers 200 with the rows [(p-1)*l] to
    [p*l - 1] of the caller's documents ordered by creation time, newest
    first: at most [l] entries, each not older than the next.  The
    ordered rows are the caller's document rows, each as often as the
    table has it; among rows of one creation time the order is the one
    the database chose for this request. *)
Theorem listing_newest_first_and_bounded :
  forall (env : Env) (fault : option Z -> option Z -> outcome (nat * option nat))
         (first : Document -> Document -> bool)
         (searchParams : SearchParams) (w : World) (clerkId : string) (user : User)
         (p l : Z),
    auth env = Some clerkId ->
    truthy clerkId = true ->
    selectUserByClerkId (db w) clerkId = Some user ->
    parseInt (orDefault (param_page searchParams) "1") = Some p ->
    parseInt (orDefault (param_limit searchParams) "20") = Some l ->
    (1 <= p <= 9007199254740991)%Z ->
    (0 <= l <= 9007199254740991)%Z ->
    ((p - 1) * l <= 9007199254740991)%Z ->
    let r := GET env fault first searchParams w in
    let rows := selectDocumentsOf first (db w) (user_id user) in
    let docs := firstn (Z.to_nat l) (skipn (Z.to_nat ((p - 1) * l)) rows) in
    option_map Http.status (responseOf r) = Some 200%Z
    /\ Expected.listed r = map (formatDoc env) docs
    /\ (Z.of_nat (List.length (Expected.listed r)) <= l)%Z
    /\ StronglySorted Derived.newerFirst docs
    /\ StronglySorted Derived.newerFirst rows
    /\ Permutation
         (filter (fun x => String.eqb (userId x) (user_id user)) (documents (db w)))
         rows
    /\ snd r = w.
Proof.
  intros env fault first searchParams w clerkId user p l Ha Hi Hu Hp Hl Hp1 Hl0 Ho
         r rows docs.
  subst r. rewrite (PageFacts.GET_page env fault first searchParams w clerkId user p l)
    by assumption.
  split; [reflexivity|]. split; [reflexivity|].
  change (Expected.listed _) with (map (formatDoc env) docs).
  assert (Hall : StronglySorted Derived.newerFirst rows)
    by apply PageFacts.orderByCreatedAtDesc_sorted.
  split; [|split; [|split; [exact Hall|split]]].
  - rewrite length_map. unfold docs.
    rewrite length_firstn. lia.
  - unfold docs.
    now apply PageFacts.sorted_firstn, PageFacts.sorted_skipn.
  - apply PageFacts.orderByCreatedAtDesc_rows.
  - reflexivity.
Qed.

Lemma listing_newest_first_and_bounded_witness :
  let env := Sample.sampleEnv (Some "clerk_alice") (Returns None)
               (Returns Sample.withinLimit) (Returns []) "" 1700000000000 in
  let searchParams := {| param_page := None; param_limit := Some "1";
                         param_id := None |} in
  map Expected.itemId
      (Expected.listed (GET env (fun _ _ => Throws "out of range")
                          (fun _ _ => false) searchParams Sample.sampleWorld))
  = [Some "d0c00000-0000-4000-8000-000000000003"].
Proof.
  intros env searchParams.
  destruct (listing_newest_first_and_bounded env (fun _ _ => Throws "out of range")
              (fun _ _ => false)
              searchParams Sample.sampleWorld "clerk_alice" Sample.alice 1 1
              eq_refl eq_refl eq_refl eq_refl eq_refl ltac:(lia) ltac:(lia)
              ltac:(lia))
    as (_ & Hlisted & _).
  rewrite Hlisted. reflexivity.
Defined.

(** X12.  Consecutive pages are adjacent windows of one listing when no
    two documents of the caller were created at the same time: for a
    limit [l] and a page [p] (none of [p + 1], [l] and [p * l] above
    9007199254740991), the entries of page [p] followed by those of page
    [p + 1] are the [2 * l] rows from row [(p-1)*l] on of the caller's
    documents, newest first, whatever the database does with rows of one
    creation time in either request.  The listing does not change the
    database, so no row is skipped or shown twice between the two
    requests. *)
Theorem consecutive_pages_are_adjacent :
  forall (env : Env)
         (fault fault' : option Z -> option Z -> outcome (nat * option nat))
         (first first' : Document -> Document -> bool)
         (params next : SearchParams) (w : World) (clerkId : string) (user : User)
         (p l : Z),
    auth env = Some clerkId ->
    truthy clerkId = true ->
    selectUserByClerkId (db w) clerkId = Some user ->
    parseInt (orDefault (param_page params) "1") = Some p ->
    parseInt (orDefault (param_page next) "1") = Some (p + 1)%Z ->
    parseInt (orDefault (param_limit params) "20") = Some l ->
    parseInt (orDefault (param_limit next) "20") = Some l ->
    (1 <= p)%Z -> (p + 1 <= 9007199254740991)%Z ->
    (0 <= l <= 9007199254740991)%Z ->
    (p * l <= 9007199254740991)%Z ->
    NoDup (map createdAt
             (filter (fun x => String.eqb (userId x) (user_id user))
                     (documents (db w)))) ->
    let r1 := GET env fault first params w in
    let r2 := GET env fault' first' next (snd r1) in
    (Expected.listed r1 ++ Expected.listed r2)%list
    = map (formatDoc env)
        (firstn (Z.to_nat (2 * l))
           (skipn (Z.to_nat ((p - 1) * l))
              (selectDocumentsOf first (db w) (user_id user))))
    /\ selectDocumentsOf first' (db w) (user_id user)
       = selectDocumentsOf first (db w) (user_id user).
Proof.
  intros env fault fault' first first' params next w clerkId user p l
         Ha Hi Hu Hp1 Hp2 Hl1 Hl2 Hp Hpmax Hl Hmax Huntied r1 r2.
  assert (Hsame : selectDocumentsOf first' (db w) (user_id user)
                  = selectDocumentsOf first (db w) (user_id user)).
  { unfold selectDocumentsOf. now apply PageFacts.orderByCreatedAtDesc_untied. }
  split; [|exact Hsame].
  subst r2 r1.
  rewrite (PageFacts.GET_page env fault first params w clerkId user p l)
    by (assumption || nia || lia).
  cbn [snd].
  rewrite (PageFacts.GET_page env fault' first' next w clerkId user (p + 1) l)
    by (assumption || nia || lia).
  rewrite Hsame.
  rewrite !PageFacts.listed_documents, <- map_app. f_equal. unfold Derived.pageOf.
  replace (Z.to_nat ((p + 1 - 1) * l))
    with (Z.to_nat l + Z.to_nat ((p - 1) * l))%nat by nia.
  rewrite <- skipn_skipn, PageFacts.firstn_more. f_equal. lia.
Qed.

Lemma consecutive_pages_are_adjacent_witness :
  let env := Sample.sampleEnv (Some "clerk_alice") (Returns None)
               (Returns Sample.withinLimit) (Returns []) "" 1700000000000 in
  let fault := fun (_ _ : option Z) => @Throws (nat * option nat) "out of range" in
  let params := {| param_page := Some "1"; param_limit := Some "1";
                   param_id := None |} in
  let next := {| param_page := Some "2"; param_limit := Some "1";
                 param_id := None |} in
  let r1 := GET env fault (fun _ _ => true) params Sample.sampleWorld in
  map Expected.itemId
      (Expected.listed r1
         ++ Expected.listed (GET env fault (fun _ _ => false) next (snd r1)))%list
  = [Some "d0c00000-0000-4000-8000-000000000003";
     Some "d0c00000-0000-4000-8000-000000000001"].
Proof.
  intros env fault params next r1. subst r1.
  destruct (consecutive_pages_are_adjacent env fault fault
              (fun _ _ => true) (fun _ _ => false) params next Sample.sampleWorld
              "clerk_alice" Sample.alice 1 1 eq_refl eq_refl eq_refl eq_refl eq_refl
              eq_refl eq_refl ltac:(lia) ltac:(lia) ltac:(lia) ltac:(lia))
    as [Hpages _].
  - cbn. repeat constructor; cbn; intuition discriminate.
  - rewrite Hpages. reflexivity.
Defined.

(** Where two documents of the caller have one creation time, the
    database may order them differently in two requests: the second page
    then repeats the row of the first, and the other row is never
    shown. *)
Example tied_rows_may_repeat :
  let env := Sample.sampleEnv (Some "clerk_alice") (Returns None)
               (Returns Sample.withinLimit) (Returns []) "" 1700000000000 in
  let fault := fun (_ _ : option Z) => @Throws (nat * option nat) "out of range" in
  let twin := Sample.mkDocument "d0c00000-0000-4000-8000-000000000004"
                "a11ce000-0000-4000-8000-000000000001" "twin.pdf" 5000 in
  let w := {| db := insertDocument Sample.sampleDb twin; trace := [] |} in
  let params := {| param_page := Some "1"; param_limit := Some "1";
                   param_id := None |} in
  let next := {| param_page := Some "2"; param_limit := Some "1";
                 param_id := None |} in
  let r1 := GET env fault (fun _ _ => true) params w in
  let r2 := GET env fault (fun _ _ => false) next (snd r1) in
  map Expected.itemId (Expected.listed r1)
  = [Some "d0c00000-0000-4000-8000-000000000003"]
  /\ map Expected.itemId (Expected.listed r2)
     = [Some "d0c00000-0000-4000-8000-000000000003"].
Proof. split; vm_compute; reflexivity. Qed.

(** X13.  A deletion is final.  After a signed-in caller has deleted one
    of their documents, asking to delete it again is answered 404 and
    does nothing more (no second call to the object store or to the
    vector store), and no listing, with whatever page and limit, shows an
    entry with the id of the deleted document, which is the uuid that
    the request named (nor, the ids of the table being uuids as the
    database stores them, one with the text of the request as its
    id). *)
Theorem deleted_document_is_gone :
  forall (env : Env) (searchParams : SearchParams) (w : World)
         (clerkId documentId : string) (user : User) (doc : Document),
    auth env = Some clerkId ->
    truthy clerkId = true ->
    param_id searchParams = Some documentId ->
    truthy documentId = true ->
    selectUserByClerkId (db w) clerkId = Some user ->
    selectOwnedDocument (db w) documentId (user_id user) = Returns (Some doc) ->
    let after := snd (DELETE env searchParams w) in
    option_map Http.status (responseOf (DELETE env searchParams after)) = Some 404%Z
    /\ snd (DELETE env searchParams after) = after
    /\ uuid_in documentId = Some (doc_id doc)
    /\ (forall fault first params item,
           In item (Expected.listed (GET env fault first params after)) ->
           Expected.itemId item <> Some (doc_id doc)
           /\ ((forall x, In x (documents (db w)) ->
                          uuid_in (doc_id x) = Some (doc_id x)) ->
               Expected.itemId item <> Some documentId)).
Proof.
  intros env searchParams w clerkId documentId user doc Ha Hi Hp Hn Hu Hd after.
  unfold selectOwnedDocument in Hd.
  destruct (uuid_in documentId) as [v|] eqn:Hv; [|discriminate Hd].
  injection Hd as Hd.
  assert (Hid : doc_id doc = v).
  { apply find_some in Hd as [_ Hd]. apply andb_true_iff in Hd as [Hd _].
    now apply String.eqb_eq in Hd. }
  assert (Hafter : db after = withoutDocument (db w) v).
  { subst after.
    now rewrite (DeletionFacts.DELETE_owned env searchParams w clerkId documentId
                   user Ha Hi Hp Hn doc v Hu Hv Hd). }
  assert (Hgone : forall x, In x (documents (db after)) -> doc_id x <> v).
  { intros x Hx. rewrite Hafter in Hx. cbn [withoutDocument documents] in Hx.
    apply filter_In in Hx as [_ Hx].
    now apply negb_true_iff, String.eqb_neq in Hx. }
  destruct (DeletionFacts.DELETE_not_found env searchParams after clerkId documentId
              Ha Hi Hp Hn v Hv) as (message & Hrun).
  { intros u x _ Hx Hidx. now elim (Hgone x Hx). }
  rewrite Hrun. split; [reflexivity|]. split; [reflexivity|].
  split; [now rewrite Hid|].
  intros fault first params item Hin.
  destruct (ListingFacts.GET_listed env fault first params after item Hin)
    as (_ & _ & x & _ & _ & Hx & _ & ->).
  rewrite ListingFacts.itemId_formatDoc, Hid. split.
  - intros [= Hidx]. exact (Hgone x Hx Hidx).
  - intros Hstored [= Hidx]. apply (Hgone x Hx).
    assert (Hbefore : In x (documents (db w))).
    { rewrite Hafter in Hx. cbn [withoutDocument documents] in Hx.
      now apply filter_In in Hx as [Hx _]. }
    specialize (Hstored x Hbefore). rewrite Hidx, Hv in Hstored. congruence.
Qed.

Lemma deleted_document_is_gone_witness :
  let env := Sample.sampleEnv (Some "clerk_alice") (Returns None)
               (Returns Sample.withinLimit) (Returns []) "" 1700000000000 in
  let searchParams := {| param_page := None; param_limit := None;
                         param_id := Some "d0c00000-0000-4000-8000-000000000001" |} in
  let after := snd (DELETE env searchParams Sample.sampleWorld) in
  option_map Http.status (responseOf (DELETE env searchParams after)) = Some 404%Z
  /\ snd (DELETE env searchParams after) = after.
Proof.
  intros env searchParams after.
  destruct (deleted_document_is_gone env searchParams Sample.sampleWorld
              "clerk_alice" "d0c00000-0000-4000-8000-000000000001" Sample.alice Sample.report
              eq_refl eq_refl eq_refl eq_refl eq_refl eq_refl) as (H1 & H2 & _).
  split; [exact H1 | exact H2].
Defined.

Module FrameFacts.
Import ProcessRoute.

(** What an update of the rows of one id leaves alone. *)
Lemma withUpdate_frame (d : DB) (v : string) (u : UpdateData) :
  let d' := withUpdate d v (applyUpdate u) in
  users d' = users d
  /\ chunks d' = chunks d
  /\ queries d' = queries d
  /\ documentCollections d' = documentCollections d
  /\ List.length (documents d') = List.length (documents d)
  /\ forall (n : nat) (x : Document),
      nth_error (documents d) n = Some x ->
      exists y,
        nth_error (documents d') n = Some y
        /\ doc_id y = doc_id x
        /\ userId y = userId x
        /\ fileName y = fileName x
        /\ fileSize y = fileSize x
        /\ mimeType y = mimeType x
        /\ storageUrl y = storageUrl x
        /\ metadata y = metadata x
        /\ createdAt y = createdAt x
        /\ (doc_id x <> v -> y = x)
        /\ (set_status u = None -> Schema.status y = Schema.status x)
        /\ (set_chunkCount u = None -> chunkCount y = chunkCount x)
        /\ (set_errorMessage u = None -> errorMessage y = errorMessage x).
Proof.
  cbv zeta. unfold withUpdate.
  cbn [users chunks queries documentCollections documents].
  do 4 (split; [reflexivity|]). split; [apply length_map|].
  intros n x Hx. rewrite nth_error_map, Hx. cbn [option_map].
  eexists. split; [reflexivity|].
  destruct (String.eqb (doc_id x) v) eqn:E.
  - unfold applyUpdate.
    cbn [doc_id userId fileName fileSize mimeType storageUrl metadata createdAt
         Schema.status chunkCount errorMessage].
    do 8 (split; [reflexivity|]).
    apply String.eqb_eq in E.
    split; [intros H; now elim H|].
    split; [intros ->; reflexivity|].
    split; intros ->; reflexivity.
  - do 8 (split; [reflexivity|]).
    split; [reflexivity|]. split; [reflexivity|]. split; reflexivity.
Qed.

Lemma accepted_inv env authHeader requestJson i b :
  Expected.accepted env authHeader requestJson = Some (i, b) ->
  requestJson = Returns b
  /\ document_id b = Some i
  /\ truthy i = true
  /\ (truthy_opt (WORKER_SECRET env) = false
      \/ optEq authHeader (WORKER_SECRET env) = true)
  /\ (forall s, status b = Some s -> truthy s = true -> In s validStatuses).
Proof.
  unfold Expected.accepted.
  destruct (truthy_opt (WORKER_SECRET env)) eqn:Hs;
    [destruct (optEq authHeader (WORKER_SECRET env)) eqn:Hh|]; cbn [andb negb];
    try discriminate;
    (destruct requestJson as [b'|e]; [|discriminate]);
    (destruct (document_id b') as [i'|] eqn:Hid; [|discriminate]);
    (destruct (truthy i') eqn:Hi; cbn [negb]; [|discriminate]);
    (destruct (truthy_opt (status b')
               && negb (arrayIncludes validStatuses
                          match status b' with Some s => s | None => "" end))
       eqn:Hv; [discriminate|]);
    intros [= <- <-];
    (split; [reflexivity|]); (split; [exact Hid|]); (split; [exact Hi|]);
    (split; [auto|]);
    intros s Hst Hts; rewrite Hst in Hv; cbn [truthy_opt] in Hv;
    rewrite Hts in Hv; cbn [andb] in Hv;
    apply negb_false_iff in Hv; now apply SourceFacts.arrayIncludes_In.
Qed.

Lemma framed_same requestJson d : Derived.framed requestJson d d.
Proof.
  unfold Derived.framed. do 5 (split; [reflexivity|]).
  intros n x Hx. exists x. split; [exact Hx|].
  do 8 (split; [reflexivity|]).
  split; [reflexivity|]. split; [reflexivity|]. split; [reflexivity|].
  split; [reflexivity|]. now left.
Qed.

Lemma written_framed env authHeader requestJson d :
  Derived.framed requestJson d
    (match Expected.accepted env authHeader requestJson with
     | Some (i, b) =>
         Expected.afterUpdate d
           (updateDocuments d i (fitsColumns (updateDataOf env b))
              (applyUpdate (updateDataOf env b)))
     | None => d
     end).
Proof.
  destruct (Expected.accepted env authHeader requestJson) as [[i b]|] eqn:Hacc;
    [|apply framed_same].
  destruct (accepted_inv _ _ _ _ _ Hacc) as (-> & Hid & Hi & _ & Hvalid).
  unfold updateDocuments.
  destruct (uuid_in i) as [v|] eqn:Hv; [|apply framed_same].
  destruct (fitsColumns (updateDataOf env b)); [|apply framed_same].
  cbn [Expected.afterUpdate].
  destruct (withUpdate_frame d v (updateDataOf env b))
    as (H1 & H2 & H3 & H4 & H5 & Hrows).
  unfold Derived.framed. do 5 (split; [assumption|]).
  intros n x Hx.
  destruct (Hrows n x Hx)
    as (y & Hy & E1 & E2 & E3 & E4 & E5 & E6 & E7 & E8 & Hother & Hs & Hc & He).
  exists y. do 9 (split; [assumption|]).
  split.
  { intros Hb. apply Hother. intros <-.
    apply (Hb b i eq_refl Hid). exact Hv. }
  split.
  { intros b' [= <-] Hf. apply Hs. cbn [updateDataOf set_status].
    unfold truthyOnly. now rewrite Hf. }
  split.
  { intros b' [= <-] Hf. apply Hc. exact Hf. }
  split.
  { intros b' [= <-] Hf. apply He. cbn [updateDataOf set_errorMessage].
    unfold truthyOnly. now rewrite Hf. }
  destruct (truthy_opt (status b)) eqn:Hts.
  - destruct (String.eqb (doc_id x) v) eqn:E.
    + right. unfold withUpdate in Hy. cbn [documents] in Hy.
      rewrite nth_error_map, Hx in Hy. cbn [option_map] in Hy.
      rewrite E in Hy. injection Hy as <-.
      unfold applyUpdate. cbn [Schema.status updateDataOf set_status].
      unfold truthyOnly. rewrite Hts.
      destruct (status b) as [s|] eqn:Hst; [|discriminate Hts].
      apply (Hvalid s eq_refl). exact Hts.
    + left. apply String.eqb_neq in E. now rewrite (Hother E).
  - left. apply Hs. cbn [updateDataOf set_status]. unfold truthyOnly.
    now rewrite Hts.
Qed.



End FrameFacts.

(** X14.  A report of the worker changes nothing but the document row it
    names, in both versions of the webhook and for every request
    (accepted or not, well-formed or not).  [users], [chunks], [queries]
    and [document_collections] stay as they are; no document row is
    added, removed or moved; every row keeps its id, owner, file name,
    size, type, storage URL, metadata and creation time; a row whose id
    is not the uuid that the report names is untouched (so is every row
    when the database refuses the statement, for an id that is no uuid or
    a chunk count beyond 32 bits); and in the named row [status], [chunkCount]
    and [errorMessage] each change only if the report carries a value
    for them -- so a stale error message survives a later report without
    one -- and the status only to "processing", "ready" or "failed". *)
Theorem webhook_changes_only_the_reported_columns :
  forall (env : Env) (authHeader : option string)
         (requestJson : outcome ProcessRoute.ProcessBody) (w : World),
    Derived.framed requestJson (db w)
      (db (snd (ProcessRoute.POST env authHeader requestJson w)))
    /\ Derived.framed requestJson (db w)
         (db (snd (ProcessRoute.POST_production env authHeader requestJson w))).
Proof.
  intros env authHeader requestJson w.
  rewrite WebhookFacts.POST_db, WebhookFacts.POST_production_db.
  split; [apply FrameFacts.written_framed|].
  destruct (Expected.misconfigured env);
    [apply FrameFacts.framed_same | apply FrameFacts.written_framed].
Qed.

(** X15.  With [WORKER_SECRET] set, a request whose [X-Worker-Secret]
    header is missing or differs from it is answered 401 by both
    versions of the webhook before the body is read: whatever the body
    says, the database and the trace are as they were. *)
Theorem webhook_requires_the_shared_secret :
  forall (env : Env) (authHeader : option string)
         (requestJson : outcome ProcessRoute.ProcessBody) (w : World)
         (secret : string),
    WORKER_SECRET env = Some secret ->
    truthy secret = true ->
    authHeader <> Some secret ->
    ProcessRoute.POST env authHeader requestJson w
    = (Returns (json 401 [("error", str "Unauthorized")]), w)
    /\ ProcessRoute.POST_production env authHeader requestJson w
       = (Returns (json 401 [("error", str "Unauthorized")]), w).
Proof.
  intros env authHeader requestJson w secret Hs Hts Hh.
  assert (Hne : ProcessRoute.optEq authHeader (Some secret) = false).
  { destruct authHeader as [h|]; [|reflexivity]. cbn [ProcessRoute.optEq].
    apply String.eqb_neq. intros ->. now apply Hh. }
  unfold ProcessRoute.POST, ProcessRoute.POST_production, ProcessRoute.handle, tryCatch.
  rewrite Hs. cbn [truthy_opt]. rewrite Hts, Hne. cbn [negb andb].
  rewrite andb_false_r. split; reflexivity.
Qed.

Lemma webhook_requires_the_shared_secret_witness :
  let env := Sample.sampleEnv None (Returns None) (Returns Sample.withinLimit)
               (Returns []) "" 1700000000000 in
  let report := {| ProcessRoute.document_id := Some "d0c00000-0000-4000-8000-000000000001";
                   ProcessRoute.status := Some "ready";
                   ProcessRoute.chunk_count := Some 12%Z;
                   ProcessRoute.error_message := None |} in
  ProcessRoute.POST env (Some "guess") (Returns report) Sample.sampleWorld
  = (Returns (json 401 [("error", str "Unauthorized")]), Sample.sampleWorld).
Proof.
  intros env report.
  apply (webhook_requires_the_shared_secret env (Some "guess") (Returns report)
           Sample.sampleWorld "s3cret" eq_refl eq_refl).
  discriminate.
Defined.



Module ConstraintFacts.
Import Constants UploadRoute Derived.

Lemma storeAndRecord_db env file user w :
  db (snd (storeAndRecord env file user w))
  = match uploadDocument env file (user_id user) with
    | Returns url => insertDocument (db w) (newDocument env (db w) file user url)
    | Throws _ => db w
    end.
Proof.
  destruct (uploadDocument env file (user_id user)) as [url|e] eqn:Hurl.
  - now rewrite (UploadRunFacts.storeAndRecord_stored env file user w url Hurl).
  - unfold storeAndRecord, bind, call. now rewrite Hurl.
Qed.

Lemma caught_db (m : M Response) (h : string -> M Response) w :
  (forall e w', db (snd (h e w')) = db w') ->
  db (snd (tryCatch m h w)) = db (snd (m w)).
Proof.
  intros Hh. unfold tryCatch. destruct (m w) as [[resp|e] w']; [reflexivity|].
  apply Hh.
Qed.

(** The database after an upload request: as before, or with a document
    row, or with a user row for a caller who had none, or with both. *)
Lemma POST_db_cases env formData w :
  let d' := db (snd (POST env formData w)) in
  d' = db w
  \/ (exists doc, doc_id doc = randomUUID env (db w)
                  /\ d' = insertDocument (db w) doc)
  \/ (exists u,
         selectUserByClerkId (db w) (clerkId u) = None
         /\ (d' = insertUser (db w) u
             \/ exists doc,
                 doc_id doc = randomUUID env (insertUser (db w) u)
                 /\ d' = insertDocument (insertUser (db w) u) doc)).
Proof.
  cbv zeta. unfold POST. rewrite caught_db by reflexivity. unfold bind.
  destruct (auth env) as [clerkId|]; [|now left].
  destruct (truthy clerkId); cbn [negb]; [|now left].
  destruct (RateLimitFacts.checkRateLimit_run env clerkId OpUpload w)
    as (res & evs & Hrun & _ & _).
  rewrite Hrun. destruct (success res); cbn [negb]; [|now left].
  destruct formData as [[file|]|e]; [| now left | now left].
  destruct (MAX_FILE_SIZE <? file_size file)%Z; [now left|].
  destruct (negb (arrayIncludes ALLOWED_FILE_TYPES (file_type file))); [now left|].
  unfold getDb, call. cbn [db trace fst snd].
  destruct (selectUserByClerkId (db w) clerkId) as [user|] eqn:Hu.
  - rewrite storeAndRecord_db. cbn [db].
    destruct (uploadDocument env file (user_id user)) as [url|e]; [|now left].
    right; left. eexists. split; [|reflexivity]. reflexivity.
  - destruct (currentUser env) as [identity|e]; [|now left].
    cbn [db trace fst snd].
    destruct (firstEmail identity) as [userEmail|]; [|now left].
    destruct (truthy userEmail); cbn [negb]; [|now left].
    unfold setDb. cbn [db trace fst snd].
    rewrite storeAndRecord_db. cbn [db].
    right; right.
    exists (Expected.newUser env (db w) clerkId userEmail identity).
    split; [exact Hu|].
    match goal with
    | |- context [uploadDocument env file ?u] =>
        destruct (uploadDocument env file u) as [url|e]
    end.
    + right. eexists. split; [|reflexivity]. reflexivity.
    + now left.
Qed.

Lemma NoDup_snoc {A} (l : list A) (x : A) :
  NoDup l -> ~ In x l -> NoDup (l ++ [x]).
Proof.
  intros Hnd Hx. induction Hnd as [|y l Hy Hnd IH]; cbn [app].
  - constructor; [intros []|constructor].
  - constructor.
    + intros Hin. apply in_app_or in Hin as [Hin|[->|[]]]; [now apply Hy|].
      apply Hx. now left.
    + apply IH. intros H. apply Hx. now right.
Qed.

End ConstraintFacts.

(** X17.  The upload route keeps the constraints the schema declares.
    If no two user rows share a Clerk id and no two document rows an id,
    the same holds after any upload request, provided the database
    generates a document id that is not in use: the route adds a user
    row only for a caller for whom the lookup by Clerk id found none. *)
Theorem upload_keeps_the_schema_constraints :
  forall (env : Env) (formData : outcome (option File)) (w : World),
    Constraints (db w) ->
    (forall d, documents d = documents (db w) ->
               ~ In (randomUUID env d) (map doc_id (documents (db w)))) ->
    Constraints (db (snd (UploadRoute.POST env formData w))).
Proof.
  intros env formData w [Hpkey Hclerk] Hfresh.
  assert (Hdoc : forall d doc,
             documents d = documents (db w) ->
             doc_id doc = randomUUID env d ->
             NoDup (map doc_id (documents (insertDocument d doc)))).
  { intros d doc Hd Hid. cbn [insertDocument documents].
    rewrite map_app, Hd. cbn [map]. apply ConstraintFacts.NoDup_snoc; [exact Hpkey|].
    rewrite Hid. now apply Hfresh. }
  assert (Huser : forall u,
             selectUserByClerkId (db w) (clerkId u) = None ->
             NoDup (map clerkId (users (insertUser (db w) u)))).
  { intros u Hu. cbn [insertUser users]. rewrite map_app. cbn [map].
    apply ConstraintFacts.NoDup_snoc; [exact Hclerk|].
    intros Hin. apply in_map_iff in Hin as (x & Hx & Hin).
    unfold selectUserByClerkId in Hu.
    apply (find_none _ _ Hu) in Hin. rewrite Hx, String.eqb_refl in Hin.
    discriminate Hin. }
  destruct (ConstraintFacts.POST_db_cases env formData w)
    as [->|[(doc & Hid & ->)|(u & Hu & [->|(doc & Hid & ->)])]].
  - now split.
  - split; [now apply Hdoc | exact Hclerk].
  - split; [exact Hpkey | now apply Huser].
  - split; [now apply Hdoc | now apply Huser].
Qed.

Lemma upload_keeps_the_schema_constraints_witness :
  let env := Sample.sampleEnv (Some "clerk_carol") (Returns (Some Sample.aliceAtClerk))
               (Returns Sample.withinLimit) (Returns []) "" 1700000000000 in
  let file := {| file_name := "plan.pdf"; file_size := 4096;
                 file_type := "application/pdf" |} in
  let after := db (snd (UploadRoute.POST env (Returns (Some file)) Sample.sampleWorld)) in
  Constraints after
  /\ map clerkId (users after) = ["clerk_alice"; "clerk_bob"; "clerk_carol"].
Proof.
  intros env file after. split; [|reflexivity].
  apply (upload_keeps_the_schema_constraints env (Returns (Some file))
           Sample.sampleWorld).
  - split; cbn; repeat constructor; cbn; intuition discriminate.
  - intros d _ Hin. cbn in Hin. intuition discriminate.
Defined.
(* ================================================================== *)
(** * Further properties: the object store *)
(* ================================================================== *)

Module RxFacts.
Import JS Rx Derived StringFacts.

Lemma advance_again (st : State) (a b : string) :
  advance (advance st a) b = advance st b.
Proof. reflexivity. Qed.

(** Where a greedy run over a class can end for what follows to match:
    if what follows fails wherever a character of the class comes next,
    only the end of the longest run is left. *)
Lemma loop_cls_longest (p : ascii -> bool) (f : State -> list State) :
  (forall st c t, rest st = String c t -> p c = true -> f st = []) ->
  forall (a : string) (st : State) (r : string) (n : nat),
    a <> "" ->
    every p a = true ->
    rest st = a ++ r ->
    (forall c t, r = String c t -> p c = false) ->
    (String.length a <= S n)%nat ->
    flat_map f (loop (run (Cls p)) n st) = f (advance st r).
Proof.
  intros Hf. induction a as [|c a IH]; intros st r n Hne Hall Hrest Hnext Hlen;
    [now elim Hne|].
  cbn [every] in Hall. apply andb_true_iff in Hall as [Hc Hall].
  cbn [append] in Hrest.
  assert (Hstep : run (Cls p) st = [advance st (a ++ r)]).
  { cbn [run]. now rewrite Hrest, Hc. }
  destruct n as [|n]; cbn [loop]; rewrite Hstep; cbn [flat_map]; rewrite app_nil_r.
  - destruct a as [|c' a]; [|cbn [String.length] in Hlen; lia].
    cbn [app flat_map]. now rewrite app_nil_r.
  - rewrite flat_map_app. cbn [flat_map]. rewrite app_nil_r.
    destruct a as [|c' a].
    + cbn [append].
      assert (Hstop : loop (run (Cls p)) n (advance st r) = []).
      { destruct n; cbn [loop run advance rest];
          (destruct r as [|c' t]; [reflexivity|]);
          now rewrite (Hnext c' t eq_refl). }
      rewrite Hstop. reflexivity.
    + rewrite (IH (advance st (String c' a ++ r)) r n);
        [| discriminate | exact Hall | reflexivity | exact Hnext
         | cbn [String.length] in *; lia].
      rewrite advance_again.
      cbn [every] in Hall. apply andb_true_iff in Hall as [Hc' _].
      rewrite (Hf (advance st (String c' a ++ r)) c' (a ++ r) eq_refl Hc').
      apply app_nil_r.
Qed.

Lemma startsWith_append (prefix s : string) : startsWith (prefix ++ s) prefix = true.
Proof.
  induction prefix as [|c prefix IH]; [now destruct s|].
  cbn. now rewrite Ascii.eqb_refl, IH.
Qed.

(** A literal at the start of a pattern: no match unless the input starts
    with it. *)
Lemma run_Str_mismatch (w : string) (st : State) :
  startsWith (rest st) w = false -> run (Str w) st = [] \/ w = "".
Proof.
  destruct w as [|a w]; [now right|]. intros H. left. revert st H.
  induction w as [|b w IH] in a |- *; intros st H; cbn [Str run].
  - destruct (rest st) as [|c t]; [reflexivity|]. cbn in H.
    rewrite Ascii.eqb_sym. destruct (Ascii.eqb a c); [|reflexivity].
    destruct t; discriminate H.
  - destruct (rest st) as [|c t] eqn:Hr; [reflexivity|].
    cbn [startsWith] in H. rewrite Ascii.eqb_sym.
    destruct (Ascii.eqb a c); [|reflexivity]. cbn [andb] in H.
    cbn [flat_map]. rewrite app_nil_r. now apply IH.
Qed.

Lemma run_Cat (r1 r2 : rx) (st : State) :
  run (Cat r1 r2) st = flat_map (run r2) (run r1 st).
Proof. reflexivity. Qed.

Lemma run_Many1 (r : rx) (st : State) :
  run (Many1 r) st = loop (run r) (String.length (rest st)) st.
Proof. reflexivity. Qed.

Lemma run_Grp_then (r : rx) (f : State -> list State) (st : State) :
  flat_map f (run (Grp r) st)
  = flat_map (fun st' => f {| atStart := atStart st'; rest := rest st';
                              caps := (caps st' ++ [captured st st'])%list |})
             (run r st).
Proof.
  cbn [run]. induction (run r st) as [|x l IH]; [reflexivity|].
  cbn [map flat_map]. now rewrite IH.
Qed.

Lemma run_Chr_other (a c : ascii) (t : string) (st : State) :
  rest st = String c t -> Ascii.eqb c a = false -> run (Chr a) st = [].
Proof. intros Hr Hc. cbn [run]. now rewrite Hr, Hc. Qed.

Lemma run_Chr_same (a : ascii) (t : string) (st : State) :
  rest st = String a t -> run (Chr a) st = [advance st t].
Proof. intros Hr. cbn [run]. now rewrite Hr, Ascii.eqb_refl. Qed.

Lemma run_Eol_more (c : ascii) (t : string) (st : State) :
  rest st = String c t -> run Eol st = [].
Proof. intros Hr. cbn [run]. now rewrite Hr. Qed.

End RxFacts.

Module StorageFacts.
Import JS Rx Eff StorageLib Derived StringFacts RxFacts.

Lemma append_empty (s : string) : s ++ "" = s.
Proof. induction s as [|c s IH]; [reflexivity|]. cbn. now rewrite IH. Qed.

Lemma every_append (p : ascii -> bool) (a b : string) :
  every p (a ++ b) = every p a && every p b.
Proof.
  induction a as [|c a IH]; [reflexivity|]. cbn. now rewrite IH, andb_assoc.
Qed.

Lemma every_weaken (p q : ascii -> bool) (s : string) :
  (forall c, p c = true -> q c = true) -> every p s = true -> every q s = true.
Proof.
  intros Hpq. induction s as [|c s IH]; [reflexivity|]. cbn.
  intros H. apply andb_true_iff in H as [Hc Hs].
  now rewrite (Hpq c Hc), IH.
Qed.

(** The pattern on a URL of the expected shape: the whole URL matches,
    and the group is everything after the slash that ends the bucket
    name. *)
Lemma urlPattern_reads (bucket path : string) :
  bucket <> "" -> every notSlash bucket = true ->
  path <> "" -> every dot path = true ->
  exec urlPattern ("gs://" ++ bucket ++ "/" ++ path)
  = Some ("gs://" ++ bucket ++ "/" ++ path, [path]).
Proof.
  intros Hb Hbs Hp Hps. unfold exec, urlPattern.
  set (url := "gs://" ++ bucket ++ "/" ++ path).
  set (st1 := {| atStart := false; rest := bucket ++ "/" ++ path; caps := [] |}).
  set (st2 := {| atStart := false; rest := path; caps := [] |}).
  rewrite run_Cat. change (run Bol _) with [{| atStart := true; rest := url; caps := [] |}].
  cbn [flat_map]. rewrite app_nil_r, run_Cat.
  change (run (Str "gs://") _) with [st1].
  cbn [flat_map]. rewrite app_nil_r, run_Cat, run_Many1.
  assert (Hf1 : forall st c t,
             rest st = String c t -> notSlash c = true ->
             run (Cat (Chr "/") (Cat (Grp (Many1 (Cls dot))) Eol)) st = []).
  { intros st c t Hr Hc. rewrite run_Cat.
    rewrite (run_Chr_other "/" c t st Hr); [reflexivity|].
    now apply negb_true_iff in Hc. }
  rewrite (loop_cls_longest notSlash _ Hf1 bucket st1 ("/" ++ path) _ Hb Hbs eq_refl);
    [| intros c t [= <- _]; reflexivity
     | cbn [rest st1]; rewrite length_append; lia].
  rewrite run_Cat, (run_Chr_same "/" path (advance st1 ("/" ++ path)) eq_refl).
  change (advance (advance st1 ("/" ++ path)) path) with st2.
  cbn [flat_map]. rewrite app_nil_r, run_Cat, run_Grp_then, run_Many1.
  assert (Hf2 : forall st c t,
             rest st = String c t -> dot c = true ->
             run Eol {| atStart := atStart st; rest := rest st;
                        caps := (caps st ++ [captured st2 st])%list |} = []).
  { intros st c t Hr Hc. now apply (run_Eol_more c t). }
  rewrite (loop_cls_longest dot _ Hf2 path st2 "" _ Hp Hps);
    [| cbn [rest st2]; now rewrite append_empty | intros c t [=]
     | cbn [rest st2]; lia].
  cbn [run advance rest caps atStart app String.length]. unfold captured.
  cbn [rest advance st2 String.length].
  rewrite !Nat.sub_0_r, !TextFacts.take_all by lia. reflexivity.
Qed.

(** No match for a URL that does not start with the scheme. *)
Lemma urlPattern_rejects (storageUrl : string) :
  startsWith storageUrl "gs://" = false -> exec urlPattern storageUrl = None.
Proof.
  intros H. unfold exec, urlPattern. cbn [run atStart flat_map]. rewrite app_nil_r.
  destruct (run_Str_mismatch "gs://"
              {| atStart := true; rest := storageUrl; caps := [] |} H) as [E|E];
    [|discriminate E].
  now rewrite E.
Qed.

Lemma sanitize_plain (name : string) : every isPlain (sanitize name) = true.
Proof.
  unfold sanitize. induction name as [|c name IH]; [reflexivity|].
  cbn [replaceEach]. destruct (isSafe c) eqn:E; cbn [negb append every].
  - unfold isPlain at 1. now rewrite E, IH.
  - now rewrite IH.
Qed.

Lemma sanitize_length (name : string) :
  String.length (sanitize name) = String.length name.
Proof.
  unfold sanitize. induction name as [|c name IH]; [reflexivity|].
  cbn [replaceEach]. destruct (negb (isSafe c)); cbn; now rewrite IH.
Qed.

Lemma plain_is_ordinary (c : ascii) :
  isPlain c = true -> notSlash c = true /\ dot c = true.
Proof.
  intros H.
  assert (Hne : forall x, isPlain x = false -> Ascii.eqb c x = false).
  { intros x Hx. destruct (Ascii.eqb c x) eqn:E; [|reflexivity].
    apply Ascii.eqb_eq in E. subst x. now rewrite H in Hx. }
  unfold notSlash, dot.
  now rewrite (Hne "/"%char eq_refl), (Hne LF eq_refl), (Hne CR eq_refl).
Qed.

Lemma uint_digits (d : Decimal.uint) :
  every isDigit (NilEmpty.string_of_uint d) = true.
Proof. induction d; cbn; auto. Qed.

Lemma decimal_ordinary (z : Z) :
  every notSlash (UploadRoute.decimal z) = true
  /\ every dot (UploadRoute.decimal z) = true
  /\ UploadRoute.decimal z <> "".
Proof.
  assert (Hd : forall c, isDigit c = true -> notSlash c = true /\ dot c = true).
  { intros c Hc. apply plain_is_ordinary. unfold isPlain, isSafe.
    rewrite Hc. now rewrite !orb_true_r. }
  assert (Hu : forall d,
             every notSlash (NilZero.string_of_uint d) = true
             /\ every dot (NilZero.string_of_uint d) = true
             /\ NilZero.string_of_uint d <> "").
  { intros d. destruct d;
      (split; [|split]);
      try (cbn; discriminate);
      try reflexivity;
      (eapply every_weaken; [|apply uint_digits]; intros c Hc; now apply Hd). }
  unfold UploadRoute.decimal. destruct (Z.to_int z) as [d|d]; cbn [NilZero.string_of_int].
  - apply Hu.
  - destruct (Hu d) as (H1 & H2 & _). cbn [every]. rewrite H1, H2.
    repeat split; discriminate.
Qed.

Lemma objectName_ordinary (userId : string) (timestamp : Z) (fileName : string) :
  every dot userId = true ->
  every dot (objectName userId timestamp fileName) = true
  /\ objectName userId timestamp fileName <> "".
Proof.
  intros Hu. unfold objectName. split.
  - rewrite !every_append, Hu.
    destruct (decimal_ordinary timestamp) as (_ & -> & _).
    rewrite (every_weaken isPlain dot (sanitize fileName)
               (fun c H => proj2 (plain_is_ordinary c H)) (sanitize_plain fileName)).
    reflexivity.
  - destruct userId; discriminate.
Qed.

(** Where the first slash of a name is: two names that agree, each a
    slash-free prefix followed by a slash, have the same prefix. *)
Lemma folder_unique (u1 u2 r1 r2 : string) :
  every notSlash u1 = true -> every notSlash u2 = true ->
  u1 ++ "/" ++ r1 = u2 ++ "/" ++ r2 -> u1 = u2 /\ r1 = r2.
Proof.
  revert u2. induction u1 as [|a u1 IH]; intros [|b u2] H1 H2 E; cbn in *.
  - injection E as ->. now split.
  - injection E as <- _. discriminate H2.
  - injection E as -> _. discriminate H1.
  - injection E as -> E.
    apply andb_true_iff in H1 as [_ H1]. apply andb_true_iff in H2 as [_ H2].
    destruct (IH u2 H1 H2 E) as [-> ->]. now split.
Qed.

(** [getBucket] once the client exists. *)
Lemma getBucket_ready (pf : Platform) (bucket : string) (st : Store) :
  GCS_BUCKET_NAME pf = Some bucket -> truthy bucket = true -> storage st = true ->
  getBucket pf st = (Returns bucket, st).
Proof.
  intros Hb Ht Hs. unfold getBucket. rewrite Hb, Ht. cbn [negb].
  unfold getStorageClient, andThen, read, pure. cbn beta iota.
  now rewrite Hs.
Qed.

(** [getBucket] returns the configured name and leaves a client behind,
    or throws. *)
Lemma getBucket_returns (pf : Platform) (st st' : Store) (bucket : string) :
  getBucket pf st = (Returns bucket, st') ->
  GCS_BUCKET_NAME pf = Some bucket /\ truthy bucket = true /\ storage st' = true
  /\ forall c, In c (calls st') -> In c (calls st) \/ exists i k, c = NewStorage i k.
Proof.
  unfold getBucket, getStorageClient, andThen, read, pure, raise, lift, effect.
  destruct (GCS_BUCKET_NAME pf) as [b|]; [|discriminate].
  destruct (truthy b) eqn:Hb; cbn [negb]; [|discriminate]. cbn beta iota.
  destruct (storage st) eqn:Hs.
  - intros [= <- <-]. repeat split; auto.
  - destruct (truthy_opt (GCP_PROJECT_ID pf)); cbn [negb]; [|discriminate].
    destruct (truthy_opt (GCP_SERVICE_ACCOUNT_KEY pf)).
    + destruct (JSONparse pf _); [|discriminate].
      intros [= <- <-]. cbn [storage calls]. repeat split; auto.
      intros c Hc. apply in_app_or in Hc as [Hc|[<-|[]]]; [now left|].
      right. eauto.
    + intros [= <- <-]. cbn [storage calls]. repeat split; auto.
      intros c Hc. apply in_app_or in Hc as [Hc|[<-|[]]]; [now left|].
      right. eauto.
Qed.

(** What a successful upload has done. *)
Lemma uploadDocument_returns (pf : Platform) (file : File) (userId : string)
    (st st' : Store) (url : string) :
  uploadDocument pf file userId st = (Returns url, st') ->
  let name := objectName userId (Date_now pf 0) (file_name file) in
  exists bucket before,
    GCS_BUCKET_NAME pf = Some bucket
    /\ truthy bucket = true
    /\ url = "gs://" ++ bucket ++ "/" ++ name
    /\ storage st' = true
    /\ write pf name = Returns tt
    /\ calls st'
       = (before ++ [CreateWriteStream name (file_type file) (file_name file)
                       (Date_now pf 1) userId])%list.
Proof.
  intros Hrun name. unfold uploadDocument, andThen in Hrun.
  destruct (getBucket pf st) as [[bucket|e] st1] eqn:Hb; [|discriminate].
  destruct (getBucket_returns pf st st1 bucket Hb) as (Hname & Ht & Hs & _).
  fold name in Hrun. unfold catch, effect, raise, pure, andThen in Hrun.
  destruct (write pf name) as [[]|e] eqn:Hw; [|discriminate].
  injection Hrun as <- <-.
  exists bucket, (calls st1). cbn [storage calls log]. now repeat split.
Qed.

End StorageFacts.

Import StorageLib.

(** X18.  The name of a stored object.  The file name is sanitised
    character by character: its length is kept, and every character of
    the result is a letter, a digit, a dot, a hyphen or an underscore,
    so the object lies directly in the folder named after the user id.
    Two uploads whose user ids differ (and contain no slash) never get
    the same object name, whatever the times and the file names. *)
Theorem stored_objects_lie_in_the_folder_of_their_user :
  (forall fileName,
      Derived.every Derived.isPlain (sanitize fileName) = true
      /\ String.length (sanitize fileName) = String.length fileName)
  /\ (forall userId timestamp fileName,
         exists leaf,
           objectName userId timestamp fileName = userId ++ "/" ++ leaf
           /\ Derived.every Rx.notSlash leaf = true)
  /\ (forall user1 user2 time1 time2 file1 file2,
         Derived.every Rx.notSlash user1 = true ->
         Derived.every Rx.notSlash user2 = true ->
         objectName user1 time1 file1 = objectName user2 time2 file2 ->
         user1 = user2).
Proof.
  split; [|split].
  - intros fileName. split;
      [apply StorageFacts.sanitize_plain | apply StorageFacts.sanitize_length].
  - intros userId timestamp fileName. eexists. split; [reflexivity|].
    rewrite !StorageFacts.every_append.
    destruct (StorageFacts.decimal_ordinary timestamp) as (-> & _ & _).
    rewrite (StorageFacts.every_weaken Derived.isPlain Rx.notSlash (sanitize fileName)
               (fun c H => proj1 (StorageFacts.plain_is_ordinary c H))
               (StorageFacts.sanitize_plain fileName)).
    reflexivity.
  - intros user1 user2 time1 time2 file1 file2 H1 H2 E. unfold objectName in E.
    now destruct (StorageFacts.folder_unique _ _ _ _ H1 H2 E).
Qed.

(** X19.  The URL a successful upload returns leads back to the object
    it wrote.  If the bucket name contains no slash and the user id no
    line break, the URL is [gs://], the bucket, a slash and the name of
    the object written; the pattern of the readers matches it with that
    name as its group; so a later [deleteDocument] of the URL asks the
    bucket to delete exactly that object, and [fileExists] asks about
    exactly that object. *)
Theorem uploaded_url_leads_back_to_the_object :
  forall (pf : Platform) (file : File) (userId : string) (st st' : Store)
         (url : string),
    uploadDocument pf file userId st = (Returns url, st') ->
    (forall bucket, GCS_BUCKET_NAME pf = Some bucket ->
                    Derived.every Rx.notSlash bucket = true) ->
    Derived.every Rx.dot userId = true ->
    let name := objectName userId (Date_now pf 0) (file_name file) in
    (exists before,
        calls st' = (before ++ [CreateWriteStream name (file_type file)
                                  (file_name file) (Date_now pf 1) userId])%list)
    /\ Rx.exec urlPattern url = Some (url, [name])
    /\ (forall later, storage later = true ->
           calls (snd (deleteDocument pf url later))
           = (calls later ++ Derived.deletion pf name)%list
           /\ fileExists pf url later
              = (Returns match present pf name with
                         | Returns b => b
                         | Throws _ => false
                         end,
                 log (Exists name) later)).
Proof.
  intros pf file userId st st' url Hrun Hbucket Huser name.
  destruct (StorageFacts.uploadDocument_returns pf file userId st st' url Hrun)
    as (bucket & before & Hb & Ht & -> & Hs & Hw & Hcalls).
  fold name in Hcalls |- *.
  destruct (StorageFacts.objectName_ordinary userId (Date_now pf 0) (file_name file)
              Huser) as [Hdots Hne].
  fold name in Hdots, Hne.
  assert (Hread : Rx.exec urlPattern ("gs://" ++ bucket ++ "/" ++ name)
                  = Some ("gs://" ++ bucket ++ "/" ++ name, [name])).
  { apply StorageFacts.urlPattern_reads; auto.
    intros ->. discriminate Ht. }
  split; [now exists before|]. split; [exact Hread|].
  intros later Hlater.
  unfold deleteDocument, fileExists, Eff.andThen.
  rewrite (StorageFacts.getBucket_ready pf bucket later Hb Ht Hlater), Hread.
  cbn [group1 snd nth]. unfold Eff.catch, Eff.effect, Eff.andThen, Eff.raise, Eff.pure.
  unfold Derived.deletion. split.
  - destruct (remove pf name) as [[]|e]; cbn [snd log calls];
      rewrite <- ?app_assoc; reflexivity.
  - destruct (present pf name) as [b|e]; reflexivity.
Qed.

Lemma uploaded_url_leads_back_to_the_object_witness :
  let url := "gs://docurag/7d1f-alice/1700000000000-Q3_report__final_.pdf" in
  fst (uploadDocument Fixture.platform Fixture.scan "7d1f-alice" Fixture.fresh)
  = Returns url
  /\ Rx.exec urlPattern url
     = Some (url, ["7d1f-alice/1700000000000-Q3_report__final_.pdf"])
  /\ calls (snd (deleteDocument Fixture.platform url Fixture.ready))
     = [NewStorage "docurag-dev" false;
        Delete "7d1f-alice/1700000000000-Q3_report__final_.pdf";
        LogError "Failed to delete file from storage:"].
Proof.
  intros url. split; [vm_compute; reflexivity|].
  destruct (uploaded_url_leads_back_to_the_object Fixture.platform Fixture.scan
              "7d1f-alice" Fixture.fresh
              (snd (uploadDocument Fixture.platform Fixture.scan "7d1f-alice"
                      Fixture.fresh))
              url ltac:(vm_compute; reflexivity)
              ltac:(intros bucket [= <-]; reflexivity) eq_refl)
    as (_ & Hread & Hlater).
  split; [exact Hread|].
  destruct (Hlater Fixture.ready eq_refl) as [Hdel _]. exact Hdel.
Defined.

(** X20.  A storage URL that does not start with [gs://] never reaches
    the bucket.  [deleteDocument], [getSignedDownloadUrl] and
    [fileExists] make no call on an object for it, whatever the
    configuration.  With the bucket configured, the first two throw
    'Invalid storage URL format' and [fileExists] answers [false]. *)
Theorem storage_readers_reject_other_urls :
  forall (pf : Platform) (storageUrl : string) (minutes : Z) (st : Store),
    startsWith storageUrl "gs://" = false ->
    (forall c,
        In c (calls (snd (deleteDocument pf storageUrl st)))
        \/ In c (calls (snd (getSignedDownloadUrl pf storageUrl minutes st)))
        \/ In c (calls (snd (fileExists pf storageUrl st))) ->
        In c (calls st) \/ exists i k, c = NewStorage i k)
    /\ (forall bucket,
           GCS_BUCKET_NAME pf = Some bucket ->
           truthy bucket = true ->
           storage st = true ->
           deleteDocument pf storageUrl st
           = (Throws "Invalid storage URL format", st)
           /\ getSignedDownloadUrl pf storageUrl minutes st
              = (Throws "Invalid storage URL format", st)
           /\ fileExists pf storageUrl st = (Returns false, st)).
Proof.
  intros pf storageUrl minutes st Hurl.
  pose proof (StorageFacts.urlPattern_rejects storageUrl Hurl) as Hno.
  split.
  - intros c. unfold deleteDocument, getSignedDownloadUrl, fileExists, Eff.andThen.
    rewrite Hno.
    destruct (getBucket pf st) as [[bucket|e] st1] eqn:Hb; cbn [snd].
    + destruct (StorageFacts.getBucket_returns pf st st1 bucket Hb)
        as (_ & _ & _ & Hcalls).
      intros [H|[H|H]]; now apply Hcalls.
    + assert (Hsame : st1 = st).
      { revert Hb. unfold getBucket, getStorageClient, Eff.andThen, Eff.read,
          Eff.pure, Eff.raise, Eff.lift, Eff.effect.
        destruct (GCS_BUCKET_NAME pf) as [b|]; [|now intros [= _ <-]].
        destruct (truthy b); cbn [negb]; [|now intros [= _ <-]]. cbn beta iota.
        destruct (storage st); [discriminate|].
        destruct (truthy_opt (GCP_PROJECT_ID pf)); cbn [negb]; [|now intros [= _ <-]].
        destruct (truthy_opt (GCP_SERVICE_ACCOUNT_KEY pf)); [|discriminate].
        destruct (JSONparse pf _); [discriminate | now intros [= _ <-]]. }
      subst st1. intros [H|[H|H]]; now left.
  - intros bucket Hb Ht Hs.
    unfold deleteDocument, getSignedDownloadUrl, fileExists, Eff.andThen.
    rewrite (StorageFacts.getBucket_ready pf bucket st Hb Ht Hs), Hno.
    repeat split.
Qed.

Lemma storage_readers_reject_other_urls_witness :
  deleteDocument Fixture.platform "https://example.com/report.pdf" Fixture.ready
  = (Throws "Invalid storage URL format", Fixture.ready)
  /\ fileExists Fixture.platform "https://example.com/report.pdf" Fixture.ready
     = (Returns false, Fixture.ready).
Proof.
  destruct (storage_readers_reject_other_urls Fixture.platform
              "https://example.com/report.pdf" 15 Fixture.ready eq_refl)
    as [_ H].
  destruct (H "docurag" eq_refl eq_refl eq_refl) as (Hd & _ & He).
  split; [exact Hd | exact He].
Defined.

(** X21.  The readers of a storage URL do not look at its bucket.  For
    two URLs with the same path and any two bucket names, each of
    [deleteDocument], [getSignedDownloadUrl] and [fileExists] does the
    same: it acts on the object of that path in the configured bucket,
    also when the URL names another bucket. *)
Theorem storage_url_bucket_is_not_checked :
  forall (pf : Platform) (bucket1 bucket2 path : string) (minutes : Z) (st : Store),
    bucket1 <> "" -> Derived.every Rx.notSlash bucket1 = true ->
    bucket2 <> "" -> Derived.every Rx.notSlash bucket2 = true ->
    path <> "" -> Derived.every Rx.dot path = true ->
    let url1 := "gs://" ++ bucket1 ++ "/" ++ path in
    let url2 := "gs://" ++ bucket2 ++ "/" ++ path in
    deleteDocument pf url1 st = deleteDocument pf url2 st
    /\ getSignedDownloadUrl pf url1 minutes st = getSignedDownloadUrl pf url2 minutes st
    /\ fileExists pf url1 st = fileExists pf url2 st
    /\ (storage st = true ->
        forall configured,
          GCS_BUCKET_NAME pf = Some configured ->
          truthy configured = true ->
          calls (snd (deleteDocument pf url1 st))
          = (calls st ++ Derived.deletion pf path)%list).
Proof.
  intros pf bucket1 bucket2 path minutes st Hb1 Hs1 Hb2 Hs2 Hp Hd url1 url2.
  pose proof (StorageFacts.urlPattern_reads bucket1 path Hb1 Hs1 Hp Hd) as H1.
  pose proof (StorageFacts.urlPattern_reads bucket2 path Hb2 Hs2 Hp Hd) as H2.
  fold url1 in H1. fold url2 in H2.
  unfold deleteDocument, getSignedDownloadUrl, fileExists. rewrite H1, H2.
  cbn [group1 snd nth].
  split; [reflexivity|]. split; [reflexivity|]. split; [reflexivity|].
  intros Hready configured Hc Ht. unfold Eff.andThen.
  rewrite (StorageFacts.getBucket_ready pf configured st Hc Ht Hready).
  unfold Eff.catch, Eff.effect, Eff.andThen, Eff.raise, Eff.pure, Derived.deletion.
  destruct (remove pf path) as [[]|e]; cbn [snd log calls];
    rewrite <- ?app_assoc; reflexivity.
Qed.

Lemma storage_url_bucket_is_not_checked_witness :
  calls (snd (deleteDocument Fixture.platform
                "gs://another-tenant/9c2e-bob/1700000000000-ledger.pdf"
                Fixture.ready))
  = [NewStorage "docurag-dev" false;
     Delete "9c2e-bob/1700000000000-ledger.pdf";
     LogError "Failed to delete file from storage:"].
Proof.
  destruct (storage_url_bucket_is_not_checked Fixture.platform "another-tenant"
              "docurag" "9c2e-bob/1700000000000-ledger.pdf" 15 Fixture.ready
              ltac:(discriminate) eq_refl ltac:(discriminate) eq_refl
              ltac:(discriminate) eq_refl) as (_ & _ & _ & H).
  exact (H eq_refl "docurag" eq_refl eq_refl).
Defined.
(* ================================================================== *)
(** * Further properties: the vector store *)
(* ================================================================== *)

Module BatchFacts.
Import Eff.

(** One run of the batch loop whose body makes one logged call per
    batch: the calls it adds are the batches it got to, in order; they
    are consecutive pieces of the input from [i] on, none empty and none
    longer than [size]; and the loop comes to its end (rather than to the
    end of its fuel) whenever the fuel covers what is left. *)
Lemma forBatches_calls {S A C : Type} (size : nat) (calls : S -> list C)
    (logged : list A -> C) (body : list A -> Eff S unit) (xs : list A) :
  (0 < size)%nat ->
  (forall batch st,
      calls (snd (body batch st)) = (calls st ++ [logged batch])%list) ->
  forall (fuel i : nat) (st : S),
    (List.length xs - i <= fuel)%nat ->
    exists sent : list (list A),
      calls (snd (forBatches size (fun _ => body) xs fuel i tt st))
      = (calls st ++ map logged sent)%list
      /\ Forall (fun batch => (1 <= List.length batch <= size)%nat) sent
      /\ (exists k, List.concat sent = firstn k (skipn i xs))
      /\ (forall u, fst (forBatches size (fun _ => body) xs fuel i tt st) = Returns u ->
                    List.concat sent = skipn i xs)
      /\ (forall e, fst (forBatches size (fun _ => body) xs fuel i tt st) = Throws e ->
                    exists batch st0, fst (body batch st0) = Throws e).
Proof.
  intros Hsize Hbody. induction fuel as [|fuel IH]; intros i st Hfuel.
  - exists []. cbn [forBatches pure snd fst map List.concat]. rewrite app_nil_r.
    split; [reflexivity|]. split; [constructor|].
    split; [now exists 0%nat|].
    split; [|discriminate].
    intros u _. symmetry. apply skipn_all2. lia.
  - cbn [forBatches]. destruct (i <? List.length xs)%nat eqn:Hi.
    + apply Nat.ltb_lt in Hi. unfold andThen.
      set (batch := slice i (i + size) xs).
      assert (Hbatch : batch = firstn size (skipn i xs)).
      { unfold batch, slice. f_equal. lia. }
      assert (Hlen : (1 <= List.length batch <= size)%nat).
      { rewrite Hbatch, length_firstn, length_skipn. lia. }
      specialize (Hbody batch st).
      destruct (body batch st) as [[[]|e] st1] eqn:Hrun; cbn [snd] in Hbody.
      * destruct (IH (i + size)%nat st1 ltac:(lia))
          as (sent & Hcalls & Hall & (k & Hpre) & Hdone & Hfail).
        exists (batch :: sent). rewrite Hcalls, Hbody, <- app_assoc.
        split; [reflexivity|]. split; [now constructor|].
        assert (Hskip : skipn (i + size) xs = skipn size (skipn i xs)).
        { rewrite skipn_skipn. f_equal. lia. }
        split; [|split].
        -- exists (size + k)%nat. cbn [List.concat]. rewrite Hpre, Hbatch, Hskip.
           apply PageFacts.firstn_more.
        -- intros u Hu. cbn [List.concat]. rewrite (Hdone u Hu), Hbatch, Hskip.
           apply firstn_skipn.
        -- exact Hfail.
      * exists [batch]. cbn [snd fst map List.concat]. rewrite Hbody, app_nil_r.
        split; [reflexivity|]. split; [now repeat constructor|].
        split; [exists size; exact Hbatch|]. split; [discriminate|].
        intros e' [= <-]. exists batch, st. now rewrite Hrun.
    + apply Nat.ltb_ge in Hi. exists [].
      cbn [pure snd fst map List.concat]. rewrite app_nil_r.
      split; [reflexivity|]. split; [constructor|].
      split; [now exists 0%nat|]. split; [|discriminate].
      intros u _. symmetry. now apply skipn_all2.
Qed.

(** More fuel than the length of the input changes nothing. *)
Lemma forBatches_fuel {S A B : Type} (size : nat) (body : B -> list A -> Eff S B)
    (xs : list A) :
  (0 < size)%nat ->
  forall (fuel extra i : nat) (acc : B) (st : S),
    (List.length xs - i <= fuel)%nat ->
    forBatches size body xs (fuel + extra) i acc st
    = forBatches size body xs fuel i acc st.
Proof.
  intros Hsize. induction fuel as [|fuel IH]; intros extra i acc st Hfuel.
  - cbn [Nat.add forBatches]. destruct extra as [|extra]; [reflexivity|].
    cbn [forBatches]. replace (i <? List.length xs)%nat with false; [reflexivity|].
    symmetry. apply Nat.ltb_ge. lia.
  - cbn [Nat.add forBatches]. destruct (i <? List.length xs)%nat eqn:Hi; [|reflexivity].
    apply Nat.ltb_lt in Hi. unfold andThen.
    destruct (body acc (slice i (i + size) xs) st) as [[acc'|e] st1]; [|reflexivity].
    apply IH. lia.
Qed.

End BatchFacts.

Module VectorFacts.
Import Eff VectorStore Derived.

Lemma grows_pure {A} P (a : A) : grows P (pure a).
Proof. intros st. exists []. cbn. now rewrite app_nil_r. Qed.

Lemma grows_raise {A} P (e : string) : grows P (@raise Store A e).
Proof. intros st. exists []. cbn. now rewrite app_nil_r. Qed.

Lemma grows_log {A} (P : Call -> Prop) (c : Call) (o : outcome A) :
  P c -> grows P (effect (log c) o).
Proof. intros Hc st. exists [c]. cbn. split; [reflexivity | now constructor]. Qed.

Lemma grows_andThen {A B} P (m : Eff Store A) (k : A -> Eff Store B) :
  grows P m -> (forall a, grows P (k a)) -> grows P (andThen m k).
Proof.
  intros Hm Hk st. unfold andThen. destruct (Hm st) as (new & Hnew & HP).
  destruct (m st) as [[a|e] st1]; cbn [snd] in *.
  - destruct (Hk a st1) as (more & Hmore & HQ).
    exists (new ++ more)%list. rewrite Hmore, Hnew, app_assoc.
    split; [reflexivity | now apply Forall_app].
  - now exists new.
Qed.

Lemma grows_catch {A} P (m : Eff Store A) (h : string -> Eff Store A) :
  grows P m -> (forall e, grows P (h e)) -> grows P (catch m h).
Proof.
  intros Hm Hh st. unfold catch. destruct (Hm st) as (new & Hnew & HP).
  destruct (m st) as [[a|e] st1]; cbn [snd] in *.
  - now exists new.
  - destruct (Hh e st1) as (more & Hmore & HQ).
    exists (new ++ more)%list. rewrite Hmore, Hnew, app_assoc.
    split; [reflexivity | now apply Forall_app].
Qed.

Lemma grows_forBatches {A} P (size : nat) (body : unit -> list A -> Eff Store unit)
    (xs : list A) (fuel i : nat) :
  (forall u batch, grows P (body u batch)) ->
  grows P (forBatches size body xs fuel i tt).
Proof.
  intros Hbody. revert i. induction fuel as [|fuel IH]; intros i; cbn [forBatches].
  - apply grows_pure.
  - destruct (i <? List.length xs)%nat; [|apply grows_pure].
    apply grows_andThen; [apply Hbody|]. intros []. apply IH.
Qed.

Lemma grows_getQdrantClient P (pf : Platform) :
  (forall url key, P (NewClient url key)) -> grows P (getQdrantClient pf).
Proof.
  intros HP st. unfold getQdrantClient, andThen, read, pure, raise, effect, lift.
  cbn beta iota. destruct (qdrantClient st).
  - exists []. cbn. now rewrite app_nil_r.
  - destruct (truthy_opt (QDRANT_URL pf)); cbn [negb snd calls].
    + destruct (newQdrantClient pf _ _) as [[]|e]; cbn [snd calls].
      * eexists [_]. split; [reflexivity|]. constructor; [apply HP | constructor].
      * exists []. now rewrite app_nil_r.
    + exists []. now rewrite app_nil_r.
Qed.

(** [getQdrantClient] returns with a client in place, or throws and
    changes nothing: its own message when the URL is not set, the error
    of the constructor when that throws. *)
Lemma getQdrantClient_run (pf : Platform) (st : Store) :
  (exists st1, getQdrantClient pf st = (Returns tt, st1) /\ qdrantClient st1 = true
               /\ (qdrantClient st = true -> st1 = st))
  \/ (exists e, getQdrantClient pf st = (Throws e, st) /\ noClient pf st e).
Proof.
  unfold getQdrantClient, andThen, read, pure, raise, effect, lift, noClient.
  cbn beta iota.
  destruct (qdrantClient st) eqn:Hc.
  - left. exists st. auto.
  - destruct (QDRANT_URL pf) as [url|] eqn:Hurl; cbn [truthy_opt].
    + destruct (truthy url) eqn:Ht; cbn [negb].
      * destruct (newQdrantClient pf url (QDRANT_API_KEY pf)) as [[]|e] eqn:Hnew.
        -- left. eexists. split; [reflexivity|]. split; [reflexivity | discriminate].
        -- right. exists e. split; [reflexivity|]. split; [reflexivity|].
           right. exists url. auto.
      * right. eexists. split; [reflexivity|]. split; [reflexivity|]. left.
        split; [reflexivity|]. cbn [truthy_opt]. first [exact Ht | reflexivity].
    + right. eexists. split; [reflexivity|]. split; [reflexivity|]. left.
      split; reflexivity.
Qed.

(** A [try] whose handler logs and throws [message] throws nothing else. *)
Lemma rethrown {A} (m : Eff Store A) (c : Call) (message e : string) (st : Store) :
  fst (catch m (fun _ => andThen (effect (log c) (Returns tt))
                                 (fun _ => raise message)) st) = Throws e ->
  e = message.
Proof.
  unfold catch, andThen, effect, raise.
  destruct (m st) as [[a|e'] st1]; cbn [fst]; [discriminate | now intros [= <-]].
Qed.

Lemma upserted_app (a b : list Call) :
  upserted (a ++ b) = (upserted a ++ upserted b)%list.
Proof. apply flat_map_app. Qed.

Lemma upserted_batches (name : string) (sent : list (list Point)) :
  upserted (map (Upsert name true) sent) = map (fun batch => (name, batch)) sent.
Proof.
  induction sent as [|b sent IH]; [reflexivity|]. cbn. f_equal. exact IH.
Qed.

Lemma upserted_none (cs : list Call) :
  Forall (fun c => forall name wait points, c <> Upsert name wait points) cs ->
  upserted cs = [].
Proof.
  induction 1 as [|c cs Hc _ IH]; [reflexivity|]. cbn [upserted flat_map].
  fold (upserted cs). rewrite IH, app_nil_r.
  destruct c as [| | | |n w pts| | | | |]; try reflexivity. now elim (Hc n w pts).
Qed.

Lemma grows_ensureCollection P (pf : Platform) (userId : string) :
  (forall c, (forall name wait points, c <> Upsert name wait points) ->
             scoped userId c -> P c) ->
  grows P (ensureCollection pf userId).
Proof.
  intros HP. unfold ensureCollection.
  assert (Hlog : forall A c (o : outcome A),
             (forall name wait points, c <> Upsert name wait points) ->
             scoped userId c -> grows P (effect (log c) o)).
  { intros A c o H1 H2. apply grows_log. now apply HP. }
  apply grows_andThen;
    [apply grows_getQdrantClient; intros; apply HP; [discriminate | now left]|].
  intros _. apply grows_catch.
  - apply grows_andThen; [apply Hlog; [discriminate | now left]|].
    intros collections. destruct (negb _); [|apply grows_pure].
    apply grows_andThen; [apply Hlog; [discriminate | now right]|]. intros _.
    apply grows_andThen; [apply Hlog; [discriminate | now right]|]. intros _.
    apply Hlog; [discriminate | now left].
  - intros e. apply grows_andThen; [apply Hlog; [discriminate | now left]|].
    intros _. apply grows_raise.
Qed.

(** A run of [storeVectors]: it stops at the missing URL before any
    call, or its calls are some that send nothing, then the batches,
    then at most a log line. *)
Lemma storeVectors_run (pf : Platform) (userId : string) (vectors : list Point)
    (st : Store) :
  let r := storeVectors pf userId vectors st in
  (exists e, fst r = Throws e /\ snd r = st /\ noClient pf st e)
  \/ (exists quiet sent tail,
         calls (snd r)
         = (calls st ++ quiet ++ map (Upsert (getCollectionName userId) true) sent
              ++ tail)%list
         /\ upserted quiet = [] /\ upserted tail = []
         /\ Forall (fun batch => (1 <= List.length batch <= batchSize)%nat) sent
         /\ (exists k, List.concat sent = firstn k vectors)
         /\ (forall u, fst r = Returns u -> List.concat sent = vectors)
         /\ (forall e, fst r = Throws e -> e = "Failed to store vectors in database")).
Proof.
  cbv zeta. unfold storeVectors, andThen.
  pose (quietCall := fun c : Call => forall name wait points, c <> Upsert name wait points).
  assert (Hclient : forall url key, quietCall (NewClient url key))
    by (intros url key n w p; discriminate).
  destruct (grows_getQdrantClient quietCall pf Hclient st) as (nc & Hnc & Hquiet1).
  destruct (getQdrantClient_run pf st) as [(st1 & Hrun & Hready & _)|(e0 & Hrun & Hno)];
    rewrite Hrun in *; cbn [snd] in Hnc; [|left; exists e0; auto].
  right. unfold catch. cbn beta.
  destruct (grows_ensureCollection quietCall pf userId (fun c Hc _ => Hc) st1)
    as (ec & Hec & Hquiet2).
  destruct (ensureCollection pf userId st1) as [[[]|e] st2]; cbn [snd] in Hec.
  - destruct (BatchFacts.forBatches_calls batchSize calls
                (Upsert (getCollectionName userId) true)
                (fun batch => effect (log (Upsert (getCollectionName userId) true batch))
                                     (upsert pf (getCollectionName userId) batch))
                vectors ltac:(unfold batchSize; lia) ltac:(reflexivity)
                (List.length vectors) 0%nat st2 ltac:(lia))
      as (sent & Hsent & Hsizes & Hprefix & Hdone & Hfail).
    cbn [skipn] in Hprefix, Hdone.
    destruct (forBatches _ _ vectors (List.length vectors) 0 tt st2) as [[[]|e] st3];
      cbn [snd fst] in *.
    + exists (nc ++ ec)%list, sent, []. rewrite Hsent, Hec, Hnc, app_nil_r, <- !app_assoc.
      split; [reflexivity|]. rewrite upserted_app, !upserted_none by assumption.
      repeat split; auto. discriminate.
    + exists (nc ++ ec)%list, sent, [LogError "Failed to store vectors:"].
      unfold effect, raise. cbn [snd fst log calls].
      rewrite Hsent, Hec, Hnc, <- !app_assoc.
      split; [reflexivity|]. rewrite upserted_app, !upserted_none by assumption.
      repeat split; auto; [discriminate | now intros e' [= <-]].
  - exists (nc ++ ec)%list, [], [LogError "Failed to store vectors:"].
    unfold effect, raise. cbn [snd fst log calls map app].
    rewrite Hec, Hnc, <- !app_assoc.
    split; [reflexivity|]. rewrite upserted_app, !upserted_none by assumption.
    repeat split; auto; [now exists 0%nat | discriminate | now intros e' [= <-]].
Qed.

Lemma replaced_hyphens (userId : string) :
  every notHyphen
    (Rx.replaceEach (fun c => Ascii.eqb c "-") (fun _ => "_") userId) = true.
Proof.
  induction userId as [|c userId IH]; [reflexivity|]. cbn [Rx.replaceEach].
  destruct (Ascii.eqb c "-") eqn:E; cbn [append every]; rewrite IH.
  - reflexivity.
  - unfold notHyphen. now rewrite E.
Qed.

Lemma replaced_hyphens_injective (a b : string) :
  every notUnderscore a = true -> every notUnderscore b = true ->
  Rx.replaceEach (fun c => Ascii.eqb c "-") (fun _ => "_") a
  = Rx.replaceEach (fun c => Ascii.eqb c "-") (fun _ => "_") b ->
  a = b.
Proof.
  revert b. induction a as [|x a IH]; intros [|y b] Ha Hb E; cbn [Rx.replaceEach] in E.
  - reflexivity.
  - destruct (Ascii.eqb y "-"); discriminate E.
  - destruct (Ascii.eqb x "-"); discriminate E.
  - cbn [every] in Ha, Hb.
    apply andb_true_iff in Ha as [Hx Ha]. apply andb_true_iff in Hb as [Hy Hb].
    unfold notUnderscore in Hx, Hy. apply negb_true_iff in Hx, Hy.
    destruct (Ascii.eqb x "-") eqn:Ex, (Ascii.eqb y "-") eqn:Ey; cbn [append] in E.
    + injection E as E. apply Ascii.eqb_eq in Ex, Ey. subst. f_equal. now apply IH.
    + injection E as Ec E. subst y. discriminate Hy.
    + injection E as Ec E. subst x. discriminate Hx.
    + injection E as Ec E. subst y. f_equal. now apply IH.
Qed.

(** After the client: the error of the rest, or that of getting the
    client. *)
Lemma guarded {A} (pf : Platform) (m : Eff Store A) (st : Store) (e message : string) :
  (forall st1, fst (m st1) = Throws e -> e = message) ->
  fst (andThen (getQdrantClient pf) (fun _ => m) st) = Throws e ->
  e = message \/ noClient pf st e.
Proof.
  intros Hm. unfold andThen.
  destruct (getQdrantClient_run pf st) as [(st1 & Hrun & _)|(e0 & Hrun & Hno)];
    rewrite Hrun.
  - intros H. left. now apply (Hm st1).
  - cbn [fst]. intros [= <-]. now right.
Qed.

(** After the client, when the rest never throws. *)
Lemma guarded_quiet {A} (pf : Platform) (m : Eff Store A) (st : Store) (e : string) :
  (forall st1 e1, fst (m st1) <> Throws e1) ->
  fst (andThen (getQdrantClient pf) (fun _ => m) st) = Throws e ->
  noClient pf st e.
Proof.
  intros Hm. unfold andThen.
  destruct (getQdrantClient_run pf st) as [(st1 & Hrun & _)|(e0 & Hrun & Hno)];
    rewrite Hrun.
  - intros H. now elim (Hm st1 e).
  - cbn [fst]. now intros [= <-].
Qed.

Lemma scoped_elsewhere (userId other : string) (c : Call) :
  every notUnderscore userId = true ->
  every notUnderscore other = true ->
  other <> userId ->
  scoped userId c ->
  collectionOf c <> Some (getCollectionName other).
Proof.
  intros Hu Ho Hne [Hc|Hc]; rewrite Hc; [discriminate|].
  intros [= E]. apply Hne. symmetry.
  now apply replaced_hyphens_injective.
Qed.

End VectorFacts.

Import VectorStore.

(** X22.  Collections are per user.  The name of a user's collection
    contains no hyphen, and two user ids without an underscore (as the
    ids the database generates are) that differ have different
    collections.  The proviso is needed: an id with a hyphen and the same
    id with an underscore in its place share a collection. *)
Theorem collections_are_per_user :
  (forall userId,
      exists rest, getCollectionName userId = "user_" ++ rest
                   /\ Derived.every Derived.notHyphen rest = true)
  /\ (forall user1 user2,
         Derived.every Derived.notUnderscore user1 = true ->
         Derived.every Derived.notUnderscore user2 = true ->
         getCollectionName user1 = getCollectionName user2 ->
         user1 = user2)
  /\ getCollectionName "7d1f-alice" = getCollectionName "7d1f_alice".
Proof.
  split; [|split; [|reflexivity]].
  - intros userId. eexists. split; [reflexivity|].
    apply VectorFacts.replaced_hyphens.
  - intros user1 user2 H1 H2 E. unfold getCollectionName in E.
    injection E as E. now apply VectorFacts.replaced_hyphens_injective.
Qed.

(** X23.  [storeVectors] sends every vector once.  The points it upserts
    go to the collection of the user, in batches of 1 to 100, and the
    batches in the order sent are consecutive pieces of the input from
    its start.  When the call returns, their concatenation is the whole
    input: nothing is dropped, repeated or reordered.  When it throws,
    the batches before the failing one have been sent and stay sent, and
    the message is 'Failed to store vectors in database', also when it
    was the preparation of the collection that failed.  The one
    exception is a failure to get the client, which happens before the
    [try] and before any call, and only when no client exists yet: then
    the error is 'QDRANT_URL environment variable is not set' when the
    variable is unset, and otherwise whatever the constructor of the
    client threw. *)
Theorem storeVectors_sends_every_vector_once :
  forall (pf : Platform) (userId : string) (vectors : list Point) (st : Store),
    let r := storeVectors pf userId vectors st in
    exists new,
      calls (snd r) = (calls st ++ new)%list
      /\ Forall (fun sent =>
                   fst sent = getCollectionName userId
                   /\ (1 <= List.length (snd sent) <= 100)%nat)
                (Derived.upserted new)
      /\ (exists k, List.concat (map snd (Derived.upserted new)) = firstn k vectors)
      /\ (forall u, fst r = Returns u ->
                    List.concat (map snd (Derived.upserted new)) = vectors)
      /\ (forall e, fst r = Throws e ->
                    e = "Failed to store vectors in database"
                    \/ (new = []
                        /\ qdrantClient st = false
                        /\ ((e = "QDRANT_URL environment variable is not set"
                             /\ truthy_opt (QDRANT_URL pf) = false)
                            \/ exists url,
                                QDRANT_URL pf = Some url
                                /\ truthy url = true
                                /\ newQdrantClient pf url (QDRANT_API_KEY pf)
                                   = Throws e))).
Proof.
  intros pf userId vectors st r.
  destruct (VectorFacts.storeVectors_run pf userId vectors st)
    as [(e0 & Hthrow & Hsame & Hno)
       |(quiet & sent & tail & Hcalls & Hq & Ht & Hsizes & Hpre & Hdone & Hfail)].
  - fold r in Hthrow, Hsame. exists []. rewrite Hsame, app_nil_r. split; [reflexivity|].
    split; [constructor|]. split; [now exists 0%nat|].
    rewrite Hthrow. split; [discriminate|]. intros e [= <-]. right.
    split; [reflexivity|]. exact Hno.
  - fold r in Hcalls, Hdone, Hfail.
    exists (quiet ++ map (Upsert (getCollectionName userId) true) sent ++ tail)%list.
    split; [exact Hcalls|].
    rewrite !VectorFacts.upserted_app, Hq, Ht, app_nil_r, VectorFacts.upserted_batches.
    cbn [app]. rewrite map_map. cbn [snd]. rewrite map_id.
    split; [|split; [exact Hpre|split; [exact Hdone|]]].
    + apply Forall_map. cbn [fst snd]. revert Hsizes. apply Forall_impl.
      intros batch Hb. split; [reflexivity | exact Hb].
    + intros e He. left. now apply Hfail.
Qed.

(** X24.  The vector store is only ever addressed in the collection of
    the user the call is made for.  Every request that
    [ensureCollection], [storeVectors], [searchVectors],
    [deleteDocumentVectors] and [getCollectionStats] send for a user id
    names the collection of that id (or no collection at all: creating
    the client, listing the collections, logging); so, for ids without
    underscores, none of them reads or writes the collection of another
    user. *)
Theorem vector_calls_stay_in_the_callers_collection :
  forall (pf : Platform) (userId : string),
    Derived.grows (Derived.scoped userId) (ensureCollection pf userId)
    /\ (forall vectors,
           Derived.grows (Derived.scoped userId) (storeVectors pf userId vectors))
    /\ (forall queryVector options,
           Derived.grows (Derived.scoped userId)
             (searchVectors pf userId queryVector options))
    /\ (forall documentId,
           Derived.grows (Derived.scoped userId)
             (deleteDocumentVectors pf userId documentId))
    /\ Derived.grows (Derived.scoped userId) (getCollectionStats pf userId)
    /\ (forall other c,
           Derived.every Derived.notUnderscore userId = true ->
           Derived.every Derived.notUnderscore other = true ->
           other <> userId ->
           Derived.scoped userId c ->
           Derived.collectionOf c <> Some (getCollectionName other)).
Proof.
  intros pf userId.
  assert (Hclient : Derived.grows (Derived.scoped userId) (getQdrantClient pf))
    by (apply VectorFacts.grows_getQdrantClient; intros; now left).
  assert (Hlog : forall A c (o : outcome A),
             Derived.scoped userId c ->
             Derived.grows (Derived.scoped userId) (Eff.effect (log c) o))
    by (intros; now apply VectorFacts.grows_log).
  assert (Hensure : Derived.grows (Derived.scoped userId) (ensureCollection pf userId))
    by (apply VectorFacts.grows_ensureCollection; auto).
  split; [exact Hensure|]. split; [|split; [|split; [|split]]].
  - intros vectors. unfold storeVectors.
    apply VectorFacts.grows_andThen; [exact Hclient|]. intros _.
    apply VectorFacts.grows_catch.
    + apply VectorFacts.grows_andThen; [exact Hensure|]. intros _.
      apply VectorFacts.grows_forBatches. intros _ batch. apply Hlog. now right.
    + intros e. apply VectorFacts.grows_andThen; [apply Hlog; now left|].
      intros _. apply VectorFacts.grows_raise.
  - intros queryVector options. unfold searchVectors.
    apply VectorFacts.grows_andThen; [exact Hclient|]. intros _.
    apply VectorFacts.grows_catch.
    + apply VectorFacts.grows_andThen; [apply Hlog; now right|].
      intros results. apply VectorFacts.grows_pure.
    + intros e. apply VectorFacts.grows_andThen; [apply Hlog; now left|].
      intros _. apply VectorFacts.grows_raise.
  - intros documentId. unfold deleteDocumentVectors.
    apply VectorFacts.grows_andThen; [exact Hclient|]. intros _.
    apply VectorFacts.grows_catch; [apply Hlog; now right|].
    intros e. apply VectorFacts.grows_andThen; [apply Hlog; now left|].
    intros _. apply VectorFacts.grows_raise.
  - unfold getCollectionStats.
    apply VectorFacts.grows_andThen; [exact Hclient|]. intros _.
    apply VectorFacts.grows_catch.
    + apply VectorFacts.grows_andThen; [apply Hlog; now right|].
      intros info. apply VectorFacts.grows_pure.
    + intros e. apply VectorFacts.grows_pure.
  - intros other c. apply VectorFacts.scoped_elsewhere.
Qed.

(** X25.  How the vector store fails.  Each function reports every
    failure inside its [try] under one fixed message of its own, whatever
    went wrong and at which step; [storeVectors] does so too when it was
    [ensureCollection] that failed.  The one other failure is that of
    getting the client, which happens before the [try] and only when no
    client exists yet: with [QDRANT_URL] unset the error is 'QDRANT_URL
    environment variable is not set', and with the variable set it is
    whatever the constructor of the client threw, under its own message.
    [getCollectionStats] has no message of its own: it answers zero
    vectors, not indexed, when the service fails. *)
Theorem vector_store_failures_are_uniform :
  forall (pf : Platform) (userId : string) (st : Store) (e : string),
    let noClient :=
      qdrantClient st = false
      /\ ((e = "QDRANT_URL environment variable is not set"
           /\ truthy_opt (QDRANT_URL pf) = false)
          \/ exists url,
              QDRANT_URL pf = Some url
              /\ truthy url = true
              /\ newQdrantClient pf url (QDRANT_API_KEY pf) = Throws e) in
    (fst (ensureCollection pf userId st) = Throws e ->
     e = "Failed to initialize vector store" \/ noClient)
    /\ (forall vectors,
           fst (storeVectors pf userId vectors st) = Throws e ->
           e = "Failed to store vectors in database" \/ noClient)
    /\ (forall queryVector options,
           fst (searchVectors pf userId queryVector options st) = Throws e ->
           e = "Failed to search vector database" \/ noClient)
    /\ (forall documentId,
           fst (deleteDocumentVectors pf userId documentId st) = Throws e ->
           e = "Failed to delete document vectors" \/ noClient)
    /\ (fst (getCollectionStats pf userId st) = Throws e -> noClient)
    /\ (qdrantClient st = true ->
        forall failure,
          getCollection pf (getCollectionName userId) = Throws failure ->
          getCollectionStats pf userId st
          = (Returns {| vectorCount := 0; indexed := false |},
             log (GetCollection (getCollectionName userId)) st))
    /\ (qdrantClient st = false ->
        forall url,
          QDRANT_URL pf = Some url ->
          truthy url = true ->
          newQdrantClient pf url (QDRANT_API_KEY pf) = Throws e ->
          ensureCollection pf userId st = (Throws e, st)
          /\ (forall vectors, storeVectors pf userId vectors st = (Throws e, st))
          /\ (forall queryVector options,
                 searchVectors pf userId queryVector options st = (Throws e, st))
          /\ (forall documentId,
                 deleteDocumentVectors pf userId documentId st = (Throws e, st))
          /\ getCollectionStats pf userId st = (Throws e, st)).
Proof.
  intros pf userId st e noClient. subst noClient.
  change (qdrantClient st = false
          /\ ((e = "QDRANT_URL environment variable is not set"
               /\ truthy_opt (QDRANT_URL pf) = false)
              \/ exists url,
                  QDRANT_URL pf = Some url
                  /\ truthy url = true
                  /\ newQdrantClient pf url (QDRANT_API_KEY pf) = Throws e))
    with (Derived.noClient pf st e).
  split; [|split; [|split; [|split; [|split; [|split]]]]].
  - apply VectorFacts.guarded. intros st1. apply VectorFacts.rethrown.
  - intros vectors. apply VectorFacts.guarded. intros st1. apply VectorFacts.rethrown.
  - intros queryVector options. apply VectorFacts.guarded. intros st1.
    apply VectorFacts.rethrown.
  - intros documentId. apply VectorFacts.guarded. intros st1.
    apply VectorFacts.rethrown.
  - apply VectorFacts.guarded_quiet. intros st1 e1.
    unfold Eff.catch, Eff.andThen, Eff.effect, Eff.pure.
    destruct (getCollection pf (getCollectionName userId)); discriminate.
  - intros Hready failure Hfail.
    unfold getCollectionStats, Eff.andThen.
    destruct (VectorFacts.getQdrantClient_run pf st)
      as [(st1 & Hrun & _ & Hsame)|(e0 & _ & Hc & _)]; [|congruence].
    rewrite Hrun, (Hsame Hready).
    unfold Eff.catch, Eff.andThen, Eff.effect, Eff.pure. now rewrite Hfail.
  - intros Hnone url Hurl Ht Hnew.
    assert (Hrun : getQdrantClient pf st = (Throws e, st)).
    { unfold getQdrantClient, Eff.andThen, Eff.read, Eff.pure, Eff.raise,
        Eff.effect, Eff.lift.
      cbn beta iota. rewrite Hnone, Hurl. cbn [truthy_opt]. rewrite Ht.
      cbn [negb]. now rewrite Hnew. }
    unfold ensureCollection, storeVectors, searchVectors, deleteDocumentVectors,
      getCollectionStats, Eff.andThen.
    rewrite Hrun. repeat split.
Qed.
(* ================================================================== *)
(** * Further properties: the query form and the stream *)
(* ================================================================== *)

Module ReaderFacts.
Import JS Rx Derived StringFacts RxFacts QueryInterface.

Lemma includes_later (c : ascii) (s needle : string) :
  startsWith (String c s) needle = false ->
  includes (String c s) needle = includes s needle.
Proof. intros H. cbn [includes]. now rewrite H. Qed.

Lemma includes_here (s needle : string) :
  startsWith s needle = true -> includes s needle = true.
Proof. intros H. destruct s; cbn [includes]; now rewrite H. Qed.

Lemma not_included (c : ascii) (s needle : string) :
  includes (String c s) needle = false ->
  startsWith (String c s) needle = false /\ includes s needle = false.
Proof.
  cbn [includes]. destruct (startsWith (String c s) needle); [discriminate|].
  now split.
Qed.

(** No occurrence of the separator: one piece. *)
Lemma splitAt_absent (sep s : string) :
  includes s sep = false -> splitAt sep 0 s = [s].
Proof.
  induction s as [|c s IH]; intros H; [reflexivity|].
  apply not_included in H as [Hhere Hlater].
  cbn [splitAt]. now rewrite Hhere, (IH Hlater).
Qed.

Lemma splitAt_over (sep w r : string) :
  splitAt sep (String.length w) (w ++ r) = splitAt sep 0 r.
Proof.
  induction w as [|c w IH]; [reflexivity|].
  cbn [String.length append splitAt]. exact IH.
Qed.

(** An occurrence at the start: an empty piece, then the pieces of what
    follows the occurrence. *)
Lemma splitAt_here (a : ascii) (sep r : string) :
  splitAt (String a sep) 0 (String a sep ++ r) = "" :: splitAt (String a sep) 0 r.
Proof.
  cbn [append]. cbn [splitAt].
  change (String a (sep ++ r)) with (String a sep ++ r).
  rewrite startsWith_append. cbn [String.length Nat.sub].
  rewrite Nat.sub_0_r. now rewrite splitAt_over.
Qed.

Lemma splitAt_later (c : ascii) (sep s : string) (piece : string) (pieces : list string) :
  startsWith (String c s) sep = false ->
  splitAt sep 0 s = piece :: pieces ->
  splitAt sep 0 (String c s) = String c piece :: pieces.
Proof. intros Hno Hs. cbn [splitAt]. now rewrite Hno, Hs. Qed.

(** A needle without the character [c] cannot reach across a [c]. *)
Lemma startsWith_shorter (c : ascii) (s t needle : string) :
  every (fun x => negb (Ascii.eqb x c)) needle = true ->
  needle <> "" ->
  startsWith (s ++ String c t) needle = true -> startsWith s needle = true.
Proof.
  revert s. induction needle as [|x needle IH]; intros s Hc Hne H; [now elim Hne|].
  cbn [every] in Hc. apply andb_true_iff in Hc as [Hx Hc].
  destruct s as [|y s]; cbn [append startsWith] in H |- *.
  - apply andb_true_iff in H as [H _]. apply Ascii.eqb_eq in H. subst x.
    now rewrite Ascii.eqb_refl in Hx.
  - apply andb_true_iff in H as [H1 H2]. rewrite H1. cbn [andb].
    destruct needle as [|z needle]; [now destruct s|].
    apply IH; [exact Hc | discriminate | exact H2].
Qed.

(** Such a needle occurs in [s], a [c] and [t] only if it occurs in [s]
    or in [t]. *)
Lemma includes_across (c : ascii) (s t needle : string) :
  every (fun x => negb (Ascii.eqb x c)) needle = true ->
  needle <> "" ->
  includes s needle = false ->
  includes t needle = false ->
  includes (s ++ String c t) needle = false.
Proof.
  intros Hc Hne Hs Ht. induction s as [|y s IH].
  - cbn [append]. rewrite includes_later; [exact Ht|].
    destruct (startsWith (String c t) needle) eqn:E; [|reflexivity].
    apply (startsWith_shorter c "" t needle Hc Hne) in E.
    destruct needle; [now elim Hne | discriminate E].
  - apply not_included in Hs as [Hhere Hlater].
    cbn [append]. rewrite includes_later; [now apply IH|].
    destruct (startsWith (String y (s ++ String c t)) needle) eqn:E; [|reflexivity].
    apply (startsWith_shorter c (String y s) t needle Hc Hne) in E. congruence.
Qed.

(** Where a greedy run over a class ends first: at the end of the
    longest run. *)
Lemma loop_cls_head (p : ascii -> bool) :
  forall (a : string) (st : State) (r : string) (n : nat),
    a <> "" ->
    every p a = true ->
    rest st = a ++ r ->
    (forall c t, r = String c t -> p c = false) ->
    (String.length a <= S n)%nat ->
    exists others, loop (run (Cls p)) n st = advance st r :: others.
Proof.
  induction a as [|c a IH]; intros st r n Hne Hall Hrest Hnext Hlen; [now elim Hne|].
  cbn [every] in Hall. apply andb_true_iff in Hall as [Hc Hall].
  cbn [append] in Hrest.
  assert (Hstep : run (Cls p) st = [advance st (a ++ r)]).
  { cbn [run]. now rewrite Hrest, Hc. }
  destruct n as [|n]; cbn [loop]; rewrite Hstep; cbn [flat_map]; rewrite app_nil_r.
  - destruct a as [|c' a]; [|cbn [String.length] in Hlen; lia].
    now exists [].
  - destruct a as [|c' a].
    + cbn [append].
      assert (Hstop : loop (run (Cls p)) n (advance st r) = []).
      { destruct n; cbn [loop run advance rest];
          (destruct r as [|c' t]; [reflexivity|]);
          now rewrite (Hnext c' t eq_refl). }
      rewrite Hstop. now exists [].
    + destruct (IH (advance st (String c' a ++ r)) r n)
        as (others & Hothers);
        [discriminate | exact Hall | reflexivity | exact Hnext
         | cbn [String.length] in *; lia |].
      rewrite Hothers, advance_again. cbn [app]. eauto.
Qed.

Lemma run_Grp (r : rx) (st : State) :
  run (Grp r) st
  = map (fun st' => {| atStart := atStart st'; rest := rest st';
                       caps := (caps st' ++ [captured st st'])%list |})
        (run r st).
Proof. reflexivity. Qed.

Lemma drop_all (s : string) : drop (String.length s) s = "".
Proof. induction s as [|c s IH]; [reflexivity | exact IH]. Qed.

(** The two patterns of the form on a line, its line feed and what
    follows. *)
Lemma firstLine_reads (line tail : string) :
  line <> "" -> every notLF line = true ->
  exec firstLine (line ++ nl ++ tail) = Some (line, [line]).
Proof.
  intros Hne Hall. unfold exec, firstLine.
  set (st0 := {| atStart := true; rest := line ++ nl ++ tail; caps := [] |}).
  rewrite run_Cat. change (run Bol st0) with [st0]. cbn [flat_map].
  rewrite app_nil_r, run_Grp, run_Many1.
  destruct (loop_cls_head notLF line st0 (nl ++ tail) (String.length (rest st0))
              Hne Hall eq_refl ltac:(now intros c t [= <- _])
              ltac:(cbn [rest st0]; rewrite length_append; lia))
    as (others & ->).
  cbn [map advance rest caps app]. unfold captured. cbn [rest advance st0].
  now rewrite !take_append.
Qed.

Lemma firstLineAndBreak_removes (line tail : string) :
  line <> "" -> every notLF line = true ->
  removeMatch firstLineAndBreak (line ++ nl ++ tail) = tail.
Proof.
  intros Hne Hall. unfold removeMatch, exec, firstLineAndBreak.
  set (st0 := {| atStart := true; rest := line ++ nl ++ tail; caps := [] |}).
  rewrite run_Cat. change (run Bol st0) with [st0]. cbn [flat_map].
  rewrite app_nil_r, run_Cat, run_Many1.
  destruct (loop_cls_head notLF line st0 (nl ++ tail) (String.length (rest st0))
              Hne Hall eq_refl ltac:(now intros c t [= <- _])
              ltac:(cbn [rest st0]; rewrite length_append; lia))
    as (others & ->).
  cbn [flat_map run advance rest app append nl]. unfold LF.
  rewrite Ascii.eqb_refl. cbn [app advance rest].
  change (String (ascii_of_nat 10) tail) with (nl ++ tail).
  rewrite <- append_assoc, take_append.
  replace (String.length (line ++ nl)) with (String.length ((line ++ nl) ++ tail)
                                            - String.length tail)%nat
    by (rewrite (length_append (line ++ nl) tail); lia).
  generalize (line ++ nl). intros w.
  rewrite length_append. replace (String.length w + String.length tail
                                  - String.length tail)%nat
    with (String.length w) by lia.
  induction w as [|c w IH]; [reflexivity | exact IH].
Qed.

Lemma receive_text (parse : string -> outcome Json) (atOnce : bool) (v : View)
    (chunk : string) :
  buffer v = "" -> noMarker chunk ->
  receive parse atOnce v chunk
  = {| answer := answer v; sources := sources v;
       confidence := confidence v; buffer := ""; errors := errors v;
       waiting := setAnswerFromBuffer atOnce chunk (waiting v) |}.
Proof.
  intros Hb [H1 H2]. unfold receive. rewrite Hb. cbn [append]. now rewrite H1, H2.
Qed.

(** The line of the sources, and whatever arrives with it. *)
Lemma receive_sources (parse : string -> outcome Json) (atOnce : bool) (v : View)
    (sourcesJson tail : string) :
  buffer v = "" ->
  sourcesJson <> "" -> every notLF sourcesJson = true ->
  includes sourcesJson sourcesMarker = false ->
  includes tail sourcesMarker = false ->
  receive parse atOnce v (nl ++ nl ++ sourcesMarker ++ sourcesJson ++ nl ++ tail)
  = {| answer := answer v;
       sources := match parse sourcesJson with
                  | Returns parsed => parsed
                  | Throws _ => sources v
                  end;
       confidence := confidence v;
       buffer := tail;
       errors := match parse sourcesJson with
                 | Returns _ => errors v
                 | Throws _ => (errors v ++ ["Failed to parse sources"])%list
                 end;
       waiting := (waiting v ++ [Append (nl ++ nl)])%list |}.
Proof.
  intros Hb Hne Hline Hjson Htail.
  set (after := sourcesJson ++ nl ++ tail).
  assert (Hafter : includes after sourcesMarker = false).
  { apply (includes_across LF); [reflexivity | discriminate | assumption..]. }
  assert (Hinc : includes (nl ++ nl ++ sourcesMarker ++ after) sourcesMarker = true).
  { unfold nl. cbn [append]. rewrite !includes_later by reflexivity.
    apply includes_here. apply (startsWith_append sourcesMarker). }
  assert (Hsplit : splitOn sourcesMarker (nl ++ nl ++ sourcesMarker ++ after)
                   = [nl ++ nl; after]).
  { unfold splitOn, nl. cbn [append].
    apply splitAt_later; [reflexivity|]. apply splitAt_later; [reflexivity|].
    change (String "_" ?x) with (sourcesMarker ++ after).
    unfold sourcesMarker at 1 2. rewrite splitAt_here.
    f_equal. now apply splitAt_absent. }
  unfold receive. rewrite Hb.
  change ("" ++ ?x) with x.
  change (nl ++ nl ++ sourcesMarker ++ sourcesJson ++ nl ++ tail)
    with (nl ++ nl ++ sourcesMarker ++ after).
  rewrite Hinc, Hsplit. cbn [nth]. unfold after.
  rewrite firstLine_reads, firstLineAndBreak_removes by assumption.
  cbn [snd nth]. destruct (parse sourcesJson); reflexivity.
Qed.

Lemma receive_confidence (parse : string -> outcome Json) (atOnce : bool) (v : View)
    (c : Utils.Confidence) :
  buffer v = "" ->
  receive parse atOnce v (confidenceLine c)
  = {| answer := answer v; sources := sources v;
       confidence := Some (Utils.confidenceText c); buffer := "";
       errors := errors v; waiting := waiting v |}.
Proof. intros Hb. unfold receive. rewrite Hb. destruct c; reflexivity. Qed.

Lemma joined_app (a b : list string) :
  fold_right append "" (a ++ b)
  = fold_right append "" a ++ fold_right append "" b.
Proof.
  induction a as [|x a IH]; [reflexivity|].
  cbn [app fold_right]. now rewrite IH, append_assoc.
Qed.

(** A render shows what has settled. *)
Lemma render_settled (v : View) : answer (render v) = settled (buffer v) v.
Proof.
  unfold render, settled. cbn [answer].
  generalize (answer v). induction (waiting v) as [|u ws IH]; intros a.
  - cbn. now rewrite StorageFacts.append_empty.
  - cbn [fold_left map fold_right]. now rewrite IH, append_assoc.
Qed.

(** A render between two chunks changes nothing of what will have
    settled with the buffer as it is. *)
Lemma settled_rendered (r : bool) (v : View) :
  let v' := if r then render v else v in
  buffer v' = buffer v /\ sources v' = sources v /\ confidence v' = confidence v
  /\ errors v' = errors v
  /\ settled (buffer v) v' = settled (buffer v) v.
Proof.
  destruct r; cbn zeta; [|repeat split].
  repeat split. unfold settled at 1. cbn [waiting render map fold_right].
  rewrite StorageFacts.append_empty. apply render_settled.
Qed.

Lemma settled_called (late chunk : string) (atOnce : bool) (ws : list Update) :
  fold_right append "" (map (valueOf late) (setAnswerFromBuffer atOnce chunk ws))
  = fold_right append "" (map (valueOf late) ws)
    ++ (if atOnce && isEmpty ws then chunk else late).
Proof.
  destruct ws as [|u ws]; cbn [setAnswerFromBuffer isEmpty].
  - rewrite andb_true_r. destruct atOnce; cbn; now rewrite StorageFacts.append_empty.
  - rewrite andb_false_r, map_app, joined_app. cbn [map fold_right valueOf].
    now rewrite StorageFacts.append_empty.
Qed.

Lemma receiveAll_app parse eager renders (a b : list string) :
  forall i v,
    receiveAll parse eager renders i (a ++ b) v
    = receiveAll parse eager renders (i + List.length a) b
        (receiveAll parse eager renders i a v).
Proof.
  induction a as [|x a IH]; intros i v; cbn [app receiveAll List.length].
  - now rewrite Nat.add_0_r.
  - rewrite IH. f_equal. lia.
Qed.

(** The chunks of answer text, one after the other, from chunk number
    [i] on: what will have settled when React next runs the waiting
    updates with [late] in the buffer. *)
Lemma read_text (parse : string -> outcome Json) (eager renders : nat -> bool)
    (chunks : list string) :
  Forall noMarker chunks ->
  forall (i : nat) (v : View) (late : string),
    buffer v = "" ->
    let v' := receiveAll parse eager renders i chunks v in
    buffer v' = "" /\ sources v' = sources v /\ confidence v' = confidence v
    /\ errors v' = errors v
    /\ settled late v'
       = settled (if existsb renders (seq i (List.length chunks)) then "" else late) v
         ++ fold_right append ""
              (map (fun k =>
                      if eager k
                         && (if (k =? i)%nat then isEmpty (waiting v)
                             else renders (k - 1)%nat)
                      then nth (k - i) chunks ""
                      else if existsb renders
                                (seq k (i + List.length chunks - k))
                           then "" else late)
                   (seq i (List.length chunks))).
Proof.
  induction 1 as [|chunk chunks Hchunk _ IH]; intros i v late Hb.
  - cbn [receiveAll List.length seq existsb map fold_right].
    rewrite StorageFacts.append_empty. repeat split; assumption || reflexivity.
  - cbn [receiveAll]. rewrite (receive_text parse (eager i) v chunk Hb Hchunk).
    set (v1 := {| answer := answer v; sources := sources v;
                  confidence := confidence v; buffer := ""; errors := errors v;
                  waiting := setAnswerFromBuffer (eager i) chunk (waiting v) |}).
    destruct (settled_rendered (renders i) v1) as (B2 & S2 & C2 & E2 & _).
    set (v2 := if renders i then render v1 else v1) in *.
    destruct (IH (S i) v2 late B2) as (B3 & S3 & C3 & E3 & Hsettled).
    cbv zeta in B3, S3, C3, E3, Hsettled.
    split; [exact B3|]. split; [now rewrite S3, S2|].
    split; [now rewrite C3, C2|]. split; [now rewrite E3, E2|].
    rewrite Hsettled. cbn [List.length seq map fold_right existsb].
    rewrite Nat.eqb_refl, Nat.sub_diag. cbn [nth].
    replace (i + S (List.length chunks) - i)%nat with (S (List.length chunks)) by lia.
    cbn [seq existsb].
    set (later := existsb renders (seq (S i) (List.length chunks))).
    assert (Hempty : isEmpty (waiting v2) = renders i).
    { unfold v2. destruct (renders i); [reflexivity|].
      unfold v1. cbn [waiting]. now destruct (waiting v). }
    assert (Hrest :
      map (fun k =>
             if eager k
                && (if (k =? S i)%nat then isEmpty (waiting v2) else renders (k - 1)%nat)
             then nth (k - S i) chunks ""
             else if existsb renders (seq k (S i + List.length chunks - k))
                  then "" else late)
          (seq (S i) (List.length chunks))
      = map (fun k =>
               if eager k
                  && (if (k =? i)%nat then isEmpty (waiting v) else renders (k - 1)%nat)
               then nth (k - i) (chunk :: chunks) ""
               else if existsb renders (seq k (i + S (List.length chunks) - k))
                    then "" else late)
            (seq (S i) (List.length chunks))).
    { apply map_ext_in. intros k Hk. apply in_seq in Hk.
      replace (k =? i)%nat with false by (symmetry; apply Nat.eqb_neq; lia).
      replace (k - i)%nat with (S (k - S i)) by lia. cbn [nth].
      replace (i + S (List.length chunks) - k)%nat
        with (S i + List.length chunks - k)%nat by lia.
      destruct (k =? S i)%nat eqn:E; [|reflexivity].
      apply Nat.eqb_eq in E. subst k. rewrite Hempty.
      now replace (S i - 1)%nat with i by lia. }
    rewrite Hrest, <- append_assoc. apply (f_equal2 append); [|reflexivity].
    unfold v2. destruct (renders i) eqn:Hr; cbn [orb].
    + unfold settled at 1. cbn [waiting render map fold_right].
      rewrite StorageFacts.append_empty, render_settled.
      unfold settled, v1. cbn [answer waiting buffer].
      rewrite settled_called, append_assoc. reflexivity.
    + unfold settled, v1. cbn [answer waiting].
      rewrite settled_called, append_assoc. reflexivity.
Qed.

Lemma render_view (v : View) :
  render v
  = {| answer := settled (buffer v) v; sources := sources v;
       confidence := confidence v; buffer := buffer v; errors := errors v;
       waiting := [] |}.
Proof. rewrite <- render_settled. reflexivity. Qed.

Lemma settled_shown (late a : string) (s : Json) (c : option string)
    (b : string) (e : list string) :
  settled late {| answer := a; sources := s; confidence := c; buffer := b;
                  errors := e; waiting := [] |} = a.
Proof. unfold settled. cbn. apply StorageFacts.append_empty. Qed.

Lemma settled_more (late a : string) (s : Json) (c : option string)
    (b : string) (e : list string) (ws : list Update) (piece : string) :
  settled late {| answer := a; sources := s; confidence := c; buffer := b;
                  errors := e; waiting := (ws ++ [Append piece])%list |}
  = settled late {| answer := a; sources := s; confidence := c; buffer := b;
                    errors := e; waiting := ws |} ++ piece.
Proof.
  unfold settled. cbn [answer waiting].
  rewrite map_app, joined_app. cbn [map fold_right valueOf].
  now rewrite StorageFacts.append_empty, append_assoc.
Qed.

Lemma settled_fields (late : string) (v : View) (s : Json) (c : option string)
    (b : string) (e : list string) :
  settled late {| answer := answer v; sources := s; confidence := c; buffer := b;
                  errors := e; waiting := waiting v |} = settled late v.
Proof. reflexivity. Qed.

(** The two lines of the trailer, each in a chunk of its own. *)
Lemma read_trailer (parse : string -> outcome Json) (eager renders : nat -> bool)
    (i : nat) (v : View) (sourcesJson : string) (c : Utils.Confidence) :
  buffer v = "" ->
  sourcesJson <> "" -> every notLF sourcesJson = true ->
  includes sourcesJson sourcesMarker = false ->
  let v' := receiveAll parse eager renders i
              [sourcesLine sourcesJson; confidenceLine c] v in
  buffer v' = ""
  /\ sources v' = match parse sourcesJson with
                  | Returns parsed => parsed
                  | Throws _ => sources v
                  end
  /\ confidence v' = Some (Utils.confidenceText c)
  /\ errors v' = match parse sourcesJson with
                 | Returns _ => errors v
                 | Throws _ => (errors v ++ ["Failed to parse sources"])%list
                 end
  /\ settled "" v' = settled "" v ++ nl ++ nl.
Proof.
  intros Hb Hne Hline Hjson. cbn [receiveAll].
  change (sourcesLine sourcesJson)
    with (nl ++ nl ++ sourcesMarker ++ sourcesJson ++ nl ++ "").
  rewrite (receive_sources parse _ v sourcesJson "") by (assumption || reflexivity).
  destruct (renders i); rewrite ?render_view; cbn [buffer sources confidence errors];
    rewrite receive_confidence by reflexivity;
    cbn [answer buffer sources confidence errors waiting];
    (destruct (renders (S i)); rewrite ?render_view;
     cbn [answer buffer sources confidence errors waiting];
     rewrite ?settled_shown, ?settled_more, ?settled_shown, ?settled_fields;
     repeat split; reflexivity).
Qed.

(** The two lines of the trailer in one chunk. *)
Lemma read_merged (parse : string -> outcome Json) (eager renders : nat -> bool)
    (i : nat) (v : View) (sourcesJson : string) (c : Utils.Confidence) :
  buffer v = "" ->
  sourcesJson <> "" -> every notLF sourcesJson = true ->
  includes sourcesJson sourcesMarker = false ->
  let v' := receiveAll parse eager renders i
              [sourcesLine sourcesJson ++ confidenceLine c] v in
  buffer v' = confidenceLine c
  /\ sources v' = match parse sourcesJson with
                  | Returns parsed => parsed
                  | Throws _ => sources v
                  end
  /\ confidence v' = confidence v
  /\ settled (confidenceLine c) v' = settled (confidenceLine c) v ++ nl ++ nl.
Proof.
  intros Hb Hne Hline Hjson. cbn [receiveAll].
  replace (sourcesLine sourcesJson ++ confidenceLine c)
    with (nl ++ nl ++ sourcesMarker ++ sourcesJson ++ nl ++ confidenceLine c).
  2:{ unfold sourcesLine. now rewrite !append_assoc. }
  rewrite (receive_sources parse _ v sourcesJson (confidenceLine c));
    [| exact Hb | assumption | assumption | assumption | now destruct c].
  destruct (renders i); rewrite ?render_view;
    cbn [answer buffer sources confidence errors waiting];
    rewrite ?settled_shown, ?settled_more, ?settled_shown, ?settled_fields;
    repeat split; reflexivity.
Qed.

(** The places of a list, one after the other, are the list. *)
Lemma places_from (l : list string) (i : nat) :
  map (fun k => nth (k - i) l "") (seq i (List.length l)) = l.
Proof.
  revert i. induction l as [|x l IH]; intros i; [reflexivity|].
  cbn [List.length seq map]. rewrite Nat.sub_diag. cbn [nth]. f_equal.
  rewrite <- (IH (S i)) at 2. apply map_ext_in. intros k Hk. apply in_seq in Hk.
  now replace (k - i)%nat with (S (k - S i)) by lia.
Qed.

Lemma split_pieces (sep : ascii) (s : string) : split sep s <> [].
Proof.
  destruct s as [|c s]; [discriminate|]. cbn [split].
  destruct (Ascii.eqb c sep); [discriminate|].
  destruct (split sep s); discriminate.
Qed.

(** The words of a text, each followed by a space, make up the text and
    a space. *)
Lemma words_spaced (s : string) :
  fold_right append "" (map (fun w => w ++ " ") (split " "%char s)) = s ++ " ".
Proof.
  induction s as [|c s IH]; [reflexivity|]. cbn [split].
  destruct (Ascii.eqb c " ") eqn:E.
  - apply Ascii.eqb_eq in E. subst c. cbn [map fold_right append]. now rewrite IH.
  - destruct (split " "%char s) as [|w ws] eqn:Hs; [now elim (split_pieces " "%char s)|].
    cbn [map fold_right append] in IH |- *. now rewrite IH.
Qed.

(** A check of the chunks by computation. *)
Lemma noMarker_check (chunks : list string) :
  forallb (fun chunk => negb (includes chunk sourcesMarker)
                        && negb (includes chunk confidenceMarker)) chunks = true ->
  Forall noMarker chunks.
Proof.
  intros H. apply Forall_forall. intros chunk Hin.
  rewrite forallb_forall in H. specialize (H chunk Hin).
  apply andb_true_iff in H as [H1 H2].
  split; now apply negb_true_iff.
Qed.

End ReaderFacts.

Import QueryInterface.

(** X26.  What the query form shows of what the query route streamed,
    when the chunks arrive as the route enqueued them, no word of the
    answer contains a marker of the trailer, and the JSON of the sources
    is not empty, has no line feed and does not contain the marker of
    the sources.  The sources are what [JSON.parse] makes of exactly the
    JSON text sent (or, if it throws, still empty, with one error
    logged), the confidence is the label sent, and nothing is left in
    the buffer.  Of the answer the form shows, in their order, the words
    whose update React ran inside the call of [setAnswer], which it does
    only when no earlier update is waiting for a render; every other
    word is lost, because its updater [(prev) => prev + buffer] runs
    after the loop has emptied [buffer].  The two line feeds before the
    sources are always shown.  So the whole answer is shown when React
    runs every update inside the call and renders after every chunk, and
    nothing of it when React runs no update inside the call. *)
Theorem form_shows_the_words_updated_at_once :
  forall (parse : string -> outcome Json) (eager renders : nat -> bool)
         (text sourcesJson : string) (c : Utils.Confidence),
    Forall Derived.noMarker (map (fun w => w ++ " ") (split " "%char text)) ->
    sourcesJson <> "" ->
    Derived.every Rx.notLF sourcesJson = true ->
    includes sourcesJson sourcesMarker = false ->
    let chunks := map (fun w => w ++ " ") (split " "%char text) in
    let stream := streamOf text (Derived.sourcesLine sourcesJson)
                    (Derived.confidenceLine c) in
    let view := read parse eager renders (enqueued stream) in
    let atOnce := fun k => eager k && match k with
                                      | O => true
                                      | S j => renders j
                                      end in
    answer view
    = fold_right append ""
        (map (fun k => if atOnce k then nth k chunks "" else "")
             (seq 0 (List.length chunks)))
      ++ nl ++ nl
    /\ sources view = match parse sourcesJson with
                      | Returns parsed => parsed
                      | Throws _ => JArr []
                      end
    /\ confidence view = Some (Utils.confidenceText c)
    /\ buffer view = ""
    /\ errors view = match parse sourcesJson with
                     | Returns _ => []
                     | Throws _ => ["Failed to parse sources"]
                     end
    /\ waiting view = []
    /\ ((forall k, eager k = true) -> (forall k, renders k = true) ->
        answer view = text ++ " " ++ nl ++ nl)
    /\ ((forall k, eager k = false) -> answer view = nl ++ nl).
Proof.
  intros parse eager renders text sourcesJson c Hwords Hne Hline Hjson
         chunks stream view atOnce.
  assert (Hview :
    answer view
    = fold_right append ""
        (map (fun k => if atOnce k then nth k chunks "" else "")
             (seq 0 (List.length chunks)))
      ++ nl ++ nl
    /\ sources view = match parse sourcesJson with
                      | Returns parsed => parsed
                      | Throws _ => JArr []
                      end
    /\ confidence view = Some (Utils.confidenceText c)
    /\ buffer view = ""
    /\ errors view = match parse sourcesJson with
                     | Returns _ => []
                     | Throws _ => ["Failed to parse sources"]
                     end
    /\ waiting view = []).
  { subst view stream. rewrite StreamFacts.streamOf_chunks. cbn [enqueued].
    fold chunks. unfold read. rewrite ReaderFacts.receiveAll_app.
    destruct (ReaderFacts.read_text parse eager renders chunks Hwords 0%nat reset ""
                eq_refl) as (B1 & S1 & C1 & E1 & Hsettled).
    cbv zeta in B1, S1, C1, E1, Hsettled.
    set (v1 := receiveAll parse eager renders 0 chunks reset) in *.
    destruct (ReaderFacts.read_trailer parse eager renders
                (0 + List.length chunks) v1 sourcesJson c B1 Hne Hline Hjson)
      as (B2 & S2 & C2 & E2 & H2).
    cbv zeta in B2, S2, C2, E2, H2.
    set (v2 := receiveAll parse eager renders (0 + List.length chunks) _ v1) in *.
    unfold finish. rewrite B2. cbn [truthy String.eqb negb andb].
    rewrite ReaderFacts.render_view, B2.
    cbn [answer sources confidence buffer errors waiting].
    rewrite H2, S2, C2, E2, S1, E1, Hsettled. cbn [sources errors reset].
    split.
    - replace (Derived.settled (if existsb renders (seq 0 (List.length chunks))
                                then "" else "") reset) with ""
        by now destruct (existsb renders _).
      cbn [append]. do 2 f_equal. apply map_ext_in. intros k Hk.
      unfold atOnce. rewrite Nat.sub_0_r, Nat.add_0_l.
      destruct k as [|j]; cbn [Nat.eqb Derived.isEmpty waiting reset].
      + destruct (eager 0%nat); cbn [andb]; [reflexivity|].
        match goal with |- (if ?b then _ else _) = _ => now destruct b end.
      + replace (S j - 1)%nat with j by lia.
        destruct (eager (S j) && renders j); [reflexivity|].
        match goal with |- (if ?b then _ else _) = _ => now destruct b end.
    - split; [now destruct (parse sourcesJson)|].
      split; [reflexivity|]. split; [reflexivity|].
      split; [now destruct (parse sourcesJson) | reflexivity]. }
  destruct Hview as (Ha & Hs & Hc & Hb & He & Hw).
  do 6 (split; [assumption|]). split.
  - intros Heager Hrenders. rewrite Ha.
    replace (text ++ " " ++ nl ++ nl) with ((text ++ " ") ++ nl ++ nl)
      by now rewrite StringFacts.append_assoc.
    rewrite <- (ReaderFacts.words_spaced text). fold chunks.
    do 2 f_equal.
    transitivity (map (fun k => nth (k - 0) chunks "") (seq 0 (List.length chunks)));
      [|apply ReaderFacts.places_from].
    apply map_ext_in. intros k Hk. unfold atOnce.
    rewrite Heager, Nat.sub_0_r. destruct k; [reflexivity|].
    now rewrite Hrenders.
  - intros Hlazy.
    assert (Hnone : forall ks,
               fold_right append ""
                 (map (fun k => if atOnce k then nth k chunks "" else "") ks) = "").
    { induction ks as [|k ks IH]; [reflexivity|].
      cbn [map fold_right]. unfold atOnce at 1. rewrite Hlazy.
      cbn [andb append]. exact IH. }
    now rewrite Ha, Hnone.
Qed.

(** X26 where React runs every second update inside the call: the form
    shows every second word. *)
Lemma form_shows_the_words_updated_at_once_witness :
  let parse := fun s : string => if String.eqb s "[]" then Returns (JArr [])
                                 else @Throws Json "Unexpected token" in
  let stream := streamOf "Revenue grew by a third." (Derived.sourcesLine "[]")
                  (Derived.confidenceLine Utils.Low) in
  let view := read parse Nat.even (fun _ => true) (enqueued stream) in
  answer view = "Revenue by third. " ++ nl ++ nl
  /\ confidence view = Some "Low"
  /\ errors view = [].
Proof.
  intros parse stream view.
  destruct (form_shows_the_words_updated_at_once parse Nat.even (fun _ => true)
              "Revenue grew by a third." "[]" Utils.Low
              ltac:(apply ReaderFacts.noMarker_check; vm_compute; reflexivity)
              ltac:(discriminate) eq_refl eq_refl)
    as (Ha & _ & Hc & _ & He & _).
  split; [exact Ha|]. split; [exact Hc | exact He].
Defined.

(** X27.  The form depends on how the stream is cut into chunks.  If the
    two trailer lines arrive in one chunk (the transport may merge what
    the route enqueued one after the other), the form reads the sources
    as before but never the confidence: the line of the confidence
    stays in the buffer and the confidence remains unset.  Of the answer
    the form shows the words whose update React ran inside the call; a
    word whose update waited is lost if React rendered before the last
    chunk came, and is replaced by the line of the confidence if its
    update was still waiting then, since that line is what [buffer]
    holds when the loop has ended. *)
Theorem form_misses_a_merged_confidence_line :
  forall (parse : string -> outcome Json) (eager renders : nat -> bool)
         (text sourcesJson : string) (c : Utils.Confidence),
    Forall Derived.noMarker (map (fun w => w ++ " ") (split " "%char text)) ->
    sourcesJson <> "" ->
    Derived.every Rx.notLF sourcesJson = true ->
    includes sourcesJson sourcesMarker = false ->
    let chunks := map (fun w => (w ++ " ")%string) (split " "%char text) in
    let view := read parse eager renders
                  (chunks ++ [(Derived.sourcesLine sourcesJson
                                 ++ Derived.confidenceLine c)%string])%list in
    let atOnce := fun k => eager k && match k with
                                      | O => true
                                      | S j => renders j
                                      end in
    confidence view = None
    /\ buffer view = Derived.confidenceLine c
    /\ answer view
       = fold_right append ""
           (map (fun k =>
                   if atOnce k then nth k chunks ""
                   else if existsb renders (seq k (List.length chunks - k)) then ""
                        else Derived.confidenceLine c)
                (seq 0 (List.length chunks)))
         ++ nl ++ nl
    /\ sources view = match parse sourcesJson with
                      | Returns parsed => parsed
                      | Throws _ => JArr []
                      end
    /\ waiting view = [].
Proof.
  intros parse eager renders text sourcesJson c Hwords Hne Hline Hjson
         chunks view atOnce.
  subst view. unfold read. rewrite ReaderFacts.receiveAll_app.
  destruct (ReaderFacts.read_text parse eager renders chunks Hwords 0%nat reset
              (Derived.confidenceLine c) eq_refl) as (B1 & S1 & C1 & E1 & Hsettled).
  cbv zeta in B1, S1, C1, E1, Hsettled.
  set (v1 := receiveAll parse eager renders 0 chunks reset) in *.
  destruct (ReaderFacts.read_merged parse eager renders
              (0 + List.length chunks) v1 sourcesJson c B1 Hne Hline Hjson)
    as (B2 & S2 & C2 & H2).
  cbv zeta in B2, S2, C2, H2.
  set (v2 := receiveAll parse eager renders (0 + List.length chunks) _ v1) in *.
  unfold finish. rewrite B2.
  replace (truthy (Derived.confidenceLine c)
           && negb (includes (Derived.confidenceLine c) "__")) with false
    by now destruct c.
  rewrite ReaderFacts.render_view, B2.
  cbn [answer sources confidence buffer errors waiting].
  rewrite C2, C1, S2, S1, H2, Hsettled. cbn [confidence sources reset].
  split; [reflexivity|]. split; [reflexivity|].
  split; [|split; [now destruct (parse sourcesJson) | reflexivity]].
  replace (Derived.settled
             (if existsb renders (seq 0 (List.length chunks)) then ""
              else Derived.confidenceLine c) reset) with ""
    by now destruct (existsb renders _).
  cbn [append]. do 2 f_equal. apply map_ext_in. intros k Hk.
  unfold atOnce. rewrite Nat.sub_0_r, Nat.add_0_l.
  destruct k as [|j]; cbn [Nat.eqb Derived.isEmpty waiting reset]; [reflexivity|].
  now replace (S j - 1)%nat with j by lia.
Qed.

(** X27 where React runs the first update inside the call and does not
    render while the chunks come in: the second word is replaced by the
    line of the confidence. *)
Lemma form_misses_a_merged_confidence_line_witness :
  let parse := fun s : string => if String.eqb s "[]" then Returns (JArr [])
                                 else @Throws Json "Unexpected token" in
  let view := read parse (fun _ => true) (fun _ => false)
                ["All "%string; "good. "%string;
                 (Derived.sourcesLine "[]" ++ Derived.confidenceLine Utils.High)%string] in
  confidence view = None
  /\ buffer view = Derived.confidenceLine Utils.High
  /\ answer view = "All " ++ Derived.confidenceLine Utils.High ++ nl ++ nl.
Proof.
  intros parse view.
  destruct (form_misses_a_merged_confidence_line parse (fun _ => true) (fun _ => false)
              "All good." "[]" Utils.High
              ltac:(apply ReaderFacts.noMarker_check; vm_compute; reflexivity)
              ltac:(discriminate) eq_refl eq_refl)
    as (Hc & Hb & Ha & _).
  split; [exact Hc|]. split; [exact Hb | exact Ha].
Defined.
(* ================================================================== *)
(** * Further properties: embeddings and the prompt *)
(* ================================================================== *)

Module EmbeddingFacts.
Import Eff Embeddings DerivedEmbeddings.

Lemma orZero_number (v : Value) : PrimFloat.is_nan (orZero v) = false.
Proof.
  unfold orZero. destruct (numberValue v) as [x|]; [|reflexivity].
  destruct (PrimFloat.is_nan x) eqn:Hnan; cbn [orb]; [reflexivity|].
  destruct (PrimFloat.eqb x 0); [reflexivity | exact Hnan].
Qed.

Lemma numeric_orZero (vs : list Value) : numeric (map orZero vs).
Proof.
  unfold numeric. induction vs as [|v vs IH]; [reflexivity|].
  cbn [map forallb]. now rewrite orZero_number, IH.
Qed.

Lemma collect_from (all : list (list float)) (response : Response) :
  collect all response = (all ++ collect [] response)%list.
Proof.
  unfold collect. destruct (predictions response) as [ps|];
    [|now rewrite app_nil_r].
  assert (H : forall (acc1 acc2 : list (list float)),
             fold_left
               (fun all prediction =>
                  match values prediction with
                  | Some embedding => (all ++ [map orZero embedding])%list
                  | None => all
                  end) ps (acc1 ++ acc2)%list
             = (acc1 ++ fold_left
                  (fun all prediction =>
                     match values prediction with
                     | Some embedding => (all ++ [map orZero embedding])%list
                     | None => all
                     end) ps acc2)%list).
  { induction ps as [|p ps IH]; intros acc1 acc2; [reflexivity|].
    cbn [fold_left]. destruct (values p) as [e|]; [|apply IH].
    rewrite <- app_assoc. apply IH. }
  specialize (H all []). now rewrite app_nil_r in H.
Qed.

Lemma collect_numeric (all : list (list float)) (response : Response) :
  Forall numeric all -> Forall numeric (collect all response).
Proof.
  unfold collect. destruct (predictions response) as [ps|]; [|easy].
  revert all. induction ps as [|p ps IH]; intros all Hall; [exact Hall|].
  cbn [fold_left]. apply IH. destruct (values p) as [e|]; [|exact Hall].
  apply Forall_app. split; [exact Hall|].
  constructor; [apply numeric_orZero | constructor].
Qed.

(** The memoised client: it is there afterwards, at most one call is
    added, and a failure leaves the state as it was. *)
Lemma getPredictionClient_run (pf : Platform) (st : Store) :
  (exists created,
      getPredictionClient pf st
      = (Returns tt, {| predictionClient := true;
                        calls := (calls st ++ created)%list |})
      /\ (created = [] /\ predictionClient st = true
          \/ (exists credentials,
                 created = [NewClient (locationOf pf ++ "-aiplatform.googleapis.com")
                                      credentials])
             /\ predictionClient st = false))
  \/ (exists e, getPredictionClient pf st = (Throws e, st)
                /\ predictionClient st = false).
Proof.
  unfold getPredictionClient, andThen, read. cbn beta iota.
  destruct (predictionClient st) eqn:Hc.
  - left. exists []. rewrite app_nil_r. split; [|now left].
    unfold pure. destruct st as [c l]. cbn in Hc |- *. now subst c.
  - destruct (truthy_opt (GCP_PROJECT_ID pf)); cbn [negb].
    + destruct (truthy_opt (GCP_SERVICE_ACCOUNT_KEY pf)).
      * unfold lift, pure, effect.
        destruct (JSONparse pf _) as [[]|e].
        -- left. eexists. split; [reflexivity|]. right. split; [|reflexivity].
           now exists true.
        -- right. exists e. now split.
      * unfold pure, effect. left. eexists. split; [reflexivity|].
        right. split; [|reflexivity]. now exists false.
    + right. eexists. split; [reflexivity | reflexivity].
Qed.

Lemma step_run (pf : Platform) (all : list (list float)) (batch : list string)
    (st : Store) :
  step pf all batch st
  = (match predict pf (endpointOf pf) (map documentInstance batch) with
     | Returns response => Returns (collect all response)
     | Throws e => Throws e
     end,
     log (request pf batch) st).
Proof.
  unfold step, andThen, effect, pure, request.
  now destruct (predict pf _ _).
Qed.

(** The batch loop of [generateEmbeddings] from the index [i] on, with
    enough fuel for what is left. *)
Lemma batches_run (pf : Platform) (texts : list string) :
  forall (fuel i : nat) (all : list (list float)) (st : Store),
    (List.length texts - i <= fuel)%nat ->
    exists sent : list (list string),
      calls (snd (forBatches batchSize (step pf) texts fuel i all st))
      = (calls st ++ map (request pf) sent)%list
      /\ Forall (fun batch => (1 <= List.length batch <= batchSize)%nat) sent
      /\ (exists k, List.concat sent = firstn k (skipn i texts))
      /\ (forall es,
            fst (forBatches batchSize (step pf) texts fuel i all st) = Returns es ->
            List.concat sent = skipn i texts
            /\ es = (all ++ flat_map (answered pf) sent)%list).
Proof.
  induction fuel as [|fuel IH]; intros i all st Hfuel.
  - exists []. cbn [forBatches pure snd fst map List.concat flat_map].
    rewrite !app_nil_r. split; [reflexivity|].
    split; [constructor|]. split; [now exists 0%nat|].
    intros es [= <-]. split; [|reflexivity].
    symmetry. apply skipn_all2. lia.
  - cbn [forBatches]. destruct (i <? List.length texts)%nat eqn:Hi.
    + apply Nat.ltb_lt in Hi. unfold andThen.
      set (batch := slice i (i + batchSize) texts).
      assert (Hbatch : batch = firstn batchSize (skipn i texts)).
      { unfold batch, slice. f_equal. lia. }
      assert (Hlen : (1 <= List.length batch <= batchSize)%nat).
      { rewrite Hbatch, length_firstn, length_skipn. unfold batchSize. lia. }
      assert (Hskip : skipn (i + batchSize) texts = skipn batchSize (skipn i texts)).
      { rewrite skipn_skipn. f_equal. lia. }
      rewrite step_run.
      destruct (predict pf (endpointOf pf) (map documentInstance batch))
        as [response|e] eqn:Hp.
      * destruct (IH (i + batchSize)%nat (collect all response)
                     (log (request pf batch) st)
                     ltac:(unfold batchSize; lia))
          as (sent & Hcalls & Hall & (k & Hpre) & Hdone).
        exists (batch :: sent). rewrite Hcalls.
        cbn [log calls map]. rewrite <- app_assoc.
        split; [reflexivity|].
        split; [now constructor|]. split.
        -- exists (batchSize + k)%nat. cbn [List.concat].
           rewrite Hpre, Hbatch, Hskip. apply PageFacts.firstn_more.
        -- intros es Hes. destruct (Hdone es Hes) as [Hcat ->].
           split.
           ++ cbn [List.concat]. rewrite Hcat, Hbatch, Hskip. apply firstn_skipn.
           ++ cbn [flat_map]. unfold answered at 2. rewrite Hp.
              rewrite (collect_from all response). now rewrite <- app_assoc.
      * exists [batch]. cbn [snd fst map List.concat log calls].
        split; [reflexivity|].
        split; [constructor; [exact Hlen | constructor]|].
        split; [exists batchSize; rewrite app_nil_r; exact Hbatch | discriminate].
    + apply Nat.ltb_ge in Hi. exists [].
      cbn [pure snd fst map List.concat flat_map]. rewrite !app_nil_r.
      split; [reflexivity|].
      split; [constructor|]. split; [now exists 0%nat|].
      intros es [= <-]. split; [|reflexivity].
      symmetry. now apply skipn_all2.
Qed.

(** [generateEmbeddings] on at least one text, step by step. *)
Lemma generateEmbeddings_run (pf : Platform) (texts : list string) (st : Store) :
  texts <> [] ->
  generateEmbeddings pf texts st
  = match getPredictionClient pf st with
    | (Returns _, st0) =>
        match forBatches batchSize (step pf) texts (List.length texts) 0 [] st0 with
        | (Returns es, st1) => (Returns es, st1)
        | (Throws _, st1) =>
            (Throws "Failed to generate embeddings",
             log (LogError "Failed to generate embeddings:") st1)
        end
    | (Throws e, st0) => (Throws e, st0)
    end.
Proof.
  intros Hne. unfold generateEmbeddings.
  destruct texts as [|t texts]; [contradiction|].
  cbn [List.length Nat.eqb]. unfold andThen at 1.
  destruct (getPredictionClient pf st) as [[[]|e] st0]; [|reflexivity].
  unfold catch.
  change (forBatches batchSize _ (t :: texts) (Datatypes.S (List.length texts)) 0 [] st0)
    with (forBatches batchSize (step pf) (t :: texts)
            (Datatypes.S (List.length texts)) 0 [] st0).
  destruct (forBatches batchSize (step pf) (t :: texts) _ 0 [] st0)
    as [[es|e] st1]; reflexivity.
Qed.

Lemma flat_map_numeric (pf : Platform) (sent : list (list string)) :
  Forall numeric (flat_map (answered pf) sent).
Proof.
  induction sent as [|batch sent IH]; [constructor|].
  cbn [flat_map]. apply Forall_app. split; [|exact IH].
  unfold answered. destruct (predict pf _ _); [|constructor].
  apply collect_numeric. constructor.
Qed.

End EmbeddingFacts.

Import Embeddings.

(** X28.  The embedding functions never return NaN.  Every component of
    the vector of [generateQueryEmbedding], and of each vector of
    [generateEmbeddings], is a number: a missing [numberValue], a zero
    and NaN all become 0.  So on these vectors the check of
    [validateEmbedding] for numbers cannot fail, and the validation is
    the comparison of the length with 768 and nothing more. *)
Theorem returned_embeddings_hold_no_NaN :
  forall (pf : Platform) (st : Store) (e : list float),
    (exists (query : string) (st' : Store),
        generateQueryEmbedding pf query st = (Returns e, st'))
    \/ (exists (texts : list string) (es : list (list float)) (st' : Store),
           generateEmbeddings pf texts st = (Returns es, st') /\ In e es) ->
    Forall (fun x => PrimFloat.is_nan x = false) e
    /\ validateEmbedding e = (Z.of_nat (List.length e) =? 768)%Z.
Proof.
  intros pf st e Hfrom.
  assert (He : DerivedEmbeddings.numeric e).
  { destruct Hfrom as [(query & st' & Hrun) | (texts & es & st' & Hrun & Hin)].
    - unfold generateQueryEmbedding, Eff.andThen in Hrun.
      destruct (getPredictionClient pf st) as [[[]|e0] st0]; [|discriminate].
      unfold Eff.catch, Eff.andThen, Eff.effect in Hrun.
      destruct (predict pf _ _) as [response|e0].
      + destruct (predictions response) as [[|p ps]|]; cbn in Hrun;
          try discriminate.
        destruct (values p) as [vs|]; cbn in Hrun; [|discriminate].
        injection Hrun as <- _. apply EmbeddingFacts.numeric_orZero.
      + cbn in Hrun. discriminate.
    - assert (Hall : Forall DerivedEmbeddings.numeric es).
      { destruct texts as [|t texts].
        - injection Hrun as <- _. constructor.
        - rewrite EmbeddingFacts.generateEmbeddings_run in Hrun by discriminate.
          destruct (getPredictionClient pf st) as [[[]|e0] st0]; [|discriminate].
          pose proof (EmbeddingFacts.batches_run pf (t :: texts)
                        (List.length (t :: texts)) 0 [] st0 ltac:(lia))
            as (sent & _ & _ & _ & Hdone).
          destruct (Eff.forBatches batchSize (DerivedEmbeddings.step pf) (t :: texts)
                      (List.length (t :: texts)) 0 [] st0) as [[es0|e0] st1];
            [|discriminate].
          injection Hrun as <- _.
          destruct (Hdone es0 eq_refl) as [_ ->]. cbn [app].
          apply EmbeddingFacts.flat_map_numeric. }
      rewrite Forall_forall in Hall. now apply Hall. }
  split.
  - unfold DerivedEmbeddings.numeric in He. rewrite forallb_forall in He.
    apply Forall_forall. intros x Hx. specialize (He x Hx).
    now apply negb_true_iff in He.
  - unfold validateEmbedding. unfold DerivedEmbeddings.numeric in He.
    rewrite He. apply andb_true_r.
Qed.

Lemma returned_embeddings_hold_no_NaN_witness :
  Forall (fun x => PrimFloat.is_nan x = false) [0.5; 0; 0]%float
  /\ validateEmbedding [0.5; 0; 0]%float = (Z.of_nat 3 =? 768)%Z.
Proof.
  apply (returned_embeddings_hold_no_NaN FixtureEmbeddings.platform
           FixtureEmbeddings.fresh).
  left. exists "When is the report due?".
  eexists. vm_compute. reflexivity.
Defined.

(** X29.  [generateEmbeddings] sends the texts in batches.  For no
    texts it returns no vectors without looking at the configuration or
    calling anything.  Otherwise, after the client (created if there was
    none), it calls [predict] for batches of 1 to 250 texts, each text
    as a [RETRIEVAL_DOCUMENT] instance; the batches are consecutive
    pieces of the input from its beginning.  If it returns, the batches
    make up the input exactly, nothing was logged, and the result is,
    batch after batch, one vector for every prediction that carries
    values: predictions without values are passed over, so the number of
    vectors is that of such predictions, not that of the texts.  If it
    throws another message than its own, no [predict] call was made. *)
Theorem generateEmbeddings_sends_the_texts_in_batches :
  forall (pf : Platform) (texts : list string) (st : Store),
    generateEmbeddings pf [] st = (Returns [], st)
    /\ exists (created : list Call) (sent : list (list string)) (logged : list Call),
        calls (snd (generateEmbeddings pf texts st))
        = (calls st ++ created ++ map (DerivedEmbeddings.request pf) sent ++ logged)%list
        /\ (created = []
            \/ exists credentials,
                 created = [NewClient (locationOf pf ++ "-aiplatform.googleapis.com")
                                      credentials]
                 /\ predictionClient st = false)
        /\ Forall (fun batch => (1 <= List.length batch <= 250)%nat) sent
        /\ (exists k, List.concat sent = firstn k texts)
        /\ (forall es, fst (generateEmbeddings pf texts st) = Returns es ->
              List.concat sent = texts
              /\ logged = []
              /\ es = flat_map (DerivedEmbeddings.answered pf) sent)
        /\ (forall e, fst (generateEmbeddings pf texts st) = Throws e ->
              e = "Failed to generate embeddings"
                  /\ logged = [LogError "Failed to generate embeddings:"]
              \/ sent = [] /\ logged = [] /\ created = []
                 /\ snd (generateEmbeddings pf texts st) = st).
Proof.
  intros pf texts st. split; [reflexivity|].
  destruct texts as [|t texts].
  - exists [], [], []. cbn [generateEmbeddings List.length Nat.eqb Eff.pure snd fst map app].
    rewrite app_nil_r.
    split; [reflexivity|]. split; [now left|]. split; [constructor|].
    split; [now exists 0%nat|]. split; [|discriminate].
    intros es [= <-]. now split.
  - rewrite EmbeddingFacts.generateEmbeddings_run by discriminate.
    set (texts' := t :: texts).
    destruct (EmbeddingFacts.getPredictionClient_run pf st)
      as [(created & Hrun & Hcreated) | (e0 & Hrun & Hnone)]; rewrite Hrun.
    + assert (Hmade : created = []
                      \/ exists credentials,
                          created = [NewClient (locationOf pf ++ "-aiplatform.googleapis.com")
                                               credentials]
                          /\ predictionClient st = false).
      { destruct Hcreated as [[-> _]|[[c ->] Hc]]; [now left | right; now exists c]. }
      set (st0 := {| predictionClient := true;
                     calls := (calls st ++ created)%list |}).
      pose proof (EmbeddingFacts.batches_run pf texts' (List.length texts') 0 [] st0
                    ltac:(lia)) as (sent & Hcalls & Hall & Hpre & Hdone).
      destruct (Eff.forBatches batchSize (DerivedEmbeddings.step pf) texts'
                  (List.length texts') 0 [] st0) as [[es0|e1] st1];
        cbn [snd fst] in Hcalls, Hdone |- *.
      * exists created, sent, []. rewrite Hcalls.
        unfold st0. cbn [calls]. rewrite app_nil_r, <- app_assoc.
        split; [reflexivity|]. split; [exact Hmade|].
        split; [exact Hall|]. split; [exact Hpre|].
        split; [|discriminate].
        intros es [= <-]. destruct (Hdone es0 eq_refl) as [Hcat Hes].
        cbn [skipn app] in Hcat, Hes. now repeat split.
      * exists created, sent, [LogError "Failed to generate embeddings:"].
        cbn [log calls]. rewrite Hcalls. unfold st0. cbn [calls].
        rewrite <- !app_assoc.
        split; [reflexivity|]. split; [exact Hmade|].
        split; [exact Hall|]. split; [exact Hpre|].
        split; [discriminate|].
        intros e [= <-]. left. now split.
    + exists [], [], []. cbn [snd fst map app]. rewrite app_nil_r.
      split; [reflexivity|]. split; [now left|]. split; [constructor|].
      split; [now exists 0%nat|]. split; [discriminate|].
      intros e _. right. now repeat split.
Qed.

Module PromptFacts.
Import Eff Completion DerivedPrompt.

Lemma mapIndexed_length {A B} (f : A -> nat -> B) (xs : list A) :
  forall k, List.length (mapIndexed f k xs) = List.length xs.
Proof. induction xs as [|x xs IH]; intros k; cbn; [reflexivity | now rewrite IH]. Qed.

Lemma mapIndexed_nth {A B} (f : A -> nat -> B) (xs : list A) :
  forall (k i : nat) (x : A),
    nth_error xs i = Some x ->
    nth_error (mapIndexed f k xs) i = Some (f x (k + i)%nat).
Proof.
  induction xs as [|y xs IH]; intros k i x Hx; [now destruct i|].
  destruct i as [|i]; cbn in Hx |- *.
  - injection Hx as ->. now rewrite Nat.add_0_r.
  - rewrite (IH (Datatypes.S k) i x Hx). do 2 f_equal. lia.
Qed.

(** [generateCompletion], step by step. *)
Lemma generateCompletion_run (pf : Platform) (messages : list LLMMessage)
    (options : GenerateOptions) (st : Store) :
  generateCompletion pf messages options st
  = match getPredictionClient pf st with
    | (Returns _, st0) =>
        match reply pf messages options with
        | Returns response =>
            match predictions response with
            | Some (prediction :: _) =>
                (Returns (textOf prediction, tokenCountOf (textOf prediction)),
                 log (question pf messages options) st0)
            | _ => failed (log (question pf messages options) st0)
            end
        | Throws _ => failed (log (question pf messages options) st0)
        end
    | (Throws e, st0) => (Throws e, st0)
    end.
Proof.
  unfold generateCompletion, andThen at 1.
  destruct (getPredictionClient pf st) as [[[]|e] st0]; [|reflexivity].
  unfold catch, andThen, effect, pure, raise, reply, question, failed.
  destruct (predict pf _ _ _ _ _) as [response|e]; [|reflexivity].
  destruct (predictions response) as [[|p ps]|]; reflexivity.
Qed.

Lemma completion_client_run (pf : Platform) (st : Store) :
  (exists created,
      getPredictionClient pf st
      = (Returns tt, {| predictionClient := true;
                        calls := (calls st ++ created)%list |})
      /\ (created = [] \/ exists apiEndpoint credentials,
                            created = [NewClient apiEndpoint credentials]))
  \/ (exists e, getPredictionClient pf st = (Throws e, st)).
Proof.
  unfold getPredictionClient, andThen, read. cbn beta iota.
  destruct (predictionClient st) eqn:Hc.
  - left. exists []. rewrite app_nil_r. split; [|now left].
    unfold pure. destruct st as [c l]. cbn in Hc |- *. now subst c.
  - destruct (truthy_opt (GCP_PROJECT_ID pf)); cbn [negb].
    + destruct (truthy_opt (GCP_SERVICE_ACCOUNT_KEY pf)).
      * unfold lift, pure, effect.
        destruct (JSONparse pf _) as [[]|e].
        -- left. eexists. split; [reflexivity|]. right. now eexists _, _.
        -- right. now exists e.
      * unfold pure, effect. left. eexists. split; [reflexivity|].
        right. now eexists _, _.
    + right. now eexists.
Qed.

Lemma generateCompletion_calls (pf : Platform) (messages : list LLMMessage)
    (options : GenerateOptions) (st : Store) :
  exists new,
    calls (snd (generateCompletion pf messages options st)) = (calls st ++ new)%list
    /\ Forall (asked pf (contentsOf messages)
                 (match maxTokens options with Some n => n | None => 2048%Z end)
                 (match temperature options with Some t => t | None => 0.3%float end)
                 (match topP options with Some p => p | None => 0.95%float end)) new
    /\ (List.length (filter isPredict new) <= 1)%nat
    /\ (forall r, fst (generateCompletion pf messages options st) = Returns r ->
          List.length (filter isPredict new) = 1%nat).
Proof.
  rewrite generateCompletion_run.
  set (P := asked pf _ _ _ _).
  assert (Hask : P (question pf messages options)).
  { unfold P, asked, question. now repeat split. }
  destruct (completion_client_run pf st)
    as [(created & Hrun & Hcreated) | (e0 & Hrun)]; rewrite Hrun.
  - assert (Hquiet : Forall P created /\ filter isPredict created = []).
    { destruct Hcreated as [->|(a & c & ->)]; [now split|].
      split; [|reflexivity]. constructor; [exact I | constructor]. }
    destruct Hquiet as [HP Hnone].
    assert (Hfail : forall st0,
               calls st0 = (calls st ++ created)%list ->
               exists new,
                 calls (snd (failed (log (question pf messages options) st0)))
                 = (calls st ++ new)%list
                 /\ Forall P new
                 /\ (List.length (filter isPredict new) <= 1)%nat
                 /\ (forall r,
                       fst (failed (log (question pf messages options) st0)) = Returns r ->
                       List.length (filter isPredict new) = 1%nat)).
    { intros st0 H0.
      exists (created ++ [question pf messages options;
                          LogError "LLM generation failed:"])%list.
      unfold failed. cbn [snd fst log calls]. rewrite H0, <- !app_assoc.
      split; [reflexivity|]. split.
      { apply Forall_app. split; [exact HP|].
        constructor; [exact Hask|]. constructor; [exact I | constructor]. }
      rewrite filter_app, Hnone. cbn. split; [lia | discriminate]. }
    destruct (reply pf messages options) as [response|e]; [|now apply Hfail].
    destruct (predictions response) as [[|p ps]|]; try now apply Hfail.
    exists (created ++ [question pf messages options])%list.
    cbn [snd fst log calls]. rewrite <- app_assoc.
    split; [reflexivity|]. split.
    { apply Forall_app. split; [exact HP|]. constructor; [exact Hask | constructor]. }
    rewrite filter_app, Hnone. cbn. split; [lia | reflexivity].
  - exists []. cbn [snd fst]. rewrite app_nil_r.
    split; [reflexivity|]. split; [constructor|].
    cbn. split; [lia | discriminate].
Qed.

End PromptFacts.

Import Completion.

(** X30.  The citation numbers of the prompt are the positions in the
    list of sources.  For the contexts the query route makes of its
    search results, [generateRAGResponse] asks the model at most once,
    exactly once if it returns: at the Gemini endpoint, with the
    temperature 0.2 whatever the options say (the token limit and top-p
    are those of the options, else 2048 and 0.95), and with the two
    messages of the system prompt and of the user prompt.  In the user
    prompt the block of the [i]-th hit, counted from 0, is labelled
    [Source i+1], names the page unless it is missing or 0, and carries
    the whole content of the hit; the [i]-th source the route records
    and streams is the one of the same hit.  So [Source N] in an answer
    points at the N-th source shown. *)
Theorem citations_number_the_sources :
  forall (pf : Platform) (query : string) (found : list SearchResult)
         (options : GenerateOptions) (names : list (string * string)) (st : Store),
    let contexts := contextsOf found in
    let blocks := mapIndexed sourceBlock 0 contexts in
    (exists new,
        calls (snd (generateRAGResponse pf query contexts options st))
        = (calls st ++ new)%list
        /\ Forall
             (DerivedPrompt.asked pf
                [{| c_role := "system"; parts := [systemPrompt] |};
                 {| c_role := "user";
                    parts := [userPromptOf (join (nl ++ nl) blocks) query] |}]
                (match maxTokens options with Some n => n | None => 2048%Z end)
                0.2%float
                (match topP options with Some p => p | None => 0.95%float end))
             new
        /\ (List.length (filter DerivedPrompt.isPredict new) <= 1)%nat
        /\ (forall r, fst (generateRAGResponse pf query contexts options st) = Returns r ->
              List.length (filter DerivedPrompt.isPredict new) = 1%nat))
    /\ List.length blocks = List.length found
    /\ List.length (sourcesOf names found) = List.length found
    /\ forall (i : nat) (hit : SearchResult),
        nth_error found i = Some hit ->
        nth_error blocks i
        = Some ("[Source " ++ UploadRoute.decimal (Z.of_nat i + 1) ++ "]"
                ++ pageInfoOf (p_page (payload hit)) ++ ":" ++ nl
                ++ p_content (payload hit))
        /\ exists src,
            nth_error (sourcesOf names found) i = Some src
            /\ docId src = p_doc_id (payload hit)
            /\ chunkId src = p_chunk_id (payload hit)
            /\ page src = p_page (payload hit)
            /\ text src = take 300 (p_content (payload hit)).
Proof.
  intros pf query found options names st contexts blocks.
  split; [|split; [|split]].
  - unfold generateRAGResponse.
    destruct (PromptFacts.generateCompletion_calls pf
                [{| role := "system"; content := systemPrompt |};
                 {| role := "user";
                    content := userPromptOf (contextTextOf contexts) query |}]
                {| maxTokens := maxTokens options;
                   temperature := Some 0.2%float;
                   topP := topP options;
                   stopSequences := stopSequences options |} st)
      as (new & Hcalls & Hall & Hone & Hret).
    exists new. unfold Eff.andThen.
    destruct (generateCompletion pf _ _ st) as [[r|e] st1] eqn:Hrun;
      cbn [snd fst Eff.pure] in *.
    + split; [exact Hcalls|]. split; [exact Hall|]. split; [exact Hone|].
      intros r' _. now apply (Hret r).
    + split; [exact Hcalls|]. split; [exact Hall|]. split; [exact Hone|].
      discriminate.
  - unfold blocks, contexts, contextsOf.
    now rewrite PromptFacts.mapIndexed_length, length_map.
  - unfold sourcesOf. apply length_map.
  - intros i hit Hhit. split.
    + unfold blocks, contexts, contextsOf.
      rewrite (PromptFacts.mapIndexed_nth sourceBlock _ 0 i
                 {| ctx_content := p_content (payload hit);
                    ctx_page := p_page (payload hit);
                    ctx_docId := p_doc_id (payload hit);
                    ctx_score := sr_score hit |}).
      * unfold sourceBlock. cbn [ctx_page ctx_content Nat.add].
        replace (Z.of_nat (i + 1)) with (Z.of_nat i + 1)%Z by lia. reflexivity.
      * now rewrite nth_error_map, Hhit.
    + eexists. split.
      * unfold sourcesOf. rewrite nth_error_map, Hhit. reflexivity.
      * now repeat split.
Qed.
